(* ===== verification/_CoqProject ===== *)
-Q . S2P
Prelude.v
OrdMap.v
Tiling.v
Bson.v
Text.v
Float.v
ChunkVersion.v
ChunkType.v
ShardKey.v
Chunk.v
ChunkManager.v
ChunkRefresh.v
AutoSplit.v
ConfigChunks.v
ConfigCatalog.v
ConfigRefresh.v
CatalogCache.v
RouterSystem.v
Balancer.v
BalancerRound.v
BalancerSelection.v
WriteOps.v
BatchSafe.v
BatchTarget.v
BatchExec.v
BatchRounds.v
Targeter.v
WritePath.v
RangeMap.v
CollectionMetadata.v
MetadataManager.v
RangeDeletion.v
RangeSafety.v
RangeTask.v
RangeGaps.v
MigrationSource.v
MigrationSession.v
MigrationRegistry.v
VersionProtocol.v
ShardSystem.v
VersionGaps.v
MigrationTotal.v
MigrationSafety.v
