(* ===== verification/Prelude.v ===== *)
(** * Routing, splitting and the chunk catalog of the sharded server

    The program is MongoDB r3.6.18 with hotness-aware split points
    (src/mongo-r3.6.18/src/mongo).  A sharded collection is cut into chunks,
    ranges of the shard key; the config server stores the chunks, the routers
    (mongos) cache them to route reads and writes, and a router that has written
    enough to a chunk asks its shard to split it at points tuned to the keys
    written.  The balancer on the config server proposes splits and migrations
    that keep the shards even and the zones obeyed; shards move chunks in
    migrations and check the version of every request.  The development models
    these parts, proves each correct, and composes them: the catalog under
    commits, the router that follows it with its cache, and a shard that gives
    and takes chunks.

    ** Files

    - Prelude: outcomes ([Ret], [Throw] for exceptions and error statuses,
      [Abort] for a failed invariant, [Undef] for undefined behaviour), a state
      monad, machine integers, ordered key types and the tactic [korder].
    - OrdMap, Tiling: ordered maps as sorted lists (std::map, BSONObjIndexedMap)
      and maps whose entries tile an interval.
    - Bson, Text, Float: BSON values and their comparison (bson/bsonelement.cpp,
      bson/bsonobj.cpp, base/compare_numbers.h), their text form, the text
      operations of std::string and istream, and binary64 arithmetic.
    - ChunkVersion, ChunkType, ShardKey, Chunk: s/chunk_version.h,
      s/catalog/type_chunk.cpp, s/shard_key_pattern.cpp with db/keypattern.cpp,
      and s/chunk.cpp.
    - ChunkManager, ChunkRefresh: s/chunk_manager.cpp, the routing table, and
      the proof that incremental refreshes implement the catalog.
    - AutoSplit: s/commands/cluster_write.cpp and s/shard_util.cpp, the
      automatic split with its tuning (the DYNAMIC variant, the one compiled
      in), tickets (util/concurrency/ticketholder.cpp) and error handling.
    - ConfigChunks, ConfigCatalog:
      s/catalog/sharding_catalog_manager_chunk_operations.cpp, the commits of
      splits, merges and migrations to config.chunks through
      db/repl/apply_ops.cpp, with retries (s/client/shard.cpp), and the proof
      that they keep the chunks a partition of the key space.
    - ConfigRefresh: s/config_server_catalog_cache_loader.cpp and the refresh of
      s/catalog_cache.cpp, the read of the changed chunks and its application.
    - CatalogCache: s/catalog_cache.cpp, the router's cache as a shared state
      with atomic operations, requests in flight and threads that wait.
    - RouterSystem: the config server, the loader and the cache run together.
    - WriteOps, BatchSafe, BatchTarget: s/write_ops/write_op.cpp and
      s/write_ops/batch_write_op.cpp, a write with the shards it is sent to and a
      batch of writes; what the answers of shards do to it, and the class of laws
      that a targeter obeys with the proof that targeting a batch is safe.
    - BatchExec, BatchRounds: s/write_ops/batch_write_exec.cpp, the rounds of a
      batch of writes and what each of them preserves.
    - Targeter: s/commands/chunk_manager_targeter.cpp, the targeter of the routing
      table, as an instance of the class.
    - WritePath: what executing a batch promises, for every targeter that obeys
      the laws, and the two put together in examples.
    - RangeMap, CollectionMetadata: db/range_arithmetic.cpp and
      db/s/collection_metadata.cpp, the chunks that a shard owns.
    - MetadataManager, RangeDeletion, RangeSafety, RangeTask:
      db/s/metadata_manager.cpp and db/s/collection_range_deleter.cpp, with
      _notePending and _forgetPending of db/s/migration_destination_manager.cpp, the
      metadata of a collection over time and the deletion of orphaned ranges; the
      invariant of the manager, its preservation by the operations, and the shard
      as a state machine with the deletion tasks.
    - RangeGaps: what happens to a reception whose metadata is cleared and loaded
      again.
    - MigrationSource, MigrationSession, MigrationRegistry:
      db/s/migration_source_manager.cpp with db/s/move_chunk_command.cpp, the donor
      of a migration; db/s/collection_sharding_state.cpp and db/s/sharding_state.cpp,
      the version check and the refresh of a shard; the triples that follow a
      session through its states; db/s/active_migrations_registry.cpp.
    - VersionProtocol, ShardSystem, VersionGaps, MigrationTotal, MigrationSafety:
      what the commits do to the chunks and the version of one shard, the shard with
      its migrations, refreshes and the commits of the others as a state machine,
      lemmas on the cases in which versions do not protect a chunk that left, the
      proof that a migration ends, and what the whole guarantees.
    - Balancer, BalancerRound: db/s/balancer/balancer_policy.cpp, zones and a
      balancing round, and the proof that a round is safe.
    - BalancerSelection: db/s/balancer/balancer_chunk_selection_policy_impl.cpp,
      the chunks to split and to move over all collections.

    ** What the theorems show

    - Comparison: documents are totally preordered for every key pattern and
      numbers compare exactly across types, so the maps keyed by shard keys are
      well defined.
    - Versions and formats: the packed version order is lexicographic,
      increments never wrap, every stored form of versions, ranges and chunks
      parses back.
    - Routing: every table the router can build is consistent, a key is routed
      to the one chunk that contains it, range and query targeting miss no
      shard, refreshes implement the catalog and move versions forward.
    - The catalog: a commit either reports an error and changes nothing or
      replaces exactly the chunks it names, under command failures and retries;
      after any commits every key is in one chunk and versions ascend.  The commits
      are free; the theorems name in [request_ok] what the code does not check: that
      the ids of split bounds identify them, that the bounds of merges and
      migrations are spelled as stored, that the control chunk is not the migrated
      one and that the major version has room.  [split_id_clash_loses_keys] shows
      what a split does when ids clash.
    - Following the catalog: a refresh after such commits gives exactly the
      current chunks, if they parse and their shards are known ([routable]); the
      cache is safe under every interleaving of its operations ([op_ok]: calls are
      answered, and no collection is purged during its refresh), wakes whoever waits
      after at most three answers of the loader, and serves only states the catalog
      had.
    - Writes: a batch ends within a bounded number of rounds, an ordered batch
      stops at its first error and no shard acknowledges a later write, an
      acknowledged write is never sent again, the client learns exactly the errors;
      inserts go to the owner of their key and writes of one document to one shard
      or an exact _id; an insert of a key at the end of the key space throws the
      results of its batch away.
    - Shards: the metadata of a shard holds exactly its chunks.  The state machine
      of the shard takes every call; the theorems name the calls they are for:
      [tame] (valid ranges, receptions that do not overlap, well-formed metadata,
      fewer users than the counter can hold) and [careful_steps] (a refresh gains
      only keys of ranges that are registered as received and free of orphans).
      Within [tame] no invariant fails but the one of [_forgetPending], exactly when
      the range is not registered any more, and a queued range keeps its task unless
      the executor is shut down; within [careful_steps] the deletion of orphaned
      ranges removes no document that is owned or may still be read.  A reload of
      the metadata during a reception breaks both: it stops the process or deletes
      owned documents (RangeGaps).  One more case reports the wrong range.
    - Migrations and versions: a migration is left on every path that the process
      survives, and runs alone on its shard; under the conditions of [env_ok] on
      the calls and on the other threads the process does survive it, unless a
      commit that succeeded stays unseen after two refreshes; in every interleaving of migrations,
      commits and refreshes a request that passes the version check is for keys
      that the shard owns at that time.  The steps of the machine are free, and
      [orderly] names what the theorem assumes and the code does not ensure itself;
      [missing_control_chunk_unsound] and [late_refresh_unsound] show, for every
      catalog, how a write is lost without its two main conditions.  One more
      theorem shows a call that stops the server.
    - Balancing: a round ends, moves only what may move to where it may go, uses
      no shard twice, over all collections takes exactly what balancing each one
      gives ([collected]), leaves nothing undone that it could do for draining shards
      and zones, and settles only when balanced; splits are proposed for exactly
      the chunks that zone borders cut.
    - Splitting: a write sends at most one split request, tickets are balanced
      and bounded, errors stay contained; the exact effect of the tuning and
      when it keeps the keys in order; the cases in which the added code
      divides by zero or reads an uninitialised variable.

    ** Modelling choices

    Integers are Z with their wrap-around written out.  Recursion is structural
    except for the loop over split points with an 8-bit counter, which gets fuel
    256: with at most 255 points it ends within the fuel, with more it cannot
    end at all, which the model reports as [Undef], and for the loop that
    balances one zone, whose fuel is one more than the number of shards: every
    turn uses up a shard.  The search for orphaned ranges gets one more than the
    number of ranges it can skip.  The rounds of a batch of writes get fuel as well; the
    theorems say how many are enough.  Answers of other processes
    (shards, the faults of commands, balancer settings), std::printf of doubles and the
    hash of hashed shard keys are parameters.  In the machine of a shard and its
    migrations, others commit any splits and merges and the migrations of other
    donors, the shard's own request is applied at most once and not after its answer,
    and a step of a session is atomic; between any two steps everything else may
    happen.  Locks are taken as always granted.

    ** Not modelled

    Network and threads, the query planner (its index bounds are inputs of
    targeting), Decimal128 values and collations other than the simple one, the
    transfer of documents between shards (the cloner, and the recipient of a migration
    but for the registration of its range: their answers are inputs of the donor),
    splitVector, which scans an index, the
    balancer's thread, and the server outside sharding (storage, replication, query
    execution, authorisation, shell). *)

From stdpp Require Import base list strings gmap sets.
From Stdlib Require Import ZArith Lia.

(** * Outcomes of C++ calls

    A call returns a value, throws a [DBException] or returns a non-OK [Status]
    (both carry an error code; [StdOutOfRange] is the one exception of the C++
    library the code can raise, which is not a [DBException]), stops the process
    on a failed [invariant] ([Abort]), or has undefined behaviour ([Undef]: an
    uninitialised variable is read, or an iterator is moved outside its
    container). *)

Inductive ErrorCode :=
  | NoSuchKey | BadValue | TypeMismatch | FailedToParse | IncompatibleShardingMetadata
  | ConflictingOperationInProgress | ShardKeyNotFound | IllegalOperation | StaleShardVersion
  | StaleEpoch | NamespaceNotFound | InvalidOptions | InternalError | UnknownError
  | LockBusy | CannotSplit | RangeOverlapConflict | InterruptedDueToReplStateChange
  | OperationFailed | WriteConcernFailed | MultipleErrorsOccurred | ChunkRangeCleanupPending
  | StaleShardVersionMinor | CannotBackfillArray | NoProgressMade | UnsupportedFormat | QueryFeatureNotAllowed | NetworkTimeout | ShardNotFound
  | StaleConfig | ShardKeyTooBig | DuplicateKey | HostUnreachable | WriteConcernLegacyOK
  | UnknownReplWriteConcern | CannotSatisfyWriteConcern | NotMaster | CommandNotFound
  | StdOutOfRange | UpdateOperationFailed | Interrupted | ExceededTimeLimit | ShutdownInProgress
  | NotMasterNoSlaveOk | NotMasterOrSecondary | PrimarySteppedDown | InterruptedAtShutdown
  | NetworkInterfaceExceededTimeLimit | SocketException | FailedToSatisfyReadPreference
  | InvalidNamespace | LockTimeout | LockFailed | CommandFailed | CannotCreateCollection
  | DollarPrefixedFieldName | AlreadyInitialized | NonExistentPath | InvalidLength | NamespaceNotSharded
  | CallbackCanceled | NotYetInitialized
  | Location (n : Z).

#[global] Instance ErrorCode_eq_dec : EqDecision ErrorCode.
Proof. solve_decision. Defined.

Inductive Outcome (A : Type) :=
  | Ret (a : A)
  | Throw (e : ErrorCode)
  | Abort
  | Undef.
Arguments Ret {A} _.
Arguments Throw {A} _.
Arguments Abort {A}.
Arguments Undef {A}.

Definition obind {A B} (m : Outcome A) (f : A -> Outcome B) : Outcome B :=
  match m with
  | Ret a => f a
  | Throw e => Throw e
  | Abort => Abort
  | Undef => Undef
  end.

(** [uassert(code, msg, cond)] *)
Definition uassert (e : ErrorCode) (b : bool) : Outcome unit :=
  if b then Ret () else Throw e.

(** [invariant(cond)] *)
Definition invariant (b : bool) : Outcome unit :=
  if b then Ret () else Abort.

Declare Scope outcome_scope.
Delimit Scope outcome_scope with outcome.
Notation "'let*' x ':=' m 'in' k" := (obind m (fun x => k))
  (at level 10, x pattern, m at level 100, k at level 200,
   format "'[v' 'let*'  x  ':='  m  'in' '/' k ']'") : outcome_scope.
Notation "m ';*' k" := (obind m (fun _ => k))
  (at level 100, right associativity) : outcome_scope.
Bind Scope outcome_scope with Outcome.

Definition is_Ret {A} (m : Outcome A) : bool :=
  match m with Ret _ => true | _ => false end.

Lemma obind_Ret_inv {A B} (m : Outcome A) (f : A -> Outcome B) b :
  obind m f = Ret b -> exists a, m = Ret a /\ f a = Ret b.
Proof. destruct m; simpl; [eauto | done..]. Qed.

Lemma uassert_Ret_inv e b u : uassert e b = Ret u -> b = true.
Proof. by destruct b. Qed.

Lemma invariant_Ret_inv b u : invariant b = Ret u -> b = true.
Proof. by destruct b. Qed.

(** Splits every monadic step of a successful run in the hypotheses. *)
Ltac inv_ret :=
  repeat match goal with
    | H : obind _ _ = Ret _ |- _ => apply obind_Ret_inv in H as (? & ? & ?)
    | H : uassert _ _ = Ret _ |- _ => apply uassert_Ret_inv in H
    | H : invariant _ = Ret _ |- _ => apply invariant_Ret_inv in H
    | H : Ret _ = Ret _ |- _ => injection H as H
    | H : Throw _ = Ret _ |- _ => discriminate H
    | H : Abort = Ret _ |- _ => discriminate H
    | H : Undef = Ret _ |- _ => discriminate H
    end.

(** Left-to-right loop with early exit, as a C++ [for] whose body may throw. *)
Fixpoint ofold {A S} (f : S -> A -> Outcome S) (s : S) (l : list A) : Outcome S :=
  match l with
  | [] => Ret s
  | a :: l => obind (f s a) (fun s' => ofold f s' l)
  end.

Lemma ofold_app {A S} (f : S -> A -> Outcome S) s l1 l2 :
  ofold f s (l1 ++ l2) = obind (ofold f s l1) (fun s' => ofold f s' l2).
Proof.
  revert s; induction l1 as [|a l1 IH]; intros s; simpl; [done|].
  destruct (f s a); simpl; [apply IH | done..].
Qed.

(** Loop invariant rule for [ofold]. *)
Lemma ofold_inv {A S} (P : S -> Prop) (f : S -> A -> Outcome S) l s s' :
  (forall s a s', a ∈ l -> P s -> f s a = Ret s' -> P s') ->
  P s -> ofold f s l = Ret s' -> P s'.
Proof.
  revert s; induction l as [|a l IH]; simpl; intros s Hf Hs Hr; inv_ret.
  - by subst.
  - eapply IH; [|eapply Hf|]; eauto; set_solver.
Qed.

(** [catch (const DBException&)] and [catch (const AssertionException&)] take
    every error but the standard library's own exceptions. *)
Definition isDBException (e : ErrorCode) : bool :=
  match e with StdOutOfRange => false | _ => true end.

(** * Status values *)

(** A returned status, as opposed to an exception. *)
Inductive StatusWith (A : Type) := OK (a : A) | NotOK (code : ErrorCode).
Arguments OK {A} _.
Arguments NotOK {A} _.

(** An error code that is returned, not thrown. *)
Definition as_status {A} (m : Outcome A) : Outcome (StatusWith A) :=
  match m with
  | Ret a => Ret (OK a)
  | Throw e => Ret (NotOK e)
  | Abort => Abort
  | Undef => Undef
  end.

(** [if (!sw.isOK()) return sw.getStatus();] *)
Definition if_ok {A B} (sw : StatusWith A) (k : A -> Outcome (StatusWith B)) : Outcome (StatusWith B) :=
  match sw with OK a => k a | NotOK e => Ret (NotOK e) end.

(** * State *)

(** Code that updates a state and may fail; the state at the point of failure
    is kept, since handlers and destructors run on it. *)
Definition SM (S A : Type) : Type := S -> S * Outcome A.

Definition sret {S A} (a : A) : SM S A := fun s => (s, Ret a).
Definition slift {S A} (m : Outcome A) : SM S A := fun s => (s, m).
Definition sbind {S A B} (m : SM S A) (f : A -> SM S B) : SM S B :=
  fun s =>
    let '(s, r) := m s in
    match r with
    | Ret a => f a s
    | Throw e => (s, Throw e)
    | Abort => (s, Abort)
    | Undef => (s, Undef)
    end.
Definition sget {S} : SM S S := fun s => (s, Ret s).
Definition smodify {S} (f : S -> S) : SM S unit := fun s => (f s, Ret ()).

(** [try { m } catch (const DBException& ex) { h(ex) }] *)
Definition scatch {S A} (m : SM S A) (h : ErrorCode -> SM S A) : SM S A :=
  fun s =>
    let '(s, r) := m s in
    match r with
    | Throw e => if isDBException e then h e s else (s, Throw e)
    | r => (s, r)
    end.

(** A destructor: it runs on return and on every exception. *)
Definition sfinally {S A} (m : SM S A) (f : S -> S) : SM S A :=
  fun s =>
    let '(s, r) := m s in
    match r with
    | Ret _ | Throw _ => (f s, r)
    | _ => (s, r)
    end.

Declare Scope state_scope.
Delimit Scope state_scope with state.
Notation "'let!' x ':=' m 'in' k" := (sbind m (fun x => k))
  (at level 10, x pattern, m at level 100, k at level 200,
   format "'[v' 'let!'  x  ':='  m  'in' '/' k ']'") : state_scope.
Notation "m ';!' k" := (sbind m (fun _ => k))
  (at level 100, right associativity) : state_scope.

Lemma sbind_inv {S A B} (m : SM S A) (k : A -> SM S B) s s' r :
  sbind m k s = (s', r) ->
  (exists s1 a, m s = (s1, Ret a) /\ k a s1 = (s', r)) \/
  (m s).1 = s' /\ is_Ret (m s).2 = false /\ is_Ret r = false.
Proof.
  unfold sbind. destruct (m s) as [s1 [a|e| |]]; [by left; exists s1, a|..];
    intros [= <- <-]; by right.
Qed.

(** Keys without duplicates identify their elements. *)
Lemma NoDup_fmap_eq {A B} (f : A -> B) (l : list A) (x y : A) :
  NoDup (f <$> l) -> x ∈ l -> y ∈ l -> f x = f y -> x = y.
Proof.
  induction l as [|z l IH]; [by intros _ ?%not_elem_of_nil|]. cbn [fmap list_fmap].
  intros [Hn Hl]%NoDup_cons. intros [->|H1]%elem_of_cons [->|H2]%elem_of_cons He; [done|..|by apply IH].
  - destruct Hn. rewrite He. by apply list_elem_of_fmap_2.
  - destruct Hn. rewrite <- He. by apply list_elem_of_fmap_2.
Qed.

(** [m] does not change [f] of the state. *)
Definition spreserves {S A B} (f : S -> B) (m : SM S A) : Prop := forall s, f (m s).1 = f s.

Create HintDb state.

Section preserves.
Context {S A B C : Type} (f : S -> C).

Lemma spreserves_ret (a : A) : spreserves f (sret a).
Proof. done. Qed.
Lemma spreserves_lift (m : Outcome A) : spreserves f (slift m).
Proof. done. Qed.
Lemma spreserves_get : spreserves f (@sget S).
Proof. done. Qed.
Lemma spreserves_bind (m : SM S A) (k : A -> SM S B) :
  spreserves f m -> (forall a, spreserves f (k a)) -> spreserves f (sbind m k).
Proof.
  intros Hm Hk s. unfold sbind. specialize (Hm s). destruct (m s) as [s' [a| | |]]; simpl in *; try done.
  by rewrite Hk.
Qed.
Lemma spreserves_catch (m : SM S A) h :
  spreserves f m -> (forall e, spreserves f (h e)) -> spreserves f (scatch m h).
Proof.
  intros Hm Hh s. unfold scatch. specialize (Hm s). destruct (m s) as [s' [a|e| |]]; simpl in *; try done.
  destruct (isDBException e); [by rewrite Hh|done].
Qed.
Lemma spreserves_modify (g : S -> S) : (forall s, f (g s) = f s) -> spreserves f (smodify g).
Proof. intros Hg s. apply Hg. Qed.
End preserves.

#[export] Hint Resolve spreserves_ret spreserves_lift spreserves_get : state.

(** Proves [spreserves] through the structure of the program. *)
Ltac preserves :=
  repeat match goal with
    | |- forall _, _ => intro
    | |- spreserves _ (sbind _ _) => apply spreserves_bind
    | |- spreserves _ (scatch _ _) => apply spreserves_catch
    | |- spreserves _ (smodify _) => apply spreserves_modify
    | |- spreserves _ (if ?b then _ else _) => destruct b
    | |- spreserves _ (match ?x with _ => _ end) => destruct x
    | |- spreserves _ _ => solve [auto with state]
    end.

(** * Machine integers *)

Definition u8 (z : Z) : Z := (z mod 2 ^ 8)%Z.
Definition u32 (z : Z) : Z := (z mod 2 ^ 32)%Z.
Definition u64 (z : Z) : Z := (z mod 2 ^ 64)%Z.

(** Two's complement conversions to [int] and [long long]. *)
Definition s32 (z : Z) : Z := ((z + 2 ^ 31) mod 2 ^ 32 - 2 ^ 31)%Z.
Definition s64 (z : Z) : Z := ((z + 2 ^ 63) mod 2 ^ 64 - 2 ^ 63)%Z.

Definition in_i32 (z : Z) : bool := (- 2 ^ 31 <=? z)%Z && (z <? 2 ^ 31)%Z.
Definition in_i64 (z : Z) : bool := (- 2 ^ 63 <=? z)%Z && (z <? 2 ^ 63)%Z.
Definition in_u32 (z : Z) : bool := (0 <=? z)%Z && (z <? 2 ^ 32)%Z.
Definition in_u64 (z : Z) : bool := (0 <=? z)%Z && (z <? 2 ^ 64)%Z.

#[global] Arguments u8 : simpl never.
#[global] Arguments u32 : simpl never.
#[global] Arguments u64 : simpl never.
#[global] Arguments s32 : simpl never.
#[global] Arguments s64 : simpl never.

Lemma u64_id z : (0 <= z < 2 ^ 64)%Z -> u64 z = z.
Proof. intros; unfold u64; by apply Z.mod_small. Qed.
Lemma u32_id z : (0 <= z < 2 ^ 32)%Z -> u32 z = z.
Proof. intros; unfold u32; by apply Z.mod_small. Qed.
Lemma u64_range z : (0 <= u64 z < 2 ^ 64)%Z.
Proof. unfold u64; apply Z.mod_pos_bound; lia. Qed.
Lemma u32_range z : (0 <= u32 z < 2 ^ 32)%Z.
Proof. unfold u32; apply Z.mod_pos_bound; lia. Qed.

(** * Three-way comparisons

    [comp_ok a b c] says that [c] is a possible outcome of comparing [x] with
    [z] when [x] against [y] gave [a] and [y] against [z] gave [b]; it is the
    transitivity law of a total preorder, stated on outcomes. *)

Definition comp_ok (a b c : comparison) : Prop :=
  match a, b with
  | Eq, _ => c = b
  | _, Eq => c = a
  | Lt, Lt => c = Lt
  | Gt, Gt => c = Gt
  | _, _ => True
  end.

(** Compare first by [a], break ties by [b]. *)
Definition lexc (a b : comparison) : comparison :=
  match a with Eq => b | _ => a end.

Lemma lexc_comp_ok a1 b1 c1 a2 b2 c2 :
  comp_ok a1 b1 c1 -> comp_ok a2 b2 c2 ->
  comp_ok (lexc a1 a2) (lexc b1 b2) (lexc c1 c2).
Proof. destruct a1, b1, c1, a2, b2, c2; simpl; try done; congruence. Qed.

(** Ties broken by [a2], [b2], [c2] only matter when both first components tie. *)
Lemma lexc_comp_ok' a1 b1 c1 a2 b2 c2 :
  comp_ok a1 b1 c1 -> (a1 = Eq -> b1 = Eq -> comp_ok a2 b2 c2) ->
  comp_ok (lexc a1 a2) (lexc b1 b2) (lexc c1 c2).
Proof.
  intros H1 H2. destruct a1, b1; simpl in *; subst; auto;
    destruct a2, b2; simpl; auto.
Qed.

Lemma comp_ok_Lt b : comp_ok Lt b Lt.
Proof. by destruct b. Qed.
Lemma comp_ok_Gt a : comp_ok a Gt Gt.
Proof. by destruct a. Qed.

Lemma comp_ok_opp a b c : comp_ok a b c -> comp_ok (CompOpp a) (CompOpp b) (CompOpp c).
Proof. destruct a, b, c; simpl; congruence. Qed.

Lemma lexc_opp a b : CompOpp (lexc a b) = lexc (CompOpp a) (CompOpp b).
Proof. by destruct a. Qed.

Lemma lexc_assoc a b c : lexc (lexc a b) c = lexc a (lexc b c).
Proof. by destruct a. Qed.

Lemma Zcompare_comp_ok x y z : comp_ok (x ?= y)%Z (y ?= z)%Z (x ?= z)%Z.
Proof.
  destruct (Z.compare_spec x y), (Z.compare_spec y z), (Z.compare_spec x z);
    simpl; subst; try done; lia.
Qed.

(** The sign of a C++ [int] comparison result. *)
Definition sgc (z : Z) : comparison := (z ?= 0)%Z.

Lemma sgc_sub x y : sgc (x - y) = (x ?= y)%Z.
Proof. unfold sgc. destruct (Z.compare_spec x y), (Z.compare_spec (x - y) 0); try done; lia. Qed.

Lemma sgc_opp x : sgc (- x) = CompOpp (sgc x).
Proof. unfold sgc. destruct (Z.compare_spec x 0), (Z.compare_spec (- x) 0); try done; lia. Qed.

(** [if (int d = a) return d; return b;] *)
Lemma sgc_if (a b : Z) : sgc (if negb (a =? 0)%Z then a else b) = lexc (sgc a) (sgc b).
Proof.
  destruct (Z.eqb_spec a 0) as [->|Hn]; [done|]. simpl.
  unfold sgc. destruct (Z.compare_spec a 0); done.
Qed.

Lemma sgc_lt z : sgc z = Lt <-> (z < 0)%Z.
Proof. apply Z.compare_lt_iff. Qed.
Lemma sgc_eq z : sgc z = Eq <-> z = 0%Z.
Proof. apply Z.compare_eq_iff. Qed.
Lemma sgc_gt z : sgc z = Gt <-> (0 < z)%Z.
Proof. unfold sgc; rewrite Z.compare_gt_iff; done. Qed.

Create HintDb ordmap discriminated.

(** * Ordered keys

    What every ordered container and every routing component needs of its
    keys: a three-way comparison that is a total preorder.  BSON documents
    discharge this interface in [Bson]. *)

Class KeyOrder (K : Type) := kcmp : K -> K -> comparison.
#[global] Hint Mode KeyOrder ! : typeclass_instances.

Class KeyOrderLaws (K : Type) `{KeyOrder K} : Prop := {
  kcmp_refl (x : K) : kcmp x x = Eq;
  kcmp_opp (x y : K) : kcmp y x = CompOpp (kcmp x y);
  kcmp_comp (x y z : K) : comp_ok (kcmp x y) (kcmp y z) (kcmp x z)
}.
#[global] Hint Mode KeyOrderLaws ! - : typeclass_instances.

Definition klt `{KeyOrder K} (x y : K) : Prop := kcmp x y = Lt.
Definition kle `{KeyOrder K} (x y : K) : Prop := kcmp x y <> Gt.
Definition keq `{KeyOrder K} (x y : K) : Prop := kcmp x y = Eq.
Definition kltb `{KeyOrder K} (x y : K) : bool :=
  match kcmp x y with Lt => true | _ => false end.
Definition kleb `{KeyOrder K} (x y : K) : bool :=
  match kcmp x y with Gt => false | _ => true end.
Definition keqb `{KeyOrder K} (x y : K) : bool :=
  match kcmp x y with Eq => true | _ => false end.

Declare Scope key_scope.
Delimit Scope key_scope with key.
Infix "≺" := klt (at level 70, no associativity) : key_scope.
Infix "≼" := kle (at level 70, no associativity) : key_scope.
Infix "≅k" := keq (at level 70, no associativity) : key_scope.
Open Scope key_scope.

Section key_order.
Context `{KeyOrderLaws K}.
Implicit Types x y z : K.

Lemma kltb_spec x y : kltb x y = true <-> x ≺ y.
Proof. unfold kltb, klt; destruct (kcmp x y); split; congruence. Qed.
Lemma kleb_spec x y : kleb x y = true <-> x ≼ y.
Proof. unfold kleb, kle; destruct (kcmp x y); split; congruence. Qed.
Lemma keqb_spec x y : keqb x y = true <-> x ≅k y.
Proof. unfold keqb, keq; destruct (kcmp x y); split; congruence. Qed.
Lemma kltb_false x y : kltb x y = false <-> y ≼ x.
Proof. unfold kltb, kle; rewrite (kcmp_opp x y); destruct (kcmp x y); simpl; split; congruence. Qed.
Lemma kleb_false x y : kleb x y = false <-> y ≺ x.
Proof. unfold kleb, klt; rewrite (kcmp_opp x y); destruct (kcmp x y); simpl; split; congruence. Qed.
Lemma keqb_false x y : keqb x y = false <-> ~ x ≅k y.
Proof. unfold keqb, keq; destruct (kcmp x y); split; congruence. Qed.

(** The number of keys of [l] strictly below [x]. *)
Definition krank (l : list K) (x : K) : Z :=
  foldr (fun y n => if kltb y x then (n + 1)%Z else n) 0%Z l.

Lemma krank_le l x y : x ≼ y -> (krank l x <= krank l y)%Z.
Proof.
  intros Hxy; induction l as [|z l IH]; simpl; [lia|].
  pose proof (kcmp_comp z x y) as Hc. unfold kltb, kle in *.
  destruct (kcmp z x), (kcmp z y), (kcmp x y); simpl in *; try congruence; lia.
Qed.

Lemma krank_lt l x y : x ∈ l -> x ≺ y -> (krank l x < krank l y)%Z.
Proof.
  intros Hin Hxy.
  assert (Hle : x ≼ y) by (unfold klt, kle in *; congruence).
  induction l as [|z l IH]; [by apply not_elem_of_nil in Hin|].
  apply elem_of_cons in Hin as [<-|Hin]; simpl.
  - pose proof (krank_le l x y Hle). unfold kltb. rewrite kcmp_refl, Hxy. lia.
  - specialize (IH Hin). pose proof (kcmp_comp z x y) as Hc. unfold kltb, klt in *.
    destruct (kcmp z x), (kcmp z y); rewrite Hxy in Hc; simpl in *; try congruence; lia.
Qed.

(** Any finite set of keys embeds in [Z]. *)
Lemma kcmp_krank l x y :
  x ∈ l -> y ∈ l -> kcmp x y = (krank l x ?= krank l y)%Z.
Proof.
  intros Hx Hy. destruct (kcmp x y) eqn:E; symmetry.
  - apply Z.compare_eq_iff, Z.le_antisymm; apply krank_le; unfold kle;
      [congruence|rewrite (kcmp_opp x y), E; done].
  - by apply Z.compare_lt_iff, krank_lt.
  - apply Z.compare_gt_iff, krank_lt; [done|]. unfold klt.
    by rewrite (kcmp_opp x y), E.
Qed.
End key_order.
#[global] Arguments krank : simpl never.

(** Decides goals about [≺], [≼], [≅k] and their boolean forms: the keys that
    occur are embedded in [Z] and [lia] finishes. *)
Ltac kbool :=
  repeat match goal with
    | H : context [kltb _ _ = true] |- _ => rewrite kltb_spec in H
    | H : context [kleb _ _ = true] |- _ => rewrite kleb_spec in H
    | H : context [keqb _ _ = true] |- _ => rewrite keqb_spec in H
    | H : context [kltb _ _ = false] |- _ => rewrite kltb_false in H
    | H : context [kleb _ _ = false] |- _ => rewrite kleb_false in H
    | H : context [keqb _ _ = false] |- _ => rewrite keqb_false in H
    | |- context [kltb _ _ = true] => rewrite kltb_spec
    | |- context [kleb _ _ = true] => rewrite kleb_spec
    | |- context [keqb _ _ = true] => rewrite keqb_spec
    | |- context [kltb _ _ = false] => rewrite kltb_false
    | |- context [kleb _ _ = false] => rewrite kleb_false
    | |- context [keqb _ _ = false] => rewrite keqb_false
    end.

Ltac korder_collect acc :=
  match goal with
  | H : context [@kcmp _ _ ?x ?y] |- _ =>
      lazymatch acc with
      | context [x] => fail
      | _ => korder_collect constr:(x :: acc)
      end
  | H : context [@kcmp _ _ ?x ?y] |- _ =>
      lazymatch acc with
      | context [y] => fail
      | _ => korder_collect constr:(y :: acc)
      end
  | _ =>
      let l := fresh "keys" in
      set (l := acc);
      repeat match goal with
        | H : context [@kcmp _ _ ?x ?y] |- _ =>
            rewrite (kcmp_krank l x y) in H by (unfold l; repeat (apply list_elem_of_here || apply list_elem_of_further))
        end;
      clearbody l
  end.

Ltac korder_start :=
  match goal with
  | H : context [@kcmp ?K _ _ _] |- _ => korder_collect constr:(@nil K)
  | _ => idtac
  end.

Ltac korder :=
  intros; kbool; unfold klt, kle, keq in *;
  try match goal with |- @kcmp _ _ _ _ = _ => apply dec_stable; intro end;
  repeat match goal with |- ~ _ => intro end;
  repeat match goal with H : ~ (_ <> _) |- _ => apply dec_stable in H end;
  try exfalso;
  korder_start;
  rewrite ?Z.compare_lt_iff, ?Z.compare_gt_iff, ?Z.compare_eq_iff in *; lia.
