(* ===== verification/OrdMap.v ===== *)
(** The C++ ordered map ([std::map], [BSONObjIndexedMap]) as a sorted
    association list.  Iterators are positions: [begin()] is [0] and [end()] is
    the length of the list.  Keys are compared through the [KeyOrder]
    interface only, so two keys that compare equal are the same key. *)

From S2P Require Import Prelude.
From stdpp Require Import base list sorting sets.
From Stdlib Require Import Lia.

Section ord_map.
Context {K V : Type} `{KeyOrderLaws K}.
Implicit Types (k : K) (v : V) (m : list (K * V)).

(** [m.upper_bound(k)]: the first entry whose key is greater than [k]. *)
Fixpoint upper_bound k m : nat :=
  match m with
  | [] => 0
  | (k', _) :: m => if kltb k k' then 0 else S (upper_bound k m)
  end.

(** [m.lower_bound(k)]: the first entry whose key is not less than [k]. *)
Fixpoint lower_bound k m : nat :=
  match m with
  | [] => 0
  | (k', _) :: m => if kltb k' k then S (lower_bound k m) else 0
  end.

(** [m.find(k)]: the position of [k], or [end()]. *)
Definition map_find k m : nat :=
  let i := lower_bound k m in
  match m !! i with
  | Some (k', _) => if kltb k k' then length m else i
  | None => length m
  end.

Definition map_get k m : option V := snd <$> (m !! map_find k m).

(** [m.insert({k, v})]: no effect when the key is present. *)
Definition map_insert k v m : list (K * V) :=
  let i := lower_bound k m in
  match m !! i with
  | Some (k', _) => if kltb k k' then take i m ++ (k, v) :: drop i m else m
  | None => take i m ++ (k, v) :: drop i m
  end.

(** [m[k] = v] *)
Definition map_assign k v m : list (K * V) :=
  let i := lower_bound k m in
  match m !! i with
  | Some (k', _) =>
      if kltb k k' then take i m ++ (k, v) :: drop i m else take i m ++ (k', v) :: drop (S i) m
  | None => take i m ++ (k, v) :: drop i m
  end.

(** [m.erase(low, high)] *)
Definition erase_range (low high : nat) m : list (K * V) := take low m ++ drop high m.

(** [m.erase(it)] *)
Definition erase_at (i : nat) m : list (K * V) := take i m ++ drop (S i) m.

(** The representation invariant: keys strictly increase. *)
Definition ksorted m : Prop := StronglySorted klt (m.*1).

Lemma ksorted_nil : ksorted [].
Proof. constructor. Qed.

Lemma ksorted_cons k v m :
  ksorted ((k, v) :: m) <-> ksorted m /\ forall k' v', (k', v') ∈ m -> k ≺ k'.
Proof.
  unfold ksorted; simpl. rewrite StronglySorted_cons, Forall_fmap, Forall_forall.
  split.
  - intros [Hk ?]; split; [done|]. intros k' v' Hin. by apply (Hk (k', v')).
  - intros [? Hk]; split; [|done]. intros [k' v'] Hin. by eapply Hk.
Qed.

Lemma ksorted_app m1 m2 :
  ksorted (m1 ++ m2) <->
  ksorted m1 /\ ksorted m2 /\
  forall k1 v1 k2 v2, (k1, v1) ∈ m1 -> (k2, v2) ∈ m2 -> k1 ≺ k2.
Proof.
  induction m1 as [|[k v] m1 IH]; simpl.
  - split; [intros Hs|intros (_ & ? & _)]; [|done].
    split_and!; [apply ksorted_nil|done|set_solver].
  - rewrite !ksorted_cons, IH. split.
    + intros ((? & ? & Hx) & Hall). split_and!; try done.
      * intros k' v' Hin. apply (Hall k' v'). apply elem_of_app; auto.
      * intros k1 v1 k2 v2 [[= -> ->]|Hin]%elem_of_cons Hin2; [|by eapply Hx].
        apply (Hall k2 v2). apply elem_of_app; auto.
    + intros ((? & Hall) & ? & Hx). split_and!; try done.
      * intros k1 v1 k2 v2 Hi1 Hi2. apply (Hx k1 v1 k2 v2); [by apply list_elem_of_further|done].
      * intros k' v' [?|?]%elem_of_app; [by eapply Hall|].
        apply (Hx k v k' v'); [apply list_elem_of_here|done].
Qed.

Lemma upper_bound_le_length k m : upper_bound k m <= length m.
Proof. induction m as [|[k' v] m IH]; simpl; [done|]. destruct (kltb k k'); lia. Qed.

Lemma lower_bound_le_length k m : lower_bound k m <= length m.
Proof. induction m as [|[k' v] m IH]; simpl; [done|]. destruct (kltb k' k); lia. Qed.

(** Everything before [upper_bound k] is at most [k] and everything after it
    is greater. *)
Lemma take_upper_bound k m k' v' : (k', v') ∈ take (upper_bound k m) m -> k' ≼ k.
Proof.
  induction m as [|[k1 v1] m IH]; simpl; [set_solver|].
  destruct (kltb k k1) eqn:E; simpl; [set_solver|].
  intros [[= -> ->]|?]%elem_of_cons; [korder|auto].
Qed.

Lemma drop_upper_bound k m k' v' :
  ksorted m -> (k', v') ∈ drop (upper_bound k m) m -> k ≺ k'.
Proof.
  induction m as [|[k1 v1] m IH]; simpl; [set_solver|].
  rewrite ksorted_cons; intros [Hs Hall].
  destruct (kltb k k1) eqn:E; simpl; [|auto].
  intros [[= -> ->]|Hin]%elem_of_cons; [korder|].
  specialize (Hall _ _ Hin). korder.
Qed.

Lemma take_lower_bound k m k' v' : (k', v') ∈ take (lower_bound k m) m -> k' ≺ k.
Proof.
  induction m as [|[k1 v1] m IH]; simpl; [set_solver|].
  destruct (kltb k1 k) eqn:E; simpl; [|set_solver].
  intros [[= -> ->]|?]%elem_of_cons; [korder|auto].
Qed.

Lemma drop_lower_bound k m k' v' :
  ksorted m -> (k', v') ∈ drop (lower_bound k m) m -> k ≼ k'.
Proof.
  induction m as [|[k1 v1] m IH]; simpl; [set_solver|].
  rewrite ksorted_cons; intros [Hs Hall].
  destruct (kltb k1 k) eqn:E; simpl; [auto|].
  intros [[= -> ->]|Hin]%elem_of_cons; [korder|].
  specialize (Hall _ _ Hin). korder.
Qed.

(** Dereferencing [upper_bound]: it is the least entry above [k]. *)
Lemma upper_bound_Some k m k' v' :
  ksorted m -> m !! upper_bound k m = Some (k', v') ->
  (k', v') ∈ m /\ k ≺ k' /\
  forall k'' v'', (k'', v'') ∈ m -> k ≺ k'' -> k' ≼ k''.
Proof.
  induction m as [|[k1 v1] m IH]; simpl; [done|].
  rewrite ksorted_cons; intros [Hs Hall].
  destruct (kltb k k1) eqn:E; simpl.
  - intros [= -> ->]. split_and!; [set_solver|korder|].
    intros k'' v'' [[= -> ->]|Hin]%elem_of_cons ?; [korder|].
    specialize (Hall _ _ Hin). korder.
  - intros Hl. destruct (IH Hs Hl) as (? & ? & Hmin). split_and!; [set_solver|done|].
    intros k'' v'' [[= -> ->]|Hin]%elem_of_cons ?; [korder|by eapply Hmin].
Qed.

Lemma upper_bound_None k m k' v' :
  m !! upper_bound k m = None -> (k', v') ∈ m -> k' ≼ k.
Proof.
  intros Hl%lookup_ge_None Hin. apply (take_upper_bound k m k' v').
  by rewrite take_ge.
Qed.

Lemma upper_bound_mono k1 k2 m : k1 ≼ k2 -> upper_bound k1 m <= upper_bound k2 m.
Proof.
  intros Hk; induction m as [|[k v] m IH]; simpl; [done|].
  destruct (kltb k1 k) eqn:E1, (kltb k2 k) eqn:E2; try lia. korder.
Qed.

Lemma ksorted_take_drop i m :
  ksorted m ->
  ksorted (take i m) /\ ksorted (drop i m) /\
  forall k1 v1 k2 v2, (k1, v1) ∈ take i m -> (k2, v2) ∈ drop i m -> k1 ≺ k2.
Proof. intros Hs. rewrite <- (take_drop i m) in Hs. by apply ksorted_app. Qed.

Lemma elem_of_take_or_drop (x : K * V) i m :
  x ∈ m <-> x ∈ take i m \/ x ∈ drop i m.
Proof. rewrite <- elem_of_app, take_drop. done. Qed.

Lemma elem_of_take_weak (x : K * V) i m : x ∈ take i m -> x ∈ m.
Proof. intros; apply (elem_of_take_or_drop _ i); auto. Qed.
Lemma elem_of_drop_weak (x : K * V) i m : x ∈ drop i m -> x ∈ m.
Proof. intros; apply (elem_of_take_or_drop _ i); auto. Qed.

Lemma erase_range_sorted low high m :
  low <= high -> ksorted m -> ksorted (erase_range low high m).
Proof.
  intros Hlh Hs. unfold erase_range.
  destruct (ksorted_take_drop low m Hs) as (Ht & Hd & Hx).
  destruct (ksorted_take_drop (high - low) (drop low m) Hd) as (_ & Hd' & _).
  assert (Heq : drop (high - low) (drop low m) = drop high m).
  { rewrite drop_drop. f_equal. lia. }
  apply ksorted_app; split_and!; [done|by rewrite <- Heq|].
  intros k1 v1 k2 v2 Hi1 Hi2. apply (Hx _ _ _ v2 Hi1).
  rewrite <- Heq in Hi2. by eapply elem_of_drop_weak.
Qed.

(** Erasing [(a, b]] keeps exactly the entries outside it. *)
Lemma elem_of_erase_upper a b m k' v' :
  ksorted m -> a ≼ b ->
  (k', v') ∈ erase_range (upper_bound a m) (upper_bound b m) m <->
  (k', v') ∈ m /\ (k' ≼ a \/ b ≺ k').
Proof.
  intros Hs Hab. unfold erase_range. rewrite elem_of_app. split.
  - intros [Hin|Hin]; split.
    + by eapply elem_of_take_weak.
    + left. by eapply take_upper_bound.
    + by eapply elem_of_drop_weak.
    + right. by eapply drop_upper_bound.
  - intros [Hin [Hle|Hlt]].
    + left. apply (elem_of_take_or_drop _ (upper_bound a m)) in Hin as [?|Hin]; [done|].
      apply drop_upper_bound in Hin; [korder|done].
    + right. apply (elem_of_take_or_drop _ (upper_bound b m)) in Hin as [Hin|?]; [|done].
      apply take_upper_bound in Hin. korder.
Qed.

Lemma lower_bound_lookup k m k' v' :
  ksorted m -> m !! lower_bound k m = Some (k', v') -> k ≼ k'.
Proof.
  intros Hs Hl. apply (drop_lower_bound k m k' v' Hs).
  apply list_elem_of_lookup. exists 0. by rewrite lookup_drop, Nat.add_0_r.
Qed.

Lemma ksorted_insert_at k v m :
  ksorted m -> (forall k' v', (k', v') ∈ m -> ~ k ≅k k') ->
  ksorted (take (lower_bound k m) m ++ (k, v) :: drop (lower_bound k m) m).
Proof.
  intros Hs Hne. destruct (ksorted_take_drop (lower_bound k m) m Hs) as (Ht & Hd & Hx).
  assert (Hkd : forall k' v', (k', v') ∈ drop (lower_bound k m) m -> k ≺ k').
  { intros k' v' Hin. pose proof (drop_lower_bound _ _ _ _ Hs Hin).
    apply elem_of_drop_weak in Hin. specialize (Hne _ _ Hin). korder. }
  apply ksorted_app; split_and!; [done|apply ksorted_cons; auto|].
  intros k1 v1 k2 v2 Hi1 [[= -> ->]|Hi2]%elem_of_cons; [by eapply take_lower_bound|].
  by eapply Hx.
Qed.

(** Inserting a fresh key adds exactly that entry and keeps the map sorted. *)
Lemma map_insert_fresh k v m :
  ksorted m -> (forall k' v', (k', v') ∈ m -> ~ k ≅k k') ->
  map_insert k v m = take (lower_bound k m) m ++ (k, v) :: drop (lower_bound k m) m.
Proof.
  intros Hs Hne. unfold map_insert.
  destruct (m !! lower_bound k m) as [[k' v']|] eqn:E; [|done].
  destruct (kltb k k') eqn:Hlt; [done|]. exfalso.
  pose proof (lower_bound_lookup _ _ _ _ Hs E).
  apply (Hne k' v'); [by eapply list_elem_of_lookup_2|korder].
Qed.

Lemma map_insert_sorted k v m :
  ksorted m -> (forall k' v', (k', v') ∈ m -> ~ k ≅k k') -> ksorted (map_insert k v m).
Proof. intros. rewrite map_insert_fresh by done. by apply ksorted_insert_at. Qed.

Lemma elem_of_map_insert k v m x :
  ksorted m -> (forall k' v', (k', v') ∈ m -> ~ k ≅k k') ->
  x ∈ map_insert k v m <-> x = (k, v) \/ x ∈ m.
Proof.
  intros. rewrite map_insert_fresh by done.
  rewrite elem_of_app, elem_of_cons, (elem_of_take_or_drop x (lower_bound k m) m). tauto.
Qed.

Lemma map_get_Some k m v :
  ksorted m -> map_get k m = Some v <-> exists k', (k', v) ∈ m /\ k ≅k k'.
Proof.
  intros Hs. unfold map_get, map_find. split.
  - destruct (m !! lower_bound k m) as [[k' v']|] eqn:E.
    + pose proof (lower_bound_lookup _ _ _ _ Hs E). destruct (kltb k k') eqn:Hlt.
      * rewrite lookup_ge_None_2 by done. done.
      * rewrite E. intros [= <-]. exists k'. split; [by eapply list_elem_of_lookup_2|korder].
    + rewrite lookup_ge_None_2 by done. done.
  - intros (k' & Hin & Heq).
    apply (elem_of_take_or_drop _ (lower_bound k m)) in Hin as [Hin|Hin].
    { apply take_lower_bound in Hin. korder. }
    destruct (drop (lower_bound k m) m) as [|[k1 v1] d] eqn:Ed; [set_solver|].
    assert (E : m !! lower_bound k m = Some (k1, v1)).
    { rewrite <- (Nat.add_0_r (lower_bound k m)), <- lookup_drop, Ed. done. }
    rewrite E. destruct (ksorted_take_drop (lower_bound k m) m Hs) as (_ & Hd & _).
    rewrite Ed, ksorted_cons in Hd. destruct Hd as [_ Hd].
    pose proof (lower_bound_lookup _ _ _ _ Hs E).
    apply elem_of_cons in Hin as [[= <- <-]|Hin].
    + destruct (kltb k k') eqn:?; [korder|]. by rewrite E.
    + specialize (Hd _ _ Hin). korder.
Qed.

Lemma map_get_None k m :
  ksorted m -> map_get k m = None -> forall k' v', (k', v') ∈ m -> ~ k ≅k k'.
Proof.
  intros Hs Hg k' v' Hin Heq.
  assert (map_get k m = Some v') by (apply map_get_Some; eauto). congruence.
Qed.

Lemma map_insert_present k v m w : map_get k m = Some w -> map_insert k v m = m.
Proof.
  unfold map_get, map_find, map_insert. destruct (m !! lower_bound k m) as [[k1 v1]|] eqn:E.
  - destruct (kltb k k1); [|done]. by rewrite lookup_ge_None_2.
  - by rewrite lookup_ge_None_2.
Qed.

(** Inserting any key keeps the map sorted and the entries it had. *)
Lemma map_insert_any k v m :
  ksorted m ->
  ksorted (map_insert k v m) /\ is_Some (map_get k (map_insert k v m)) /\
  (forall k' v', (k', v') ∈ map_insert k v m -> (k', v') ∈ m \/ k' = k /\ v' = v) /\
  (forall k', is_Some (map_get k' m) -> is_Some (map_get k' (map_insert k v m))).
Proof.
  intros Hs. destruct (map_get k m) as [w|] eqn:E.
  - rewrite (map_insert_present _ _ _ w) by done. rewrite E. split_and!; auto.
  - pose proof (map_get_None k m Hs E) as Hf.
    pose proof (fun x => elem_of_map_insert k v m x Hs Hf) as Hin. pose proof (map_insert_sorted k v m Hs Hf) as Hs'.
    split_and!; [done| | |].
    + exists v. apply map_get_Some; [done|]. exists k. split; [apply Hin; by left|korder].
    + intros k' v' [[= -> ->]|?]%Hin; auto.
    + intros k' [w (k1 & Hk1 & Hk)%map_get_Some]; [|done]. exists w. apply map_get_Some; [done|]. exists k1.
      split; [apply Hin; by right|done].
Qed.

Lemma ksorted_unique m k1 v1 k2 v2 :
  ksorted m -> (k1, v1) ∈ m -> (k2, v2) ∈ m -> k1 ≅k k2 -> (k1, v1) = (k2, v2).
Proof.
  induction m as [|[k v] m IH]; [by intros _ ?%not_elem_of_nil|].
  intros [Hs Hall]%ksorted_cons [[= -> ->]|H1]%elem_of_cons [[= -> ->]|H2]%elem_of_cons Heq;
    [done|specialize (Hall _ _ H2); korder|specialize (Hall _ _ H1); korder|by apply IH].
Qed.

(** A sorted map is determined by its entries. *)
Lemma ksorted_ext m1 m2 :
  ksorted m1 -> ksorted m2 -> (forall x, x ∈ m1 <-> x ∈ m2) -> m1 = m2.
Proof.
  revert m2. induction m1 as [|[k1 v1] m1 IH]; intros [|[k2 v2] m2] H1 H2 Hx; [done|..].
  - pose proof (proj2 (Hx (k2, v2)) (list_elem_of_here _ _)) as []%not_elem_of_nil.
  - pose proof (proj1 (Hx (k1, v1)) (list_elem_of_here _ _)) as []%not_elem_of_nil.
  - pose proof H1 as [Hs1 Ha1]%ksorted_cons. pose proof H2 as [Hs2 Ha2]%ksorted_cons.
    pose proof (proj1 (Hx (k1, v1)) (list_elem_of_here _ _)) as Hi1.
    pose proof (proj2 (Hx (k2, v2)) (list_elem_of_here _ _)) as Hi2.
    assert (Heq : (k1, v1) = (k2, v2)).
    { apply elem_of_cons in Hi1 as [?|Hi1]; [done|]. apply elem_of_cons in Hi2 as [?|Hi2]; [done|].
      specialize (Ha1 _ _ Hi2). specialize (Ha2 _ _ Hi1). korder. }
    injection Heq as -> ->. f_equal. apply IH; [done..|]. intros [k v]. specialize (Hx (k, v)).
    rewrite !elem_of_cons in Hx. split; intros Hin.
    + destruct (proj1 Hx (or_intror Hin)) as [[= -> ->]|?]; [|done]. specialize (Ha1 _ _ Hin). korder.
    + destruct (proj2 Hx (or_intror Hin)) as [[= -> ->]|?]; [|done]. specialize (Ha2 _ _ Hin). korder.
Qed.

Lemma upper_bound_0 k m : (forall k' v', (k', v') ∈ m -> k ≺ k') -> upper_bound k m = 0.
Proof.
  destruct m as [|[k1 v1] m]; simpl; [done|]. intros Hk.
  specialize (Hk k1 v1 (list_elem_of_here _ _)). destruct (kltb k k1) eqn:E; [done|korder].
Qed.

(** Appending at the end: what [insert] with a hint at [end()] does when the
    keys arrive in increasing order. *)
Lemma lower_bound_end k m tl :
  (forall k' v', (k', v') ∈ m -> k' ≺ k) -> (forall x : K * V, head tl = Some x -> k ≼ x.1) ->
  lower_bound k (m ++ tl) = length m.
Proof.
  intros Hm Ht. induction m as [|[k1 v1] m IH]; simpl.
  - destruct tl as [|[k2 v2] tl]; simpl; [done|]. specialize (Ht (k2, v2) eq_refl). simpl in Ht.
    destruct (kltb k2 k) eqn:E; [korder|done].
  - pose proof (Hm k1 v1 (list_elem_of_here _ _)). destruct (kltb k1 k) eqn:E; [|korder].
    f_equal. apply IH. intros k' v' Hin. apply (Hm k' v'). by apply list_elem_of_further.
Qed.

Lemma map_insert_end k v m :
  (forall k' v', (k', v') ∈ m -> k' ≺ k) -> map_insert k v m = m ++ [(k, v)].
Proof.
  intros Hm. unfold map_insert.
  assert (Hl : lower_bound k m = length m)
    by (rewrite <- (app_nil_r m) at 1; by apply lower_bound_end).
  rewrite Hl, lookup_ge_None_2, take_ge, drop_ge by done. done.
Qed.

Lemma map_assign_spec k v m :
  ksorted m ->
  ksorted (map_assign k v m) /\
  (exists k', k ≅k k' /\ (k', v) ∈ map_assign k v m) /\
  forall k' v', ~ k ≅k k' -> (k', v') ∈ map_assign k v m <-> (k', v') ∈ m.
Proof.
  intros Hs. unfold map_assign.
  assert (Hfresh : (forall k' v', (k', v') ∈ m -> ~ k ≅k k') ->
    ksorted (take (lower_bound k m) m ++ (k, v) :: drop (lower_bound k m) m) /\
    (exists k', k ≅k k' /\ (k', v) ∈ take (lower_bound k m) m ++ (k, v) :: drop (lower_bound k m) m) /\
    forall k' v', ~ k ≅k k' ->
      (k', v') ∈ take (lower_bound k m) m ++ (k, v) :: drop (lower_bound k m) m <-> (k', v') ∈ m).
  { intros Hne. rewrite <- map_insert_fresh by done. split_and!.
    - by apply map_insert_sorted.
    - exists k. split; [korder|]. apply elem_of_map_insert; auto.
    - intros k' v' Hk. rewrite elem_of_map_insert by done. split; [|auto].
      intros [[= -> ->]|?]; [|done]. destruct Hk. korder. }
  destruct (m !! lower_bound k m) as [[k1 v1]|] eqn:E.
  - pose proof (lower_bound_lookup _ _ _ _ Hs E) as Hle.
    assert (Hsplit : m = take (lower_bound k m) m ++ (k1, v1) :: drop (S (lower_bound k m)) m)
      by (by rewrite take_drop_middle).
    destruct (kltb k k1) eqn:Hlt.
    + apply Hfresh. intros k' v' Hin Heq.
      apply (elem_of_take_or_drop _ (lower_bound k m)) in Hin as [Hin|Hin].
      * apply take_lower_bound in Hin. korder.
      * rewrite (drop_S _ _ _ E) in Hin. destruct (ksorted_take_drop (lower_bound k m) m Hs) as (_ & Hd & _).
        rewrite (drop_S _ _ _ E) in Hd. apply ksorted_cons in Hd as [_ Hd].
        apply elem_of_cons in Hin as [[= -> ->]|Hin]; [korder|]. specialize (Hd _ _ Hin). korder.
    + rewrite Hsplit in Hs. apply ksorted_app in Hs as (H1 & H2 & H3).
      apply ksorted_cons in H2 as [H2 H2']. split_and!.
      * apply ksorted_app. split_and!; [done|by apply ksorted_cons|].
        intros ka va kb vb Ha [[= -> ->]|Hb]%elem_of_cons;
          [by apply (H3 ka va k1 v1); [|apply list_elem_of_here]|].
        apply (H3 ka va kb vb); [done|by apply list_elem_of_further].
      * exists k1. split; [korder|]. apply elem_of_app. right. apply list_elem_of_here.
      * intros k' v' Hk.
        assert (Hm : (k', v') ∈ m <->
          (k', v') ∈ take (lower_bound k m) m ++ (k1, v1) :: drop (S (lower_bound k m)) m)
          by (by rewrite <- Hsplit).
        rewrite Hm, !elem_of_app, !elem_of_cons.
        split; (intros [?|[[= -> ->]|?]]; [by auto| |by auto]); destruct Hk; korder.
  - apply Hfresh. intros k' v' Hin Heq. apply lookup_ge_None in E.
    rewrite <- (take_ge m (lower_bound k m)) in Hin by done. apply take_lower_bound in Hin. korder.
Qed.

Lemma map_get_assign k v m : ksorted m -> map_get k (map_assign k v m) = Some v.
Proof.
  intros Hs. destruct (map_assign_spec k v m Hs) as (Hs' & (k' & Hk & Hin) & _).
  apply map_get_Some; eauto.
Qed.

Lemma map_get_assign_some k v m k' : ksorted m -> is_Some (map_get k' m) -> is_Some (map_get k' (map_assign k v m)).
Proof.
  intros Hs [w Hw]. destruct (map_assign_spec k v m Hs) as (Hs' & (k1 & Hk & Hin) & Hiff).
  apply map_get_Some in Hw as (k2 & Hin2 & Hk2); [|done]. destruct (keqb k k2) eqn:E.
  - exists v. apply map_get_Some; [done|]. exists k1. split; [done|]. korder.
  - exists w. apply map_get_Some; [done|]. exists k2. split; [|done]. apply Hiff; [|done]. intros ?. korder.
Qed.

Lemma map_get_assign_ne k v m k' :
  ksorted m -> ~ k ≅k k' -> map_get k' (map_assign k v m) = map_get k' m.
Proof.
  intros Hs Hne. destruct (map_assign_spec k v m Hs) as (Hs' & _ & Hiff).
  destruct (map_get k' m) as [w|] eqn:E.
  - apply map_get_Some in E as (k1 & Hin & Hk); [|done]. apply map_get_Some; [done|].
    exists k1. split; [|done]. apply Hiff; [|done]. intros ?. destruct Hne. korder.
  - destruct (map_get k' (map_assign k v m)) as [w|] eqn:E2; [|done].
    apply map_get_Some in E2 as (k1 & Hin & Hk); [|done].
    destruct (map_get_None k' m Hs E k1 w); [|done]. apply Hiff; [|done].
    intros ?. destruct Hne. korder.
Qed.
End ord_map.

#[export] Hint Resolve ksorted_nil map_insert_sorted erase_range_sorted upper_bound_mono : ordmap.
