(* ===== verification/Tiling.v ===== *)
(** Ordered maps whose entries tile an interval: the key of an entry is the
    (excluded) upper end of its range, and the range starts where the previous
    entry ends.  The routing table, its per-shard view and the shard's own
    metadata all have this shape. *)

From stdpp Require Import base list sorting sets.
From Stdlib Require Import Lia.
From S2P Require Import Prelude OrdMap.

Section tiling.
Context {K V : Type} `{KeyOrderLaws K} (lower : V -> K).
Implicit Types (m : list (K * V)).

Fixpoint tiling (lo : K) m (hi : K) : Prop :=
  match m with
  | [] => lo ≅k hi
  | (k, v) :: m => lower v ≅k lo /\ lo ≺ k /\ tiling k m hi
  end.

#[global] Instance tiling_proper : Proper (keq ==> eq ==> keq ==> iff) tiling.
Proof.
  assert (Himp : forall lo lo' m hi hi', lo ≅k lo' -> hi ≅k hi' -> tiling lo m hi -> tiling lo' m hi').
  { intros lo lo' m hi hi' Hl Hh. revert lo lo' Hl. induction m as [|[k v] m IH]; simpl; intros lo lo' Hl.
    - intros ?. korder.
    - intros (? & ? & ?). split_and!; [korder..|]. eapply (IH k k); [korder|done]. }
  intros lo lo' Hl m ? <- hi hi' Hh. split; apply Himp; korder.
Qed.

Lemma tiling_le lo m hi : tiling lo m hi -> lo ≼ hi.
Proof.
  revert lo. induction m as [|[k v] m IH]; simpl; intros lo; [korder|].
  intros (_ & Hlt & Ht). specialize (IH k Ht). korder.
Qed.

Lemma tiling_in lo m hi k v :
  tiling lo m hi -> (k, v) ∈ m -> lo ≼ lower v /\ lower v ≺ k /\ k ≼ hi.
Proof.
  revert lo. induction m as [|[k1 v1] m IH]; simpl; intros lo; [by intros _ ?%not_elem_of_nil|].
  intros (Hv & Hlt & Ht) [[= -> ->]|Hin]%elem_of_cons.
  - pose proof (tiling_le _ _ _ Ht). split_and!; korder.
  - destruct (IH k1 Ht Hin) as (? & ? & ?). split_and!; korder.
Qed.

Lemma tiling_sorted lo m hi : tiling lo m hi -> ksorted m.
Proof.
  revert lo. induction m as [|[k v] m IH]; simpl; intros lo; [intros; apply ksorted_nil|].
  intros (Hv & Hlt & Ht). apply ksorted_cons. split; [by eapply IH|].
  intros k' v' Hin. destruct (tiling_in k m hi k' v' Ht Hin) as (? & ? & ?). korder.
Qed.

(** Entries do not overlap. *)
Lemma tiling_disjoint lo m hi k1 v1 k2 v2 :
  tiling lo m hi -> (k1, v1) ∈ m -> (k2, v2) ∈ m -> k1 ≺ k2 -> k1 ≼ lower v2.
Proof.
  revert lo. induction m as [|[k v] m IH]; simpl; intros lo; [by intros _ ?%not_elem_of_nil|].
  intros (Hv & Hlt & Ht) [[= -> ->]|H1]%elem_of_cons [[= -> ->]|H2]%elem_of_cons Hk.
  - korder.
  - by destruct (tiling_in k m hi k2 v2 Ht H2) as (? & _).
  - destruct (tiling_in k m hi k1 v1 Ht H1) as (? & ? & ?). korder.
  - by apply (IH k Ht).
Qed.

Lemma tiling_unique lo m hi k1 v1 k2 v2 p :
  tiling lo m hi -> (k1, v1) ∈ m -> (k2, v2) ∈ m ->
  lower v1 ≼ p -> p ≺ k1 -> lower v2 ≼ p -> p ≺ k2 -> (k1, v1) = (k2, v2).
Proof.
  intros Ht H1 H2 Ha Hb Hc Hd.
  assert (Heq : k1 ≅k k2).
  { destruct (kltb k1 k2) eqn:E1; [|destruct (kltb k2 k1) eqn:E2; [|korder]].
    - assert (k1 ≺ k2) by korder. pose proof (tiling_disjoint _ _ _ _ _ _ _ Ht H1 H2 H3). korder.
    - assert (k2 ≺ k1) by korder. pose proof (tiling_disjoint _ _ _ _ _ _ _ Ht H2 H1 H3). korder. }
  apply tiling_sorted in Ht. by eapply (ksorted_unique m).
Qed.

(** Every point has an entry, and [upper_bound] finds it. *)
Lemma tiling_lookup lo m hi p :
  tiling lo m hi -> lo ≼ p -> p ≺ hi ->
  exists k v, m !! upper_bound p m = Some (k, v) /\ (k, v) ∈ m /\ lower v ≼ p /\ p ≺ k.
Proof.
  revert lo. induction m as [|[k v] m IH]; simpl; intros lo; [intros; korder|].
  intros (Hv & Hlt & Ht) Hlo Hhi. destruct (kltb p k) eqn:E; simpl.
  - exists k, v. split_and!; [done|apply list_elem_of_here|korder..].
  - destruct (IH k Ht) as (k' & v' & ? & ? & ? & ?); [korder|done|].
    exists k', v'. split_and!; try done. by apply list_elem_of_further.
Qed.

(** Every end point inside the tiled interval is covered from below. *)
Lemma tiling_cover_end lo m hi p :
  tiling lo m hi -> lo ≺ p -> p ≼ hi -> exists k v, (k, v) ∈ m /\ lower v ≺ p /\ p ≼ k.
Proof.
  revert lo. induction m as [|[k v] m IH]; simpl; intros lo; [intros; korder|].
  intros (Hv & Hlt & Ht) Hlo Hhi. destruct (kleb p k) eqn:E.
  - exists k, v. split_and!; [apply list_elem_of_here|korder..].
  - destruct (IH k Ht) as (k' & v' & ? & ? & ?); [korder|done|].
    exists k', v'. split_and!; try done. by apply list_elem_of_further.
Qed.

(** The entries between [upper_bound(a)] and [upper_bound(b)], the latter
    included when it exists, are those that meet the closed interval [a, b]. *)
Lemma tiling_scan lo m hi a b x :
  tiling lo m hi -> lo ≼ b -> a ≼ b ->
  let e := upper_bound b m in
  let e := if Nat.eqb e (length m) then e else S e in
  x ∈ drop (upper_bound a m) (take e m) <-> x ∈ m /\ a ≺ x.1 /\ lower x.2 ≼ b.
Proof.
  revert lo. induction m as [|[k v] m IH]; intros lo; simpl; intros Ht Hlo Hab.
  - split; [by intros ?%not_elem_of_nil|by intros [?%not_elem_of_nil _]].
  - destruct Ht as (Hv & Hlt & Ht). destruct (kltb b k) eqn:Eb.
    + assert (Ea : kltb a k = true) by korder. rewrite Ea. cbn. rewrite take_0.
      rewrite list_elem_of_singleton, elem_of_cons. split.
      * intros ->. split_and!; [by left|simpl; korder..].
      * intros [[->|Hin] [Hx Hl]]; [done|]. destruct x as [kx vx]. simpl in *.
        destruct (tiling_in k m hi kx vx Ht Hin) as (? & _). korder.
    + specialize (IH k Ht ltac:(korder) Hab). cbn zeta in IH.
      assert (He : (if Nat.eqb (S (upper_bound b m)) (S (length m)) then S (upper_bound b m)
                    else S (S (upper_bound b m))) =
                   S (if Nat.eqb (upper_bound b m) (length m) then upper_bound b m
                      else S (upper_bound b m)))
        by (simpl; by destruct (Nat.eqb _ _)).
      rewrite He. cbn [take]. destruct (kltb a k) eqn:Ea.
      * assert (Hu : upper_bound a m = 0).
        { apply upper_bound_0. intros k' v' Hin.
          destruct (tiling_in k m hi k' v' Ht Hin) as (? & ? & _). korder. }
        rewrite Hu in IH. cbn [drop] in *. rewrite !elem_of_cons, IH. split.
        -- intros [->|(? & ? & ?)]; [split_and!; [by left|simpl; korder..]|auto].
        -- intros ([->|?] & ? & ?); auto.
      * cbn [drop]. rewrite IH, elem_of_cons. split.
        -- intros (? & ? & ?). auto.
        -- intros ([->|?] & ? & ?); [simpl in *; korder|done].
Qed.
End tiling.
