(* ===== verification/Bson.v ===== *)
(** BSON documents and their well-ordered comparison.

    [BSONElement]/[BSONObj] values with the numeric, string and nested-document
    comparisons of [base/compare_numbers.h], [bson/bsonelement.cpp] and
    [bson/bsonobj.cpp].  The order is shown to be a total preorder, which is
    the contract every ordered container of the sharding code relies on.
    Values of type [NumberDecimal] (Decimal128) are outside the model; [EOO]
    only occurs as the end of a document. *)

From S2P Require Import Prelude.
From stdpp Require Import base list strings.
From Stdlib Require Import ZArith Lia Ascii String.
Local Open Scope Z_scope.

(** * Numbers *)

(** An IEEE double as the exact value [m * 2^e]; both zeros are [DFin 0 _]. *)
Inductive Dbl :=
  | DNaN
  | DInf (neg : bool)
  | DFin (m e : Z).

(** The finite values are the binary64 ones. *)
Definition valid_dbl (d : Dbl) : bool :=
  match d with
  | DFin m e => (Z.abs m <? 2 ^ 53) && (-1074 <=? e) && (e <=? 971)
  | _ => true
  end.

Record Double := mkDouble { dbl : Dbl; dbl_ok : valid_dbl dbl = true }.
Record Int32 := mkInt32 { i32 : Z; i32_ok : in_i32 i32 = true }.
Record Int64 := mkInt64 { i64 : Z; i64_ok : in_i64 i64 = true }.
Record UInt64 := mkUInt64 { ui64 : Z; ui64_ok : in_u64 ui64 = true }.

Definition isnan (d : Dbl) : bool := match d with DNaN => true | _ => false end.

(** Exact comparison of [m1 * 2^e1] with [m2 * 2^e2]. *)
Definition dy_cmp (m1 e1 m2 e2 : Z) : comparison :=
  let k := Z.min e1 e2 in (m1 * 2 ^ (e1 - k) ?= m2 * 2 ^ (e2 - k)).

(** The IEEE relations [==] and [<]; both are false when an operand is NaN. *)
Definition d_eqb (a b : Dbl) : bool :=
  match a, b with
  | DInf s, DInf t => Bool.eqb s t
  | DFin m1 e1, DFin m2 e2 => match dy_cmp m1 e1 m2 e2 with Eq => true | _ => false end
  | _, _ => false
  end.

Definition d_ltb (a b : Dbl) : bool :=
  match a, b with
  | DNaN, _ | _, DNaN => false
  | DInf s, DInf t => s && negb t
  | DInf s, DFin _ _ => s
  | DFin _ _, DInf t => negb t
  | DFin m1 e1, DFin m2 e2 => match dy_cmp m1 e1 m2 e2 with Lt => true | _ => false end
  end.

(** Conversion of a double to an integer type: truncation toward zero. *)
Definition d_trunc (d : Dbl) : Z :=
  match d with
  | DFin m e => if 0 <=? e then m * 2 ^ e else Z.quot m (2 ^ (- e))
  | _ => 0
  end.

Definition compareInts (lhs rhs : Z) : Z :=
  if lhs =? rhs then 0 else if lhs <? rhs then -1 else 1.

Definition compareLongs (lhs rhs : Z) : Z :=
  if lhs =? rhs then 0 else if lhs <? rhs then -1 else 1.

Definition compareDoubles (lhs rhs : Dbl) : Z :=
  if d_eqb lhs rhs then 0
  else if d_ltb lhs rhs then -1
  else if d_ltb rhs lhs then 1
  else if isnan lhs then (if isnan rhs then 0 else -1)
  else 1.

Definition kEndOfPreciseDoubles : Z := 2 ^ 53.
Definition kBoundOfLongRange : Dbl := DFin 1 63.

Definition compareLongToDouble (lhs : Z) (rhs : Dbl) : Z :=
  if isnan rhs then 1
  else if (lhs <=? kEndOfPreciseDoubles) && (- kEndOfPreciseDoubles <=? lhs)
  then compareDoubles (DFin lhs 0) rhs
  else if d_ltb kBoundOfLongRange rhs || d_eqb kBoundOfLongRange rhs then -1
  else if d_ltb rhs (DFin (-1) 63) then 1
  else compareLongs lhs (d_trunc rhs).

Definition compareDoubleToLong (lhs : Dbl) (rhs : Z) : Z := - compareLongToDouble rhs lhs.

(** * Values, elements and documents *)

Inductive BSONType :=
  | MinKey | EOO | NumberDouble | String_t | Object | Array | BinData | Undefined | jstOID
  | Bool_t | Date | jstNULL | RegEx | DBRef | Code | Symbol | CodeWScope | NumberInt
  | bsonTimestamp | NumberLong | NumberDecimal | MaxKey.

#[global] Instance BSONType_eq_dec : EqDecision BSONType.
Proof. solve_decision. Defined.

(** A 12-byte object id. *)
Record OID := mkOID { oid_bytes : string; oid_ok : (String.length oid_bytes =? 12)%nat = true }.

(** A document is the sequence of its (field name, value) elements. *)
Inductive BSONValue :=
  | VMinKey
  | VDouble (d : Double)
  | VString (s : string)
  | VObject (o : list (string * BSONValue))
  | VArray (o : list (string * BSONValue))
  | VBinData (subtype : ascii) (bytes : string)
  | VUndefined
  | VOID (oid : OID)
  | VBool (b : bool)
  | VDate (d : Int64)
  | VNull
  | VRegEx (pattern flags : string)
  | VDBRef (ns : string) (oid : OID)
  | VCode (s : string)
  | VSymbol (s : string)
  | VCodeWScope (code : string) (scope : list (string * BSONValue))
  | VInt (z : Int32)
  | VTimestamp (t : UInt64)
  | VLong (z : Int64)
  | VMaxKey.

Definition BSONElement : Type := string * BSONValue.
Definition BSONObj : Type := list BSONElement.

Definition type_of (v : BSONValue) : BSONType :=
  match v with
  | VMinKey => MinKey | VDouble _ => NumberDouble | VString _ => String_t
  | VObject _ => Object | VArray _ => Array | VBinData _ _ => BinData
  | VUndefined => Undefined | VOID _ => jstOID | VBool _ => Bool_t | VDate _ => Date
  | VNull => jstNULL | VRegEx _ _ => RegEx | VDBRef _ _ => DBRef | VCode _ => Code
  | VSymbol _ => Symbol | VCodeWScope _ _ => CodeWScope | VInt _ => NumberInt
  | VTimestamp _ => bsonTimestamp | VLong _ => NumberLong | VMaxKey => MaxKey
  end.

Definition canonicalizeBSONType (t : BSONType) : Z :=
  match t with
  | MinKey => -1
  | MaxKey => 127
  | EOO | Undefined => 0
  | jstNULL => 5
  | NumberDecimal | NumberDouble | NumberInt | NumberLong => 10
  | String_t | Symbol => 15
  | Object => 20
  | Array => 25
  | BinData => 30
  | jstOID => 35
  | Bool_t => 40
  | Date => 45
  | bsonTimestamp => 47
  | RegEx => 50
  | DBRef => 55
  | Code => 60
  | CodeWScope => 65
  end.

Definition canonicalType (v : BSONValue) : Z := canonicalizeBSONType (type_of v).

(** [obj.getField(name)] / [obj[name]]: [None] stands for the EOO element. *)
Fixpoint getField (o : BSONObj) (name : string) : option BSONValue :=
  match o with
  | [] => None
  | (n, v) :: o => if String.eqb n name then Some v else getField o name
  end.

(** * C string and memory comparison *)

Fixpoint slen (s : string) : Z :=
  match s with EmptyString => 0 | String _ s => 1 + slen s end.

(** [memcmp(a, b, n)] on buffers of at least [n] bytes. *)
Fixpoint memcmp (a b : string) (n : nat) : Z :=
  match n, a, b with
  | S n, String c a, String d b =>
      if (N_of_ascii c =? N_of_ascii d)%N then memcmp a b n
      else Z.of_N (N_of_ascii c) - Z.of_N (N_of_ascii d)
  | _, _, _ => 0
  end.

(** [strcmp(a, b)]: NUL ends a string. *)
Fixpoint strcmp (a b : string) : Z :=
  match a, b with
  | String c a, String d b =>
      if (N_of_ascii c =? N_of_ascii d)%N
      then (if (N_of_ascii c =? 0)%N then 0 else strcmp a b)
      else Z.of_N (N_of_ascii c) - Z.of_N (N_of_ascii d)
  | String c _, EmptyString => Z.of_N (N_of_ascii c)
  | EmptyString, String d _ => - Z.of_N (N_of_ascii d)
  | EmptyString, EmptyString => 0
  end.

(** [StringData::compare] *)
Definition StringData_compare (a b : string) : Z :=
  let res := memcmp a b (Nat.min (String.length a) (String.length b)) in
  if negb (res =? 0) then (if 0 <? res then 1 else -1)
  else if slen a =? slen b then 0
  else if slen b <? slen a then 1 else -1.

Definition NUL : ascii := ascii_of_N 0.
Definition with_nul (s : string) : string := (s +:+ String NUL EmptyString)%string.

(** [compareElementStringValues]: sizes include the trailing NUL. *)
Definition compareElementStringValues (l r : string) : Z :=
  let lsz := slen (with_nul l) in
  let rsz := slen (with_nul r) in
  let common := Z.min lsz rsz in
  let res := memcmp (with_nul l) (with_nul r) (Z.to_nat common) in
  if negb (res =? 0) then res else lsz - rsz.

(** A little-endian 32-bit length. *)
Definition le32 (z : Z) : string :=
  let byte k := ascii_of_N (Z.to_N (Z.land (Z.shiftr z (8 * k)) 255)) in
  String (byte 0) (String (byte 1) (String (byte 2) (String (byte 3) EmptyString))).

(** The value bytes of a DBRef element. *)
Definition DBRef_value (ns : string) (oid : OID) : string :=
  (le32 (slen ns + 1) +:+ with_nul ns +:+ oid_bytes oid)%string.

#[global] Arguments DBRef_value : simpl never.

Definition OID_kOIDSize : nat := 12.

(** * Element and document comparison *)

Section compare.
(** [StringData::ComparatorInterface*]; [None] is the null pointer, that is,
    the simple binary collation. *)
Definition StringComparator : Type := option (string -> string -> Z).

(** [BSONElement::woCompare], over the comparison of two values with the same
    canonical type. [rules] is the [kConsiderFieldName] bit. *)
Definition elem_woCompare (ce : BSONValue -> BSONValue -> Z) (rules : bool)
    (l r : BSONElement) : Z :=
  let diff := if decide (type_of l.2 = type_of r.2) then 0
              else canonicalType l.2 - canonicalType r.2 in
  if negb (diff =? 0) then diff
  else
    let diff := if rules then StringData_compare l.1 r.1 else 0 in
    if negb (diff =? 0) then diff else ce l.2 r.2.

(** [element.number() < 0] for an element of an index key pattern. *)
Definition number_neg (v : BSONValue) : bool :=
  match v with
  | VInt z => i32 z <? 0
  | VLong z => i64 z <? 0
  | VDouble d => d_ltb (dbl d) (DFin 0 0)
  | _ => false
  end.

(** The loop of [compareObjects<BSONObjIterator>]. *)
Fixpoint objects_loop (we : BSONElement -> BSONElement -> Z) (idxKey : BSONObj)
    (a b : BSONObj) : Z :=
  match a, b with
  | [], [] => 0
  | [], _ :: _ => -1
  | _ :: _, [] => 1
  | l :: a, r :: b =>
      let x := we l r in
      let '(x, idxKey) :=
        match idxKey with
        | [] => (x, [])
        | (_, v) :: idxKey => (if number_neg v then - x else x, idxKey)
        end in
      if negb (x =? 0) then x else objects_loop we idxKey a b
  end.

(** [BSONElement::compareElements].  It is called on values of the same
    canonical type; the combinations the code marks unreachable give [0]. *)
Fixpoint compareElements (comparator : StringComparator) (l r : BSONValue) : Z :=
  match l, r with
  | (VUndefined | VNull | VMaxKey | VMinKey), _ =>
      let f := canonicalType l - canonicalType r in
      if f <? 0 then -1 else if f =? 0 then 0 else 1
  | VBool a, VBool b => Z.b2z a - Z.b2z b
  | VTimestamp a, VTimestamp b =>
      if ui64 a <? ui64 b then -1 else if ui64 a =? ui64 b then 0 else 1
  | VDate a, VDate b => if i64 a <? i64 b then -1 else if i64 a =? i64 b then 0 else 1
  | VInt a, VInt b => compareInts (i32 a) (i32 b)
  | VInt a, VLong b => compareLongs (i32 a) (i64 b)
  | VInt a, VDouble b => compareDoubles (DFin (i32 a) 0) (dbl b)
  | VLong a, VLong b => compareLongs (i64 a) (i64 b)
  | VLong a, VInt b => compareLongs (i64 a) (i32 b)
  | VLong a, VDouble b => compareLongToDouble (i64 a) (dbl b)
  | VDouble a, VDouble b => compareDoubles (dbl a) (dbl b)
  | VDouble a, VInt b => compareDoubles (dbl a) (DFin (i32 b) 0)
  | VDouble a, VLong b => compareDoubleToLong (dbl a) (i64 b)
  | VOID a, VOID b => memcmp (oid_bytes a) (oid_bytes b) OID_kOIDSize
  | VCode a, VCode b => compareElementStringValues a b
  | (VString a | VSymbol a), (VString b | VSymbol b) =>
      match comparator with
      | Some compare => compare a b
      | None => compareElementStringValues a b
      end
  | VObject a, VObject b | VArray a, VArray b =>
      objects_loop (elem_woCompare (compareElements comparator) true) [] a b
  | VDBRef na oa, VDBRef nb ob =>
      let va := DBRef_value na oa in
      let vb := DBRef_value nb ob in
      if negb (slen va - slen vb =? 0) then slen va - slen vb
      else memcmp va vb (String.length va)
  | VBinData sa a, VBinData sb b =>
      if negb (slen a - slen b =? 0) then slen a - slen b
      else memcmp (String sa a) (String sb b) (S (String.length a))
  | VRegEx pa fa, VRegEx pb fb =>
      let c := strcmp pa pb in
      if negb (c =? 0) then c else strcmp fa fb
  | VCodeWScope ca sa, VCodeWScope cb sb =>
      let c := StringData_compare ca cb in
      if negb (c =? 0) then c
      else objects_loop (elem_woCompare (compareElements None) true) [] sa sb
  | _, _ => 0
  end.

Definition BSONElement_woCompare (rules : bool) (comparator : StringComparator)
    (l r : BSONElement) : Z :=
  elem_woCompare (compareElements comparator) rules l r.

(** [BSONObj::woCompare(r, idxKey, rules, comparator)] without
    [kIgnoreFieldOrder]. *)
Definition BSONObj_woCompare_gen (idxKey : BSONObj) (rules : bool)
    (comparator : StringComparator) (a b : BSONObj) : Z :=
  objects_loop (BSONElement_woCompare rules comparator) idxKey a b.

(** [a.woCompare(b)] with the default arguments; also
    [SimpleBSONObjComparator::compare]. *)
Definition woCompare (a b : BSONObj) : Z := BSONObj_woCompare_gen [] true None a b.
End compare.
#[global] Arguments woCompare : simpl never.

(** Comparison of two elements without their field names. *)
Definition value_woCompare (a b : BSONValue) : Z :=
  BSONElement_woCompare false None (EmptyString, a) (EmptyString, b).
#[global] Arguments value_woCompare : simpl never.

(** * The order is total *)

Section numbers.
Lemma dy_cmp_scale k m1 e1 m2 e2 :
  k <= e1 -> k <= e2 -> dy_cmp m1 e1 m2 e2 = (m1 * 2 ^ (e1 - k) ?= m2 * 2 ^ (e2 - k)).
Proof.
  intros H1 H2. unfold dy_cmp. set (k' := Z.min e1 e2).
  replace (e1 - k) with ((e1 - k') + (k' - k)) by lia.
  replace (e2 - k) with ((e2 - k') + (k' - k)) by lia.
  rewrite !Z.pow_add_r, !Z.mul_assoc by lia.
  apply Zmult_compare_compat_r. pose proof (Z.pow_pos_nonneg 2 (k' - k)). lia.
Qed.

Lemma dy_cmp_int a b : dy_cmp a 0 b 0 = (a ?= b).
Proof. unfold dy_cmp. simpl. by rewrite !Z.mul_1_r. Qed.

(** The numeric order: NaN, then the reals with both infinities. *)
Definition drank (d : Dbl) : Z :=
  match d with DNaN => 0 | DInf true => 1 | DFin _ _ => 2 | DInf false => 3 end.
Definition dcmp (a b : Dbl) : comparison :=
  lexc (drank a ?= drank b)
    (match a, b with DFin m1 e1, DFin m2 e2 => dy_cmp m1 e1 m2 e2 | _, _ => Eq end).

Lemma dcmp_refl a : dcmp a a = Eq.
Proof. unfold dcmp. rewrite Z.compare_refl. destruct a; simpl; [done..|]. apply Z.compare_refl. Qed.

Lemma dcmp_opp a b : dcmp b a = CompOpp (dcmp a b).
Proof.
  unfold dcmp. rewrite lexc_opp, <- Z.compare_antisym. f_equal.
  destruct a, b; try done. unfold dy_cmp. by rewrite <- Z.compare_antisym, Z.min_comm.
Qed.

Lemma dcmp_comp a b c : comp_ok (dcmp a b) (dcmp b c) (dcmp a c).
Proof.
  apply lexc_comp_ok'; [apply Zcompare_comp_ok|].
  intros Hab%Z.compare_eq_iff Hbc%Z.compare_eq_iff.
  destruct a as [|[]|ma ea], b as [|[]|mb eb], c as [|[]|mc ec]; simpl in *; try done; try lia.
  rewrite !(dy_cmp_scale (Z.min ea (Z.min eb ec))) by lia. apply Zcompare_comp_ok.
Qed.

(** [compareDoubles] is the numeric order. *)
Lemma compareDoubles_spec a b : sgc (compareDoubles a b) = dcmp a b.
Proof.
  unfold compareDoubles, dcmp.
  destruct a as [|[]|ma ea], b as [|[]|mb eb]; simpl; try done.
  cbn [lexc].
  assert (Hs : dy_cmp mb eb ma ea = CompOpp (dy_cmp ma ea mb eb)).
  { unfold dy_cmp. by rewrite <- Z.compare_antisym, Z.min_comm. }
  rewrite Hs. by destruct (dy_cmp ma ea mb eb).
Qed.

Lemma compareLongs_spec a b : sgc (compareLongs a b) = (a ?= b).
Proof.
  unfold compareLongs. destruct (Z.eqb_spec a b), (Z.ltb_spec a b), (Z.compare_spec a b);
    try done; lia.
Qed.

Lemma dcmp_ints a b : dcmp (DFin a 0) (DFin b 0) = (a ?= b).
Proof. unfold dcmp. simpl. apply dy_cmp_int. Qed.

(** A double below [2^53] in magnitude compares with a larger integer as its
    sign says. *)
Lemma dcmp_large_neg_exp z m e :
  2 ^ 53 < Z.abs z -> Z.abs m < 2 ^ 53 -> e < 0 ->
  dcmp (DFin z 0) (DFin m e) = (z ?= Z.quot m (2 ^ (- e))).
Proof.
  intros Hz Hm He. unfold dcmp. simpl. unfold dy_cmp.
  rewrite Z.min_r, Z.sub_diag, Z.mul_1_r by lia.
  replace (0 - e) with (- e) by lia.
  assert (Hp : 2 <= 2 ^ (- e)).
  { change 2 with (2 ^ 1) at 1. apply Z.pow_le_mono_r; lia. }
  assert (Hq : Z.abs (Z.quot m (2 ^ (- e))) <= Z.abs m).
  { rewrite <- Z.quot_abs by lia. rewrite (Z.abs_eq (2 ^ (- e))) by lia.
    apply Z.quot_le_upper_bound; nia. }
  destruct (Z.compare_spec (z * 2 ^ (- e)) m), (Z.compare_spec z (Z.quot m (2 ^ (- e))));
    try done; nia.
Qed.

Lemma dcmp_large_nonneg_exp z m e :
  0 <= e -> dcmp (DFin z 0) (DFin m e) = (z ?= m * 2 ^ e).
Proof.
  intros He. unfold dcmp. simpl. unfold dy_cmp.
  rewrite Z.min_l, !Z.sub_0_r, Z.mul_1_r by lia. done.
Qed.

Lemma d_ltb_spec a b : d_ltb a b = true -> dcmp a b = Lt.
Proof.
  unfold dcmp. destruct a as [|[]|], b as [|[]|]; simpl; try done.
  by destruct (dy_cmp _ _ _ _).
Qed.
Lemma d_eqb_spec a b : d_eqb a b = true -> dcmp a b = Eq.
Proof.
  unfold dcmp. destruct a as [|[]|], b as [|[]|]; simpl; try done.
  by destruct (dy_cmp _ _ _ _).
Qed.

(** Every int64 is strictly below [2^63] and at least [-2^63]. *)
Lemma dcmp_i64_upper z : in_i64 z = true -> dcmp (DFin z 0) (DFin 1 63) = Lt.
Proof.
  unfold in_i64. intros [? ?]%andb_true_iff. rewrite dcmp_large_nonneg_exp by lia.
  apply Z.compare_lt_iff. lia.
Qed.
Lemma dcmp_i64_lower z : in_i64 z = true -> dcmp (DFin z 0) (DFin (-1) 63) <> Lt.
Proof.
  unfold in_i64. intros [? ?]%andb_true_iff. rewrite dcmp_large_nonneg_exp by lia.
  rewrite Z.compare_lt_iff. lia.
Qed.

(** The mixed comparison agrees with the exact numeric order on every int64
    and every double. *)
Lemma compareLongToDouble_spec z d :
  in_i64 z = true -> valid_dbl d = true ->
  sgc (compareLongToDouble z d) = dcmp (DFin z 0) d.
Proof.
  intros Hz Hd. unfold compareLongToDouble.
  destruct (isnan d) eqn:Hn; [by destruct d|].
  destruct ((z <=? kEndOfPreciseDoubles) && (- kEndOfPreciseDoubles <=? z)) eqn:Hp;
    [apply compareDoubles_spec|].
  pose proof (dcmp_i64_upper z Hz) as Hu. pose proof (dcmp_i64_lower z Hz) as Hl.
  destruct (d_ltb kBoundOfLongRange d || d_eqb kBoundOfLongRange d) eqn:Hb.
  { pose proof (dcmp_comp (DFin z 0) (DFin 1 63) d) as Hc. rewrite Hu in Hc.
    apply orb_true_iff in Hb as [Hb%d_ltb_spec|Hb%d_eqb_spec];
      unfold kBoundOfLongRange in Hb; rewrite Hb in Hc; simpl in Hc; by rewrite Hc. }
  destruct (d_ltb d (DFin (-1) 63)) eqn:Hlo.
  { apply d_ltb_spec in Hlo. pose proof (dcmp_comp (DFin z 0) (DFin (-1) 63) d) as Hc.
    rewrite (dcmp_opp d (DFin (-1) 63)), Hlo in Hc. simpl in Hc.
    revert Hl Hc. destruct (dcmp (DFin z 0) (DFin (-1) 63)); simpl; intros ? Hc;
      [by rewrite Hc|done|by rewrite Hc]. }
  rewrite compareLongs_spec. destruct d as [|[]|m e]; try done.
  simpl d_trunc. simpl in Hd. unfold kEndOfPreciseDoubles in Hp. symmetry.
  destruct (Z.leb_spec 0 e); [by apply dcmp_large_nonneg_exp|].
  apply dcmp_large_neg_exp; [|lia|done].
  apply andb_false_iff in Hp as [Hp%Z.leb_gt|Hp%Z.leb_gt]; lia.
Qed.
End numbers.

Section strings.
Definition acmp (c d : ascii) : comparison := (Z.of_N (N_of_ascii c) ?= Z.of_N (N_of_ascii d)).

(** Lexicographic order of byte strings. *)
Fixpoint slex (a b : string) : comparison :=
  match a, b with
  | EmptyString, EmptyString => Eq
  | EmptyString, _ => Lt
  | _, EmptyString => Gt
  | String c a, String d b => lexc (acmp c d) (slex a b)
  end.

Lemma acmp_refl c : acmp c c = Eq.
Proof. apply Z.compare_refl. Qed.
Lemma acmp_eq c d : acmp c d = Eq -> c = d.
Proof.
  unfold acmp. intros Heq%Z.compare_eq_iff%N2Z.inj.
  rewrite <- (ascii_N_embedding c), <- (ascii_N_embedding d). by f_equal.
Qed.

Lemma slex_refl a : slex a a = Eq.
Proof. induction a; simpl; [done|]. by rewrite acmp_refl. Qed.

Lemma slex_opp a b : slex b a = CompOpp (slex a b).
Proof.
  revert b; induction a as [|c a IH]; intros [|d b]; simpl; try done.
  rewrite lexc_opp, <- IH. unfold acmp. by rewrite <- Z.compare_antisym.
Qed.

Lemma slex_comp a b c : comp_ok (slex a b) (slex b c) (slex a c).
Proof.
  revert b c; induction a as [|x a IH]; intros [|y b] [|z c]; simpl; try done;
    try (destruct (lexc _ _); done).
  apply lexc_comp_ok; [apply Zcompare_comp_ok|apply IH].
Qed.

Lemma slex_eq a b : slex a b = Eq -> a = b.
Proof.
  revert b; induction a as [|c a IH]; intros [|d b]; simpl; try done.
  destruct (acmp c d) eqn:E; simpl; try done. intros Hs. f_equal; [by apply acmp_eq|auto].
Qed.

(** One step of a byte loop. *)
Lemma sgc_byte_step c d z :
  sgc (if (N_of_ascii c =? N_of_ascii d)%N then z
       else Z.of_N (N_of_ascii c) - Z.of_N (N_of_ascii d)) = lexc (acmp c d) (sgc z).
Proof.
  unfold acmp. destruct (N.eqb_spec (N_of_ascii c) (N_of_ascii d)) as [->|Hne].
  - by rewrite Z.compare_refl.
  - rewrite sgc_sub. destruct (Z.compare_spec (Z.of_N (N_of_ascii c)) (Z.of_N (N_of_ascii d)));
      simpl; try done. lia.
Qed.

Lemma slen_nonneg a : 0 <= slen a.
Proof. induction a; simpl; lia. Qed.
Lemma slen_length a : slen a = Z.of_nat (String.length a).
Proof. induction a; simpl slen; simpl String.length; lia. Qed.

Lemma memcmp_same_length a b :
  String.length a = String.length b -> sgc (memcmp a b (String.length a)) = slex a b.
Proof.
  revert b; induction a as [|c a IH]; intros [|d b]; simpl; try done.
  intros [= Hl]. rewrite sgc_byte_step, IH; done.
Qed.

Lemma memcmp_slex a b :
  lexc (sgc (memcmp a b (Nat.min (String.length a) (String.length b)))) (slen a ?= slen b) =
  slex a b.
Proof.
  revert b; induction a as [|c a IH]; intros [|d b]; simpl; try done.
  - pose proof (slen_nonneg b). by destruct (1 + slen b) eqn:?; try lia.
  - pose proof (slen_nonneg a). by destruct (1 + slen a) eqn:?; try lia.
  - rewrite sgc_byte_step, lexc_assoc. rewrite <- IH. by rewrite Z.add_compare_mono_l.
Qed.

Lemma StringData_compare_spec a b : sgc (StringData_compare a b) = slex a b.
Proof.
  rewrite <- memcmp_slex. unfold StringData_compare, sgc.
  set (res := memcmp _ _ _).
  destruct (Z.eqb_spec res 0), (Z.compare_spec res 0), (Z.ltb_spec 0 res); simpl; try done; try lia;
    destruct (Z.eqb_spec (slen a) (slen b)), (Z.ltb_spec (slen b) (slen a)),
      (Z.compare_spec (slen a) (slen b)); try done; lia.
Qed.

Lemma with_nul_cons c a : with_nul (String c a) = String c (with_nul a).
Proof. done. Qed.

Lemma compareElementStringValues_cons c a d b :
  sgc (compareElementStringValues (String c a) (String d b)) =
  lexc (acmp c d) (sgc (compareElementStringValues a b)).
Proof.
  unfold compareElementStringValues. rewrite !with_nul_cons.
  pose proof (slen_nonneg (with_nul a)). pose proof (slen_nonneg (with_nul b)).
  cbn [slen]. rewrite Z.add_min_distr_l.
  replace (Z.to_nat (1 + Z.min (slen (with_nul a)) (slen (with_nul b))))
    with (S (Z.to_nat (Z.min (slen (with_nul a)) (slen (with_nul b))))) by lia.
  replace (1 + slen (with_nul a) - (1 + slen (with_nul b)))
    with (slen (with_nul a) - slen (with_nul b)) by lia.
  cbn [memcmp]. rewrite !sgc_if, sgc_byte_step.
  by rewrite lexc_assoc.
Qed.

Lemma slen_with_nul a : slen (with_nul a) = slen a + 1.
Proof. induction a as [|c a IH]; [done|]. rewrite with_nul_cons. cbn [slen]. lia. Qed.

Lemma compareElementStringValues_opp a b :
  sgc (compareElementStringValues b a) = CompOpp (sgc (compareElementStringValues a b)).
Proof.
  assert (Hm : forall x y n, memcmp y x n = - memcmp x y n).
  { induction x as [|c x IH]; intros [|d y] [|n]; simpl; try done.
    rewrite IH, (N.eqb_sym (N_of_ascii d)).
    destruct (N_of_ascii c =? N_of_ascii d)%N; lia. }
  rewrite <- sgc_opp. f_equal. unfold compareElementStringValues.
  rewrite (Hm (with_nul a)), (Z.min_comm (slen (with_nul b))).
  set (m := memcmp (with_nul a) (with_nul b) _).
  destruct (Z.eqb_spec m 0), (Z.eqb_spec (- m) 0); simpl; lia.
Qed.

Lemma compareElementStringValues_nil d b :
  sgc (compareElementStringValues EmptyString (String d b)) = Lt.
Proof.
  unfold compareElementStringValues. rewrite !slen_with_nul, with_nul_cons.
  pose proof (slen_nonneg b). cbn [slen]. rewrite Z.min_l by lia.
  change (Z.to_nat (0 + 1)) with 1%nat. change (with_nul EmptyString) with (String NUL EmptyString).
  cbn [memcmp]. apply sgc_lt.
  destruct (N.eqb_spec (N_of_ascii NUL) (N_of_ascii d)) as [E|E]; simpl; [lia|].
  change (N_of_ascii NUL) with 0%N in *.
  destruct (Z.eqb_spec (0 - Z.of_N (N_of_ascii d)) 0); simpl; lia.
Qed.

(** The NUL-terminated comparison of string values is the lexicographic
    order, even for strings with embedded NUL bytes. *)
Lemma compareElementStringValues_spec a b : sgc (compareElementStringValues a b) = slex a b.
Proof.
  revert b; induction a as [|c a IH]; intros [|d b].
  - done.
  - apply compareElementStringValues_nil.
  - by rewrite compareElementStringValues_opp, compareElementStringValues_nil.
  - rewrite compareElementStringValues_cons, IH. done.
Qed.

(** A C string stops at its first NUL byte. *)
Fixpoint cstr (s : string) : string :=
  match s with
  | EmptyString => EmptyString
  | String c s => if (N_of_ascii c =? 0)%N then EmptyString else String c (cstr s)
  end.

Lemma strcmp_spec a b : sgc (strcmp a b) = slex (cstr a) (cstr b).
Proof.
  revert b; induction a as [|c a IH]; intros [|d b]; simpl; [done|..].
  - rewrite sgc_opp. destruct (N.eqb_spec (N_of_ascii d) 0) as [->|]; [done|].
    simpl. by destruct (N_of_ascii d).
  - destruct (N.eqb_spec (N_of_ascii c) 0) as [->|]; [done|]. simpl. by destruct (N_of_ascii c).
  - rewrite sgc_byte_step. unfold acmp.
    destruct (N.eqb_spec (N_of_ascii c) 0) as [Hc|Hc], (N.eqb_spec (N_of_ascii d) 0) as [Hd|Hd];
      rewrite ?Hc, ?Hd; simpl; [done|by destruct (N_of_ascii d)|by destruct (N_of_ascii c)|].
    by rewrite IH.
Qed.

#[global] Instance string_KeyOrder : KeyOrder string := slex.
#[global] Instance string_KeyOrderLaws : KeyOrderLaws string.
Proof. split; [apply slex_refl|apply slex_opp|apply slex_comp]. Qed.
End strings.

Section documents.
(** Induction over values that goes through nested documents. *)
Lemma BSONValue_nested_ind (P : BSONValue -> Prop) :
  (forall v, match v with VObject _ | VArray _ | VCodeWScope _ _ => False | _ => True end -> P v) ->
  (forall o, Forall (fun e => P e.2) o -> P (VObject o)) ->
  (forall o, Forall (fun e => P e.2) o -> P (VArray o)) ->
  (forall c o, Forall (fun e => P e.2) o -> P (VCodeWScope c o)) ->
  forall v, P v.
Proof.
  intros Hb Ho Ha Hc. fix IH 1. intros v.
  assert (Hl : forall o : BSONObj, Forall (fun e => P e.2) o).
  { fix IHl 1. intros [|[n w] o]; constructor; [apply IH|apply IHl]. }
  destruct v; try (apply Hb; exact I); [apply Ho|apply Ha|apply Hc]; apply Hl.
Qed.

(** The laws of a three-way comparison at a fixed first operand. *)
Record laws_at {A} (R : A -> A -> Prop) (c : A -> A -> Z) (x : A) : Prop := {
  la_refl : c x x = 0;
  la_opp y : R x y -> sgc (c y x) = CompOpp (sgc (c x y));
  la_comp y z : R x y -> R y z -> comp_ok (sgc (c x y)) (sgc (c y z)) (sgc (c x z))
}.

Definition same_canon (x y : BSONValue) : Prop := canonicalType x = canonicalType y.
Definition any {A} (x y : A) : Prop := True.

Lemma elem_woCompare_lex ce rules n1 v1 n2 v2 :
  sgc (elem_woCompare ce rules (n1, v1) (n2, v2)) =
  lexc (canonicalType v1 ?= canonicalType v2)
    (lexc (if rules then slex n1 n2 else Eq) (sgc (ce v1 v2))).
Proof.
  unfold elem_woCompare; simpl. rewrite !sgc_if.
  f_equal; [|f_equal].
  - case_decide as Hd; [|apply sgc_sub]. unfold canonicalType. by rewrite Hd, Z.compare_refl.
  - destruct rules; [apply StringData_compare_spec|done].
Qed.

Lemma elem_laws ce rules n v :
  laws_at same_canon ce v -> laws_at any (elem_woCompare ce rules) (n, v).
Proof.
  intros [Hr Ho Hc]. split.
  - apply sgc_eq. rewrite elem_woCompare_lex, Z.compare_refl, Hr.
    destruct rules; [by rewrite slex_refl|done].
  - intros [n' v'] _. rewrite !elem_woCompare_lex, !lexc_opp, <- Z.compare_antisym.
    destruct (Z.compare_spec (canonicalType v') (canonicalType v)) as [He| |]; simpl; [|done..].
    rewrite (Ho v') by done. f_equal. destruct rules; [apply slex_opp|done].
  - intros [n1 v1] [n2 v2] _ _. rewrite !elem_woCompare_lex.
    apply lexc_comp_ok'; [apply Zcompare_comp_ok|].
    intros H1%Z.compare_eq_iff H2%Z.compare_eq_iff.
    apply lexc_comp_ok; [destruct rules; [apply slex_comp|done]|by apply Hc].
Qed.

(** How the key pattern flips the comparison of its first field. *)
Definition idx_flip (idxKey : BSONObj) (c : comparison) : comparison :=
  match idxKey with
  | (_, v) :: _ => if number_neg v then CompOpp c else c
  | [] => c
  end.

Lemma objects_loop_cons we idx l a r b :
  sgc (objects_loop we idx (l :: a) (r :: b)) =
  lexc (idx_flip idx (sgc (we l r))) (sgc (objects_loop we (tail idx) a b)).
Proof.
  simpl. destruct idx as [|[n v] idx]; simpl;
    rewrite sgc_if; [done|].
  destruct (number_neg v); [by rewrite sgc_opp|done].
Qed.

Lemma idx_flip_opp idx c : CompOpp (idx_flip idx c) = idx_flip idx (CompOpp c).
Proof. destruct idx as [|[n v] idx]; simpl; [done|]. by destruct (number_neg v). Qed.

Lemma idx_flip_comp_ok idx a b c :
  comp_ok a b c -> comp_ok (idx_flip idx a) (idx_flip idx b) (idx_flip idx c).
Proof.
  destruct idx as [|[n v] idx]; simpl; [done|].
  destruct (number_neg v); [apply comp_ok_opp|done].
Qed.

Lemma objects_loop_laws we idx o :
  Forall (laws_at any we) o -> laws_at any (objects_loop we idx) o.
Proof.
  revert idx; induction o as [|l o IH]; intros idx Hall.
  - split; [done|by intros [|? ?]|].
    intros [|? ?] [|? ?] _ _; try done. apply comp_ok_Lt.
  - apply Forall_cons in Hall as [Hl Ho]. specialize (IH (tail idx) Ho). split.
    + apply sgc_eq. rewrite objects_loop_cons, (la_refl _ _ _ Hl), (la_refl _ _ _ IH).
      destruct idx as [|[n v] idx]; simpl; [done|by destruct (number_neg v)].
    + intros [|r b] _; [done|]. rewrite !objects_loop_cons, lexc_opp, idx_flip_opp.
      by rewrite <- (la_opp _ _ _ Hl r), <- (la_opp _ _ _ IH b).
    + intros [|r b] [|s c] _ _; try done.
      * apply comp_ok_Gt.
      * rewrite !objects_loop_cons. apply lexc_comp_ok.
        -- by apply idx_flip_comp_ok, Hl.
        -- by apply IH.
Qed.

(** Numbers compare by their exact value, whatever their types. *)
Definition num_of (v : BSONValue) : option Dbl :=
  match v with
  | VInt z => Some (DFin (i32 z) 0)
  | VLong z => Some (DFin (i64 z) 0)
  | VDouble d => Some (dbl d)
  | _ => None
  end.

Lemma compareElements_num cmp l r a b :
  num_of l = Some a -> num_of r = Some b -> sgc (compareElements cmp l r) = dcmp a b.
Proof.
  destruct l; try discriminate; destruct r; try discriminate; cbn [num_of compareElements];
    intros [= <-] [= <-].
  - apply compareDoubles_spec.
  - apply compareDoubles_spec.
  - unfold compareDoubleToLong.
    rewrite sgc_opp, compareLongToDouble_spec, <- dcmp_opp by auto using i64_ok, dbl_ok. done.
  - apply compareDoubles_spec.
  - rewrite dcmp_ints. apply compareLongs_spec.
  - rewrite dcmp_ints. apply compareLongs_spec.
  - apply compareLongToDouble_spec; auto using i64_ok, dbl_ok.
  - rewrite dcmp_ints. apply compareLongs_spec.
  - rewrite dcmp_ints. apply compareLongs_spec.
Qed.

Definition str_of (v : BSONValue) : option string :=
  match v with VString s | VSymbol s => Some s | _ => None end.

Lemma compareElements_str l r a b :
  str_of l = Some a -> str_of r = Some b -> sgc (compareElements None l r) = slex a b.
Proof.
  destruct l; try discriminate; destruct r; try discriminate; cbn [str_of compareElements];
    intros [= <-] [= <-]; apply compareElementStringValues_spec.
Qed.

Definition is_scalar (v : BSONValue) : bool :=
  match v with VObject _ | VArray _ | VCodeWScope _ _ => false | _ => true end.

(** What the comparison of two scalars of one canonical type computes. *)
Definition scalar_cmp (l r : BSONValue) : comparison :=
  match num_of l, num_of r, str_of l, str_of r with
  | Some a, Some b, _, _ => dcmp a b
  | _, _, Some a, Some b => slex a b
  | _, _, _, _ =>
      match l, r with
      | VBool a, VBool b => (Z.b2z a ?= Z.b2z b)
      | VTimestamp a, VTimestamp b => (ui64 a ?= ui64 b)
      | VDate a, VDate b => (i64 a ?= i64 b)
      | VOID a, VOID b => slex (oid_bytes a) (oid_bytes b)
      | VCode a, VCode b => slex a b
      | VDBRef na oa, VDBRef nb ob =>
          lexc (slen (DBRef_value na oa) ?= slen (DBRef_value nb ob))
            (slex (DBRef_value na oa) (DBRef_value nb ob))
      | VBinData sa a, VBinData sb b =>
          lexc (slen a ?= slen b) (slex (String sa a) (String sb b))
      | VRegEx pa fa, VRegEx pb fb =>
          lexc (slex (cstr pa) (cstr pb)) (slex (cstr fa) (cstr fb))
      | _, _ => Eq
      end
  end.

Lemma sgc_three_way a b :
  sgc (if a <? b then -1 else if a =? b then 0 else 1) = (a ?= b).
Proof.
  destruct (Z.ltb_spec a b), (Z.eqb_spec a b), (Z.compare_spec a b); try done; lia.
Qed.

(** Sizes first, then the bytes: the bytes are only read when the sizes tie. *)
Lemma sgc_size_then_bytes (x y : Z) (a b : string) n :
  (x = y -> n = String.length a /\ String.length a = String.length b) ->
  sgc (if negb (x - y =? 0) then x - y else memcmp a b n) = lexc (x ?= y) (slex a b).
Proof.
  intros Hn. rewrite sgc_if, sgc_sub.
  destruct (Z.compare_spec x y) as [He| |]; simpl; [|done..].
  destruct (Hn He) as [-> Hl]. by apply memcmp_same_length.
Qed.

Lemma oid_length o : String.length (oid_bytes o) = OID_kOIDSize.
Proof. destruct o as [b Hb]. simpl. by apply Nat.eqb_eq. Qed.

Lemma compareElements_scalar l r :
  is_scalar l = true -> same_canon l r -> sgc (compareElements None l r) = scalar_cmp l r.
Proof.
  unfold scalar_cmp. intros Hs Hc.
  destruct (num_of l) eqn:Hl, (num_of r) eqn:Hr;
    [by apply compareElements_num|destruct l, r; discriminate..|].
  destruct (str_of l) eqn:Hl', (str_of r) eqn:Hr';
    [by apply compareElements_str|destruct l, r; discriminate..|].
  destruct l; try discriminate; destruct r; try discriminate; cbn [compareElements];
    try reflexivity; try apply sgc_three_way.
  - (* BinData *) apply sgc_size_then_bytes. rewrite !slen_length. simpl. lia.
  - (* OID *) rewrite <- (oid_length oid). apply memcmp_same_length. by rewrite !oid_length.
  - apply sgc_sub.
  - rewrite sgc_if. by rewrite !strcmp_spec.
  - apply sgc_size_then_bytes. rewrite !slen_length. lia.
  - apply compareElementStringValues_spec.
Qed.

Lemma scalar_cmp_refl v : scalar_cmp v v = Eq.
Proof.
  unfold scalar_cmp.
  destruct v; cbn [num_of str_of]; rewrite ?dcmp_refl, ?slex_refl, ?Z.compare_refl; reflexivity.
Qed.

Lemma scalar_cmp_opp l r : scalar_cmp r l = CompOpp (scalar_cmp l r).
Proof.
  unfold scalar_cmp. destruct l, r; cbn [num_of str_of]; try reflexivity;
    first [apply dcmp_opp|apply slex_opp|apply Z.compare_antisym|idtac];
    rewrite lexc_opp; f_equal; first [apply slex_opp|apply Z.compare_antisym].
Qed.

Lemma scalar_cmp_comp x y z :
  same_canon x y -> same_canon y z ->
  comp_ok (scalar_cmp x y) (scalar_cmp y z) (scalar_cmp x z).
Proof.
  unfold scalar_cmp. intros Hxy Hyz.
  destruct x, y; try discriminate Hxy; destruct z; try discriminate Hyz; cbn [num_of str_of];
    try reflexivity; repeat first [apply dcmp_comp | apply slex_comp | apply Zcompare_comp_ok
                                  | apply lexc_comp_ok].
Qed.

Lemma same_canon_scalar v y : is_scalar v = true -> same_canon v y -> is_scalar y = true.
Proof. intros Hv Hy. destruct y; try reflexivity; destruct v; discriminate. Qed.

Lemma scalar_laws v : is_scalar v = true -> laws_at same_canon (compareElements None) v.
Proof.
  intros Hs. split.
  - apply sgc_eq. rewrite compareElements_scalar by done. apply scalar_cmp_refl.
  - intros y Hy. assert (is_scalar y = true) by (by apply (same_canon_scalar v)).
    rewrite !compareElements_scalar by done. apply scalar_cmp_opp.
  - intros y z Hy Hz. assert (is_scalar y = true) by (by apply (same_canon_scalar v)).
    assert (same_canon v z) by (unfold same_canon in *; congruence).
    rewrite !compareElements_scalar by done. by apply scalar_cmp_comp.
Qed.

(** Comparison of values of one canonical type obeys the laws at every value. *)
Lemma compareElements_laws v : laws_at same_canon (compareElements None) v.
Proof.
  induction v as [v Hb|o Hall|o Hall|c o Hall] using BSONValue_nested_ind;
    [apply scalar_laws; by destruct v|..].
  all: assert (Hd : laws_at any (objects_loop (elem_woCompare (compareElements None) true) []) o)
    by (apply objects_loop_laws; eapply Forall_impl; [exact Hall|];
        intros [n v] Hv; by apply elem_laws).
  1, 2: split; [apply Hd|intros y Hy; destruct y; try discriminate Hy; by apply Hd|];
    intros y z Hy Hz; destruct y; try discriminate Hy; destruct z; try discriminate Hz; by apply Hd.
  assert (Hl : forall c1 s1 c2 s2,
    sgc (compareElements None (VCodeWScope c1 s1) (VCodeWScope c2 s2)) =
    lexc (slex c1 c2) (sgc (objects_loop (elem_woCompare (compareElements None) true) [] s1 s2))).
  { intros. simpl. rewrite sgc_if. by rewrite StringData_compare_spec. }
  split.
  - apply sgc_eq. by rewrite Hl, slex_refl, (la_refl _ _ _ Hd).
  - intros y Hy; destruct y; try discriminate Hy.
    rewrite !Hl, lexc_opp, <- slex_opp. f_equal. by apply Hd.
  - intros y z Hy Hz; destruct y; try discriminate Hy; destruct z; try discriminate Hz.
    rewrite !Hl. apply lexc_comp_ok; [apply slex_comp|by apply Hd].
Qed.

Lemma BSONObj_laws idxKey rules o :
  laws_at any (BSONObj_woCompare_gen idxKey rules None) o.
Proof.
  apply objects_loop_laws, Forall_forall. intros [n v] _. apply elem_laws, compareElements_laws.
Qed.
End documents.

(** Documents are ordered keys under [woCompare]. *)
#[global] Instance BSONObj_KeyOrder : KeyOrder BSONObj := fun a b => sgc (woCompare a b).
#[global] Instance BSONObj_KeyOrderLaws : KeyOrderLaws BSONObj.
Proof.
  split; unfold kcmp, BSONObj_KeyOrder, woCompare.
  - intros x. apply sgc_eq, BSONObj_laws.
  - intros x y. by apply BSONObj_laws.
  - intros x y z. by apply BSONObj_laws.
Qed.

(** Values are ordered keys under [woCompare] without field names. *)
#[global] Instance BSONValue_KeyOrder : KeyOrder BSONValue := fun a b => sgc (value_woCompare a b).
#[global] Instance BSONValue_KeyOrderLaws : KeyOrderLaws BSONValue.
Proof.
  assert (H : forall n v, laws_at any (BSONElement_woCompare false None) (n, v))
    by (intros; apply elem_laws, compareElements_laws).
  split; unfold kcmp, BSONValue_KeyOrder, value_woCompare.
  - intros x. apply sgc_eq, H.
  - intros x y. by apply H.
  - intros x y z. by apply H.
Qed.

Lemma kcmp_value v w :
  kcmp v w = lexc (canonicalType v ?= canonicalType w) (sgc (compareElements None v w)).
Proof.
  unfold kcmp, BSONValue_KeyOrder, value_woCompare, BSONElement_woCompare.
  by rewrite elem_woCompare_lex.
Qed.

(** Documents with the same field names compare value by value. *)
Lemma kcmp_obj_cons n v w a b :
  kcmp ((n, v) :: a) ((n, w) :: b) = lexc (kcmp v w) (kcmp a b).
Proof.
  rewrite kcmp_value. unfold kcmp, BSONObj_KeyOrder, woCompare, BSONObj_woCompare_gen.
  rewrite objects_loop_cons. simpl. unfold BSONElement_woCompare at 1.
  by rewrite elem_woCompare_lex, slex_refl.
Qed.

Lemma kcmp_obj_app (a b c d : BSONObj) :
  a.*1 = b.*1 -> kcmp (a ++ c) (b ++ d) = lexc (kcmp a b) (kcmp c d).
Proof.
  revert b. induction a as [|[n v] a IH]; intros [|[m w] b]; try discriminate; [done|].
  intros [= -> H]. simpl. rewrite !kcmp_obj_cons, lexc_assoc. by rewrite IH.
Qed.

Lemma kcmp_obj_single n v w : kcmp [(n, v)] [(n, w)] = kcmp v w.
Proof. rewrite kcmp_obj_cons. by destruct (kcmp v w). Qed.

(** MinKey is the least and MaxKey the greatest value. *)
Lemma MinKey_le v : VMinKey ≼ v.
Proof. unfold kle. rewrite kcmp_value. by destruct v. Qed.

Lemma MaxKey_ge v : v ≼ VMaxKey.
Proof. unfold kle. rewrite kcmp_value. by destruct v. Qed.

Lemma MaxKey_lt v : v <> VMaxKey -> v ≺ VMaxKey.
Proof. unfold klt. rewrite kcmp_value. by destruct v. Qed.

(** * The comparison of documents *)

(** C34: document comparison is a total preorder under every key pattern and
    with or without field names: reflexive, antisymmetric up to sign, and
    transitive, strictly when one of the steps is strict. *)
Theorem woCompare_total_preorder idxKey rules a b c :
  let cmp := BSONObj_woCompare_gen idxKey rules None in
  cmp a a = 0 /\
  Z.sgn (cmp b a) = - Z.sgn (cmp a b) /\
  (cmp a b <= 0 -> cmp b c <= 0 -> cmp a c <= 0) /\
  (cmp a b < 0 -> cmp b c <= 0 -> cmp a c < 0) /\
  (cmp a b <= 0 -> cmp b c < 0 -> cmp a c < 0).
Proof.
  intros cmp. destruct (BSONObj_laws idxKey rules a) as [Hr Ho Hc].
  specialize (Ho b I). specialize (Hc b c I I). fold cmp in Hr, Ho, Hc.
  unfold sgc in *.
  split; [done|]. split.
  - destruct (Z.compare_spec (cmp a b) 0), (Z.compare_spec (cmp b a) 0); simpl in Ho;
      try discriminate; lia.
  - destruct (Z.compare_spec (cmp a b) 0), (Z.compare_spec (cmp b c) 0),
      (Z.compare_spec (cmp a c) 0); simpl in Hc; try discriminate; lia.
Qed.

Lemma woCompare_total_preorder_witness :
  let a := [("x"%string, VNull)] in
  let b := [("x"%string, VBool false)] in
  let c := [("x"%string, VBool true)] in
  woCompare a c < 0.
Proof.
  apply (woCompare_total_preorder [] true [("x"%string, VNull)] [("x"%string, VBool false)]
           [("x"%string, VBool true)]); vm_compute; congruence.
Defined.

(** Numbers of different types compare by their exact values: the order of
    an [int], a [long] and a [double] is the order of the numbers they denote,
    with NaN below everything, although the code converts through [double]. *)
Lemma number_comparison_exact comparator l r a b :
  num_of l = Some a -> num_of r = Some b ->
  sgc (compareElements comparator l r) = dcmp a b.
Proof. apply compareElements_num. Qed.

(** [2^53 + 1] is not a [double], and still compares above [2^53]. *)
Lemma number_comparison_exact_witness :
  sgc (compareElements None (VLong (mkInt64 (2 ^ 53 + 1) eq_refl))
         (VDouble (mkDouble (DFin 1 53) eq_refl))) = Gt.
Proof.
  apply (number_comparison_exact None _ _ (DFin (2 ^ 53 + 1) 0) (DFin 1 53)); reflexivity.
Defined.
