(* ===== verification/Text.v ===== *)
(** Text: the [std::string] and stream operations the sharding code uses, the
    decimal and hexadecimal renderings, and [BSONElement::toString] /
    [BSONObj::toString] ([bson/bsonelement.cpp], [bson/bsonobj.cpp]). *)

From S2P Require Import Prelude Bson.
From stdpp Require Import base list strings.
From Stdlib Require Import ZArith Lia Ascii String.
Local Open Scope string_scope.
Local Open Scope Z_scope.
Local Open Scope outcome_scope.

(** * Decimal and hexadecimal *)

Definition chr (n : Z) : ascii := ascii_of_N (Z.to_N n).
Definition ord (c : ascii) : Z := Z.of_N (N_of_ascii c).

Definition is_digit (c : ascii) : bool := (48 <=? ord c) && (ord c <=? 57).
Definition digit (d : Z) : ascii := chr (48 + d).

(** Digits of a non-negative number, most significant first. *)
Fixpoint dec_loop (fuel : nat) (z : Z) (acc : string) : string :=
  match fuel with
  | O => acc
  | S fuel =>
      let acc := String (digit (z mod 10)) acc in
      if z <? 10 then acc else dec_loop fuel (z / 10) acc
  end.

(** One digit is produced per step and a number has at most [log2 z + 1]. *)
Definition dec_nat (z : Z) : string := dec_loop (S (Z.to_nat (Z.log2 z))) z "".

(** [stream << z] for an integer. *)
Definition dec (z : Z) : string := if z <? 0 then "-" +:+ dec_nat (- z) else dec_nat z.

(** The leading digits of [s] appended to the number [acc]. *)
Fixpoint read_digits (s : string) (acc : Z) : Z :=
  match s with
  | String c s => if is_digit c then read_digits s (10 * acc + (ord c - 48)) else acc
  | EmptyString => acc
  end.

Definition is_space (c : ascii) : bool := (ord c =? 32) || ((9 <=? ord c) && (ord c <=? 13)).

Fixpoint skip_ws (s : string) : string :=
  match s with
  | String c s' => if is_space c then skip_ws s' else s
  | EmptyString => EmptyString
  end.

(** [istream >> x] for [uint64_t x]: [None] when the stream is at its end, in
    which case [x] is left alone; no digits give 0, too large a number the
    largest value, and a minus sign negates modulo [2^64]. *)
Definition istream_u64 (s : string) : option Z :=
  let sat z := Z.min z (2 ^ 64 - 1) in
  match skip_ws s with
  | EmptyString => None
  | String c s' =>
      if ord c =? 45 then Some (u64 (- sat (read_digits s' 0)))
      else if ord c =? 43 then Some (sat (read_digits s' 0))
      else Some (sat (read_digits (String c s') 0))
  end.

Definition hexchar (upper : bool) (d : Z) : ascii :=
  if d <? 10 then chr (48 + d) else chr ((if upper then 55 else 87) + d).

Fixpoint hex (upper : bool) (s : string) : string :=
  match s with
  | EmptyString => EmptyString
  | String c s =>
      String (hexchar upper (ord c / 16)) (String (hexchar upper (ord c mod 16)) (hex upper s))
  end.

(** [toHex] and [toHexLower] *)
Definition toHex (s : string) : string := hex true s.
Definition toHexLower (s : string) : string := hex false s.

(** * [std::string] *)

(** [s.substr(pos, n)] for [pos <= size] *)
Definition substr (s : string) (pos n : nat) : string := String.substring pos n s.

Fixpoint is_prefix_of (p s : string) : bool :=
  match p, s with
  | EmptyString, _ => true
  | String c p, String d s => (N_of_ascii c =? N_of_ascii d)%N && is_prefix_of p s
  | _, _ => false
  end.

(** [s.find(p)]; [None] is [npos]. *)
Fixpoint find (p s : string) : option nat :=
  if is_prefix_of p s then Some O
  else match s with
       | EmptyString => None
       | String _ s => S <$> find p s
       end.

(** [s.replace(pos, len, r)]: throws [std::out_of_range] past the end. *)
Definition replace_at (s : string) (pos len : nat) (r : string) : Outcome string :=
  if (pos <=? String.length s)%nat
  then Ret (substr s 0 pos +:+ r +:+ substr s (pos + len) (String.length s))
  else Throw StdOutOfRange.

(** [s.replace(s.find(p), len, r)] *)
Definition replace_found (s p : string) (len : nat) (r : string) : Outcome string :=
  match find p s with
  | Some pos => replace_at s pos len r
  | None => Throw StdOutOfRange
  end.

(** [s.erase(s.end() - 1)]: undefined on the empty string. *)
Definition erase_last (s : string) : Outcome string :=
  match s with
  | EmptyString => Undef
  | _ => Ret (substr s 0 (String.length s - 1))
  end.

(** * Rendering of BSON *)

Definition maxToStringRecursionDepth : nat := 100.

Section to_string.
(** The C library's [snprintf("%.16g")]. *)
Context (snprintf_g16 : Dbl -> string).

Fixpoint has_char (c : ascii) (s : string) : bool :=
  match s with
  | EmptyString => false
  | String d s => (N_of_ascii c =? N_of_ascii d)%N || has_char c s
  end.

(** [StringBuilder::appendDoubleNice] *)
Definition appendDoubleNice (d : Dbl) : string :=
  let start := snprintf_g16 d in
  if negb (has_char "." start) && negb (has_char "E" start) && negb (has_char "N" start)
  then start +:+ ".0" else start.

Definition quote : string := String (chr 34) "".

(** [s.write(buf, n)], the first [n] bytes of a value. *)
Definition write (s : string) (n : Z) : string := substr s 0 (Z.to_nat n).

Definition UUID_text (data : string) : string :=
  "UUID(" +:+ quote +:+ toHexLower (substr data 0 4) +:+ "-" +:+ toHexLower (substr data 4 2)
  +:+ "-" +:+ toHexLower (substr data 6 2) +:+ "-" +:+ toHexLower (substr data 8 2)
  +:+ "-" +:+ toHexLower (substr data 10 6) +:+ quote +:+ ")".

(** Bytes of a BinData value without the extra size of the deprecated
    byte-array subtype. *)
Definition binDataClean (subtype : ascii) (bytes : string) : string :=
  if ord subtype =? 2 then substr bytes 4 (String.length bytes - 4) else bytes.

(** The values [BSONElement::toString] prints without recursion. *)
Definition scalar_toString (full : bool) (v : BSONValue) : string :=
  match v with
  | VDate d => "new Date(" +:+ dec (i64 d) +:+ ")"
  | VRegEx p f => "/" +:+ p +:+ "/" +:+ f
  | VDouble d => appendDoubleNice (dbl d)
  | VLong z => dec (i64 z)
  | VInt z => dec (i32 z)
  | VBool b => if b then "true" else "false"
  | VUndefined => "undefined"
  | VNull => "null"
  | VMaxKey => "MaxKey"
  | VMinKey => "MinKey"
  | VCode c =>
      if negb full && (80 <? slen c + 1) then write c 70 +:+ "..." else write c (slen c)
  | VSymbol t | VString t =>
      quote +:+
      (if negb full && (160 <? slen t + 1) then write t 150 +:+ "..." +:+ quote
       else write t (slen t) +:+ quote)
  | VDBRef ns oid => "DBRef('" +:+ ns +:+ "'," +:+ toHexLower (oid_bytes oid) +:+ ")"
  | VOID oid => "ObjectId('" +:+ toHexLower (oid_bytes oid) +:+ "')"
  | VBinData t bytes =>
      let data := binDataClean t bytes in
      if (ord t =? 4) && (slen data =? 16) then UUID_text data
      else "BinData(" +:+ dec (ord t) +:+ ", " +:+
           (if negb full && (80 <? slen data) then toHex (substr data 0 70) +:+ "...)"
            else toHex data +:+ ")")
  | VTimestamp t => "Timestamp(" +:+ dec (ui64 t / 2 ^ 32) +:+ ", " +:+ dec (ui64 t mod 2 ^ 32) +:+ ")"
  | VObject _ | VArray _ | VCodeWScope _ _ => ""
  end.

(** The elements of [BSONObj::toString], separated by commas. *)
Fixpoint join_elems (f : BSONElement -> Outcome string) (o : BSONObj) : Outcome string :=
  match o with
  | [] => Ret ""
  | [e] => f e
  | e :: o => let* a := f e in let* b := join_elems f o in Ret (a +:+ ", " +:+ b)
  end.

Definition wrap_obj (isArray : bool) (body : BSONElement -> Outcome string) (o : BSONObj)
    : Outcome string :=
  match o with
  | [] => Ret (if isArray then "[]" else "{}")
  | _ => let* b := join_elems body o in
         Ret ((if isArray then "[ " else "{ ") +:+ b +:+ (if isArray then " ]" else " }"))
  end.

(** [BSONElement::toString(s, includeFieldName, full, false, depth)] *)
Fixpoint value_toString (full : bool) (depth : nat) (name : option string) (v : BSONValue)
    : Outcome string :=
  if (maxToStringRecursionDepth <? depth)%nat
  then (if full then Throw (Location 16150) else Ret "...")
  else
    let prefix := match name with Some n => n +:+ ": " | None => "" end in
    let* body :=
      match v with
      | VObject o => wrap_obj false (fun e => value_toString full (S depth) (Some e.1) e.2) o
      | VArray o => wrap_obj true (fun e => value_toString full (S depth) None e.2) o
      | VCodeWScope c o =>
          let* t := wrap_obj false (fun e => value_toString false 0 (Some e.1) e.2) o in
          Ret ("CodeWScope( " +:+ c +:+ ", " +:+ t +:+ ")")
      | _ => Ret (scalar_toString full v)
      end in
    Ret (prefix +:+ body).

(** [BSONObj::toString()] *)
Definition BSONObj_toString (o : BSONObj) : Outcome string :=
  wrap_obj false (fun e => value_toString false 0 (Some e.1) e.2) o.
End to_string.

(** * Decimal round trip *)

Lemma ord_digit d : 0 <= d < 10 -> ord (digit d) = 48 + d.
Proof.
  intros Hd. unfold ord, digit, chr. rewrite N_ascii_embedding by lia. lia.
Qed.

Lemma is_digit_digit d : 0 <= d < 10 -> is_digit (digit d) = true.
Proof. intros Hd. unfold is_digit. rewrite ord_digit by done. apply andb_true_iff. lia. Qed.

Lemma read_digits_dec_loop fuel z acc :
  0 <= z < 10 ^ Z.of_nat fuel -> read_digits (dec_loop fuel z acc) 0 = read_digits acc z.
Proof.
  revert z acc; induction fuel as [|fuel IH]; intros z acc Hz.
  - change (10 ^ Z.of_nat 0) with 1 in Hz. cbn [dec_loop]. f_equal. lia.
  - cbn [dec_loop]. pose proof (Z.mod_pos_bound z 10).
    rewrite Nat2Z.inj_succ, Z.pow_succ_r in Hz by lia.
    destruct (Z.ltb_spec z 10).
    + cbn [read_digits]. rewrite is_digit_digit, ord_digit, Z.mod_small by lia. f_equal. lia.
    + rewrite IH by (split; [apply Z.div_pos|apply Z.div_lt_upper_bound]; lia).
      cbn [read_digits]. rewrite is_digit_digit, ord_digit by lia. f_equal.
      pose proof (Z.div_mod z 10). lia.
Qed.

Lemma dec_loop_head fuel z acc :
  (forall c s, acc = String c s -> is_digit c = true) -> 0 <= z ->
  exists c s, dec_loop (S fuel) z acc = String c s /\ is_digit c = true.
Proof.
  revert z acc; induction fuel as [|fuel IH]; intros z acc Hacc Hz; cbn [dec_loop];
    pose proof (Z.mod_pos_bound z 10); destruct (Z.ltb_spec z 10);
    try (do 2 eexists; split; [done|apply is_digit_digit; lia]).
  apply IH; [|by apply Z.div_pos]. intros c s [= <- _]. apply is_digit_digit. lia.
Qed.

Lemma dec_fuel z : 0 <= z -> z < 10 ^ Z.of_nat (S (Z.to_nat (Z.log2 z))).
Proof.
  intros Hz. rewrite Nat2Z.inj_succ, Z2Nat.id by apply Z.log2_nonneg.
  destruct (Z.eq_dec z 0) as [->|]; [done|].
  pose proof (Z.log2_spec z). pose proof (Z.log2_nonneg z).
  assert (2 ^ Z.succ (Z.log2 z) <= 10 ^ Z.succ (Z.log2 z)) by (apply Z.pow_le_mono_l; lia). lia.
Qed.

(** Reading back what was printed gives the number. *)
Lemma istream_u64_dec z : 0 <= z < 2 ^ 64 -> istream_u64 (dec z) = Some z.
Proof.
  intros Hz. unfold dec, dec_nat. rewrite (proj2 (Z.ltb_ge z 0)) by lia.
  destruct (dec_loop_head (Z.to_nat (Z.log2 z)) z "") as (c & s & Hs & Hc); [done|lia|].
  assert (Hr : read_digits (dec_loop (S (Z.to_nat (Z.log2 z))) z "") 0 = z).
  { rewrite read_digits_dec_loop; [done|]. split; [lia|]. apply dec_fuel. lia. }
  rewrite Hs in *. unfold istream_u64.
  unfold is_digit in Hc. apply andb_true_iff in Hc as [Hc1%Z.leb_le Hc2%Z.leb_le].
  cbn [skip_ws]. unfold is_space.
  rewrite (proj2 (Z.eqb_neq (ord c) 32)), (proj2 (Z.leb_gt (ord c) 13)), andb_false_r by lia.
  simpl orb. cbv iota.
  rewrite (proj2 (Z.eqb_neq (ord c) 45)), (proj2 (Z.eqb_neq (ord c) 43)), Hr by lia.
  f_equal. lia.
Qed.

(** * The order of printed numbers *)

Lemma acmp_digit x y : 0 <= x < 10 -> 0 <= y < 10 -> acmp (digit x) (digit y) = (x ?= y).
Proof.
  intros Hx Hy. unfold acmp. pose proof (ord_digit x Hx) as Ex. pose proof (ord_digit y Hy) as Ey. unfold ord in Ex, Ey.
  rewrite Ex, Ey. apply Z.add_compare_mono_l.
Qed.

Lemma lexc_div10 x y : lexc (x / 10 ?= y / 10) (x mod 10 ?= y mod 10) = (x ?= y).
Proof.
  pose proof (Z.div_mod x 10). pose proof (Z.div_mod y 10). pose proof (Z.mod_pos_bound x 10). pose proof (Z.mod_pos_bound y 10).
  destruct (Z.compare_spec (x / 10) (y / 10)), (Z.compare_spec (x mod 10) (y mod 10)), (Z.compare_spec x y); cbn; try done; lia.
Qed.

(** Numbers with the same number of digits are printed in their order. *)
Lemma dec_loop_order n fx fy x y a b :
  (n <= fx)%nat -> (n <= fy)%nat -> (1 <= n)%nat -> (n = 1%nat \/ 10 ^ (Z.of_nat n - 1) <= x) -> (n = 1%nat \/ 10 ^ (Z.of_nat n - 1) <= y) ->
  0 <= x < 10 ^ Z.of_nat n -> 0 <= y < 10 ^ Z.of_nat n ->
  slex (dec_loop fx x a) (dec_loop fy y b) = lexc (x ?= y) (slex a b).
Proof.
  revert fx fy x y a b. induction n as [|n IH]; intros fx fy x y a b Hfx Hfy Hn Hx Hy Hx' Hy'; [lia|].
  destruct fx as [|fx]; [lia|]. destruct fy as [|fy]; [lia|]. cbn [dec_loop].
  pose proof (Z.mod_pos_bound x 10). pose proof (Z.mod_pos_bound y 10).
  destruct n as [|n].
  - change (10 ^ Z.of_nat 1) with 10 in *. rewrite (proj2 (Z.ltb_lt x 10)), (proj2 (Z.ltb_lt y 10)) by lia. cbn [slex].
    rewrite acmp_digit, !Z.mod_small by lia. done.
  - destruct Hx as [|Hx]; [lia|]. destruct Hy as [|Hy]; [lia|].
    replace (Z.of_nat (S (S n)) - 1) with (Z.succ (Z.of_nat n)) in Hx, Hy by lia.
    replace (Z.of_nat (S (S n))) with (Z.succ (Z.of_nat (S n))) in Hx', Hy' by lia.
    rewrite Z.pow_succ_r in Hx, Hy, Hx', Hy' by lia. assert (0 < 10 ^ Z.of_nat n) by (apply Z.pow_pos_nonneg; lia).
    rewrite (proj2 (Z.ltb_ge x 10)), (proj2 (Z.ltb_ge y 10)) by lia. rewrite IH; try lia.
    + cbn [slex]. rewrite acmp_digit, <- lexc_assoc, lexc_div10 by lia. done.
    + right. replace (Z.of_nat (S n) - 1) with (Z.of_nat n) by lia. apply Z.div_le_lower_bound; lia.
    + right. replace (Z.of_nat (S n) - 1) with (Z.of_nat n) by lia. apply Z.div_le_lower_bound; lia.
    + split; [apply Z.div_pos; lia|apply Z.div_lt_upper_bound; lia].
    + split; [apply Z.div_pos; lia|apply Z.div_lt_upper_bound; lia].
Qed.

Lemma dec_loop_app fuel z a r : dec_loop fuel z a +:+ r = dec_loop fuel z (a +:+ r).
Proof. revert z a. induction fuel as [|fuel IH]; intros z a; cbn [dec_loop]; [done|]. destruct (z <? 10); [done|]. by rewrite IH. Qed.

(** * Lengths and substrings *)

Lemma dec_loop_length fuel n z acc :
  (1 <= n <= fuel)%nat -> (n = 1%nat \/ 10 ^ (Z.of_nat n - 1) <= z) -> 0 <= z < 10 ^ Z.of_nat n ->
  String.length (dec_loop fuel z acc) = (n + String.length acc)%nat.
Proof.
  revert n z acc. induction fuel as [|fuel IH]; intros n z acc Hn Hlo Hz; [lia|]. cbn [dec_loop].
  destruct (Z.ltb_spec z 10) as [Hlt|Hge].
  - assert (n = 1%nat) as ->; [|done]. destruct Hlo as [->|Hlo]; [done|].
    destruct (Nat.eq_dec n 1) as [->|]; [done|].
    assert (10 ^ 1 <= 10 ^ (Z.of_nat n - 1)) by (apply Z.pow_le_mono_r; lia). lia.
  - destruct n as [|[|n]]; [lia|change (10 ^ Z.of_nat 1) with 10 in Hz; lia|].
    destruct Hlo as [|Hlo]; [lia|].
    rewrite (IH (S n)); [simpl; lia|lia|..].
    + destruct n as [|n]; [by left|right]. apply Z.div_le_lower_bound; [lia|].
      rewrite <- Z.pow_succ_r by lia. etrans; [|exact Hlo]. apply Z.pow_le_mono_r; lia.
    + split; [apply Z.div_pos; lia|]. apply Z.div_lt_upper_bound; [lia|].
      rewrite <- Z.pow_succ_r by lia. rewrite Nat2Z.inj_succ in Hz. lia.
Qed.

Lemma dec_length n z :
  (1 <= n)%nat -> 10 ^ (Z.of_nat n - 1) <= z < 10 ^ Z.of_nat n -> String.length (dec z) = n.
Proof.
  intros Hn [Hlo Hhi]. assert (0 < 10 ^ (Z.of_nat n - 1)) by (apply Z.pow_pos_nonneg; lia).
  unfold dec, dec_nat. rewrite (proj2 (Z.ltb_ge z 0)) by lia.
  rewrite (dec_loop_length _ n); [simpl; lia| |by right|lia].
  split; [done|]. pose proof (Z.log2_nonneg z).
  destruct (Nat.le_gt_cases n (S (Z.to_nat (Z.log2 z)))) as [|Hgt]; [done|exfalso].
  pose proof (dec_fuel z ltac:(lia)) as Hf.
  assert (10 ^ Z.of_nat (S (Z.to_nat (Z.log2 z))) <= 10 ^ (Z.of_nat n - 1))
    by (apply Z.pow_le_mono_r; lia). lia.
Qed.

Lemma dec_order n x y r r' :
  (1 <= n)%nat -> 10 ^ (Z.of_nat n - 1) <= x < 10 ^ Z.of_nat n -> 10 ^ (Z.of_nat n - 1) <= y < 10 ^ Z.of_nat n ->
  slex (dec x +:+ r) (dec y +:+ r') = lexc (x ?= y) (slex r r').
Proof.
  intros Hn Hx Hy. assert (0 < 10 ^ (Z.of_nat n - 1)) by (apply Z.pow_pos_nonneg; lia).
  assert (Hf : forall z, 10 ^ (Z.of_nat n - 1) <= z -> (n <= S (Z.to_nat (Z.log2 z)))%nat).
  { intros z Hz. destruct (Nat.le_gt_cases n (S (Z.to_nat (Z.log2 z)))) as [|Hgt]; [done|exfalso]. pose proof (Z.log2_nonneg z).
    pose proof (dec_fuel z ltac:(lia)). assert (10 ^ Z.of_nat (S (Z.to_nat (Z.log2 z))) <= 10 ^ (Z.of_nat n - 1)) by (apply Z.pow_le_mono_r; lia). lia. }
  unfold dec, dec_nat. rewrite (proj2 (Z.ltb_ge x 0)), (proj2 (Z.ltb_ge y 0)) by lia. rewrite !dec_loop_app.
  apply (dec_loop_order n); try lia; try (apply Hf; lia).
Qed.

Lemma substr_all n s : (String.length s <= n)%nat -> substr s 0 n = s.
Proof.
  unfold substr. revert n. induction s as [|c s IH]; intros [|n] Hn; simpl in *; try done; [lia|].
  by rewrite IH by lia.
Qed.

Lemma substr_app_l n a b : substr (a +:+ b) 0 (String.length a + n) = a +:+ substr b 0 n.
Proof. unfold substr. induction a as [|c a IH]; simpl; [done|]. by rewrite IH. Qed.

Lemma substr_app_l0 a b : substr (a +:+ b) 0 (String.length a) = a.
Proof.
  rewrite <- (Nat.add_0_r (String.length a)), substr_app_l.
  assert (substr b 0 0 = "") as -> by (by destruct b).
  induction a as [|c a IH]; [done|]. change (String c (a +:+ "") = String c a). by rewrite IH.
Qed.

Lemma substr_app_r n a b : substr (a +:+ b) (String.length a) n = substr b 0 n.
Proof. unfold substr. induction a as [|c a IH]; simpl; done. Qed.

Lemma length_app_string a b : String.length (a +:+ b) = (String.length a + String.length b)%nat.
Proof. induction a as [|c a IH]; simpl; [done|]. by rewrite IH. Qed.

Lemma app_assoc_string a b c : (a +:+ b) +:+ c = a +:+ (b +:+ c).
Proof.
  induction a as [|x a IH]; [done|].
  change (String x ((a +:+ b) +:+ c) = String x (a +:+ (b +:+ c))). by rewrite IH.
Qed.

(** [s] without its last character. *)
Definition init (s : string) : string := substr s 0 (String.length s - 1).

Lemma erase_last_app a b : b <> "" -> erase_last (a +:+ b) = Ret (a +:+ init b).
Proof.
  intros Hb. unfold erase_last.
  assert (Hl : (String.length (a +:+ b) - 1 = String.length a + (String.length b - 1))%nat).
  { rewrite length_app_string. destruct b; [done|]. simpl. lia. }
  rewrite Hl, substr_app_l. destruct (a +:+ b) eqn:E; [|done].
  apply (f_equal String.length) in E. rewrite length_app_string in E. destruct b; [done|]. simpl in E. lia.
Qed.

Lemma is_prefix_of_app p s : is_prefix_of p (p +:+ s) = true.
Proof. induction p as [|c p IH]; simpl; [done|]. by rewrite N.eqb_refl, IH. Qed.

(** Removing the beginning of a text by searching for it. *)
Lemma replace_found_prefix p a s n :
  p <> "" -> is_prefix_of p (a +:+ s) = true -> String.length a = n ->
  replace_found (a +:+ s) p n "" = Ret s.
Proof.
  intros Hp Hpre <-. unfold replace_found.
  assert (Hf : find p (a +:+ s) = Some O) by (destruct (a +:+ s); simpl in *; by rewrite Hpre).
  rewrite Hf. unfold replace_at. simpl Nat.leb. cbv iota.
  assert (substr (a +:+ s) 0 0 = "") as -> by (by destruct (a +:+ s)).
  simpl. rewrite substr_app_r, substr_all; [done|]. rewrite length_app_string. lia.
Qed.
