(* ===== verification/Float.v ===== *)
(** Binary64 arithmetic, as much as the split heuristics use of it:
    conversions between integers and [double], and the four operations with
    rounding to nearest, ties to even.  The magnitudes in play are between
    [2^-70] and [2^130], so neither overflow nor subnormal results occur and the
    rounding is to 53 significant bits.  Also the text of a [double] as
    [snprintf] prints it for the ids of chunks. *)

From S2P Require Import Prelude Bson Text.
From stdpp Require Import base tactics list strings.
From Stdlib Require Import ZArith Lia Bool String.
Local Open Scope string_scope.
Local Open Scope Z_scope.

(** [m / 2^s] rounded to nearest, ties to even, for [m >= 0]. *)
Definition rne (m s : Z) : Z :=
  let q := m / 2 ^ s in
  let r := m mod 2 ^ s in
  let half := 2 ^ (s - 1) in
  if (half <? r) || ((half =? r) && Z.odd q) then q + 1 else q.

(** [m * 2^e] rounded to 53 significant bits. *)
Definition round53 (m e : Z) : Dbl :=
  let s := Z.log2 (Z.abs m) + 1 - 53 in
  if s <=? 0 then DFin m e else DFin (Z.sgn m * rne (Z.abs m) s) (e + s).

(** [(double)z] *)
Definition d_of_Z (z : Z) : Dbl := round53 z 0.

Definition d_add (a b : Dbl) : Dbl :=
  match a, b with
  | DNaN, _ | _, DNaN => DNaN
  | DInf s, DInf t => if Bool.eqb s t then DInf s else DNaN
  | DInf s, _ | _, DInf s => DInf s
  | DFin m1 e1, DFin m2 e2 =>
      let k := Z.min e1 e2 in round53 (m1 * 2 ^ (e1 - k) + m2 * 2 ^ (e2 - k)) k
  end.

Definition d_neg (a : Dbl) : Dbl :=
  match a with DNaN => DNaN | DInf s => DInf (negb s) | DFin m e => DFin (- m) e end.

Definition d_sub (a b : Dbl) : Dbl := d_add a (d_neg b).

Definition d_mul (a b : Dbl) : Dbl :=
  match a, b with
  | DNaN, _ | _, DNaN => DNaN
  | DInf s, DInf t => DInf (xorb s t)
  | DInf s, DFin m _ | DFin m _, DInf s => if m =? 0 then DNaN else DInf (xorb s (m <? 0))
  | DFin m1 e1, DFin m2 e2 => round53 (m1 * m2) (e1 + e2)
  end.

(** The quotient is taken to at least 67 bits with a sticky bit below them, so
    the final rounding is the correct one. *)
Definition d_div (a b : Dbl) : Dbl :=
  match a, b with
  | DNaN, _ | _, DNaN | DInf _, DInf _ => DNaN
  | DInf s, DFin m _ => DInf (xorb s (m <? 0))
  | DFin _ _, DInf _ => DFin 0 0
  | DFin m1 e1, DFin m2 e2 =>
      if m2 =? 0 then (if m1 =? 0 then DNaN else DInf (m1 <? 0))
      else
        let n := Z.abs m1 * 2 ^ 120 in
        let q := n / Z.abs m2 in
        let sticky := if n mod Z.abs m2 =? 0 then 0 else 1 in
        round53 (Z.sgn m1 * Z.sgn m2 * (2 * q + sticky)) (e1 - e2 - 121)
  end.

(** [(uint64_t)d] and [(int)d]: undefined unless the truncated value fits. *)
Definition d_to_u64 (d : Dbl) : Outcome Z :=
  match d with
  | DFin _ _ => if in_u64 (d_trunc d) then Ret (d_trunc d) else Undef
  | _ => Undef
  end.

Definition d_to_i32 (d : Dbl) : Outcome Z :=
  match d with
  | DFin _ _ => if in_i32 (d_trunc d) then Ret (d_trunc d) else Undef
  | _ => Undef
  end.

(** The literals [0.9] and [0.1]. *)
Definition d_0_9 : Dbl := DFin 8106479329266893 (-53).
Definition d_0_1 : Dbl := DFin 3602879701896397 (-55).

(** * Printing *)

(** [n / d] rounded to nearest, ties to even. *)
Definition div_rne (n d : Z) : Z :=
  let q := n / d in
  let r := 2 * (n mod d) in
  if (d <? r) || ((d =? r) && Z.odd q) then q + 1 else q.

(** The decimal exponent of [n / d > 0], near a first guess. *)
Fixpoint dec_exponent (fuel : nat) (n d x : Z) : Z :=
  match fuel with
  | O => x
  | S fuel =>
      let scaled e := (n * 10 ^ Z.max 0 (- e), d * 10 ^ Z.max 0 e) in
      let (a, b) := scaled x in
      if a <? b then dec_exponent fuel n d (x - 1)
      else let (a, b) := scaled (x + 1) in if a <? b then x else dec_exponent fuel n d (x + 1)
  end.

Fixpoint strip_zeros (fuel : nat) (z digits : Z) : Z * Z :=
  match fuel with
  | O => (z, digits)
  | S fuel => if (z mod 10 =? 0) && (1 <? digits) then strip_zeros fuel (z / 10) (digits - 1) else (z, digits)
  end.

Definition zeros (n : Z) : string := Nat.iter (Z.to_nat n) (fun s => "0" +:+ s)%string "".

(** [snprintf] with "%.16g": 16 significant digits without trailing zeros, in
    the exponent style if the exponent is less than -4 or at least 16. *)
Definition print_g16 (v : Dbl) : string :=
  match v with
  | DNaN => "nan"
  | DInf neg => if neg then "-inf" else "inf"
  | DFin m e =>
      if m =? 0 then "0"
      else
        let n := Z.abs m * 2 ^ Z.max 0 e in
        let d := 2 ^ Z.max 0 (- e) in
        let x := dec_exponent 20 n d ((Z.log2 n - Z.log2 d) * 30103 / 100000) in
        let k := div_rne (n * 10 ^ Z.max 0 (15 - x)) (d * 10 ^ Z.max 0 (x - 15)) in
        let '(k, x) := if k =? 10 ^ 16 then (10 ^ 15, x + 1) else (k, x) in
        let '(z, digits) := strip_zeros 16 k 16 in
        let s := dec_nat z in
        let point i := if digits <=? i then s +:+ zeros (i - digits)
                       else substr s 0 (Z.to_nat i) +:+ "." +:+ substr s (Z.to_nat i) 16 in
        (if m <? 0 then "-" else "") +:+
        (if (x <? -4) || (16 <=? x) then
           point 1 +:+ "e" +:+ (if x <? 0 then "-" else "+") +:+
           (if Z.abs x <? 10 then "0" else "") +:+ dec_nat (Z.abs x)
         else if x <? 0 then "0." +:+ zeros (- x - 1) +:+ s
         else point (x + 1))
  end.

Lemma print_g16_samples :
  print_g16 d_0_1 = "0.1" /\ print_g16 (DFin 7205759403792795 (-56)) = "0.1" /\ print_g16 (DFin (-3) (-1)) = "-1.5" /\
  print_g16 (DFin 1 60) = "1.152921504606847e+18" /\ print_g16 (DFin 1 (-20)) = "9.5367431640625e-07" /\
  print_g16 (DFin 5 3) = "40" /\ print_g16 (DFin 6004799503160661 (-54)) = "0.3333333333333333".
Proof. vm_compute. split_and!; reflexivity. Qed.

(** * Rounding bounds *)

(** Rounding moves a number by at most half a unit in the last place. *)
Lemma rne_bounds m s :
  0 <= m -> 0 < s -> 2 * m - 2 ^ s <= 2 * rne m s * 2 ^ s <= 2 * m + 2 ^ s.
Proof.
  intros Hm Hs. unfold rne.
  pose proof (Z.pow_pos_nonneg 2 s). pose proof (Z.div_mod m (2 ^ s)).
  pose proof (Z.mod_pos_bound m (2 ^ s)).
  assert (Hh : 2 ^ s = 2 * 2 ^ (s - 1)).
  { rewrite <- Z.pow_succ_r by lia. f_equal. lia. }
  destruct (Z.ltb_spec (2 ^ (s - 1)) (m mod 2 ^ s)); simpl; [nia|].
  destruct (Z.eqb_spec (2 ^ (s - 1)) (m mod 2 ^ s)); simpl; [|nia].
  destruct (Z.odd _); nia.
Qed.

(** The value of a non-negative finite double scaled by a common power. *)
Definition d_scaled (d : Dbl) (k : Z) : Z :=
  match d with DFin m e => m * 2 ^ (e - k) | _ => 0 end.

(** A rounded non-negative value exceeds the exact one by a factor of at most
    [1 + 2^-53]. *)
Lemma round53_upper m e :
  0 <= m ->
  exists m' s, round53 m e = DFin m' (e + s) /\ 0 <= s /\ 0 <= m' /\
    2 ^ 53 * (m' * 2 ^ s) <= (2 ^ 53 + 1) * m.
Proof.
  intros Hm. unfold round53. rewrite Z.abs_eq by done.
  destruct (Z.leb_spec (Z.log2 m + 1 - 53) 0) as [Hs|Hs].
  - exists m, 0. rewrite Z.add_0_r. split_and!; [done..|rewrite Z.pow_0_r; lia].
  - set (s := Z.log2 m + 1 - 53) in *. exists (rne m s), s.
    assert (Hpos : 0 < m).
    { destruct (Z.eq_dec m 0) as [->|]; [|lia]. unfold s in Hs. simpl in Hs. lia. }
    rewrite Z.sgn_pos, Z.mul_1_l by done.
    pose proof (rne_bounds m s Hm Hs) as [Hlo Hhi]. pose proof (Z.pow_pos_nonneg 2 s).
    destruct (Z.log2_spec m Hpos) as [Hl _].
    assert (Hu : 2 ^ 52 * 2 ^ s <= m).
    { rewrite <- Z.pow_add_r by lia. etransitivity; [|exact Hl].
      apply Z.eq_le_incl. f_equal. unfold s. lia. }
    split_and!; [done|lia|nia|]. change (2 ^ 53) with (2 * 2 ^ 52). nia.
Qed.

Lemma d_trunc_nonneg m e : 0 <= m -> 0 <= d_trunc (DFin m e).
Proof.
  intros Hm. simpl. pose proof (Z.pow_pos_nonneg 2 e). pose proof (Z.pow_pos_nonneg 2 (- e)).
  destruct (Z.leb_spec 0 e); [nia|]. apply Z.quot_pos; lia.
Qed.

(** [(uint64_t)((double)z * 0.9)] is defined for every 64-bit [z] and never
    exceeds [z]. *)
Lemma mul_0_9_bound z :
  0 <= z < 2 ^ 64 ->
  exists t, d_to_u64 (d_mul (d_of_Z z) d_0_9) = Ret t /\ 0 <= t <= z.
Proof.
  intros Hz. unfold d_of_Z.
  destruct (round53_upper z 0) as (m1 & s1 & -> & Hs1 & Hm1 & Hb1); [lia|].
  cbn [d_mul d_0_9].
  destruct (round53_upper (m1 * 8106479329266893) (0 + s1 + -53))
    as (m2 & s2 & -> & Hs2 & Hm2 & Hb2); [lia|].
  pose proof (d_trunc_nonneg m2 (0 + s1 + -53 + s2) Hm2) as Hnn.
  enough (Ht : d_trunc (DFin m2 (0 + s1 + -53 + s2)) <= z).
  { cbn [d_to_u64]. exists (d_trunc (DFin m2 (0 + s1 + -53 + s2))).
    assert (Hin : in_u64 (d_trunc (DFin m2 (0 + s1 + -53 + s2))) = true).
    { unfold in_u64. apply andb_true_iff. rewrite Z.leb_le, Z.ltb_lt. lia. }
    rewrite Hin. split; [done|lia]. }
  set (p := 2 ^ (s1 + s2)). assert (Hp : p = 2 ^ s1 * 2 ^ s2) by (apply Z.pow_add_r; lia).
  assert (Hv : m2 * p <= 2 ^ 53 * z).
  { rewrite Hp. pose proof (Z.pow_pos_nonneg 2 s1). pose proof (Z.pow_pos_nonneg 2 s2).
    set (a := 2 ^ s1) in *. set (b := 2 ^ s2) in *.
    assert (2 ^ 53 * (m2 * (a * b)) <= (2 ^ 53 + 1) * 8106479329266893 * (m1 * a)) by nia.
    assert (2 ^ 53 * (2 ^ 53 * (m2 * (a * b))) <=
      (2 ^ 53 + 1) * 8106479329266893 * ((2 ^ 53 + 1) * z)) by nia.
    nia. }
  simpl. destruct (Z.leb_spec 0 (0 + s1 + -53 + s2)) as [He|He].
  - assert (Hpe : p = 2 ^ (0 + s1 + -53 + s2) * 2 ^ 53).
    { unfold p. rewrite <- Z.pow_add_r by lia. f_equal. lia. }
    nia.
  - assert (Hpe : 2 ^ 53 = p * 2 ^ (- (0 + s1 + -53 + s2))).
    { unfold p. rewrite <- Z.pow_add_r by lia. f_equal. lia. }
    pose proof (Z.pow_pos_nonneg 2 (- (0 + s1 + -53 + s2))).
    assert (0 < p) by (apply Z.pow_pos_nonneg; lia).
    apply Z.quot_le_upper_bound; nia.
Qed.
