(* ===== verification/ChunkVersion.v ===== *)
(** Chunk versions ([s/chunk_version.h], [s/chunk_version.cpp]): a 32-bit major
    and a 32-bit minor number packed in 64 bits, scoped to an epoch, with their
    comparison, increment and BSON formats. *)

From S2P Require Import Prelude Bson.
From stdpp Require Import base list strings.
From Stdlib Require Import ZArith Lia Ascii String.
Local Open Scope Z_scope.
Local Open Scope outcome_scope.

(** * Object ids *)

Lemma to_u64_ok z : in_u64 (u64 z) = true.
Proof.
  pose proof (u64_range z). unfold in_u64. apply andb_true_iff.
  by rewrite Z.leb_le, Z.ltb_lt.
Qed.

Definition to_u64 (z : Z) : UInt64 := mkUInt64 (u64 z) (to_u64_ok z).

Lemma UInt64_eq (a b : UInt64) : ui64 a = ui64 b -> a = b.
Proof. destruct a, b; simpl; intros ->. f_equal. apply proof_irrel. Qed.

Lemma ui64_range (a : UInt64) : 0 <= ui64 a < 2 ^ 64.
Proof. destruct a as [z H]. simpl. unfold in_u64 in H. apply andb_true_iff in H. lia. Qed.

Lemma to_u64_ui64 (a : UInt64) : to_u64 (ui64 a) = a.
Proof. apply UInt64_eq. cbn [to_u64 ui64]. apply u64_id, ui64_range. Qed.

Definition oid_eqb (a b : OID) : bool := String.eqb (oid_bytes a) (oid_bytes b).

Lemma oid_eqb_eq a b : oid_eqb a b = true <-> a = b.
Proof.
  unfold oid_eqb. rewrite String.eqb_eq. split; [|by intros ->].
  destruct a, b; simpl; intros ->. f_equal. apply proof_irrel.
Qed.

#[global] Instance OID_eq_dec : EqDecision OID.
Proof.
  intros a b. destruct (oid_eqb a b) eqn:E.
  - left. by apply oid_eqb_eq.
  - right. intros ->. by rewrite (proj2 (oid_eqb_eq _ _) eq_refl) in E.
Defined.

Definition bytes_const (n : nat) (c : ascii) : string := Nat.iter n (String c) EmptyString.

(** [OID()] *)
Definition OID_zero : OID := mkOID (bytes_const 12 NUL) eq_refl.

(** The epoch of [ChunkVersion::IGNORED()]: zero time, all ones elsewhere. *)
Definition OID_ignored : OID :=
  mkOID (bytes_const 4 NUL +:+ bytes_const 8 (ascii_of_N 255))%string eq_refl.

(** * Versions *)

Record ChunkVersion := mkVersion { _combined : UInt64; _epoch : OID }.

(** [ChunkVersion(uint32_t major, uint32_t minor, epoch)] *)
Definition newVersion (major minor : Z) (epoch : OID) : ChunkVersion :=
  mkVersion (to_u64 (Z.lor (u32 minor) (u64 (Z.shiftl (u32 major) 32)))) epoch.

Definition DROPPED : ChunkVersion := newVersion 0 0 OID_zero.
Definition UNSHARDED : ChunkVersion := newVersion 0 0 OID_zero.
Definition IGNORED : ChunkVersion := mkVersion (to_u64 0) OID_ignored.

Definition fromDeprecatedLong (num : Z) (epoch : OID) : ChunkVersion :=
  mkVersion (to_u64 num) epoch.

Definition toLong (v : ChunkVersion) : Z := ui64 (_combined v).
Definition isSet (v : ChunkVersion) : bool := 0 <? toLong v.
Definition majorVersion (v : ChunkVersion) : Z := u32 (Z.shiftr (toLong v) 32).
Definition minorVersion (v : ChunkVersion) : Z := u32 (Z.land (toLong v) 4294967295).

Definition hasEqualEpoch (v w : ChunkVersion) : bool := oid_eqb (_epoch v) (_epoch w).

Definition isIgnoredVersion (v : ChunkVersion) : bool :=
  (majorVersion v =? 0) && (minorVersion v =? 0) && oid_eqb (_epoch v) (_epoch IGNORED).

Definition incMajor (v : ChunkVersion) : Outcome ChunkVersion :=
  uassert (Location 31180) (negb (majorVersion v =? 4294967295)) ;*
  Ret (mkVersion (to_u64 (Z.shiftl (u32 (majorVersion v + 1)) 32)) (_epoch v)).

Definition incMinor (v : ChunkVersion) : Outcome ChunkVersion :=
  uassert (Location 31181) (negb (minorVersion v =? 4294967295)) ;*
  Ret (mkVersion (to_u64 (toLong v + 1)) (_epoch v)).

(** The relational operators compare [_combined] only; [==] also the epoch. *)
Definition version_gt (v w : ChunkVersion) : bool := toLong w <? toLong v.
Definition version_ge (v w : ChunkVersion) : bool := toLong w <=? toLong v.
Definition version_lt (v w : ChunkVersion) : bool := toLong v <? toLong w.
Definition version_le (v w : ChunkVersion) : bool := toLong v <=? toLong w.

Definition version_equals (v w : ChunkVersion) : bool :=
  if negb (hasEqualEpoch v w) then false else toLong w =? toLong v.

Definition isWriteCompatibleWith (v w : ChunkVersion) : bool :=
  if negb (hasEqualEpoch v w) then false else majorVersion w =? majorVersion v.

Definition isStrictlyEqualTo (v w : ChunkVersion) : bool :=
  if negb (oid_eqb (_epoch w) (_epoch v)) then false else toLong w =? toLong v.

Definition isOlderThan (v w : ChunkVersion) : bool :=
  if negb (oid_eqb (_epoch w) (_epoch v)) then false
  else if negb (majorVersion v =? majorVersion w) then majorVersion v <? majorVersion w
  else minorVersion v <? minorVersion w.

(** * BSON formats *)

(** [fromBSON(element)] and [fromBSON(array)]; the boolean is [*canParse]. *)
Fixpoint fromBSON_elem (el : BSONValue) : ChunkVersion * bool :=
  match el with
  | VArray [] => (mkVersion (to_u64 0) OID_zero, false)
  | VArray ((_, first) :: rest) =>
      let '(version, canParse) := fromBSON_elem first in
      if negb canParse then (version, canParse)
      else match rest with
           | (_, VOID oid) :: _ => (mkVersion (_combined version) oid, true)
           | _ => (version, true)
           end
  | VOID oid => (newVersion 0 0 oid, true)
  | VTimestamp t => (fromDeprecatedLong (ui64 t) OID_zero, true)
  | VDate d => (fromDeprecatedLong (i64 d) OID_zero, true)
  | _ => (newVersion 0 0 OID_zero, false)
  end.

(** [fromBSON(obj, prefixIn, &canParse)]; a missing field is the EOO element. *)
Definition fromBSON_obj (obj : BSONObj) (prefixIn : string) : ChunkVersion * bool :=
  let prefix :=
    if String.eqb prefixIn "" && bool_decide (is_Some (getField obj "version")) then "version"%string
    else if String.eqb prefixIn "" && bool_decide (is_Some (getField obj "lastmod"))
    then "lastmod"%string
    else prefixIn in
  let '(version, canParse) :=
    match getField obj prefix with
    | Some el => fromBSON_elem el
    | None => (newVersion 0 0 OID_zero, false)
    end in
  match getField obj (prefix +:+ "Epoch")%string with
  | Some (VOID oid) => (mkVersion (_combined version) oid, true)
  | _ => (version, canParse)
  end.

Definition toBSONWithPrefix (v : ChunkVersion) (prefix : string) : Outcome BSONObj :=
  invariant (negb (String.eqb prefix "")) ;*
  Ret [(prefix, VTimestamp (_combined v)); ((prefix +:+ "Epoch")%string, VOID (_epoch v))].

(** A builder is the document built so far. *)
Definition addToBSON (v : ChunkVersion) (b : BSONObj) (prefix : string) : Outcome BSONObj :=
  let* o := toBSONWithPrefix v prefix in Ret (b ++ o).

Definition toBSON (v : ChunkVersion) : BSONObj :=
  [("0"%string, VTimestamp (_combined v)); ("1"%string, VOID (_epoch v))].

Definition kVersion : string := "version".
Definition kLastmod : string := "lastmod".
Definition kShardVersionField : string := "shardVersion".

Definition parseFromBSONWithFieldForCommands (obj : BSONObj) (field : string)
    : Outcome ChunkVersion :=
  match getField obj field with
  | None => Throw NoSuchKey
  | Some (VArray arr) =>
      match arr with
      | [] => Throw BadValue
      | (_, tsPart) :: rest =>
          match tsPart with
          | VTimestamp t =>
              match rest with
              | (_, VOID oid) :: _ => Ret (mkVersion t oid)
              | _ => Throw TypeMismatch
              end
          | _ => Throw TypeMismatch
          end
      end
  | Some _ => Throw TypeMismatch
  end.

Definition parseFromBSONForCommands (obj : BSONObj) : Outcome ChunkVersion :=
  parseFromBSONWithFieldForCommands obj kShardVersionField.

Definition parsed (r : ChunkVersion * bool) : Outcome ChunkVersion :=
  if negb r.2 then Throw BadValue else Ret r.1.

Definition parseFromBSONForSetShardVersion (obj : BSONObj) : Outcome ChunkVersion :=
  parsed (fromBSON_obj obj kVersion).

Definition parseFromBSONForChunk (obj : BSONObj) : Outcome ChunkVersion :=
  parsed (fromBSON_obj obj kLastmod).

Definition parseFromBSONWithFieldAndSetEpoch (obj : BSONObj) (field : string) (epoch : OID)
    : Outcome ChunkVersion :=
  let* v := parsed (fromBSON_obj obj field) in Ret (mkVersion (_combined v) epoch).

Definition appendForSetShardVersion (v : ChunkVersion) (b : BSONObj) : Outcome BSONObj :=
  addToBSON v b kVersion.

Definition appendWithFieldForCommands (v : ChunkVersion) (b : BSONObj) (field : string) : BSONObj :=
  b ++ [(field, VArray (toBSON v))].

Definition appendForCommands (v : ChunkVersion) (b : BSONObj) : BSONObj :=
  appendWithFieldForCommands v b kShardVersionField.

Definition appendForChunk (v : ChunkVersion) (b : BSONObj) : Outcome BSONObj :=
  addToBSON v b kLastmod.

#[global] Arguments majorVersion : simpl never.
#[global] Arguments minorVersion : simpl never.
#[global] Arguments toLong : simpl never.
#[global] Arguments newVersion : simpl never.
#[global] Arguments to_u64 : simpl never.

(** * Properties *)

Lemma getField_app o1 o2 name :
  getField (o1 ++ o2) name =
  match getField o1 name with Some v => Some v | None => getField o2 name end.
Proof. induction o1 as [|[n v] o1 IH]; simpl; [done|]. by destruct (String.eqb n name). Qed.

Lemma major_eq v : majorVersion v = toLong v / 2 ^ 32.
Proof.
  unfold majorVersion, toLong. rewrite Z.shiftr_div_pow2 by lia. pose proof (ui64_range (_combined v)).
  apply u32_id. split; [apply Z.div_pos; lia|]. apply Z.div_lt_upper_bound; lia.
Qed.

Lemma minor_eq v : minorVersion v = toLong v mod 2 ^ 32.
Proof.
  unfold minorVersion. change 4294967295 with (Z.ones 32). rewrite Z.land_ones by lia.
  apply u32_id. apply Z.mod_pos_bound. lia.
Qed.

Lemma toLong_mk c e : toLong (mkVersion (to_u64 c) e) = u64 c.
Proof. reflexivity. Qed.

(** A version is determined by its major and minor numbers. *)
Lemma version_major_mono v w : toLong v <= toLong w -> majorVersion v <= majorVersion w.
Proof. intros H. rewrite !major_eq. by apply Z.div_le_mono. Qed.

Lemma toLong_major_minor v : toLong v = majorVersion v * 2 ^ 32 + minorVersion v.
Proof. rewrite major_eq, minor_eq. pose proof (Z.div_mod (toLong v) (2 ^ 32)). lia. Qed.

Lemma minor_range v : 0 <= minorVersion v < 2 ^ 32.
Proof. apply u32_range. Qed.
Lemma major_range v : 0 <= majorVersion v < 2 ^ 32.
Proof. apply u32_range. Qed.

Lemma lor_pack a b : 0 <= b < 2 ^ 32 -> Z.lor b (Z.shiftl a 32) = a * 2 ^ 32 + b.
Proof.
  intros Hb.
  assert (Hl : Z.land b (Z.shiftl a 32) = 0).
  { apply Z.bits_inj'. intros n Hn. rewrite Z.land_spec, Z.bits_0.
    destruct (Z.lt_ge_cases n 32).
    - by rewrite Z.shiftl_spec_low, andb_false_r.
    - by rewrite <- (Z.mod_small b (2 ^ 32)), Z.mod_pow2_bits_high. }
  rewrite <- Z.lxor_lor, <- Z.add_nocarry_lxor, Z.shiftl_mul_pow2 by done. lia.
Qed.

Lemma toLong_newVersion major minor e :
  toLong (newVersion major minor e) = u32 major * 2 ^ 32 + u32 minor.
Proof.
  unfold newVersion. rewrite toLong_mk.
  pose proof (u32_range minor). pose proof (u32_range major).
  rewrite (u64_id (Z.shiftl _ _)) by (rewrite Z.shiftl_mul_pow2; lia).
  rewrite lor_pack by done. apply u64_id. lia.
Qed.

Lemma unpack a b :
  0 <= b < 2 ^ 32 -> (a * 2 ^ 32 + b) / 2 ^ 32 = a /\ (a * 2 ^ 32 + b) mod 2 ^ 32 = b.
Proof.
  intros Hb. split.
  - rewrite Z.div_add_l, Z.div_small by lia. lia.
  - rewrite Z.add_comm, Z.mod_add, Z.mod_small by lia. lia.
Qed.

(** The constructor packs both numbers and nothing is lost. *)
Lemma newVersion_parts major minor e :
  majorVersion (newVersion major minor e) = u32 major /\
  minorVersion (newVersion major minor e) = u32 minor.
Proof.
  rewrite major_eq, minor_eq, toLong_newVersion.
  apply unpack, u32_range.
Qed.

Lemma toLong_order v w :
  toLong v < toLong w <->
  majorVersion v < majorVersion w \/
  (majorVersion v = majorVersion w /\ minorVersion v < minorVersion w).
Proof.
  rewrite !toLong_major_minor.
  pose proof (minor_range v). pose proof (minor_range w). nia.
Qed.

Lemma version_eq v w : toLong v = toLong w -> _epoch v = _epoch w -> v = w.
Proof. destruct v, w; unfold toLong; cbn [_combined _epoch]; intros H ->. f_equal. by apply UInt64_eq. Qed.

Lemma version_equals_eq v w : version_equals v w = true <-> v = w.
Proof.
  unfold version_equals, hasEqualEpoch. split.
  - destruct (oid_eqb (_epoch v) (_epoch w)) eqn:E; simpl; [|done].
    intros He%Z.eqb_eq. apply oid_eqb_eq in E. by apply version_eq.
  - intros ->. rewrite (proj2 (oid_eqb_eq _ _) eq_refl). simpl. apply Z.eqb_refl.
Qed.

(** The packed comparison used by [<], [>], [<=] and [>=] is the
    lexicographic order of (major, minor), and [isOlderThan] is exactly that
    order restricted to one epoch. *)
Lemma version_order v w :
  (version_lt v w = true <->
     majorVersion v < majorVersion w \/
     (majorVersion v = majorVersion w /\ minorVersion v < minorVersion w)) /\
  version_gt v w = version_lt w v /\ version_ge v w = negb (version_lt v w) /\
  isOlderThan v w = (bool_decide (_epoch v = _epoch w) && version_lt v w).
Proof.
  unfold version_lt, version_gt, version_ge. rewrite Z.ltb_lt, Z.leb_antisym.
  split_and!; [apply toLong_order|done|done|].
  unfold isOlderThan. destruct (oid_eqb (_epoch w) (_epoch v)) eqn:E; cbn [negb].
  - apply oid_eqb_eq in E. rewrite bool_decide_eq_true_2 by congruence. cbn [andb].
    pose proof (toLong_order v w).
    destruct (Z.eqb_spec (majorVersion v) (majorVersion w)), (Z.ltb_spec (toLong v) (toLong w)),
      (Z.ltb_spec (majorVersion v) (majorVersion w)), (Z.ltb_spec (minorVersion v) (minorVersion w));
      cbn [negb]; try reflexivity; lia.
  - rewrite bool_decide_eq_false_2; [reflexivity|]. intros He.
    by rewrite (proj2 (oid_eqb_eq _ _) (eq_sym He)) in E.
Qed.

(** The next major version starts at minor 0 in the same epoch; at the largest
    major version the operation throws and nothing changes. *)
Lemma incMajor_spec v :
  (majorVersion v = 4294967295 -> incMajor v = Throw (Location 31180)) /\
  (majorVersion v <> 4294967295 ->
     exists w, incMajor v = Ret w /\ majorVersion w = majorVersion v + 1 /\
       minorVersion w = 0 /\ _epoch w = _epoch v /\ toLong v < toLong w).
Proof.
  unfold incMajor. pose proof (major_range v). pose proof (minor_range v). split; intros Hm.
  - by rewrite Hm.
  - rewrite (proj2 (Z.eqb_neq _ _) Hm). simpl. eexists; split; [done|].
    set (w := mkVersion _ _).
    assert (Hw : toLong w = (majorVersion v + 1) * 2 ^ 32).
    { unfold w. rewrite toLong_mk. rewrite u32_id by lia.
      rewrite Z.shiftl_mul_pow2 by lia. apply u64_id. lia. }
    rewrite (major_eq w), (minor_eq w), Hw, Z.div_mul, Z.mod_mul by lia.
    rewrite (toLong_major_minor v). split_and!; try done. lia.
Qed.

Lemma incMinor_spec v :
  (minorVersion v = 4294967295 -> incMinor v = Throw (Location 31181)) /\
  (minorVersion v <> 4294967295 ->
     exists w, incMinor v = Ret w /\ majorVersion w = majorVersion v /\
       minorVersion w = minorVersion v + 1 /\ _epoch w = _epoch v /\ toLong w = toLong v + 1).
Proof.
  unfold incMinor. pose proof (major_range v). pose proof (minor_range v). split; intros Hm.
  - by rewrite Hm.
  - rewrite (proj2 (Z.eqb_neq _ _) Hm). simpl. eexists; split; [done|].
    set (w := mkVersion _ _).
    assert (Hw : toLong w = majorVersion v * 2 ^ 32 + (minorVersion v + 1)).
    { unfold w. rewrite toLong_mk. rewrite (toLong_major_minor v). rewrite u64_id; lia. }
    destruct (unpack (majorVersion v) (minorVersion v + 1)) as [Hd Hr]; [lia|].
    rewrite (major_eq w), (minor_eq w), Hw, Hd, Hr, (toLong_major_minor v).
    split_and!; try done; lia.
Qed.

(** Both increments move strictly forward in the version order, keep the
    epoch, never wrap around, and fail with the documented error exactly when
    the 32-bit counter is exhausted. *)
Lemma version_increments v :
  match incMajor v with
  | Ret w => majorVersion w = majorVersion v + 1 /\ minorVersion w = 0 /\
             _epoch w = _epoch v /\ version_lt v w = true
  | Throw e => e = Location 31180 /\ majorVersion v = 2 ^ 32 - 1
  | Abort | Undef => False
  end /\
  match incMinor v with
  | Ret w => majorVersion w = majorVersion v /\ minorVersion w = minorVersion v + 1 /\
             _epoch w = _epoch v /\ version_lt v w = true
  | Throw e => e = Location 31181 /\ minorVersion v = 2 ^ 32 - 1
  | Abort | Undef => False
  end.
Proof.
  split.
  - destruct (incMajor_spec v) as [H1 H2]. destruct (Z.eq_dec (majorVersion v) 4294967295) as [E|E].
    + by rewrite H1.
    + destruct (H2 E) as (w & -> & ? & ? & ? & ?). split_and!; try done. by apply Z.ltb_lt.
  - destruct (incMinor_spec v) as [H1 H2]. destruct (Z.eq_dec (minorVersion v) 4294967295) as [E|E].
    + by rewrite H1.
    + destruct (H2 E) as (w & -> & ? & ? & ? & ?). split_and!; try done. apply Z.ltb_lt. lia.
Qed.

Lemma addToBSON_Ret v b prefix :
  prefix <> ""%string ->
  addToBSON v b prefix =
  Ret (b ++ [(prefix, VTimestamp (_combined v)); ((prefix +:+ "Epoch")%string, VOID (_epoch v))]).
Proof. intros Hp. unfold addToBSON, toBSONWithPrefix. by rewrite (proj2 (String.eqb_neq _ _) Hp). Qed.

Lemma fromBSON_obj_append v b prefix :
  prefix <> ""%string -> prefix <> (prefix +:+ "Epoch")%string ->
  getField b prefix = None -> getField b (prefix +:+ "Epoch")%string = None ->
  fromBSON_obj
    (b ++ [(prefix, VTimestamp (_combined v)); ((prefix +:+ "Epoch")%string, VOID (_epoch v))])
    prefix = (v, true).
Proof.
  intros Hp Hpe H1 H2. unfold fromBSON_obj. rewrite (proj2 (String.eqb_neq prefix "") Hp). simpl andb.
  cbv iota. rewrite !getField_app, H1, H2. cbn [getField].
  rewrite String.eqb_refl, (proj2 (String.eqb_neq _ _) Hpe), String.eqb_refl.
  simpl. destruct v as [c e]. simpl. unfold fromDeprecatedLong. by rewrite to_u64_ui64.
Qed.

(** C38: every serialised form of a version parses back to the same version: the
    two-field forms of [setShardVersion] and [config.chunks], and the array form
    of commands, after any earlier fields that do not use the same names. *)
Theorem version_bson_roundtrip v b :
  (getField b kLastmod = None -> getField b "lastmodEpoch"%string = None ->
     (let* o := appendForChunk v b in parseFromBSONForChunk o) = Ret v) /\
  (getField b kVersion = None -> getField b "versionEpoch"%string = None ->
     (let* o := appendForSetShardVersion v b in parseFromBSONForSetShardVersion o) = Ret v) /\
  (getField b kShardVersionField = None ->
     parseFromBSONForCommands (appendForCommands v b) = Ret v).
Proof.
  split_and!.
  - intros H1 H2. unfold appendForChunk. rewrite addToBSON_Ret by done. simpl obind.
    unfold parseFromBSONForChunk. by rewrite fromBSON_obj_append.
  - intros H1 H2. unfold appendForSetShardVersion. rewrite addToBSON_Ret by done. simpl obind.
    unfold parseFromBSONForSetShardVersion. by rewrite fromBSON_obj_append.
  - intros H1. unfold parseFromBSONForCommands, appendForCommands, appendWithFieldForCommands,
      parseFromBSONWithFieldForCommands.
    rewrite getField_app, H1. simpl. by destruct v.
Qed.

Lemma version_bson_roundtrip_witness :
  (let* o := appendForChunk (newVersion 3 7 OID_zero) [("ns"%string, VString "db.c"%string)] in
   parseFromBSONForChunk o) = Ret (newVersion 3 7 OID_zero).
Proof. apply (version_bson_roundtrip (newVersion 3 7 OID_zero)); reflexivity. Defined.
