(* ===== verification/ChunkType.v ===== *)
(** Chunk ranges and persisted chunk entries ([s/catalog/type_chunk.h],
    [s/catalog/type_chunk.cpp]) with the field extraction helpers of
    [bson/util/bson_extract.cpp]. *)

From S2P Require Import Prelude Bson Text ChunkVersion.
From stdpp Require Import base list strings.
From Stdlib Require Import ZArith Lia String.
Local Open Scope string_scope.
Local Open Scope Z_scope.
Local Open Scope list_scope.
Local Open Scope outcome_scope.

(** * Field extraction *)

Definition bsonExtractField (o : BSONObj) (fieldName : string) : Outcome BSONValue :=
  match getField o fieldName with
  | Some v => Ret v
  | None => Throw NoSuchKey
  end.

Definition bsonExtractTypedField (o : BSONObj) (fieldName : string) (t : BSONType)
    : Outcome BSONValue :=
  let* v := bsonExtractField o fieldName in
  if decide (t = type_of v) then Ret v else Throw TypeMismatch.

Definition bsonExtractBooleanField (o : BSONObj) (fieldName : string) : Outcome bool :=
  let* v := bsonExtractTypedField o fieldName Bool_t in
  match v with VBool b => Ret b | _ => Abort end.

Definition bsonExtractStringField (o : BSONObj) (fieldName : string) : Outcome string :=
  let* v := bsonExtractTypedField o fieldName String_t in
  match v with VString s => Ret s | _ => Abort end.

(** [extractObject]: a non-empty embedded document. *)
Definition extractObject (o : BSONObj) (fieldName : string) : Outcome BSONObj :=
  let* v := bsonExtractTypedField o fieldName Object in
  match v with
  | VObject [] => Throw BadValue
  | VObject d => Ret d
  | _ => Abort
  end.

(** * Ranges *)

Record ChunkRange := mkRange { _minKey : BSONObj; _maxKey : BSONObj }.

Module Range.
Definition getMin (r : ChunkRange) : BSONObj := _minKey r.
Definition getMax (r : ChunkRange) : BSONObj := _maxKey r.

Definition le (a b : BSONObj) : bool := woCompare a b <=? 0.

Definition containsKey (r : ChunkRange) (key : BSONObj) : bool :=
  (woCompare (_minKey r) key <=? 0) && (woCompare key (_maxKey r) <? 0).

Definition fromBSON (obj : BSONObj) : Outcome ChunkRange :=
  let* minKey := extractObject obj "min" in
  let* maxKey := extractObject obj "max" in
  if 0 <=? woCompare minKey maxKey then Throw FailedToParse
  else Ret (mkRange minKey maxKey).

Definition append (r : ChunkRange) (b : BSONObj) : BSONObj :=
  b ++ [("min", VObject (_minKey r)); ("max", VObject (_maxKey r))].

Definition equals (r other : ChunkRange) : bool :=
  (woCompare (_minKey r) (_minKey other) =? 0) && (woCompare (_maxKey r) (_maxKey other) =? 0).

Definition covers (r other : ChunkRange) : bool :=
  le (_minKey r) (_minKey other) && le (_maxKey other) (_maxKey r).

Definition overlapWith (r other : ChunkRange) : option ChunkRange :=
  if le (_maxKey other) (_minKey r) || le (_maxKey r) (_minKey other) then None
  else Some (mkRange
    (if le (_minKey r) (_minKey other) then _minKey other else _minKey r)
    (if le (_maxKey r) (_maxKey other) then _maxKey r else _maxKey other)).

Definition unionWith (r other : ChunkRange) : ChunkRange :=
  mkRange
    (if le (_minKey r) (_minKey other) then _minKey r else _minKey other)
    (if le (_maxKey r) (_maxKey other) then _maxKey other else _maxKey r).
End Range.

(** * Chunk entries *)

Definition ShardId : Type := string.
Definition ShardId_isValid (s : ShardId) : bool := negb (String.eqb s "").

Record ChunkType := mkChunkType {
  _ns : option string;
  _min : option BSONObj;
  _max : option BSONObj;
  _version : option ChunkVersion;
  _shard : option ShardId;
  _jumbo : option bool
}.

Definition emptyChunkType : ChunkType := mkChunkType None None None None None None.

(** [ChunkType(nss, range, version, shardId)] *)
Definition newChunkType (nss : string) (range : ChunkRange) (v : ChunkVersion) (s : ShardId)
    : ChunkType :=
  mkChunkType (Some nss) (Some (_minKey range)) (Some (_maxKey range)) (Some v) (Some s) None.

Definition getJumbo (c : ChunkType) : bool := default false (_jumbo c).

(** The setters check their argument with [invariant]. *)
Definition setNS (c : ChunkType) (ns : string) : Outcome ChunkType :=
  invariant (negb (String.eqb ns "")) ;*
  Ret (mkChunkType (Some ns) (_min c) (_max c) (_version c) (_shard c) (_jumbo c)).
Definition setMin (c : ChunkType) (o : BSONObj) : Outcome ChunkType :=
  invariant (match o with [] => false | _ => true end) ;*
  Ret (mkChunkType (_ns c) (Some o) (_max c) (_version c) (_shard c) (_jumbo c)).
Definition setMax (c : ChunkType) (o : BSONObj) : Outcome ChunkType :=
  invariant (match o with [] => false | _ => true end) ;*
  Ret (mkChunkType (_ns c) (_min c) (Some o) (_version c) (_shard c) (_jumbo c)).
Definition setVersion (c : ChunkType) (v : ChunkVersion) : Outcome ChunkType :=
  invariant (isSet v) ;*
  Ret (mkChunkType (_ns c) (_min c) (_max c) (Some v) (_shard c) (_jumbo c)).
Definition setShard (c : ChunkType) (s : ShardId) : Outcome ChunkType :=
  invariant (ShardId_isValid s) ;*
  Ret (mkChunkType (_ns c) (_min c) (_max c) (_version c) (Some s) (_jumbo c)).
Definition setJumbo (c : ChunkType) (j : bool) : ChunkType :=
  mkChunkType (_ns c) (_min c) (_max c) (_version c) (_shard c) (Some j).

Fixpoint same_field_names (a b : BSONObj) : bool :=
  match a, b with
  | (n1, _) :: a, (n2, _) :: b => (strcmp n1 n2 =? 0) && same_field_names a b
  | _, _ => true
  end.

(** [ChunkType::validate] *)
Definition validate (c : ChunkType) : Outcome unit :=
  match _min c with
  | None | Some [] => Throw NoSuchKey
  | Some mn =>
    match _max c with
    | None | Some [] => Throw NoSuchKey
    | Some mx =>
      match _version c with
      | None => Throw NoSuchKey
      | Some v =>
        if negb (isSet v) then Throw NoSuchKey else
        match _shard c with
        | None => Throw NoSuchKey
        | Some s =>
          if negb (ShardId_isValid s) then Throw NoSuchKey
          else if negb (List.length mn =? List.length mx)%nat then Throw BadValue
          else if negb (same_field_names mn mx) then Throw BadValue
          else if 0 <=? woCompare mn mx then Throw BadValue
          else Ret ()
        end
      end
    end
  end.

Section config_format.
Context (snprintf_g16 : Dbl -> string).

(** [ChunkType::genID] *)
Fixpoint genID_fields (o : BSONObj) : Outcome string :=
  match o with
  | [] => Ret ""
  | (n, v) :: o =>
      let* t := value_toString snprintf_g16 true 0 None v in
      let* rest := genID_fields o in
      Ret (n +:+ "_" +:+ t +:+ rest)
  end.
Definition genID (ns : string) (o : BSONObj) : Outcome string :=
  let* t := genID_fields o in Ret (ns +:+ "-" +:+ t).

Definition opt_field {A} (name : string) (f : A -> BSONValue) (x : option A) : BSONObj :=
  match x with Some a => [(name, f a)] | None => [] end.

Definition toConfigBSON (c : ChunkType) : Outcome BSONObj :=
  let* b :=
    match _ns c, _min c with
    | Some ns, Some mn => let* id := genID ns mn in Ret [("_id", VString id)]
    | _, _ => Ret []
    end in
  let b := b ++ opt_field "ns" VString (_ns c) ++ opt_field "min" VObject (_min c)
             ++ opt_field "max" VObject (_max c) ++ opt_field "shard" VString (_shard c) in
  let* b := match _version c with Some v => appendForChunk v b | None => Ret b end in
  Ret (b ++ opt_field "jumbo" VBool (_jumbo c)).
End config_format.

Definition fromConfigBSON (source : BSONObj) : Outcome ChunkType :=
  let* chunkNS := bsonExtractStringField source "ns" in
  let* range := Range.fromBSON source in
  let* chunkShard := bsonExtractStringField source "shard" in
  let* jumbo :=
    match bsonExtractBooleanField source "jumbo" with
    | Ret j => Ret (Some j)
    | Throw NoSuchKey => Ret None
    | Throw e => Throw e
    | Abort => Abort
    | Undef => Undef
    end in
  let* version := parseFromBSONForChunk source in
  Ret (mkChunkType (Some chunkNS) (Some (_minKey range)) (Some (_maxKey range)) (Some version)
         (Some chunkShard) jumbo).

Definition fromShardBSON (source : BSONObj) (epoch : OID) : Outcome ChunkType :=
  let* minKey := extractObject source "_id" in
  let* maxKey := extractObject source "max" in
  if 0 <=? woCompare minKey maxKey then Throw FailedToParse
  else
    let* chunkShard := bsonExtractStringField source "shard" in
    let* version := parseFromBSONWithFieldAndSetEpoch source "lastmod" epoch in
    Ret (mkChunkType None (Some minKey) (Some maxKey) (Some version) (Some chunkShard) None).

Definition toShardBSON (c : ChunkType) : Outcome BSONObj :=
  match _min c, _max c, _shard c, _version c with
  | Some mn, Some mx, Some s, Some v =>
      Ret [("_id", VObject mn); ("max", VObject mx); ("shard", VString s);
           ("lastmod", VTimestamp (_combined v))]
  | _, _, _, _ => Abort
  end.

(** * Properties *)

Lemma wo_le a b : (woCompare a b <=? 0) = kleb a b.
Proof.
  unfold kleb, kcmp, BSONObj_KeyOrder, sgc.
  destruct (Z.leb_spec (woCompare a b) 0), (Z.compare_spec (woCompare a b) 0); try done; lia.
Qed.
Lemma wo_lt a b : (woCompare a b <? 0) = kltb a b.
Proof.
  unfold kltb, kcmp, BSONObj_KeyOrder, sgc.
  destruct (Z.ltb_spec (woCompare a b) 0), (Z.compare_spec (woCompare a b) 0); try done; lia.
Qed.
Lemma wo_eq a b : (woCompare a b =? 0) = keqb a b.
Proof.
  unfold keqb, kcmp, BSONObj_KeyOrder, sgc.
  destruct (Z.eqb_spec (woCompare a b) 0), (Z.compare_spec (woCompare a b) 0); try done; lia.
Qed.
Lemma wo_ge a b : (0 <=? woCompare a b) = negb (kltb a b).
Proof. rewrite <- wo_lt, Z.leb_antisym. done. Qed.

Lemma wo_gt a b : (0 <? woCompare a b) = kltb b a.
Proof. rewrite Z.ltb_antisym, wo_le. destruct (kleb a b) eqn:E, (kltb b a) eqn:E'; try done; korder. Qed.

(** The keys of a range. *)
Definition in_range (r : ChunkRange) (k : BSONObj) : Prop := _minKey r ≼ k /\ k ≺ _maxKey r.

Lemma containsKey_spec r k : Range.containsKey r k = true <-> in_range r k.
Proof.
  unfold Range.containsKey, in_range. rewrite wo_le, wo_lt, andb_true_iff, kleb_spec, kltb_spec. done.
Qed.

(** [overlapWith] is the intersection: its keys are exactly the keys of
    both ranges, it is never empty, and it reports none only when the two ranges
    share no key. *)
Lemma overlapWith_intersection r1 r2 :
  _minKey r1 ≺ _maxKey r1 -> _minKey r2 ≺ _maxKey r2 ->
  match Range.overlapWith r1 r2 with
  | Some o => _minKey o ≺ _maxKey o /\ forall k, in_range o k <-> in_range r1 k /\ in_range r2 k
  | None => forall k, ~ (in_range r1 k /\ in_range r2 k)
  end.
Proof.
  intros H1 H2. unfold Range.overlapWith, Range.le, in_range. rewrite !wo_le.
  destruct (kleb (_maxKey r2) (_minKey r1)) eqn:E1, (kleb (_maxKey r1) (_minKey r2)) eqn:E2;
    simpl; try (intros k [[] []]; korder).
  destruct (kleb (_minKey r1) (_minKey r2)) eqn:E3, (kleb (_maxKey r1) (_maxKey r2)) eqn:E4;
    simpl; (split; [korder|]); intros k; (split; [intros []; split_and!; korder|]);
    intros [[] []]; split; korder.
Qed.

Definition num_key (z : Z) : BSONObj :=
  [("x", VBool (0 <? z)); ("y", VTimestamp (to_u64 z))].

Lemma overlapWith_intersection_witness :
  match Range.overlapWith (mkRange (num_key 1) (num_key 5)) (mkRange (num_key 3) (num_key 9)) with
  | Some o => _minKey o ≺ _maxKey o /\
      forall k, in_range o k <-> in_range (mkRange (num_key 1) (num_key 5)) k /\
                                 in_range (mkRange (num_key 3) (num_key 9)) k
  | None => False
  end.
Proof.
  apply (overlapWith_intersection (mkRange (num_key 1) (num_key 5))
           (mkRange (num_key 3) (num_key 9))); reflexivity.
Defined.

Lemma covers_spec r1 r2 :
  Range.covers r1 r2 = true <-> _minKey r1 ≼ _minKey r2 /\ _maxKey r2 ≼ _maxKey r1.
Proof. unfold Range.covers, Range.le. by rewrite !wo_le, andb_true_iff, !kleb_spec. Qed.

(** [unionWith] is the least range that includes both ranges. *)
Lemma unionWith_least r1 r2 :
  Range.covers (Range.unionWith r1 r2) r1 = true /\
  Range.covers (Range.unionWith r1 r2) r2 = true /\
  forall r, Range.covers r r1 = true -> Range.covers r r2 = true ->
    Range.covers r (Range.unionWith r1 r2) = true.
Proof.
  setoid_rewrite covers_spec. unfold Range.unionWith, Range.le. simpl. rewrite !wo_le.
  destruct (kleb (_minKey r1) (_minKey r2)) eqn:E3, (kleb (_maxKey r1) (_maxKey r2)) eqn:E4;
    split_and!; try korder; intros r [] []; split; korder.
Qed.

Lemma woCompare_lt_neg a b : a ≺ b -> (0 <=? woCompare a b) = false.
Proof. intros H. rewrite wo_ge. apply kltb_spec in H. by rewrite H. Qed.

(** A range written into a document is read back unchanged, and reading
    refuses every pair of bounds that is not strictly increasing. *)
Lemma range_bson_roundtrip b r :
  getField b "min" = None -> getField b "max" = None ->
  _minKey r <> [] -> _maxKey r <> [] ->
  Range.fromBSON (Range.append r b) =
    (if kltb (_minKey r) (_maxKey r) then Ret r else Throw FailedToParse).
Proof.
  intros H1 H2 Hn Hx. unfold Range.fromBSON, Range.append, extractObject, bsonExtractTypedField,
    bsonExtractField. rewrite !getField_app, H1, H2. simpl.
  destruct r as [[|m1 mn] [|x1 mx]]; simpl in *; try done.
  rewrite wo_ge. by destruct (kltb _ _).
Qed.

Lemma range_bson_roundtrip_witness :
  Range.fromBSON (Range.append (mkRange (num_key 1) (num_key 5)) [("ns", VString "db.c")]) =
    Ret (mkRange (num_key 1) (num_key 5)).
Proof.
  apply (range_bson_roundtrip [("ns", VString "db.c")] (mkRange (num_key 1) (num_key 5)));
    vm_compute; congruence.
Defined.

(** What [validate] accepts. *)
Lemma validate_inv c :
  validate c = Ret () ->
  exists mn mx v s,
    _min c = Some mn /\ _max c = Some mx /\ _version c = Some v /\ _shard c = Some s /\
    mn <> [] /\ mx <> [] /\ isSet v = true /\ s <> "" /\
    List.length mn = List.length mx /\ same_field_names mn mx = true /\ mn ≺ mx.
Proof.
  destruct c as [ns [[|e mn]|] [[|f mx]|] [v|] [s|] j]; unfold validate; simpl; try done.
  - destruct (isSet v) eqn:Hv; simpl; [|done].
    unfold ShardId_isValid. destruct (String.eqb_spec s ""); simpl; [done|].
    destruct (Nat.eqb_spec (List.length mn) (List.length mx)); simpl; [|done].
    rewrite wo_ge. destruct f as [n2 w2], e as [n1 w1].
    destruct ((strcmp n1 n2 =? 0) && same_field_names mn mx) eqn:Hf; simpl; [|done].
    destruct (kltb _ _) eqn:Hlt; simpl; [|done]. intros _.
    do 4 eexists. split_and!; try done; [simpl; congruence|by apply kltb_spec].
  - destruct (isSet v); simpl; done.
Qed.

(** A valid chunk entry written in the [config.chunks] format is read back
    unchanged, the optional jumbo flag included. *)
Lemma config_bson_roundtrip g16 c ns doc :
  validate c = Ret () -> _ns c = Some ns -> toConfigBSON g16 c = Ret doc ->
  fromConfigBSON doc = Ret c.
Proof.
  intros Hv Hns Hd.
  apply validate_inv in Hv as (mn & mx & v & s & H1 & H2 & H3 & H4 & Hmn & Hmx & _ & _ & _ & _ & Hlt).
  destruct c as [? ? ? ? ? j]; simpl in *; subst. unfold toConfigBSON in Hd. simpl in Hd.
  destruct (genID g16 ns mn) as [id| | |] eqn:Hid; [|done..]. simpl in Hd. injection Hd as <-.
  unfold fromConfigBSON, Range.fromBSON, bsonExtractStringField, bsonExtractBooleanField,
    extractObject, bsonExtractTypedField, bsonExtractField. simpl.
  destruct mn as [|e1 mn], mx as [|e2 mx]; try done; simpl.
  rewrite woCompare_lt_neg by done. simpl. destruct v as [c e].
  by destruct j as [b|]; simpl; unfold parseFromBSONForChunk, fromBSON_obj; simpl;
    unfold fromDeprecatedLong; rewrite to_u64_ui64.
Qed.

Lemma config_bson_roundtrip_witness :
  fromConfigBSON [("_id", VString "db.c-x_true"); ("ns", VString "db.c");
    ("min", VObject [("x", VBool true)]); ("max", VObject [("x", VMaxKey)]);
    ("shard", VString "s0"); ("lastmod", VTimestamp (to_u64 (2 ^ 32)));
    ("lastmodEpoch", VOID OID_zero); ("jumbo", VBool true)] =
  Ret (setJumbo (newChunkType "db.c" (mkRange [("x", VBool true)] [("x", VMaxKey)])
         (newVersion 1 0 OID_zero) "s0") true).
Proof.
  apply (config_bson_roundtrip (fun _ => "0")
    (setJumbo (newChunkType "db.c" (mkRange [("x", VBool true)] [("x", VMaxKey)])
       (newVersion 1 0 OID_zero) "s0") true) "db.c"); reflexivity.
Defined.

(** The shard-local format ([config.cache.chunks]) keeps bounds, shard and
    version of a valid entry; the epoch comes back from the collection and the
    namespace and jumbo flag are not stored. *)
Lemma shard_bson_roundtrip c v doc :
  validate c = Ret () -> _version c = Some v -> toShardBSON c = Ret doc ->
  fromShardBSON doc (_epoch v) =
    Ret (mkChunkType None (_min c) (_max c) (_version c) (_shard c) None).
Proof.
  intros Hv Hver Hd.
  apply validate_inv in Hv as (mn & mx & v' & s & H1 & H2 & H3 & H4 & Hmn & Hmx & _ & _ & _ & _ & Hlt).
  destruct c as [? ? ? ? ? j]; simpl in *; simplify_eq. unfold toShardBSON in Hd. simpl in Hd.
  injection Hd as <-. unfold fromShardBSON, bsonExtractStringField,
    extractObject, bsonExtractTypedField, bsonExtractField. simpl.
  destruct mn as [|e1 mn], mx as [|e2 mx]; try done; simpl.
  rewrite woCompare_lt_neg by done. simpl. destruct v as [c e]. simpl.
  unfold parseFromBSONWithFieldAndSetEpoch, fromBSON_obj. simpl.
  unfold fromDeprecatedLong. by rewrite to_u64_ui64.
Qed.

Lemma shard_bson_roundtrip_witness :
  fromShardBSON [("_id", VObject (num_key 1)); ("max", VObject (num_key 5));
    ("shard", VString "s0"); ("lastmod", VTimestamp (to_u64 (2 ^ 32)))] OID_zero =
  Ret (mkChunkType None (Some (num_key 1)) (Some (num_key 5))
         (Some (newVersion 1 0 OID_zero)) (Some "s0") None).
Proof.
  apply (shard_bson_roundtrip
    (newChunkType "db.c" (mkRange (num_key 1) (num_key 5)) (newVersion 1 0 OID_zero) "s0")
    (newVersion 1 0 OID_zero)); reflexivity.
Defined.
