(* ===== verification/ShardKey.v ===== *)
(** Key patterns and shard keys ([db/keypattern.cpp], [db/index_names.cpp],
    [s/shard_key_pattern.cpp]): which patterns are allowed, how a key is
    extracted from a document, the bounds of the key space, and how per-field
    index bounds are flattened into key ranges. *)

From S2P Require Import Prelude Bson Text ChunkVersion ChunkType.
From stdpp Require Import base list strings.
From Stdlib Require Import ZArith Lia String Ascii.
Local Open Scope string_scope.
Local Open Scope Z_scope.
Local Open Scope list_scope.
Local Open Scope outcome_scope.

(** * Elements *)

Definition isNumber (v : BSONValue) : bool :=
  match v with VInt _ | VLong _ | VDouble _ => true | _ => false end.

(** [numberInt()]: a double outside the [int] range gives the smallest [int],
    the result of the x86-64 conversion. *)
Definition numberInt (v : BSONValue) : Z :=
  match v with
  | VInt z => i32 z
  | VLong z => s32 (i64 z)
  | VDouble d =>
      match dbl d with
      | DFin _ _ => if in_i32 (d_trunc (dbl d)) then d_trunc (dbl d) else - 2 ^ 31
      | _ => - 2 ^ 31
      end
  | _ => 0
  end.

(** * Key patterns *)

Definition KeyPattern : Type := BSONObj.

Definition IndexNames_BTREE : string := "".
Definition IndexNames_HASHED : string := "hashed".

(** [IndexNames::findPluginName] *)
Fixpoint findPluginName (pattern : KeyPattern) : string :=
  match pattern with
  | [] => IndexNames_BTREE
  | (_, VString s) :: _ => s
  | _ :: pattern => findPluginName pattern
  end.

Definition isOrderedKeyPattern (pattern : KeyPattern) : bool :=
  String.eqb IndexNames_BTREE (findPluginName pattern).

Definition isHashedKeyPattern (pattern : KeyPattern) : bool :=
  String.eqb IndexNames_HASHED (findPluginName pattern).

(** The fields appended past the end of a bound. *)
Fixpoint extend_rest (makeUpperInclusive : bool) (pattern : KeyPattern) : BSONObj :=
  match pattern with
  | [] => []
  | (n, v) :: pattern =>
      let order := if isNumber v then numberInt v else 1 in
      let order := if makeUpperInclusive then s32 (order * -1) else order in
      (n, if 0 <? order then VMinKey else VMaxKey) :: extend_rest makeUpperInclusive pattern
  end.

(** [KeyPattern::extendRangeBound] *)
Fixpoint extendRangeBound (pattern : KeyPattern) (bound : BSONObj) (makeUpperInclusive : bool)
    : Outcome BSONObj :=
  match bound, pattern with
  | [], _ => Ret (extend_rest makeUpperInclusive pattern)
  | _ :: _, [] => Throw (Location 16649)
  | (bn, bv) :: bound, (pn, _) :: pattern =>
      if negb (strcmp bn pn =? 0) then Throw (Location 16634)
      else let* rest := extendRangeBound pattern bound makeUpperInclusive in
           Ret ((bn, bv) :: rest)
  end.

Definition globalMin (pattern : KeyPattern) : BSONObj := extend_rest false pattern.
Definition globalMax (pattern : KeyPattern) : BSONObj := extend_rest true pattern.

(** * Field paths *)

(** [FieldRef::parse]: the parts between dots; no parts for the empty path. *)
Fixpoint split_dots (s : string) (cur : string) : list string :=
  match s with
  | EmptyString => [cur]
  | String c s => if ord c =? 46 then cur :: split_dots s "" else split_dots s (cur +:+ String c "")
  end.
Definition FieldRef_parts (path : string) : list string :=
  match path with EmptyString => [] | _ => split_dots path "" end.

(** [KeyPattern::isIdKeyPattern] *)
Definition isIdKeyPattern (pattern : KeyPattern) : bool :=
  match pattern with
  | [(n, v)] => (strcmp n "_id" =? 0) && ((numberInt v =? 1) || (numberInt v =? -1))
  | _ => false
  end.

(** * Shard key patterns *)

Definition isHashedPatternEl (v : BSONValue) : bool :=
  match v with VString s => String.eqb s IndexNames_HASHED | _ => false end.

(** The checks of [parseShardKeyPattern] on one element; the dotted form of the
    parsed path is always the original one. *)
Definition checkPatternEl (nFields : nat) (el : BSONElement) : Outcome unit :=
  let '(name, v) := el in
  uassert BadValue (negb (List.length (FieldRef_parts name) =? 0)%nat) ;*
  uassert BadValue (forallb (fun p => negb (String.eqb p "")) (FieldRef_parts name)) ;*
  uassert BadValue ((isNumber v && (numberInt v =? 1)) ||
                    ((nFields =? 1)%nat && isHashedPatternEl v)).

Record ShardKeyPattern := mkSKP { skp_pattern : KeyPattern; skp_paths : list (list string) }.

(** [ShardKeyPattern(keyPattern)] *)
Definition newShardKeyPattern (keyPattern : BSONObj) : Outcome ShardKeyPattern :=
  uassert BadValue (match keyPattern with [] => false | _ => true end) ;*
  let* _ := ofold (fun _ el => checkPatternEl (List.length keyPattern) el) () keyPattern in
  Ret (mkSKP keyPattern ((fun e => FieldRef_parts e.1) <$> keyPattern)).

Definition isHashedPattern (p : ShardKeyPattern) : bool :=
  match skp_pattern p with (_, v) :: _ => isHashedPatternEl v | [] => false end.

(** [!element.eoo() && element.type() != Array] *)
Definition isValidShardKeyElement (v : option BSONValue) : bool :=
  match v with None | Some (VArray _) => false | Some _ => true end.

Definition isShardKey (p : ShardKeyPattern) (shardKey : BSONObj) : bool :=
  forallb (fun el => isValidShardKeyElement (getField shardKey el.1)) (skp_pattern p) &&
  (List.length shardKey =? List.length (skp_pattern p))%nat.

(** The loop of [normalizeShardKey]: [None] is the early return of the empty key. *)
Fixpoint normalize_loop (shardKey : BSONObj) (pattern : KeyPattern) : option BSONObj :=
  match pattern with
  | [] => Some []
  | (n, _) :: pattern =>
      match getField shardKey n with
      | None | Some (VArray _) => None
      | Some v => rest ← normalize_loop shardKey pattern; Some ((n, v) :: rest)
      end
  end.

Definition normalizeShardKey (p : ShardKeyPattern) (shardKey : BSONObj) : BSONObj :=
  if (List.length (skp_pattern p) <? List.length shardKey)%nat then []
  else default [] (normalize_loop shardKey (skp_pattern p)).

(** The element a path leads to when arrays are not traversed
    ([getFieldDottedOrArray] under [kNoTraversal]). *)
Fixpoint extractKeyElement (doc : BSONObj) (path : list string) : option BSONValue :=
  match path with
  | [] => None
  | [part] => getField doc part
  | part :: path =>
      match getField doc part with
      | Some (VObject o) => extractKeyElement o path
      | _ => None
      end
  end.

(** [BSONObj::isFieldNamePrefixOf] *)
Fixpoint isFieldNamePrefixOf (a b : BSONObj) : bool :=
  match a, b with
  | [], _ => true
  | _, [] => false
  | (n, _) :: a, (m, _) :: b => (strcmp n m =? 0) && isFieldNamePrefixOf a b
  end.

Definition isUniqueIndexCompatible (p : ShardKeyPattern) (uniqueIndexPattern : BSONObj) : bool :=
  match uniqueIndexPattern with
  | (n, _) :: _ =>
      if String.eqb n "_id" then true
      else isFieldNamePrefixOf (skp_pattern p) uniqueIndexPattern
  | [] => isFieldNamePrefixOf (skp_pattern p) uniqueIndexPattern
  end.

Section extract.
(** [BSONElementHasher::hash64] with the default seed (an MD5 digest). *)
Context (hash64 : BSONValue -> Int64).

Fixpoint extract_loop (doc : BSONObj) (pattern : KeyPattern) : option BSONObj :=
  match pattern with
  | [] => Some []
  | (n, pv) :: pattern =>
      match extractKeyElement doc (FieldRef_parts n) with
      | None | Some (VArray _) => None
      | Some v =>
          rest ← extract_loop doc pattern;
          Some ((n, if isHashedPatternEl pv then VLong (hash64 v) else v) :: rest)
      end
  end.

(** [ShardKeyPattern::extractShardKeyFromDoc]; the empty document means that
    there is no shard key. *)
Definition extractShardKeyFromDoc (p : ShardKeyPattern) (doc : BSONObj) : BSONObj :=
  default [] (extract_loop doc (skp_pattern p)).
End extract.

(** * Index bounds *)

Record Interval := mkInterval {
  iv_start : BSONValue;
  iv_startInclusive : bool;
  iv_end : BSONValue;
  iv_endInclusive : bool
}.

Definition isPoint (i : Interval) : bool :=
  iv_startInclusive i && iv_endInclusive i && (value_woCompare (iv_start i) (iv_end i) =? 0).

(** One ordered interval list per field of the shard key. *)
Definition IndexBounds : Type := list (list Interval).
Definition BoundList : Type := list (BSONObj * BSONObj).

Definition kMaxFlattenedInCombinations : Z := 4000000.

(** All builders crossed with all intervals, in order; the limit is checked
    before each new builder. *)
Definition cross (name : string) (intervals : list Interval) (builders : BoundList) : BoundList :=
  b ← builders;
  (fun i => (fst b ++ [(name, iv_start i)], snd b ++ [(name, iv_end i)])) <$> intervals.

Definition flatten_step (st : BoundList * bool) (fld : string * list Interval)
    : Outcome (BoundList * bool) :=
  let '(builders, equalityOnly) := st in
  let '(name, intervals) := fld in
  match intervals with
  | [] => Abort
  | first :: _ =>
      let extend (s e : BSONValue) :=
        (fun b : BSONObj * BSONObj => (fst b ++ [(name, s)], snd b ++ [(name, e)])) <$> builders in
      if (equalityOnly : bool) then
        if (List.length intervals =? 1)%nat && isPoint first
        then Ret (extend (iv_start first) (iv_end first), true)
        else
          uassert (Location 17439)
            (Z.of_nat (List.length (cross name intervals builders)) <=? kMaxFlattenedInCombinations) ;*
          Ret (cross name intervals builders, false)
      else Ret (extend (iv_start first) (iv_end (default first (last intervals))), false)
  end.

(** [ShardKeyPattern::flattenBounds] *)
Definition flattenBounds (p : ShardKeyPattern) (bounds : IndexBounds) : Outcome BoundList :=
  invariant (List.length bounds =? List.length (skp_pattern p))%nat ;*
  if forallb (fun f => negb (List.length f =? 0)%nat) bounds
  then let* st := ofold flatten_step ([([], [])], true) (zip ((skp_pattern p).*1) bounds) in
       Ret (fst st)
  else Ret [].

(** * Properties *)

Lemma ofold_unit_forall {A} (f : A -> Outcome unit) l :
  ofold (fun _ el => f el) () l = Ret () -> Forall (fun el => f el = Ret ()) l.
Proof.
  induction l as [|x l IH]; simpl; [done|].
  destruct (f x) as [[]| | |] eqn:E; simpl; try done. auto.
Qed.

(** A field of a pattern the constructor accepts: ascending, or the only field
    and hashed. *)
Definition pattern_field_ok (n : nat) (v : BSONValue) : Prop :=
  (isNumber v = true /\ numberInt v = 1) \/ (n = 1%nat /\ v = VString IndexNames_HASHED).

Lemma newShardKeyPattern_inv kp p :
  newShardKeyPattern kp = Ret p ->
  skp_pattern p = kp /\ kp <> [] /\
  Forall (fun el : BSONElement => pattern_field_ok (List.length kp) el.2) kp.
Proof.
  unfold newShardKeyPattern. intros H. inv_ret. subst p. split_and!; [done|by destruct kp|].
  match goal with H : ofold _ _ _ = Ret ?u |- _ => destruct u; apply ofold_unit_forall in H;
    eapply Forall_impl; [exact H|] end.
  intros [n v] Hc. unfold checkPatternEl in Hc. inv_ret. unfold pattern_field_ok. simpl.
  match goal with H : _ || _ = true |- _ => apply orb_true_iff in H as [Hn|Hh] end.
  - apply andb_true_iff in Hn as [? ?%Z.eqb_eq]. by left.
  - apply andb_true_iff in Hh as [?%Nat.eqb_eq Hh]. right. split; [done|].
    destruct v; try done. simpl in *. by apply String.eqb_eq in Hh as ->.
Qed.

(** The bounds of the key space of an accepted pattern. *)
Lemma globalMin_accepted n kp :
  Forall (fun el : BSONElement => pattern_field_ok n el.2) kp ->
  globalMin kp = (fun el : BSONElement => (el.1, VMinKey)) <$> kp.
Proof.
  unfold globalMin. induction 1 as [|[m v] kp [[Hn Hv]|[_ Hv]] _ IH]; simpl in *; [done|..].
  - by rewrite Hn, Hv, IH.
  - subst v. simpl. by rewrite IH.
Qed.

Lemma globalMax_accepted n kp :
  Forall (fun el : BSONElement => pattern_field_ok n el.2) kp ->
  globalMax kp = (fun el : BSONElement => (el.1, VMaxKey)) <$> kp.
Proof.
  unfold globalMax. induction 1 as [|[m v] kp [[Hn Hv]|[_ Hv]] _ IH]; simpl in *; [done|..].
  - by rewrite Hn, Hv, IH.
  - subst v. simpl. by rewrite IH.
Qed.

(** Every key with the pattern's field names lies in the key space; only the
    key whose values are all MaxKey is at its upper end. *)
Lemma key_space_min (kp k : BSONObj) :
  k.*1 = kp.*1 -> ((fun el : BSONElement => (el.1, VMinKey)) <$> kp : BSONObj) ≼ k.
Proof.
  revert k. induction kp as [|[n v] kp IH]; intros [|[m w] k]; try done.
  intros [= -> H]. specialize (IH k H). unfold kle in *. simpl. rewrite kcmp_obj_cons.
  pose proof (MinKey_le w) as Hw. unfold kle in Hw. by destruct (kcmp VMinKey w).
Qed.

Lemma key_space_max (kp k : BSONObj) :
  k.*1 = kp.*1 ->
  k ≼ ((fun el : BSONElement => (el.1, VMaxKey)) <$> kp : BSONObj) /\
  (Exists (fun el : BSONElement => el.2 <> VMaxKey) k ->
   k ≺ ((fun el : BSONElement => (el.1, VMaxKey)) <$> kp : BSONObj)).
Proof.
  revert k. induction kp as [|[n v] kp IH]; intros [|[m w] k]; try done.
  - intros _. split; [done|by inversion 1].
  - intros [= -> H]. specialize (IH k H) as [IHl IHs]. simpl. unfold kle, klt in *.
    rewrite kcmp_obj_cons. pose proof (MaxKey_ge w) as Hw. unfold kle in Hw. split.
    + by destruct (kcmp w VMaxKey).
    + intros [Hn|He]%Exists_cons; simpl in *.
      * apply MaxKey_lt in Hn. unfold klt in Hn. by rewrite Hn.
      * specialize (IHs He). by destruct (kcmp w VMaxKey); [exact IHs|..].
Qed.

Definition is_array (v : BSONValue) : bool := match v with VArray _ => true | _ => false end.

Lemma isValid_Some v : isValidShardKeyElement (Some v) = negb (is_array v).
Proof. by destruct v. Qed.

Lemma extract_loop_inv hash64 doc pattern k :
  extract_loop hash64 doc pattern = Some k ->
  k.*1 = pattern.*1 /\ Forall (fun el : BSONElement => is_array el.2 = false) k.
Proof.
  revert k. induction pattern as [|[n pv] pattern IH]; intros k; simpl; [by intros [= <-]|].
  destruct (extractKeyElement doc (FieldRef_parts n)) as [v|]; [|done].
  destruct (extract_loop hash64 doc pattern) as [rest|]; [|by destruct v].
  destruct (IH rest eq_refl) as [Hn Ha]. intros Hk.
  assert (Hv : is_array v = false /\
    Some ((n, if isHashedPatternEl pv then VLong (hash64 v) else v) :: rest) = Some k)
    by (destruct v; done).
  destruct Hv as [Hv [= <-]]. split; [simpl; f_equal; exact Hn|].
  constructor; [|done]. simpl. by destruct (isHashedPatternEl pv).
Qed.

Lemma getField_in (k : BSONObj) n :
  n ∈ k.*1 -> exists v, getField k n = Some v /\ (n, v) ∈ k.
Proof.
  induction k as [|[m w] k IH]; simpl; [by intros ?%not_elem_of_nil|].
  destruct (String.eqb_spec m n) as [->|Hne]; [intros _; exists w; split; [done|apply list_elem_of_here]|].
  intros [->|H]%elem_of_cons; [done|]. destruct (IH H) as (v & ? & ?).
  exists v. split; [done|by apply list_elem_of_further].
Qed.

Lemma isShardKey_names p k :
  k.*1 = (skp_pattern p).*1 -> Forall (fun el : BSONElement => is_array el.2 = false) k ->
  isShardKey p k = true.
Proof.
  intros Hn Ha. unfold isShardKey. apply andb_true_iff. split.
  - apply forallb_forall. intros [n pv] Hin%list_elem_of_In. simpl.
    destruct (getField_in k n) as (v & -> & Hv).
    { rewrite Hn. by apply (list_elem_of_fmap_2 fst _ (n, pv)). }
    rewrite isValid_Some. rewrite Forall_forall in Ha. apply Ha in Hv. simpl in Hv. by rewrite Hv.
  - apply Nat.eqb_eq. apply (f_equal List.length) in Hn. by rewrite !length_fmap in Hn.
Qed.

(** The key extracted from a document is either empty (there is no shard
    key) or a shard key of the pattern: it has the pattern's fields in order,
    contains no array, and lies between the global minimum and maximum of the
    pattern, strictly below the maximum unless all its values are MaxKey. *)
Lemma extractShardKeyFromDoc_sound hash64 kp p doc :
  newShardKeyPattern kp = Ret p ->
  let k := extractShardKeyFromDoc hash64 p doc in
  k <> [] ->
  k.*1 = kp.*1 /\ isShardKey p k = true /\ globalMin kp ≼ k /\ k ≼ globalMax kp /\
  (Exists (fun el : BSONElement => el.2 <> VMaxKey) k -> k ≺ globalMax kp).
Proof.
  intros Hp k Hk. apply newShardKeyPattern_inv in Hp as (Hkp & _ & Hok).
  subst k. unfold extractShardKeyFromDoc in *.
  destruct (extract_loop hash64 doc (skp_pattern p)) as [k|] eqn:E; [|done]. simpl in *.
  apply extract_loop_inv in E as [Hn Ha]. pose proof (isShardKey_names p k Hn Ha).
  rewrite Hkp in Hn. rewrite (globalMin_accepted _ _ Hok), (globalMax_accepted _ _ Hok).
  split_and!; try done; [by apply key_space_min|apply key_space_max..]; done.
Qed.

Definition sample_doc : BSONObj :=
  [("_id", VNull); ("a", VObject [("b", VBool true)]); ("c", VString "x")].

Lemma extractShardKeyFromDoc_sound_witness :
  let kp := [("a.b", VInt (mkInt32 1 eq_refl)); ("c", VInt (mkInt32 1 eq_refl))] in
  let k := extractShardKeyFromDoc (fun _ => mkInt64 0 eq_refl)
             (mkSKP kp [["a"; "b"]; ["c"]]) sample_doc in
  k = [("a.b", VBool true); ("c", VString "x")] /\ k ≺ globalMax kp.
Proof.
  intros kp k. split; [reflexivity|].
  apply (extractShardKeyFromDoc_sound (fun _ => mkInt64 0 eq_refl) kp
           (mkSKP kp [["a"; "b"]; ["c"]]) sample_doc); [reflexivity|vm_compute; congruence|].
  apply Exists_cons. left. discriminate.
Defined.

Lemma getField_NoDup (k : BSONObj) n v :
  NoDup (k.*1) -> (n, v) ∈ k -> getField k n = Some v.
Proof.
  induction k as [|[m w] k IH]; [by intros _ ?%not_elem_of_nil|].
  intros [Hm Hk]%NoDup_cons [[= -> ->]|Hin]%elem_of_cons; simpl; [by rewrite String.eqb_refl|].
  destruct (String.eqb_spec m n) as [->|_]; [|by apply IH].
  destruct Hm. by apply (list_elem_of_fmap_2 fst _ (n, v)).
Qed.

Lemma getField_perm (k k' : BSONObj) n :
  NoDup (k.*1) -> k' ≡ₚ k -> getField k' n = getField k n.
Proof.
  intros Hnd Hp. assert (Hnd' : NoDup (k'.*1)) by (by rewrite Hp).
  destruct (decide (n ∈ k.*1)) as [Hin|Hout].
  - destruct (getField_in k n Hin) as (v & -> & Hv). apply getField_NoDup; [done|by rewrite Hp].
  - assert (Hno : forall o : BSONObj, n ∉ o.*1 -> getField o n = None).
    { induction o as [|[m w] o IH]; [done|]. simpl. intros [? ?]%not_elem_of_cons.
      destruct (String.eqb_spec m n); [congruence|auto]. }
    rewrite !Hno; [done|done|by rewrite Hp].
Qed.

Lemma normalize_loop_Some (k : BSONObj) pattern :
  forallb (fun el : BSONElement => isValidShardKeyElement (getField k el.1)) pattern = true ->
  exists nk, normalize_loop k pattern = Some nk /\ nk.*1 = pattern.*1 /\
    Forall (fun el : BSONElement => is_array el.2 = false /\ getField k el.1 = Some el.2) nk.
Proof.
  induction pattern as [|[n pv] pattern IH]; simpl; [by exists []|].
  intros [Hv Hr]%andb_true_iff. destruct (IH Hr) as (nk & Hl & Hn & Ha).
  destruct (getField k n) as [v|] eqn:Hg; [|done]. rewrite Hl. rewrite isValid_Some in Hv.
  exists ((n, v) :: nk). split_and!; [by destruct v|simpl; f_equal; exact Hn|].
  constructor; [|done]. simpl. split; [by destruct v|done].
Qed.

Lemma normalize_loop_ext (k k' : BSONObj) pattern :
  (forall n, getField k' n = getField k n) -> normalize_loop k' pattern = normalize_loop k pattern.
Proof.
  intros H. induction pattern as [|[n pv] pattern IH]; simpl; [done|]. by rewrite H, IH.
Qed.

Lemma normalizeShardKey_Some p k :
  isShardKey p k = true ->
  exists nk, normalizeShardKey p k = nk /\ normalize_loop k (skp_pattern p) = Some nk /\
    nk.*1 = (skp_pattern p).*1 /\ List.length k = List.length nk /\
    Forall (fun el : BSONElement => is_array el.2 = false /\ getField k el.1 = Some el.2) nk.
Proof.
  intros [Hf Hl%Nat.eqb_eq]%andb_true_iff.
  destruct (normalize_loop_Some k _ Hf) as (nk & Hnk & Hn & Ha). exists nk.
  unfold normalizeShardKey. rewrite Hl, Nat.ltb_irrefl, Hnk. split_and!; try done.
  apply (f_equal List.length) in Hn. rewrite !length_fmap in Hn. by symmetry.
Qed.

Lemma normalize_perm p k nk :
  NoDup ((skp_pattern p).*1) -> nk.*1 = (skp_pattern p).*1 ->
  List.length k = List.length nk ->
  Forall (fun el : BSONElement => is_array el.2 = false /\ getField k el.1 = Some el.2) nk ->
  nk ≡ₚ k.
Proof.
  intros Hnd Hn Hl Ha. apply submseteq_length_Permutation; [|apply Nat.eq_le_incl; exact Hl].
  apply NoDup_submseteq; [apply (NoDup_fmap_1 fst); by rewrite Hn|].
  intros [n v] Hin. rewrite Forall_forall in Ha. destruct (Ha _ Hin) as [_ Hg]. simpl in Hg.
  assert (Hk : n ∈ k.*1).
  { clear -Hg. induction k as [|[m w] k IH]; simpl in *; [done|].
    destruct (String.eqb_spec m n) as [->|]; [apply list_elem_of_here|].
    by apply list_elem_of_further, IH. }
  destruct (getField_in k n Hk) as (v' & Hg' & Hin'). rewrite Hg in Hg'. by injection Hg' as ->.
Qed.

(** Normalising a shard key only reorders its fields: the result has the
    pattern's field order, is again a shard key, normalises to itself, and does
    not depend on the order the fields came in. *)
Lemma normalizeShardKey_canonical p k :
  NoDup ((skp_pattern p).*1) -> isShardKey p k = true ->
  let nk := normalizeShardKey p k in
  nk ≡ₚ k /\ nk.*1 = (skp_pattern p).*1 /\ isShardKey p nk = true /\
  normalizeShardKey p nk = nk /\ forall k', k' ≡ₚ k -> normalizeShardKey p k' = nk.
Proof.
  intros Hnd Hs. destruct (normalizeShardKey_Some p k Hs) as (nk & -> & Hnk & Hn & Hl & Ha).
  pose proof (normalize_perm p k nk Hnd Hn Hl Ha) as Hp.
  assert (Hndk : NoDup (k.*1)) by (rewrite <- Hp; by rewrite Hn).
  assert (Hall : forall k', k' ≡ₚ k -> normalizeShardKey p k' = nk).
  { intros k' Hp'. unfold normalizeShardKey.
    rewrite (normalize_loop_ext k k'), Hnk by (intros; by apply getField_perm).
    apply andb_true_iff in Hs as [_ Hlen%Nat.eqb_eq].
    by rewrite Hp', Hlen, Nat.ltb_irrefl. }
  split_and!; auto. apply isShardKey_names; [done|].
  eapply Forall_impl; [exact Ha|]. by intros ? [].
Qed.

Lemma normalizeShardKey_canonical_witness :
  let p := mkSKP [("a", VInt (mkInt32 1 eq_refl)); ("b", VInt (mkInt32 1 eq_refl))] [["a"]; ["b"]] in
  normalizeShardKey p [("b", VNull); ("a", VBool true)] = [("a", VBool true); ("b", VNull)].
Proof.
  apply (normalizeShardKey_canonical
    (mkSKP [("a", VInt (mkInt32 1 eq_refl)); ("b", VInt (mkInt32 1 eq_refl))] [["a"]; ["b"]])
    [("a", VBool true); ("b", VNull)]); [|reflexivity|apply Permutation_swap].
  apply NoDup_cons. split; [|apply NoDup_singleton]. by intros ?%list_elem_of_singleton.
Defined.

(** * Flattening index bounds *)

Definition in_interval (v : BSONValue) (i : Interval) : Prop :=
  (if iv_startInclusive i then iv_start i ≼ v else iv_start i ≺ v) /\
  (if iv_endInclusive i then v ≼ iv_end i else v ≺ iv_end i).

(** An ordered interval list: increasing and disjoint up to end points. *)
Fixpoint oil_ok (l : list Interval) : Prop :=
  match l with
  | [] => True
  | i :: l => iv_start i ≼ iv_end i /\ Forall (fun j => iv_end i ≼ iv_start j) l /\ oil_ok l
  end.

Lemma in_interval_weak v i : in_interval v i -> iv_start i ≼ v /\ v ≼ iv_end i.
Proof.
  unfold in_interval. destruct (iv_startInclusive i), (iv_endInclusive i); intros []; split; korder.
Qed.

Lemma oil_first l i j : oil_ok (i :: l) -> j ∈ i :: l -> iv_start i ≼ iv_start j.
Proof.
  intros (Hi & Hl & _) [->|Hj]%elem_of_cons; [korder|].
  rewrite Forall_forall in Hl. specialize (Hl j Hj). korder.
Qed.

Lemma oil_last l i j d : oil_ok (i :: l) -> j ∈ i :: l -> iv_end j ≼ iv_end (default d (last (i :: l))).
Proof.
  revert i j. induction l as [|x l IH]; intros i j Hok Hj.
  - apply list_elem_of_singleton in Hj as ->. simpl. korder.
  - change (last (i :: x :: l)) with (last (x :: l)). destruct Hok as (Hi & Hl & Hok).
    apply elem_of_cons in Hj as [->|Hj]; [|by apply IH].
    pose proof (IH x x Hok (list_elem_of_here _ _)) as Hx.
    apply Forall_cons in Hl as [Hl _]. pose proof (proj1 Hok). korder.
Qed.

Lemma kcmp_snoc n (a b : BSONObj) v w :
  a.*1 = b.*1 -> kcmp (a ++ [(n, v)]) (b ++ [(n, w)]) = lexc (kcmp a b) (kcmp v w).
Proof. intros H. by rewrite kcmp_obj_app, kcmp_obj_single. Qed.

Lemma kle_snoc n (a b : BSONObj) v w :
  a.*1 = b.*1 -> a ≼ b -> v ≼ w -> a ++ [(n, v)] ≼ b ++ [(n, w)].
Proof. unfold kle. intros H. rewrite kcmp_snoc by done. by destruct (kcmp a b), (kcmp v w). Qed.

Lemma keq_snoc n (a b : BSONObj) v w :
  a.*1 = b.*1 -> a ≅k b -> v ≅k w -> a ++ [(n, v)] ≅k b ++ [(n, w)].
Proof. unfold keq. intros H. rewrite kcmp_snoc by done. by intros -> ->. Qed.

(** What a partial bound says of a partial key. *)
Definition bound_covers (eq : bool) (b : BSONObj * BSONObj) (k : BSONObj) : Prop :=
  b.1.*1 = k.*1 /\ b.2.*1 = k.*1 /\
  if eq then b.1 ≅k k /\ k ≅k b.2 else b.1 ≼ k /\ k ≼ b.2.

Lemma bound_covers_snoc n (b : BSONObj * BSONObj) k s e v :
  bound_covers false b k -> s ≼ v -> v ≼ e ->
  bound_covers false (b.1 ++ [(n, s)], b.2 ++ [(n, e)]) (k ++ [(n, v)]).
Proof.
  intros (H1 & H2 & H3 & H4) Hs He. unfold bound_covers. simpl. rewrite !fmap_app, H1, H2. simpl.
  split_and!; try done; apply kle_snoc; congruence.
Qed.

Lemma bound_covers_snoc_eq n (b : BSONObj * BSONObj) k s e v :
  bound_covers true b k -> s ≅k v -> v ≅k e ->
  bound_covers true (b.1 ++ [(n, s)], b.2 ++ [(n, e)]) (k ++ [(n, v)]).
Proof.
  intros (H1 & H2 & H3 & H4) Hs He. unfold bound_covers. simpl. rewrite !fmap_app, H1, H2. simpl.
  split_and!; try done; apply keq_snoc; congruence.
Qed.

Lemma bound_covers_weak b k : bound_covers true b k -> bound_covers false b k.
Proof. intros (H1 & H2 & H3 & H4). split_and!; try done; korder. Qed.

Lemma elem_of_cross name intervals builders b i :
  b ∈ builders -> i ∈ intervals ->
  (b.1 ++ [(name, iv_start i)], b.2 ++ [(name, iv_end i)]) ∈ cross name intervals builders.
Proof.
  intros Hb Hi. unfold cross. apply list_elem_of_bind. exists b. split; [|done].
  apply list_elem_of_fmap. by exists i.
Qed.

Lemma flatten_step_covers (st : BoundList * bool) name ivs st' b k i v :
  flatten_step st (name, ivs) = Ret st' -> oil_ok ivs -> i ∈ ivs -> in_interval v i ->
  b ∈ st.1 -> bound_covers st.2 b k ->
  exists b', b' ∈ st'.1 /\ bound_covers st'.2 b' (k ++ [(name, v)]).
Proof.
  destruct st as [bs eq], ivs as [|first ivs]; simpl; [done|].
  intros Hs Hok Hi [Hl Hr]%in_interval_weak Hb Hc. destruct eq.
  - destruct ((List.length ivs =? 0)%nat && isPoint first) eqn:Hp; simpl in Hs.
    + injection Hs as <-. apply andb_true_iff in Hp as [Hlen%Nat.eqb_eq Hpt].
      apply nil_length_inv in Hlen as ->. apply list_elem_of_singleton in Hi as ->.
      unfold isPoint in Hpt. apply andb_true_iff in Hpt as [_ Hpt%Z.eqb_eq].
      assert (Heq : iv_start first ≅k iv_end first) by (by apply sgc_eq).
      eexists. split; [apply list_elem_of_fmap; by exists b|].
      apply bound_covers_snoc_eq; [done|korder..].
    + inv_ret. subst st'. eexists. split; [by apply elem_of_cross|].
      apply bound_covers_snoc; [by apply bound_covers_weak|done..].
  - injection Hs as <-. eexists. split; [apply list_elem_of_fmap; by exists b|].
    pose proof (oil_first ivs first i Hok Hi). pose proof (oil_last ivs first i first Hok Hi).
    apply bound_covers_snoc; [done|korder..].
Qed.

Lemma flatten_covers names bounds vs st st' b k :
  ofold flatten_step st (zip names bounds) = Ret st' -> List.length names = List.length bounds ->
  Forall oil_ok bounds -> Forall2 (fun v ivs => exists i, i ∈ ivs /\ in_interval v i) vs bounds ->
  b ∈ st.1 -> bound_covers st.2 b k ->
  exists b', b' ∈ st'.1 /\ bound_covers st'.2 b' (k ++ zip names vs).
Proof.
  intros Hf Hl Hok Hvs. revert names st b k Hf Hl Hok.
  induction Hvs as [|v ivs vs bounds (i & Hi & Hv) _ IH]; intros [|n names] st b k Hf Hl Hok Hb Hc;
    try done; simpl in *.
  - injection Hf as <-. exists b. by rewrite app_nil_r.
  - apply obind_Ret_inv in Hf as (st1 & H1 & H2). apply Forall_cons in Hok as [Ho1 Ho2].
    destruct (flatten_step_covers st n ivs st1 b k i v H1 Ho1 Hi Hv Hb Hc) as (b1 & Hb1 & Hc1).
    destruct (IH names st1 b1 _ H2 ltac:(lia) Ho2 Hb1 Hc1) as (b' & ? & Hc').
    exists b'. split; [done|]. by rewrite <- app_assoc in Hc'.
Qed.

Lemma flatten_total flds st :
  Forall (fun f : string * list Interval => f.2 <> []) flds ->
  match ofold flatten_step st flds with
  | Ret _ => True
  | Throw e => e = Location 17439
  | _ => False
  end.
Proof.
  revert st. induction flds as [|[n [|i ivs]] flds IH]; intros [bs eq] Hne; simpl; [done|..];
    apply Forall_cons in Hne as [Hn Hne]; [done|].
  destruct eq; [|by apply IH]. destruct (_ && _); [by apply IH|].
  destruct (Z.of_nat _ <=? _); [by apply IH|done].
Qed.

Lemma zip_ne (names : list string) (bounds : list (list Interval)) :
  Forall (fun ivs : list Interval => ivs <> []) bounds ->
  Forall (fun f : string * list Interval => f.2 <> []) (zip names bounds).
Proof.
  intros H. revert names. induction H; intros [|n names]; simpl; by constructor.
Qed.

Lemma flattenBounds_covers p bounds vs :
  List.length bounds = List.length (skp_pattern p) ->
  Forall oil_ok bounds ->
  Forall2 (fun v ivs => exists i, i ∈ ivs /\ in_interval v i) vs bounds ->
  let key : BSONObj := zip ((skp_pattern p).*1) vs in
  match flattenBounds p bounds with
  | Ret bl => exists b, b ∈ bl /\ b.1 ≼ key /\ key ≼ b.2
  | Throw e => e = Location 17439
  | Abort | Undef => False
  end.
Proof.
  intros Hl Hok Hvs key. unfold flattenBounds. rewrite Hl, Nat.eqb_refl. simpl.
  assert (Hne : Forall (fun ivs : list Interval => ivs <> []) bounds).
  { clear -Hvs. induction Hvs as [|v ivs vs bounds (i & Hi & _)]; constructor; [|done].
    intros ->. by apply not_elem_of_nil in Hi. }
  assert (Hall : forallb (fun f : list Interval => negb (List.length f =? 0)%nat) bounds = true).
  { clear -Hne. induction Hne as [|[|] ? ? _ IH]; try done. }
  rewrite Hall. assert (Hln : List.length ((skp_pattern p).*1) = List.length bounds)
    by (by rewrite length_fmap).
  pose proof (flatten_total (zip ((skp_pattern p).*1) bounds) ([([], [])], true)
    (zip_ne _ _ Hne)) as Ht.
  destruct (ofold _ _ _) as [st| | |] eqn:Hf; simpl; try done.
  destruct (flatten_covers _ _ vs _ _ ([], []) [] Hf Hln Hok Hvs) as (b & Hb & _ & _ & Hc);
    [apply list_elem_of_here|done|]. exists b. split; [done|].
  change ([] ++ zip ((skp_pattern p).*1) vs) with key in Hc.
  clearbody key. destruct st.2; destruct Hc; split; korder.
Qed.

(** Flattening per-field bounds into key ranges loses no key: every key
    whose fields each lie in one of the field's intervals lies in one of the
    returned ranges.  The function always returns, or fails with 17439 when the
    ranges would exceed the limit. *)
Lemma flattenBounds_complete p bounds vs :
  List.length bounds = List.length (skp_pattern p) ->
  Forall oil_ok bounds ->
  Forall2 (fun v ivs => exists i, i ∈ ivs /\ in_interval v i) vs bounds ->
  let key : BSONObj := zip ((skp_pattern p).*1) vs in
  match flattenBounds p bounds with
  | Ret bl => exists b, b ∈ bl /\ b.1 ≼ key /\ key ≼ b.2
  | Throw e => e = Location 17439
  | Abort | Undef => False
  end.
Proof. apply flattenBounds_covers. Qed.

(** [{a: {$in: [null, true]}, b: {$gt: "c"}}]: the two points of [a], each
    with the whole range of [b]. *)
Lemma flattenBounds_complete_witness :
  let p := mkSKP [("a", VInt (mkInt32 1 eq_refl)); ("b", VInt (mkInt32 1 eq_refl))] [["a"]; ["b"]] in
  let pt v := mkInterval v true v true in
  let bounds := [[pt VNull; pt (VBool true)]; [mkInterval (VString "c") false (VString "x") true]] in
  flattenBounds p bounds =
    Ret [([("a", VNull); ("b", VString "c")], [("a", VNull); ("b", VString "x")]);
         ([("a", VBool true); ("b", VString "c")], [("a", VBool true); ("b", VString "x")])] /\
  match flattenBounds p bounds with
  | Ret bl => exists b, b ∈ bl /\ b.1 ≼ [("a", VNull); ("b", VString "d")] /\
                        [("a", VNull); ("b", VString "d")] ≼ b.2
  | _ => False
  end.
Proof.
  intros p pt bounds. split; [reflexivity|].
  apply (flattenBounds_complete p bounds [VNull; VString "d"]); [reflexivity|..].
  - repeat constructor; vm_compute; congruence.
  - constructor; [|constructor; [|constructor]].
    + exists (pt VNull). split; [apply list_elem_of_here|split; vm_compute; congruence].
    + eexists. split; [apply list_elem_of_here|split; vm_compute; congruence].
Defined.

(** * The shape of flattened bounds *)

Definition bound_shape (names : list string) (b : BSONObj * BSONObj) : Prop :=
  b.1.*1 = names /\ b.2.*1 = names /\ b.1 ≼ b.2.

Lemma bound_shape_snoc names n b s e :
  bound_shape names b -> s ≼ e -> bound_shape (names ++ [n]) (b.1 ++ [(n, s)], b.2 ++ [(n, e)]).
Proof.
  intros (H1 & H2 & H3) He. unfold bound_shape. simpl. rewrite !fmap_app, H1, H2. simpl.
  split_and!; try done. apply kle_snoc; congruence.
Qed.

Lemma flatten_step_shape (st : BoundList * bool) names n ivs st' :
  flatten_step st (n, ivs) = Ret st' -> oil_ok ivs -> Forall (bound_shape names) st.1 ->
  Forall (bound_shape (names ++ [n])) st'.1.
Proof.
  destruct st as [bs eq], ivs as [|first ivs]; simpl; [done|].
  intros Hs Hok Hb. rewrite Forall_forall in Hb.
  assert (Hext : forall s e, s ≼ e -> Forall (bound_shape (names ++ [n]))
    ((fun b : BSONObj * BSONObj => (b.1 ++ [(n, s)], b.2 ++ [(n, e)])) <$> bs)).
  { intros s e He. apply Forall_forall. intros x (b & -> & Hin)%list_elem_of_fmap.
    by apply bound_shape_snoc; [apply Hb|]. }
  assert (Hiv : forall i, i ∈ first :: ivs -> iv_start i ≼ iv_end i).
  { clear -Hok. revert first Hok. induction ivs as [|j ivs IH]; intros first Hok i Hin.
    - apply list_elem_of_singleton in Hin as ->. apply Hok.
    - apply elem_of_cons in Hin as [->|Hin]; [apply Hok|]. by apply (IH j); [apply Hok|]. }
  destruct eq; [destruct (_ && _)|].
  - injection Hs as <-. apply Hext, Hiv, list_elem_of_here.
  - inv_ret. subst st'. simpl. apply Forall_forall.
    intros bx (b & (i & -> & Hi)%list_elem_of_fmap & Hin)%list_elem_of_bind.
    apply bound_shape_snoc; [by apply Hb|by apply Hiv].
  - injection Hs as <-. apply Hext.
    pose proof (oil_last ivs first first first Hok (list_elem_of_here _ _)).
    pose proof (proj1 Hok). korder.
Qed.

Lemma flatten_shape names bounds st st' done :
  ofold flatten_step st (zip names bounds) = Ret st' -> List.length names = List.length bounds ->
  Forall oil_ok bounds -> Forall (bound_shape done) st.1 ->
  Forall (bound_shape (done ++ names)) st'.1.
Proof.
  revert bounds st done. induction names as [|n names IH]; intros [|ivs bounds] st dn Hf Hl Hok Hb;
    try discriminate; simpl in *.
  - injection Hf as <-. by rewrite app_nil_r.
  - apply obind_Ret_inv in Hf as (st1 & H1 & H2). apply Forall_cons in Hok as [Ho1 Ho2].
    pose proof (flatten_step_shape _ _ _ _ _ H1 Ho1 Hb) as Hb1.
    pose proof (IH bounds st1 _ H2 ltac:(lia) Ho2 Hb1) as Hr. by rewrite <- app_assoc in Hr.
Qed.

Lemma flattenBounds_shape p bounds bl :
  flattenBounds p bounds = Ret bl -> Forall oil_ok bounds ->
  Forall (bound_shape ((skp_pattern p).*1)) bl.
Proof.
  unfold flattenBounds. intros Hf Hok. apply obind_Ret_inv in Hf as (u & Hl & Hf).
  apply invariant_Ret_inv, Nat.eqb_eq in Hl. destruct (forallb _ _); [|injection Hf as <-; constructor].
  apply obind_Ret_inv in Hf as (st & Hf & [= <-]).
  apply (flatten_shape _ _ _ _ [] Hf); [by rewrite length_fmap|done|].
  repeat constructor. unfold kle. by rewrite kcmp_refl.
Qed.
