(* ===== verification/Chunk.v ===== *)
(** The router's cache entry for one chunk ([s/chunk.h], [s/chunk.cpp]) with
    its write statistics: bytes written since the last split check, and the
    running sum of key prefixes ([split_sum], [cnt], [split_average]) that the
    hotness-aware split uses. *)

From S2P Require Import Prelude Bson Text Float ChunkVersion ChunkType.
From stdpp Require Import base list strings.
From Stdlib Require Import ZArith Lia String.
Local Open Scope Z_scope.
Local Open Scope outcome_scope.

Record Chunk := mkChunk {
  c_range : ChunkRange;
  c_shardId : ShardId;
  c_lastmod : ChunkVersion;
  c_jumbo : bool;
  c_dataWrittenBytes : Z;
  c_split_sum : Z;
  c_split_average : Z;
  c_cnt : Z
}.

Definition kSplitTestFactor : Z := 5.

(** The initial estimate is drawn below this bound. *)
Definition kMaxDataWrittenBytes : Z := 64 * 1024 * 1024 / kSplitTestFactor.

(** [Chunk(const ChunkType& from)]; [seed] is the value the generator gave
    [mkDataWrittenBytes]. *)
Definition newChunk (seed : Z) (from : ChunkType) : Outcome Chunk :=
  match validate from, _min from, _max from, _shard from, _version from with
  | Ret _, Some mn, Some mx, Some s, Some v =>
      Ret (mkChunk (mkRange mn mx) s v (getJumbo from) seed 0 0 0)
  | _, _, _, _, _ => Abort
  end.

Definition getMin (c : Chunk) : BSONObj := _minKey (c_range c).
Definition getMax (c : Chunk) : BSONObj := _maxKey (c_range c).
Definition getShardId (c : Chunk) : ShardId := c_shardId c.
Definition getLastmod (c : Chunk) : ChunkVersion := c_lastmod c.

Definition chunk_containsKey (c : Chunk) (shardKey : BSONObj) : bool :=
  (woCompare (getMin c) shardKey <=? 0) && (woCompare shardKey (getMax c) <? 0).

Definition set_bytes (c : Chunk) (n : Z) : Chunk :=
  mkChunk (c_range c) (c_shardId c) (c_lastmod c) (c_jumbo c) n
    (c_split_sum c) (c_split_average c) (c_cnt c).

Definition getBytesWritten (c : Chunk) : Z := c_dataWrittenBytes c.

(** The new total is also the result. *)
Definition addBytesWritten (c : Chunk) (bytesWrittenIncrement : Z) : Chunk :=
  set_bytes c (u64 (c_dataWrittenBytes c + u64 bytesWrittenIncrement)).

Definition clearBytesWritten (c : Chunk) : Chunk := set_bytes c 0.

(** The threshold in bytes, nine tenths of the chunk size at either end of the
    key space. *)
Definition splitThreshold (desiredChunkSize : Z) (minIsInf maxIsInf : bool) : Outcome Z :=
  if minIsInf || maxIsInf then d_to_u64 (d_mul (d_of_Z desiredChunkSize) d_0_9)
  else Ret desiredChunkSize.

Definition shouldSplit (c : Chunk) (desiredChunkSize : Z) (minIsInf maxIsInf : bool)
    : Outcome bool :=
  let* t := splitThreshold desiredChunkSize minIsInf maxIsInf in
  Ret (t / kSplitTestFactor <=? c_dataWrittenBytes c).

Definition markAsJumbo (c : Chunk) : Chunk :=
  mkChunk (c_range c) (c_shardId c) (c_lastmod c) true (c_dataWrittenBytes c)
    (c_split_sum c) (c_split_average c) (c_cnt c).

(** [substr(0, 10)], then [>>] into an uninitialised [uint64_t]. *)
Definition prefix_u64 (string_key : string) : Outcome Z :=
  match istream_u64 (substr string_key 0 10) with
  | Some k => Ret k
  | None => Undef
  end.

Definition add_split_sum (c : Chunk) (string_key : string) : Outcome Chunk :=
  let* double_key := prefix_u64 string_key in
  Ret (mkChunk (c_range c) (c_shardId c) (c_lastmod c) (c_jumbo c) (c_dataWrittenBytes c)
         (u64 (c_split_sum c + double_key)) (c_split_average c) (c_cnt c)).

Definition get_split_sum (c : Chunk) : Z := c_split_sum c.

(** [>>] into an [int]: a number that does not fit gives the nearest bound. *)
Definition istream_i32 (s : string) : option Z :=
  let sat z := Z.max (- 2 ^ 31) (Z.min z (2 ^ 31 - 1)) in
  match skip_ws s with
  | EmptyString => None
  | String ch s' =>
      if ord ch =? 45 then Some (sat (- read_digits s' 0))
      else if ord ch =? 43 then Some (sat (read_digits s' 0))
      else Some (sat (read_digits (String ch s') 0))
  end.

Definition update_split_average (c : Chunk) (string_key : string) : Outcome Chunk :=
  match istream_i32 (substr string_key 0 10) with
  | None => Undef
  | Some double_key =>
      let cnt := d_of_Z (c_cnt c) in
      let old_weight := d_div (d_of_Z (c_cnt c - 1)) cnt in
      let new_weight := d_div (d_of_Z 1) cnt in
      let* avg := d_to_i32 (d_add (d_mul (d_of_Z (c_split_average c)) old_weight)
                                  (d_mul (d_of_Z double_key) new_weight)) in
      Ret (mkChunk (c_range c) (c_shardId c) (c_lastmod c) (c_jumbo c) (c_dataWrittenBytes c)
             (c_split_sum c) avg (c_cnt c))
  end.

Definition get_split_average (c : Chunk) : Z := c_split_average c.

(** [cnt++] on an [int]. *)
Definition add_cnt (c : Chunk) : Outcome Chunk :=
  if in_i32 (c_cnt c + 1)
  then Ret (mkChunk (c_range c) (c_shardId c) (c_lastmod c) (c_jumbo c) (c_dataWrittenBytes c)
              (c_split_sum c) (c_split_average c) (c_cnt c + 1))
  else Undef.

Definition get_cnt (c : Chunk) : Z := c_cnt c.

(** * Properties *)

#[global] Arguments chunk_containsKey : simpl never.

Lemma chunk_containsKey_spec c k :
  chunk_containsKey c k = true <-> in_range (c_range c) k.
Proof. apply (containsKey_spec (c_range c) k). Qed.

(** The statistics never touch what routing depends on. *)
Definition same_routing (c c' : Chunk) : Prop :=
  c_range c' = c_range c /\ c_shardId c' = c_shardId c /\ c_lastmod c' = c_lastmod c.

Lemma newChunk_Ret seed from c :
  newChunk seed from = Ret c ->
  validate from = Ret () /\ _min from = Some (getMin c) /\ _max from = Some (getMax c) /\
  _shard from = Some (getShardId c) /\ _version from = Some (getLastmod c) /\
  c_dataWrittenBytes c = seed /\ c_split_sum c = 0 /\ c_cnt c = 0.
Proof.
  unfold newChunk. destruct (validate from) as [[]| | |]; try done.
  destruct (_min from), (_max from), (_shard from), (_version from); try done.
  intros [= <-]. done.
Qed.

(** A chunk is constructed exactly from the entries [validate] accepts; any
    other entry stops the process. *)
Lemma newChunk_valid seed from :
  validate from = Ret () -> exists c, newChunk seed from = Ret c.
Proof.
  intros Hv. pose proof (validate_inv from Hv) as (mn & mx & v & s & H1 & H2 & H3 & H4 & _).
  unfold newChunk. rewrite Hv, H1, H2, H3, H4. eauto.
Qed.

Lemma shouldSplit_total c size minIsInf maxIsInf :
  0 <= size < 2 ^ 64 -> exists b, shouldSplit c size minIsInf maxIsInf = Ret b.
Proof.
  intros Hs. unfold shouldSplit, splitThreshold. destruct (minIsInf || maxIsInf); [|by eexists].
  destruct (mul_0_9_bound size Hs) as (t & -> & _). by eexists.
Qed.

(** The split check is defined for every 64-bit chunk size; an interior
    chunk is checked from one fifth of the chunk size on, and a chunk at either
    end of the key space is checked no later than an interior one would be. *)
Lemma shouldSplit_threshold c size minIsInf maxIsInf :
  0 <= size < 2 ^ 64 ->
  exists t, splitThreshold size minIsInf maxIsInf = Ret t /\ 0 <= t <= size /\
    shouldSplit c size minIsInf maxIsInf = Ret (t / 5 <=? getBytesWritten c) /\
    shouldSplit c size false false = Ret (size / 5 <=? getBytesWritten c) /\
    (shouldSplit c size false false = Ret true -> shouldSplit c size minIsInf maxIsInf = Ret true).
Proof.
  intros Hs. unfold shouldSplit, splitThreshold, getBytesWritten. simpl orb. cbv iota.
  destruct (mul_0_9_bound size Hs) as (t & Ht & Hb).
  destruct (minIsInf || maxIsInf).
  - exists t. rewrite Ht. simpl obind. split_and!; try done; [lia..|].
    intros [= Hle%Z.leb_le]. f_equal. apply Z.leb_le.
    pose proof (Z.div_le_mono t size 5). unfold kSplitTestFactor in *. lia.
  - exists size. simpl obind. split_and!; try done; lia.
Qed.

(** The chunk of the whole key space, as a fresh entry. *)
Definition sample_chunk : Chunk :=
  mkChunk (mkRange [("x"%string, VMinKey)] [("x"%string, VMaxKey)]) "s0"%string
    (newVersion 1 0 OID_zero) false 0 0 0 0.

Lemma shouldSplit_threshold_witness :
  exists t, splitThreshold (64 * 1024 * 1024) true false = Ret t /\ 0 <= t <= 64 * 1024 * 1024.
Proof.
  destruct (shouldSplit_threshold sample_chunk (64 * 1024 * 1024) true false) as (t & Ht & Hb & _);
    [lia|]. exists t. split; [exact Ht|exact Hb].
Defined.

(** One tracked write. *)
Definition track (c : Chunk) (key : string) : Outcome Chunk :=
  let* c := add_cnt c in add_split_sum c key.

Definition prefix_of (key : string) : Z := default 0 (istream_u64 (substr key 0 10)).

Lemma track_Ret c k p :
  0 <= c_cnt c < 2 ^ 31 - 1 -> istream_u64 (substr k 0 10) = Some p ->
  track c k = Ret (mkChunk (c_range c) (c_shardId c) (c_lastmod c) (c_jumbo c)
    (c_dataWrittenBytes c) (u64 (c_split_sum c + p)) (c_split_average c) (c_cnt c + 1)).
Proof.
  intros Hc Hp. unfold track, add_cnt.
  assert (Hin : in_i32 (c_cnt c + 1) = true).
  { unfold in_i32. apply andb_true_iff. rewrite Z.leb_le, Z.ltb_lt. lia. }
  rewrite Hin. simpl obind. unfold add_split_sum, prefix_u64. rewrite Hp. done.
Qed.

Lemma track_sum_gen keys :
  (forall k, k ∈ keys -> istream_u64 (substr k 0 10) <> None) ->
  forall c, 0 <= c_cnt c -> c_cnt c + Z.of_nat (List.length keys) < 2 ^ 31 ->
  0 <= c_split_sum c < 2 ^ 64 ->
  exists c', ofold track c keys = Ret c' /\ same_routing c c' /\
    get_cnt c' = c_cnt c + Z.of_nat (List.length keys) /\
    get_split_sum c' = u64 (c_split_sum c + foldr Z.add 0 (prefix_of <$> keys)).
Proof.
  induction keys as [|k keys IH]; intros Hk c H0 Hl Hs; simpl.
  - exists c. split_and!; try done; [unfold get_cnt; lia|]. rewrite Z.add_0_r, u64_id; done.
  - simpl in Hl. destruct (istream_u64 (substr k 0 10)) as [p|] eqn:Hp;
      [|by destruct (Hk k); [apply list_elem_of_here|]].
    rewrite (track_Ret c k p) by (done || lia). simpl obind.
    set (c1 := mkChunk _ _ _ _ _ _ _ _).
    destruct (IH (fun k' Hk' => Hk k' (list_elem_of_further _ _ _ Hk')) c1)
      as (c' & -> & Hr & Hcnt & Hsum); simpl; [lia..|apply u64_range|].
    exists c'. split_and!; try done; [rewrite Hcnt; simpl; lia|].
    rewrite Hsum. unfold prefix_of at 2. rewrite Hp. simpl.
    unfold u64. rewrite Zplus_mod_idemp_l. by rewrite Z.add_assoc.
Qed.

(** After tracking writes whose keys start with a readable prefix, [cnt] is
    their number and [split_sum] the sum of the prefixes modulo [2^64], and the
    range, shard and version of the chunk are untouched.  A write without a key
    (the key text is empty) reads an uninitialised variable. *)
Lemma track_sum c keys :
  c_cnt c = 0 -> c_split_sum c = 0 -> Z.of_nat (List.length keys) < 2 ^ 31 ->
  (forall k, k ∈ keys -> istream_u64 (substr k 0 10) <> None) ->
  (exists c', ofold track c keys = Ret c' /\ same_routing c c' /\
     get_cnt c' = Z.of_nat (List.length keys) /\
     get_split_sum c' = u64 (foldr Z.add 0 (prefix_of <$> keys))) /\
  add_split_sum c "" = Undef.
Proof.
  intros Hc Hs Hl Hk. split; [|done].
  destruct (track_sum_gen keys Hk c) as (c' & ? & ? & Hcnt & Hsum); [lia..|].
  exists c'. rewrite Hc in Hcnt. rewrite Hs in Hsum. done.
Qed.

Lemma track_sum_witness :
  exists c', ofold track sample_chunk ["1234567890"; "42"]%string = Ret c' /\
    get_cnt c' = 2 /\ get_split_sum c' = 1234567932.
Proof.
  destruct (track_sum sample_chunk ["1234567890"; "42"]%string) as [(c' & H1 & _ & H2 & H3) _].
  - reflexivity.
  - reflexivity.
  - reflexivity.
  - intros k Hk. apply elem_of_cons in Hk as [-> |Hk]; [vm_compute; congruence|].
    apply elem_of_cons in Hk as [-> |Hk]; [vm_compute; congruence|].
    by apply not_elem_of_nil in Hk.
  - exists c'. split; [exact H1|]. split; [exact H2|exact H3].
Defined.
