(* ===== verification/ChunkManager.v ===== *)
(** The router's routing table ([s/chunk_manager.h], [s/chunk_manager.cpp]):
    the chunk map ordered by upper bound, the derived views (one range per run of
    chunks on a shard, one version per shard), incremental refresh, and the
    targeting of keys, ranges and queries. *)

From stdpp Require Import base list sorting strings gmap.
From Stdlib Require Import ZArith Lia String.
From S2P Require Import Prelude OrdMap Tiling Bson Text ChunkVersion ChunkType ShardKey Chunk.
Local Open Scope string_scope.
Local Open Scope Z_scope.
Local Open Scope list_scope.
Local Open Scope outcome_scope.

(** * State *)

(** From the upper bound of each chunk to the chunk. *)
Definition ChunkMap : Type := list (BSONObj * Chunk).

Record ShardAndChunkRange := mkSCR { scr_range : ChunkRange; scr_shardId : ShardId }.
Definition ChunkRangeMap : Type := list (BSONObj * ShardAndChunkRange).
Definition ShardVersionMap : Type := list (ShardId * ChunkVersion).

Record ChunkMapViews := mkViews {
  chunkRangeMap : ChunkRangeMap;
  shardVersions : ShardVersionMap
}.

(** [cm_defaultCollator] is the specification of the collation, [None] for the
    null pointer. *)
Record ChunkManager := mkCM {
  cm_sequenceNumber : Z;
  cm_nss : string;
  cm_shardKeyPattern : ShardKeyPattern;
  cm_defaultCollator : option BSONObj;
  cm_unique : bool;
  cm_chunkMap : ChunkMap;
  cm_views : ChunkMapViews;
  cm_collectionVersion : ChunkVersion
}.

(** * Views *)

Definition checkAllElementsAreOfType (t : BSONType) (o : BSONObj) : Outcome unit :=
  ofold (fun _ el => uassert ConflictingOperationInProgress (bool_decide (type_of (el.2 : BSONValue) = t)))
    () o.

(** [std::find_if] over a run of chunks on one shard, with the largest version
    it saw, the last chunk of the run and what follows it. *)
Fixpoint scan_run (shard : ShardId) (maxShardVersion : ChunkVersion) (rangeLast : Chunk)
    (l : ChunkMap) : ChunkVersion * Chunk * ChunkMap :=
  match l with
  | (k, c) :: l' =>
      if negb (String.eqb (getShardId c) shard) then (maxShardVersion, rangeLast, l)
      else scan_run shard
             (if version_gt (getLastmod c) maxShardVersion then getLastmod c else maxShardVersion)
             c l'
  | [] => (maxShardVersion, rangeLast, [])
  end.

(** The insertion of one range, with its checks. *)
Definition add_range (crm : ChunkRangeMap) (rangeMin rangeMax : BSONObj) (shard : ShardId)
    : Outcome ChunkRangeMap :=
  let crm' := map_insert rangeMax (mkSCR (mkRange rangeMin rangeMax) shard) crm in
  uassert ConflictingOperationInProgress
    (S (List.length crm) =? List.length crm')%nat ;*
  let insertIterator := lower_bound rangeMax crm' in
  uassert ConflictingOperationInProgress
    (match insertIterator with
     | O => true
     | S prev => match crm' !! prev with
                 | Some (k, _) => woCompare k rangeMin =? 0
                 | None => false
                 end
     end) ;*
  Ret crm'.

(** The loop of [_constructChunkMapViews]; every iteration consumes a chunk, so
    fuel equal to the number of chunks is enough. *)
Fixpoint views_loop (fuel : nat) (epoch : OID) (chunkMap : ChunkMap) (views : ChunkMapViews)
    : Outcome ChunkMapViews :=
  match chunkMap, fuel with
  | [], _ => Ret views
  | _ :: _, O => Undef
  | (_, firstChunkInRange) :: _, S fuel =>
      let shard := getShardId firstChunkInRange in
      let maxShardVersion := default (newVersion 0 0 epoch) (map_get shard (shardVersions views)) in
      let '(maxShardVersion, rangeLast, current) :=
        scan_run shard maxShardVersion firstChunkInRange chunkMap in
      let* crm := add_range (chunkRangeMap views) (getMin firstChunkInRange) (getMax rangeLast) shard in
      invariant (isSet maxShardVersion) ;*
      views_loop fuel epoch current
        (mkViews crm (map_assign shard maxShardVersion (shardVersions views)))
  end.

Definition constructChunkMapViews (epoch : OID) (chunkMap : ChunkMap) : Outcome ChunkMapViews :=
  let* views := views_loop (List.length chunkMap) epoch chunkMap (mkViews [] []) in
  match chunkMap with
  | [] => Ret views
  | _ =>
      match chunkRangeMap views, last (chunkRangeMap views), shardVersions views with
      | (_, first) :: _, Some (lastMax, _), _ :: _ =>
          checkAllElementsAreOfType MinKey (_minKey (scr_range first)) ;*
          checkAllElementsAreOfType MaxKey lastMax ;*
          Ret views
      | _, _, _ => Abort
      end
  end.

(** [ChunkManager(...)]; the first result is the process-wide counter of chunk
    managers after the construction. *)
Definition newChunkManager (nextSeq : Z) (nss : string) (shardKeyPattern : KeyPattern)
    (defaultCollator : option BSONObj) (unique : bool) (chunkMap : ChunkMap)
    (collectionVersion : ChunkVersion) : Outcome (Z * ChunkManager) :=
  let seq := u32 (nextSeq + 1) in
  let* skp := newShardKeyPattern shardKeyPattern in
  let* views := constructChunkMapViews (_epoch collectionVersion) chunkMap in
  Ret (seq, mkCM seq nss skp defaultCollator unique chunkMap views collectionVersion).

(** * Refresh *)

(** One changed chunk; [seed] is the initial write estimate of its new entry. *)
Definition apply_change (st : ChunkMap * ChunkVersion) (change : ChunkType * Z)
    : Outcome (ChunkMap * ChunkVersion) :=
  let '(chunkMap, collectionVersion) := st in
  let '(chunk, seed) := change in
  match _version chunk, _min chunk, _max chunk with
  | Some chunkVersion, Some mn, Some mx =>
      uassert ConflictingOperationInProgress
        (oid_eqb (_epoch collectionVersion) (_epoch chunkVersion)) ;*
      invariant (version_ge chunkVersion collectionVersion) ;*
      let low := upper_bound mn chunkMap in
      let high := upper_bound mx chunkMap in
      let chunkMap := erase_range low high chunkMap in
      let* c := newChunk seed chunk in
      Ret (map_insert mx c chunkMap, chunkVersion)
  | _, _, _ => Undef
  end.

Definition makeUpdated (nextSeq : Z) (cm : ChunkManager) (changedChunks : list (ChunkType * Z))
    : Outcome (Z * ChunkManager) :=
  let* st := ofold apply_change (cm_chunkMap cm, cm_collectionVersion cm) changedChunks in
  let '(chunkMap, collectionVersion) := st in
  if version_equals collectionVersion (cm_collectionVersion cm) then Ret (nextSeq, cm)
  else newChunkManager nextSeq (cm_nss cm) (skp_pattern (cm_shardKeyPattern cm))
         (cm_defaultCollator cm) (cm_unique cm) chunkMap collectionVersion.

(** The temporary manager is not owned by a [shared_ptr], so returning it
    ([shared_from_this]) is undefined. *)
Definition makeNew (nextSeq : Z) (nss : string) (shardKeyPattern : KeyPattern)
    (defaultCollator : option BSONObj) (unique : bool) (epoch : OID)
    (chunks : list (ChunkType * Z)) : Outcome (Z * ChunkManager) :=
  let* r := newChunkManager nextSeq nss shardKeyPattern defaultCollator unique []
              (newVersion 0 0 epoch) in
  let '(seq, cm) := r in
  let* r' := makeUpdated seq cm chunks in
  if (fst r' =? seq) then Undef else Ret r'.

(** * Targeting *)

Definition isCollatableType (v : BSONValue) : bool :=
  match v with VString _ | VObject _ | VArray _ => true | _ => false end.

Definition kSimpleSpec : BSONObj := [("locale", VString "simple")].

Definition hasSimpleCollation (cm : ChunkManager) (collation : BSONObj) : bool :=
  (match collation, cm_defaultCollator cm with [], None => true | _, _ => false end) ||
  (woCompare collation kSimpleSpec =? 0).

Definition findIntersectingChunk (cm : ChunkManager) (shardKey collation : BSONObj) : Outcome Chunk :=
  (if hasSimpleCollation cm collation then Ret ()
   else ofold (fun _ el => uassert ShardKeyNotFound (negb (isCollatableType (el.2 : BSONValue)))) ()
          shardKey) ;*
  match cm_chunkMap cm !! upper_bound shardKey (cm_chunkMap cm) with
  | Some (_, c) => if chunk_containsKey c shardKey then Ret c else Throw ShardKeyNotFound
  | None => Throw ShardKeyNotFound
  end.

Definition findIntersectingChunkWithSimpleCollation (cm : ChunkManager) (shardKey : BSONObj)
    : Outcome Chunk := findIntersectingChunk cm shardKey kSimpleSpec.

(** The insertion loop: stop as soon as all shards are in the set. *)
Fixpoint range_loop (nShards : nat) (l : ChunkRangeMap) (shardIds : gset ShardId) : gset ShardId :=
  match l with
  | [] => shardIds
  | (_, r) :: l =>
      let shardIds := {[ scr_shardId r ]} ∪ shardIds in
      if (size shardIds =? nShards)%nat then shardIds else range_loop nShards l shardIds
  end.

Definition getShardIdsForRange (cm : ChunkManager) (min max : BSONObj) (shardIds : gset ShardId)
    : Outcome (gset ShardId) :=
  uassert BadValue (woCompare min max <=? 0) ;*
  let crm := chunkRangeMap (cm_views cm) in
  let it := upper_bound min crm in
  let e := upper_bound max crm in
  let e := if (e =? List.length crm)%nat then e else S e in
  Ret (range_loop (List.length (shardVersions (cm_views cm))) (drop it (take e crm)) shardIds).

Fixpoint ranges_loop (cm : ChunkManager) (ranges : BoundList) (shardIds : gset ShardId)
    : Outcome (gset ShardId) :=
  match ranges with
  | [] => Ret shardIds
  | (mn, mx) :: ranges =>
      let* shardIds := getShardIdsForRange cm mn mx shardIds in
      if (size shardIds =? List.length (shardVersions (cm_views cm)))%nat then Ret shardIds
      else ranges_loop cm ranges shardIds
  end.

(** The part of [getShardIdsForQuery] after the equality shortcut. *)
Definition query_slow_path (cm : ChunkManager) (bounds : IndexBounds) (shardIds : gset ShardId)
    : Outcome (gset ShardId) :=
  let* ranges := flattenBounds (cm_shardKeyPattern cm) bounds in
  let* shardIds := ranges_loop cm ranges shardIds in
  if bool_decide (shardIds = ∅) then
    match chunkRangeMap (cm_views cm) with
    | (_, r) :: _ => Ret {[ scr_shardId r ]}
    | [] => Undef
    end
  else Ret shardIds.

(** [getShardIdsForQuery] once the query is canonicalised and planned:
    [shardKeyToFind] is the shard key its equalities give (empty if none) and
    [bounds] its index bounds on the shard key. *)
Definition getShardIdsForQuery (cm : ChunkManager) (shardKeyToFind : BSONObj) (bounds : IndexBounds)
    (collation : BSONObj) (shardIds : gset ShardId) : Outcome (gset ShardId) :=
  match shardKeyToFind with
  | [] => query_slow_path cm bounds shardIds
  | _ =>
      match findIntersectingChunk cm shardKeyToFind collation with
      | Ret c => Ret ({[ getShardId c ]} ∪ shardIds)
      | Throw _ => query_slow_path cm bounds shardIds
      | Abort => Abort
      | Undef => Undef
      end
  end.

Definition getAllShardIds (cm : ChunkManager) : gset ShardId :=
  list_to_set ((shardVersions (cm_views cm)).*1).

(** * Versions *)

Definition getVersion (cm : ChunkManager) (shardName : ShardId) : ChunkVersion :=
  default (newVersion 0 0 (_epoch (cm_collectionVersion cm)))
    (map_get shardName (shardVersions (cm_views cm))).

Definition compatibleWith (cm other : ChunkManager) (shardName : ShardId) : bool :=
  version_equals (getVersion other shardName) (getVersion cm shardName).

Definition numChunks (cm : ChunkManager) : Z := Z.of_nat (List.length (cm_chunkMap cm)).

(** * The chunk map *)

(** Entries are keyed by the upper bound of a non-empty range. *)
Definition chunk_map_wf (m : ChunkMap) : Prop :=
  ksorted m /\ forall k c, (k, c) ∈ m -> k = getMax c /\ getMin c ≺ getMax c.

(** Every chunk has the epoch of the collection and is not newer than it. *)
Definition chunk_map_versions (m : ChunkMap) (v : ChunkVersion) : Prop :=
  forall k c, (k, c) ∈ m -> _epoch (getLastmod c) = _epoch v /\ toLong (getLastmod c) <= toLong v.

Lemma apply_change_inv m v ch seed m' v' :
  apply_change (m, v) (ch, seed) = Ret (m', v') ->
  exists c, newChunk seed ch = Ret c /\ _epoch v = _epoch v' /\ toLong v <= toLong v' /\
    getLastmod c = v' /\ getMin c ≺ getMax c /\
    m' = map_insert (getMax c) c (erase_range (upper_bound (getMin c) m) (upper_bound (getMax c) m) m).
Proof.
  unfold apply_change. destruct (_version ch) as [w|] eqn:Hw; [|done].
  destruct (_min ch) as [mn|] eqn:Hmn; [|done]. destruct (_max ch) as [mx|] eqn:Hmx; [|done].
  intros Hr. inv_ret. simplify_eq.
  match goal with H : newChunk _ _ = Ret ?c |- _ => exists c; pose proof (newChunk_Ret _ _ _ H)
    as (Hv & Hcmn & Hcmx & _ & Hcv & _) end.
  rewrite Hmn in Hcmn. rewrite Hmx in Hcmx. rewrite Hw in Hcv. simplify_eq.
  apply validate_inv in Hv as (mn' & mx' & v1 & s & E1 & E2 & _ & _ & _ & _ & _ & _ & _ & _ & Hlt).
  rewrite Hmn in E1. rewrite Hmx in E2. simplify_eq.
  match goal with H : oid_eqb _ _ = true |- _ => apply oid_eqb_eq in H end.
  match goal with H : version_ge _ _ = true |- _ => apply Z.leb_le in H end.
  split_and!; done.
Qed.

Lemma apply_change_fresh (m : ChunkMap) a b :
  ksorted m -> a ≺ b -> forall k' c', (k', c') ∈ erase_range (upper_bound a m) (upper_bound b m) m ->
  ~ b ≅k k'.
Proof.
  intros Hs Hab k' c' Hin Heq. apply elem_of_erase_upper in Hin; [|done|korder].
  destruct Hin as [_ [?|?]]; korder.
Qed.

(** What one change does to the map: the entries whose upper bound lies in the
    changed range go, and the changed chunk is there. *)
Lemma apply_change_spec m v ch seed m' v' :
  chunk_map_wf m -> apply_change (m, v) (ch, seed) = Ret (m', v') ->
  exists c, newChunk seed ch = Ret c /\ chunk_map_wf m' /\
    forall x, x ∈ m' <-> x = (getMax c, c) \/ (x ∈ m /\ (x.1 ≼ getMin c \/ getMax c ≺ x.1)).
Proof.
  intros [Hs Hk] Ha. apply apply_change_inv in Ha as (c & Hc & _ & _ & _ & Hlt & ->).
  set (a := getMin c) in *. set (b := getMax c) in *.
  assert (Hle : (upper_bound a m <= upper_bound b m)%nat) by (apply upper_bound_mono; korder).
  pose proof (erase_range_sorted _ _ _ Hle Hs) as Hse.
  pose proof (apply_change_fresh m a b Hs Hlt) as Hf.
  assert (Hiff : forall x, x ∈ map_insert b c (erase_range (upper_bound a m) (upper_bound b m) m) <->
    x = (b, c) \/ (x ∈ m /\ (x.1 ≼ a \/ b ≺ x.1))).
  { intros [k x]. rewrite elem_of_map_insert, elem_of_erase_upper by (done || korder). done. }
  exists c. split_and!; [done|split|done].
  - by apply map_insert_sorted.
  - intros k x [[= -> ->]|[Hin _]]%Hiff; [done|by apply Hk].
Qed.

Lemma apply_change_versions m v ch seed m' v' :
  chunk_map_wf m -> chunk_map_versions m v -> apply_change (m, v) (ch, seed) = Ret (m', v') ->
  chunk_map_versions m' v' /\ _epoch v' = _epoch v /\ toLong v <= toLong v'.
Proof.
  intros Hwf Hv Ha. destruct (apply_change_spec _ _ _ _ _ _ Hwf Ha) as (c & Hc & _ & Hiff).
  apply apply_change_inv in Ha as (c' & Hc' & He & Hle & Hl & _). rewrite Hc in Hc'. simplify_eq.
  split_and!; try done. intros k x [[= -> ->]|[Hin _]]%Hiff; [split; [done|lia]|].
  apply Hv in Hin as [? ?]. split; [congruence|lia].
Qed.

(** * The views *)

Definition vmax (v : ChunkVersion) (e : BSONObj * Chunk) : ChunkVersion :=
  if version_gt (getLastmod e.2) v then getLastmod e.2 else v.

Lemma scan_run_spec shard v lst l v' lst' rest :
  scan_run shard v lst l = (v', lst', rest) ->
  exists run, l = run ++ rest /\ Forall (fun e : BSONObj * Chunk => getShardId e.2 = shard) run /\
    v' = foldl vmax v run /\ lst' = default lst (snd <$> last run).
Proof.
  revert v lst. induction l as [|[k c] l IH]; intros v lst; simpl.
  - intros [= <- <- <-]. by exists [].
  - destruct (String.eqb_spec (getShardId c) shard) as [Hs|Hs]; simpl.
    + intros (run & -> & Hf & -> & ->)%IH. exists ((k, c) :: run). split_and!; [done|by constructor|done|].
      destruct (last run) as [x|] eqn:E; simpl.
      * destruct run; [done|]. simpl in *. by rewrite E.
      * apply last_None in E as ->. done.
    + intros [= <- <- <-]. by exists [].
Qed.

Lemma foldl_vmax v run :
  toLong v <= toLong (foldl vmax v run) /\
  (forall e, e ∈ run -> toLong (getLastmod e.2) <= toLong (foldl vmax v run)) /\
  (foldl vmax v run = v \/ exists e, e ∈ run /\ getLastmod e.2 = foldl vmax v run).
Proof.
  revert v. induction run as [|e run IH]; intros v; simpl.
  - split_and!; [lia|by intros e ?%not_elem_of_nil|by left].
  - destruct (IH (vmax v e)) as (H1 & H2 & H3).
    assert (Hv : toLong v <= toLong (vmax v e) /\ toLong (getLastmod e.2) <= toLong (vmax v e) /\
      (vmax v e = v \/ vmax v e = getLastmod e.2)).
    { unfold vmax, version_gt. destruct (Z.ltb_spec (toLong v) (toLong (getLastmod e.2)));
        split_and!; auto; lia. }
    destruct Hv as (Hv1 & Hv2 & Hv3). split_and!; [lia|..].
    + intros e' [->|Hin]%elem_of_cons; [lia|]. by apply H2.
    + destruct H3 as [->|(e' & Hin & ?)].
      * destruct Hv3 as [-> | ->]; [by left|]. right. exists e. split; [apply list_elem_of_here|done].
      * right. exists e'. split; [by apply list_elem_of_further|done].
Qed.

Lemma add_range_spec crm mn mx s crm' :
  (forall k r, (k, r) ∈ crm -> k ≺ mx) -> add_range crm mn mx s = Ret crm' ->
  crm' = crm ++ [(mx, mkSCR (mkRange mn mx) s)] /\
  (forall k r, last crm = Some (k, r) -> k ≅k mn).
Proof.
  intros Hlt Ha. unfold add_range in Ha. rewrite map_insert_end in Ha by done. inv_ret. subst crm'.
  split; [done|]. intros k r Hl.
  match goal with H : match lower_bound _ _ with _ => _ end = true |- _ => rename H into Hm end.
  rewrite (lower_bound_end mx crm) in Hm by (done || (intros ? [= <-]; simpl; korder)).
  destruct crm as [|e crm _] using rev_ind; [done|].
  rewrite last_snoc in Hl. injection Hl as ->. rewrite length_app, Nat.add_comm in Hm. simpl in Hm.
  rewrite lookup_app_l in Hm by (rewrite length_app; simpl; lia).
  rewrite lookup_app_r, Nat.sub_diag in Hm by lia. simpl in Hm.
  rewrite wo_eq in Hm. by apply keqb_spec.
Qed.

(** Each range starts where the previous one ends. *)
Fixpoint contiguous (crm : ChunkRangeMap) : Prop :=
  match crm with
  | (k, _) :: (((_, r) :: _) as tl) => k ≅k _minKey (scr_range r) /\ contiguous tl
  | _ => True
  end.

(** The version of a shard: the largest version of its chunks. *)
Definition shard_version_spec (m : ChunkMap) (s : ShardId) (v : option ChunkVersion) : Prop :=
  match v with
  | None => forall k c, (k, c) ∈ m -> getShardId c <> s
  | Some v =>
      (exists k c, (k, c) ∈ m /\ getShardId c = s /\ getLastmod c = v) /\
      forall k c, (k, c) ∈ m -> getShardId c = s -> toLong (getLastmod c) <= toLong v
  end.

Record views_of (m : ChunkMap) (views : ChunkMapViews) : Prop := {
  vo_sorted : ksorted (chunkRangeMap views);
  vo_range k r : (k, r) ∈ chunkRangeMap views ->
    _maxKey (scr_range r) = k /\ _minKey (scr_range r) ≺ k /\ exists c, (k, c) ∈ m;
  vo_run k c : (k, c) ∈ m ->
    exists K r, (K, r) ∈ chunkRangeMap views /\ k ≼ K /\ scr_shardId r = getShardId c /\
      forall K' r', (K', r') ∈ chunkRangeMap views -> k ≼ K' -> K ≼ K';
  vo_contiguous : contiguous (chunkRangeMap views);
  vo_versions_sorted : ksorted (shardVersions views);
  vo_versions s : shard_version_spec m s (map_get s (shardVersions views));
  vo_shards s v : (s, v) ∈ shardVersions views -> exists k c, (k, c) ∈ m /\ getShardId c = s;
  vo_head k c : head m = Some (k, c) ->
    exists K r, head (chunkRangeMap views) = Some (K, r) /\ _minKey (scr_range r) = getMin c
}.

Lemma contiguous_snoc crm k r :
  contiguous crm -> (forall k' r', last crm = Some (k', r') -> k' ≅k _minKey (scr_range r)) ->
  contiguous (crm ++ [(k, r)]).
Proof.
  induction crm as [|[k1 r1] [|[k2 r2] crm] IH]; intros Hc Hl; simpl in *; [done|..].
  - split; [by apply (Hl k1 r1)|done].
  - destruct Hc as [? Hc]. split; [done|]. by apply IH.
Qed.

Lemma ksorted_last {V : Type} (m : list (BSONObj * V)) kl vl k v :
  ksorted m -> last m = Some (kl, vl) -> (k, v) ∈ m -> k ≼ kl.
Proof.
  intros Hs Hl Hin. destruct m as [|e m _] using rev_ind; [done|].
  rewrite last_snoc in Hl. injection Hl as ->. apply ksorted_app in Hs as (_ & _ & Hx).
  apply elem_of_app in Hin as [Hin|[= -> ->]%list_elem_of_singleton]; [|korder].
  specialize (Hx k v kl vl Hin (list_elem_of_here _ _)). korder.
Qed.

Lemma string_keq (a b : string) : a ≅k b <-> a = b.
Proof. split; [apply slex_eq|]. intros ->. unfold keq. apply kcmp_refl. Qed.

Lemma versions_step done run s mv epoch sv :
  run <> [] -> Forall (fun e : BSONObj * Chunk => getShardId e.2 = s) run ->
  ksorted sv -> (forall s, shard_version_spec done s (map_get s sv)) ->
  mv = foldl vmax (default (newVersion 0 0 epoch) (map_get s sv)) run -> isSet mv = true ->
  forall s', shard_version_spec (done ++ run) s' (map_get s' (map_assign s mv sv)).
Proof.
  intros Hne Hrun Hs Hspec Hmv Hset s'. rewrite Forall_forall in Hrun.
  destruct (decide (s' = s)) as [->|Hs'].
  - rewrite map_get_assign by done. specialize (Hspec s).
    destruct (foldl_vmax (default (newVersion 0 0 epoch) (map_get s sv)) run) as (H1 & H2 & H3).
    rewrite <- Hmv in *. split.
    + destruct H3 as [H3|([k c] & Hin & Hl)].
      * destruct (map_get s sv) as [v|]; simpl in H3.
        -- destruct Hspec as [(k & c & Hin & ? & ?) _]. exists k, c. split_and!; [|done|congruence].
           apply elem_of_app. by left.
        -- rewrite H3 in Hset. by vm_compute in Hset.
      * exists k, c. split_and!; [apply elem_of_app; by right|by apply (Hrun (k, c))|done].
    + intros k c [Hin|Hin]%elem_of_app Hc; [|by apply (H2 (k, c))].
      destruct (map_get s sv) as [v|]; simpl in *; [|by destruct (Hspec k c Hin)].
      destruct Hspec as [_ Hmax]. specialize (Hmax k c Hin Hc). lia.
  - rewrite map_get_assign_ne by (done || by intros ?%string_keq). specialize (Hspec s').
    destruct (map_get s' sv) as [v|]; simpl in *.
    + destruct Hspec as [(k & c & Hin & ?) Hmax]. split.
      * exists k, c. split; [apply elem_of_app; by left|done].
      * intros k' c' [Hi|Hi]%elem_of_app Hc; [by eapply Hmax|].
        destruct Hs'. rewrite <- Hc. by apply (Hrun (k', c')).
    + intros k c [Hi|Hi]%elem_of_app; [by eapply Hspec|]. pose proof (Hrun _ Hi). simpl in *. congruence.
Qed.

Lemma ksorted_before {V : Type} (m1 m2 : list (BSONObj * V)) k1 v1 k2 v2 :
  ksorted (m1 ++ m2) -> (k1, v1) ∈ m1 -> (k2, v2) ∈ m2 -> k1 ≺ k2.
Proof. intros (_ & _ & Hx)%ksorted_app H1 H2. by apply (Hx k1 v1 k2 v2). Qed.

(** One iteration: the run [run] after the chunks [dn] already covered. *)
Lemma views_step dn run k0 first kl lst s mv epoch views crm' :
  chunk_map_wf (dn ++ run) -> views_of dn views ->
  head run = Some (k0, first) -> last run = Some (kl, lst) ->
  Forall (fun e : BSONObj * Chunk => getShardId e.2 = s) run ->
  mv = foldl vmax (default (newVersion 0 0 epoch) (map_get s (shardVersions views))) run ->
  isSet mv = true ->
  add_range (chunkRangeMap views) (getMin first) (getMax lst) s = Ret crm' ->
  views_of (dn ++ run) (mkViews crm' (map_assign s mv (shardVersions views))).
Proof.
  intros [Hs Hk] [V1 V2 V3 V4 V5 V6 V7 V8] Hhd Hlast Hrun Hmv Hset Ha.
  assert (Hin0 : (k0, first) ∈ run) by (destruct run; [done|]; injection Hhd as ->; apply list_elem_of_here).
  assert (Hinl : (kl, lst) ∈ run) by (by apply last_Some_elem_of).
  destruct (Hk k0 first) as [Hk0 Hlt0]; [apply elem_of_app; by right|].
  destruct (Hk kl lst) as [Hkl _]; [apply elem_of_app; by right|]. rewrite <- Hkl in Ha.
  assert (Hsr : ksorted run) by (by apply ksorted_app in Hs as (_ & ? & _)).
  pose proof (ksorted_last run kl lst k0 first Hsr Hlast Hin0) as H0l.
  assert (Hlt : forall K r, (K, r) ∈ chunkRangeMap views -> forall k c, (k, c) ∈ run -> K ≺ k).
  { intros K r HK k c Hkc. apply V2 in HK as (_ & _ & cc & Hcc).
    by apply (ksorted_before dn run K cc k c). }
  destruct (add_range_spec _ _ _ _ _ (fun K r HK => Hlt K r HK kl lst Hinl) Ha) as [-> Hadj].
  rewrite Forall_forall in Hrun. split; cbn [chunkRangeMap shardVersions].
  - apply ksorted_app. split_and!; [done|by repeat constructor|].
    intros K r K' r' HK [= -> ->]%list_elem_of_singleton. by apply (Hlt K r HK kl lst).
  - intros K r [HK|[= -> ->]%list_elem_of_singleton]%elem_of_app.
    + destruct (V2 K r HK) as (? & ? & c & ?). split_and!; try done.
      exists c. apply elem_of_app. by left.
    + simpl. split_and!; [done|subst k0; korder|]. exists lst. apply elem_of_app. by right.
  - intros k c [Hkc|Hkc]%elem_of_app.
    + destruct (V3 k c Hkc) as (K & r & HK & Hle & Hsh & Hmin). exists K, r.
      split_and!; [apply elem_of_app; by left|done|done|].
      intros K' r' [HK'|[= -> ->]%list_elem_of_singleton]%elem_of_app Hle'; [by eapply Hmin|].
      pose proof (Hlt K r HK kl lst Hinl). korder.
    + exists kl, (mkSCR (mkRange (getMin first) kl) s).
      split_and!; [apply elem_of_app; right; apply list_elem_of_here
                  |by apply (ksorted_last run kl lst k c)|symmetry; by apply (Hrun (k, c))|].
      intros K' r' [HK'|[= -> ->]%list_elem_of_singleton]%elem_of_app Hle'; [|korder].
      pose proof (Hlt K' r' HK' k c Hkc). korder.
  - by apply contiguous_snoc.
  - by apply map_assign_spec.
  - by eapply versions_step; [destruct run; [done|]|apply Forall_forall|..].
  - intros s' v Hin. destruct (decide (s = s')) as [<-|Hne].
    + exists k0, first. split; [apply elem_of_app; by right|by apply (Hrun (k0, first))].
    + destruct (map_assign_spec s mv (shardVersions views) V5) as (_ & _ & Hiff).
      apply Hiff in Hin; [|by intros ?%string_keq]. destruct (V7 s' v Hin) as (k & c & ? & ?).
      exists k, c. split; [apply elem_of_app; by left|done].
  - intros k c Hh. destruct dn as [|[k1 c1] dn].
    + destruct (chunkRangeMap views) as [|[K r] crm].
      * simpl in Hh. rewrite Hhd in Hh. injection Hh as <- <-. by do 2 eexists.
      * destruct (V2 K r (list_elem_of_here _ _)) as (_ & _ & c1 & []%not_elem_of_nil).
    + injection Hh as -> ->. destruct (V8 k c eq_refl) as (K & r & Hhc & ?). exists K, r.
      split; [|done]. by destruct (chunkRangeMap views).
Qed.

(** The run that starts at the first chunk of the rest. *)
Lemma scan_run_first k0 first v l mv lst rest :
  scan_run (getShardId first) v first ((k0, first) :: l) = (mv, lst, rest) ->
  exists run kl, (k0, first) :: l = run ++ rest /\ head run = Some (k0, first) /\
    last run = Some (kl, lst) /\ mv = foldl vmax v run /\ (List.length rest <= List.length l)%nat /\
    Forall (fun e : BSONObj * Chunk => getShardId e.2 = getShardId first) run.
Proof.
  simpl. rewrite String.eqb_refl. cbn [negb]. intros Hscan.
  apply scan_run_spec in Hscan as (run & -> & Hrun & -> & ->).
  exists ((k0, first) :: run).
  assert (Hl : exists kl, last ((k0, first) :: run) = Some (kl, default first (snd <$> last run))).
  { destruct (last run) as [[kl c]|] eqn:E.
    - exists kl. destruct run; [done|]. exact E.
    - apply last_None in E as ->. by exists k0. }
  destruct Hl as [kl Hl]. exists kl. split_and!; try done.
  - rewrite length_app. lia.
  - by constructor.
Qed.

Lemma views_loop_spec fuel epoch dn l views views' :
  chunk_map_wf (dn ++ l) -> views_of dn views ->
  views_loop fuel epoch l views = Ret views' -> views_of (dn ++ l) views'.
Proof.
  revert dn l views. induction fuel as [|fuel IH]; intros dn [|[k0 first] l] views Hwf Hv Hr;
    cbn [views_loop] in Hr; try (injection Hr as <-; by rewrite app_nil_r); [done|].
  destruct (scan_run _ _ _ _) as [[mv lst] rest] eqn:Hscan.
  apply scan_run_first in Hscan as (run & kl & Hl & Hhd & Hlast & Hmv & _ & Hrun). inv_ret.
  rewrite Hl, app_assoc in *. eapply IH; [done| |done].
  eapply views_step; try done. destruct Hwf as [Hs Hk]. split.
  - by apply ksorted_app in Hs as (? & _).
  - intros k c Hin. apply Hk. apply elem_of_app. by left.
Qed.

(** Enough fuel: the loop never runs out. *)
Lemma views_loop_fuel fuel epoch l views :
  (List.length l <= fuel)%nat -> views_loop fuel epoch l views <> Undef.
Proof.
  revert l views. induction fuel as [|fuel IH]; intros [|[k0 first] l] views Hf;
    cbn [views_loop]; try done; simpl in Hf; [lia|].
  destruct (scan_run _ _ _ _) as [[mv lst] rest] eqn:Hscan.
  apply scan_run_first in Hscan as (run & kl & _ & _ & _ & _ & Hle & _).
  unfold add_range. repeat (destruct (_ =? _)%nat; simpl; [|done]).
  match goal with |- context [uassert _ ?b] => destruct b; simpl; [|done] end.
  destruct (isSet mv); simpl; [|done]. apply IH. lia.
Qed.

Lemma views_of_nil : views_of [] (mkViews [] []).
Proof.
  split; simpl; try done; try (by constructor); try (by intros ? ? ?%not_elem_of_nil).
  intros s. simpl. by intros ? ? ?%not_elem_of_nil.
Qed.

Lemma checkAll_Ret t o u :
  checkAllElementsAreOfType t o = Ret u -> Forall (fun el : BSONElement => type_of el.2 = t) o.
Proof.
  unfold checkAllElementsAreOfType. destruct u. intros H.
  apply (ofold_unit_forall (fun el : BSONElement => _)) in H.
  eapply Forall_impl; [exact H|]. intros el Hel. cbv beta in Hel. inv_ret. by apply bool_decide_eq_true in Hel.
Qed.

(** The ends of the key space. *)
Definition spans (crm : ChunkRangeMap) : Prop :=
  match head crm, last crm with
  | Some (_, first), Some (k, _) =>
      Forall (fun el : BSONElement => type_of el.2 = MinKey) (_minKey (scr_range first)) /\
      Forall (fun el : BSONElement => type_of el.2 = MaxKey) k
  | _, _ => False
  end.

Lemma constructChunkMapViews_spec epoch m views :
  chunk_map_wf m -> constructChunkMapViews epoch m = Ret views ->
  views_of m views /\ (m <> [] -> spans (chunkRangeMap views)).
Proof.
  intros Hwf Hr. unfold constructChunkMapViews in Hr.
  apply obind_Ret_inv in Hr as (views' & Hl & Hr).
  assert (Hv : views_of m views').
  { apply (views_loop_spec (List.length m) epoch [] m (mkViews [] []));
      [done|apply views_of_nil|done]. }
  destruct m as [|e m]; [injection Hr as <-; done|].
  destruct (chunkRangeMap views') as [|[k0 r0] crm] eqn:Hcrm; [done|].
  destruct (last ((k0, r0) :: crm)) as [[kl rl]|] eqn:Hlast; [|done].
  destruct (shardVersions views') as [|sv0 sv]; [done|]. inv_ret. subst views'.
  split; [done|]. intros _. unfold spans. rewrite Hcrm, Hlast. simpl.
  split; by eapply checkAll_Ret.
Qed.

(** * The invariant of routing tables *)

Definition scr_min (r : ShardAndChunkRange) : BSONObj := _minKey (scr_range r).

Lemma contiguous_tiling crm k0 r0 kl rl :
  (forall k r, (k, r) ∈ crm -> scr_min r ≺ k) -> contiguous crm ->
  head crm = Some (k0, r0) -> last crm = Some (kl, rl) -> tiling scr_min (scr_min r0) crm kl.
Proof.
  revert k0 r0. induction crm as [|[k r] [|[k' r'] crm] IH]; intros k0 r0 Hlt Hc Hh Hl; [done|..];
    injection Hh as -> ->.
  - injection Hl as -> ->. pose proof (Hlt kl rl (list_elem_of_here _ _)).
    simpl. split_and!; korder.
  - destruct Hc as [Ha Hc]. pose proof (Hlt k0 r0 (list_elem_of_here _ _)).
    assert (Hlt' : forall k r, (k, r) ∈ (k', r') :: crm -> scr_min r ≺ k)
      by (intros; apply Hlt; by apply list_elem_of_further).
    destruct (IH k' r' Hlt' Hc eq_refl Hl) as (_ & H1 & H2). split_and!; [korder|done|].
    split_and!; [|fold (scr_min r') in Ha; korder|done]. unfold scr_min. korder.
Qed.

Record cm_ok (cm : ChunkManager) : Prop := {
  ok_map : chunk_map_wf (cm_chunkMap cm);
  ok_versions : chunk_map_versions (cm_chunkMap cm) (cm_collectionVersion cm);
  ok_views : views_of (cm_chunkMap cm) (cm_views cm);
  ok_spans : cm_chunkMap cm <> [] -> spans (chunkRangeMap (cm_views cm));
  ok_pattern : newShardKeyPattern (skp_pattern (cm_shardKeyPattern cm)) = Ret (cm_shardKeyPattern cm)
}.

Lemma newChunkManager_ok seq nss kp coll u m v seq' cm :
  chunk_map_wf m -> chunk_map_versions m v ->
  newChunkManager seq nss kp coll u m v = Ret (seq', cm) ->
  cm_ok cm /\ cm_chunkMap cm = m /\ cm_collectionVersion cm = v /\ seq' = u32 (seq + 1) /\
  cm_sequenceNumber cm = seq' /\ skp_pattern (cm_shardKeyPattern cm) = kp.
Proof.
  intros Hwf Hv Hr. unfold newChunkManager in Hr. inv_ret. subst cm.
  match goal with H : constructChunkMapViews _ _ = Ret _ |- _ =>
    destruct (constructChunkMapViews_spec _ _ _ Hwf H) as [Hviews Hsp] end.
  match goal with H : newShardKeyPattern _ = Ret _ |- _ =>
    pose proof H as Hp; apply newShardKeyPattern_inv in H as [Hkp _] end.
  split_and!; try done. split; try done. simpl. by rewrite Hkp.
Qed.

(** The state of the refresh loop. *)
Definition changes_inv (v0 : ChunkVersion) (st : ChunkMap * ChunkVersion) : Prop :=
  chunk_map_wf st.1 /\ chunk_map_versions st.1 st.2 /\ _epoch st.2 = _epoch v0 /\
  toLong v0 <= toLong st.2.

Lemma changes_inv_step v0 st change st' :
  changes_inv v0 st -> apply_change st change = Ret st' ->
  changes_inv v0 st' /\ exists k c, (k, c) ∈ st'.1 /\ getLastmod c = st'.2.
Proof.
  destruct st as [m v], change as [ch seed], st' as [m' v']. intros (Hwf & Hv & He & Hle) Ha.
  destruct (apply_change_versions _ _ _ _ _ _ Hwf Hv Ha) as (Hv' & He' & Hle').
  destruct (apply_change_spec _ _ _ _ _ _ Hwf Ha) as (c & Hc & Hwf' & Hiff). split.
  - unfold changes_inv. simpl in He, Hle |- *. split_and!; [done|done|by rewrite He'|by transitivity (toLong v)].
  - apply apply_change_inv in Ha as (c' & Hc' & _ & _ & Hl & _). rewrite Hc in Hc'. simplify_eq.
    exists (getMax c'), c'. split; [|done]. apply Hiff. by left.
Qed.

Lemma changes_inv_fold v0 changes st st' :
  changes_inv v0 st -> ofold apply_change st changes = Ret st' ->
  changes_inv v0 st' /\
  (changes <> [] -> exists k c, (k, c) ∈ st'.1 /\ getLastmod c = st'.2) /\
  (changes = [] -> st' = st).
Proof.
  revert st. induction changes as [|ch changes IH]; intros st Hst Hf; simpl in Hf.
  - injection Hf as <-. split_and!; done.
  - apply obind_Ret_inv in Hf as (st1 & H1 & H2).
    destruct (changes_inv_step v0 st ch st1 Hst H1) as [Hst1 Hex].
    destruct (IH st1 Hst1 H2) as (Hst' & Hne & Hnil). split_and!; [done| |done].
    intros _. destruct changes as [|ch2 changes]; [|by apply Hne].
    by rewrite (Hnil eq_refl).
Qed.

(** What a refresh returns: the same table, or a new one with a higher version. *)
Lemma makeUpdated_inv seq cm changes seq' cm' :
  cm_ok cm -> makeUpdated seq cm changes = Ret (seq', cm') ->
  (cm' = cm /\ seq' = seq) \/
  (cm_ok cm' /\ seq' = u32 (seq + 1) /\ cm_sequenceNumber cm' = seq' /\
   _epoch (cm_collectionVersion cm') = _epoch (cm_collectionVersion cm) /\
   toLong (cm_collectionVersion cm) < toLong (cm_collectionVersion cm') /\
   skp_pattern (cm_shardKeyPattern cm') = skp_pattern (cm_shardKeyPattern cm) /\
   ofold apply_change (cm_chunkMap cm, cm_collectionVersion cm) changes =
     Ret (cm_chunkMap cm', cm_collectionVersion cm') /\
   exists k c, (k, c) ∈ cm_chunkMap cm' /\ getLastmod c = cm_collectionVersion cm').
Proof.
  intros [Hm Hv _ _ _] Hr. unfold makeUpdated in Hr.
  apply obind_Ret_inv in Hr as ([m v] & Hf & Hr).
  assert (H0 : changes_inv (cm_collectionVersion cm) (cm_chunkMap cm, cm_collectionVersion cm))
    by (split_and!; done).
  destruct (changes_inv_fold _ changes _ _ H0 Hf) as ((Hm' & Hv' & He & Hle) & Hne & Hnil).
  cbn [fst snd] in *. destruct (version_equals v (cm_collectionVersion cm)) eqn:Heq.
  - injection Hr as <- <-. by left.
  - right. apply newChunkManager_ok in Hr as (Hok & <- & <- & ? & ? & ?); [|done..].
    assert (Hneq : cm_collectionVersion cm' <> cm_collectionVersion cm)
      by (intros E; rewrite E, (proj2 (version_equals_eq _ _) eq_refl) in Heq; done).
    split_and!; try done.
    + apply Z.le_neq. split; [done|]. intros E. apply Hneq. symmetry. by apply version_eq.
    + apply Hne. intros ->. destruct Hneq. specialize (Hnil eq_refl). by injection Hnil.
Qed.

(** The routing tables the router can hold. *)
Inductive reachable : ChunkManager -> Prop :=
  | reach_new seq nss kp coll u epoch chunks seq' cm :
      makeNew seq nss kp coll u epoch chunks = Ret (seq', cm) -> reachable cm
  | reach_update seq cm changes seq' cm' :
      reachable cm -> makeUpdated seq cm changes = Ret (seq', cm') -> reachable cm'.

Definition has_version (cm : ChunkManager) : Prop :=
  exists k c, (k, c) ∈ cm_chunkMap cm /\ getLastmod c = cm_collectionVersion cm.

Lemma reachable_ok cm : reachable cm -> cm_ok cm /\ has_version cm.
Proof.
  induction 1 as [seq nss kp coll u epoch chunks seq' cm Hn|seq cm changes seq' cm' _ [IH IHv] Hu].
  - unfold makeNew in Hn. apply obind_Ret_inv in Hn as ([s0 cm0] & H0 & Hn).
    apply newChunkManager_ok in H0 as (Hok & _);
      [|split; [apply ksorted_nil|by intros ? ? ?%not_elem_of_nil]|by intros ? ? ?%not_elem_of_nil].
    apply obind_Ret_inv in Hn as ([s1 cm1] & Hu & Hn). simpl in Hn.
    destruct (Z.eqb_spec s1 s0); [done|]. injection Hn as <- <-.
    by apply makeUpdated_inv in Hu as [[_ ?]|(? & _ & _ & _ & _ & _ & _ & ?)].
  - apply makeUpdated_inv in Hu as [[-> _]|(? & _ & _ & _ & _ & _ & _ & ?)]; done.
Qed.

Lemma has_version_ne cm : has_version cm -> cm_chunkMap cm <> [].
Proof. intros (k & c & Hin & _) E. rewrite E in Hin. by apply not_elem_of_nil in Hin. Qed.

Definition all_type (t : BSONType) (o : BSONObj) : Prop :=
  Forall (fun el : BSONElement => type_of el.2 = t) o.

(** The per-shard ranges tile the key space. *)
Lemma ranges_tiling cm :
  cm_ok cm -> cm_chunkMap cm <> [] ->
  exists k0 r0 kl, head (chunkRangeMap (cm_views cm)) = Some (k0, r0) /\
    all_type MinKey (scr_min r0) /\ all_type MaxKey kl /\
    tiling scr_min (scr_min r0) (chunkRangeMap (cm_views cm)) kl.
Proof.
  intros [_ _ Hv Hs _] Hne. specialize (Hs Hne). unfold spans in Hs.
  destruct (head (chunkRangeMap (cm_views cm))) as [[k0 r0]|] eqn:Hh; [|done].
  destruct (last (chunkRangeMap (cm_views cm))) as [[kl rl]|] eqn:Hl; [|done].
  destruct Hs as [Hmin Hmax]. exists k0, r0, kl. split_and!; try done.
  apply (contiguous_tiling _ k0 r0 kl rl); [|apply Hv|done|done].
  intros k r Hin. by destruct (vo_range _ _ Hv k r Hin) as (_ & ? & _).
Qed.

(** C32: every routing table the router can build, from a full load followed by
    any number of incremental refreshes, is consistent: the chunk map is ordered
    by upper bound with non-empty chunks of the collection's epoch, the ranges
    of the per-shard view tile the key space from MinKey to MaxKey, each chunk
    lies in a range of its shard, and the collection version is the largest
    chunk version and is carried by a chunk. *)
Theorem routing_table_invariant cm :
  reachable cm ->
  chunk_map_wf (cm_chunkMap cm) /\
  chunk_map_versions (cm_chunkMap cm) (cm_collectionVersion cm) /\
  views_of (cm_chunkMap cm) (cm_views cm) /\
  (exists lo hi, all_type MinKey lo /\ all_type MaxKey hi /\
     tiling scr_min lo (chunkRangeMap (cm_views cm)) hi) /\
  exists k c, (k, c) ∈ cm_chunkMap cm /\ getLastmod c = cm_collectionVersion cm.
Proof.
  intros Hr. destruct (reachable_ok cm Hr) as [Hok Hv].
  destruct (ranges_tiling cm Hok (has_version_ne cm Hv)) as (k0 & r0 & kl & _ & ? & ? & ?).
  split_and!; [apply Hok..|by exists (scr_min r0), kl|done].
Qed.

(** A refresh keeps the epoch and the key pattern and never goes back: it
    returns the very same table, or a table with a strictly higher collection
    version and the next sequence number. *)
Lemma makeUpdated_progress cm seq changes seq' cm' :
  reachable cm -> makeUpdated seq cm changes = Ret (seq', cm') ->
  (cm' = cm /\ seq' = seq) \/
  (toLong (cm_collectionVersion cm) < toLong (cm_collectionVersion cm') /\
   _epoch (cm_collectionVersion cm') = _epoch (cm_collectionVersion cm) /\
   skp_pattern (cm_shardKeyPattern cm') = skp_pattern (cm_shardKeyPattern cm) /\
   cm_sequenceNumber cm' = u32 (seq + 1) /\ seq' = u32 (seq + 1)).
Proof.
  intros Hr Hu. destruct (reachable_ok cm Hr) as [Hok _].
  destruct (makeUpdated_inv _ _ _ _ _ Hok Hu) as [?|(_ & H1 & H2 & ? & ? & ? & _)]; [by left|].
  right. split_and!; congruence.
Qed.

(** The version a table reports for a shard is the largest version of the
    shard's chunks and belongs to one of them, or [0|0] with the collection's
    epoch exactly when the shard has no chunks. *)
Lemma getVersion_max cm s :
  reachable cm ->
  ((exists k c, (k, c) ∈ cm_chunkMap cm /\ getShardId c = s) ->
   (exists k c, (k, c) ∈ cm_chunkMap cm /\ getShardId c = s /\ getLastmod c = getVersion cm s) /\
   forall k c, (k, c) ∈ cm_chunkMap cm -> getShardId c = s ->
     toLong (getLastmod c) <= toLong (getVersion cm s)) /\
  ((forall k c, (k, c) ∈ cm_chunkMap cm -> getShardId c <> s) ->
   getVersion cm s = newVersion 0 0 (_epoch (cm_collectionVersion cm))) /\
  (s ∈ getAllShardIds cm <-> exists k c, (k, c) ∈ cm_chunkMap cm /\ getShardId c = s).
Proof.
  intros Hr. destruct (reachable_ok cm Hr) as [[_ _ Hv _ _] _].
  pose proof (vo_versions _ _ Hv s) as Hs. unfold getVersion.
  assert (Hall : s ∈ getAllShardIds cm <-> exists k c, (k, c) ∈ cm_chunkMap cm /\ getShardId c = s).
  { unfold getAllShardIds. rewrite elem_of_list_to_set. split.
    - intros ([s' v] & -> & Hin)%list_elem_of_fmap. by apply (vo_shards _ _ Hv s' v).
    - intros (k & c & Hin & Hc). destruct (map_get s (shardVersions (cm_views cm))) as [v|] eqn:E.
      + apply map_get_Some in E as (s' & Hin' & <-%string_keq); [|apply Hv].
        apply list_elem_of_fmap. by exists (s, v).
      + by destruct (Hs k c Hin). }
  destruct (map_get s (shardVersions (cm_views cm))) as [v|]; simpl in *.
  - split_and!; [done|intros Hno; destruct Hs as [(k & c & Hin & ? & _) _]; by destruct (Hno k c)|done].
  - split_and!; [intros (k & c & Hin & ?); by destruct (Hs k c)|done|done].
Qed.

(** * Targeting a key *)

Lemma simple_collation cm : hasSimpleCollation cm kSimpleSpec = true.
Proof. unfold hasSimpleCollation. apply orb_true_iff. by right. Qed.

Lemma find_simple cm k :
  findIntersectingChunkWithSimpleCollation cm k =
  match cm_chunkMap cm !! upper_bound k (cm_chunkMap cm) with
  | Some (_, c) => if chunk_containsKey c k then Ret c else Throw ShardKeyNotFound
  | None => Throw ShardKeyNotFound
  end.
Proof.
  unfold findIntersectingChunkWithSimpleCollation, findIntersectingChunk.
  by rewrite simple_collation.
Qed.

(** A found chunk holds the key, whatever the collation. *)
Lemma find_sound cm k coll c :
  findIntersectingChunk cm k coll = Ret c ->
  exists mx, cm_chunkMap cm !! upper_bound k (cm_chunkMap cm) = Some (mx, c) /\ in_range (c_range c) k.
Proof.
  unfold findIntersectingChunk. intros Hf. apply obind_Ret_inv in Hf as (_ & _ & Hf).
  destruct (cm_chunkMap cm !! _) as [[mx c']|]; [|done].
  destruct (chunk_containsKey c' k) eqn:Hc; [|done]. injection Hf as ->.
  exists mx. split; [done|by apply chunk_containsKey_spec].
Qed.

Lemma tiling_range lo m hi k c p :
  chunk_map_wf m -> tiling getMin lo m hi -> (k, c) ∈ m ->
  in_range (c_range c) p <-> getMin c ≼ p /\ p ≺ k.
Proof. intros [_ Hk] _ Hin. by destruct (Hk k c Hin) as [-> _]. Qed.

(** A key of the key space has a chunk. *)
Lemma find_in_range cm lo hi k :
  chunk_map_wf (cm_chunkMap cm) -> tiling getMin lo (cm_chunkMap cm) hi -> lo ≼ k -> k ≺ hi ->
  exists c, findIntersectingChunkWithSimpleCollation cm k = Ret c.
Proof.
  intros Hwf Ht Hlo Hhi. rewrite find_simple.
  destruct (tiling_lookup getMin lo _ hi k Ht Hlo Hhi) as (k2 & c2 & Hl2 & Hin2 & Hr).
  destruct (cm_chunkMap cm !! upper_bound k (cm_chunkMap cm)) as [[mx c]|] eqn:Hl;
    pose proof (eq_trans (eq_sym Hl) Hl2) as E; [|done]. injection E as -> ->. exists c2.
  apply (tiling_range lo _ hi _ _ _ Hwf Ht Hin2), chunk_containsKey_spec in Hr. by rewrite Hr.
Qed.

(** C33: when the chunks tile the key space, a key inside it is routed to the
    one chunk that contains it, and a key outside fails with ShardKeyNotFound. *)
Theorem findIntersectingChunk_correct cm lo hi k :
  chunk_map_wf (cm_chunkMap cm) -> tiling getMin lo (cm_chunkMap cm) hi ->
  match findIntersectingChunkWithSimpleCollation cm k with
  | Ret c => (getMax c, c) ∈ cm_chunkMap cm /\ in_range (c_range c) k /\
      forall k' c', (k', c') ∈ cm_chunkMap cm -> in_range (c_range c') k -> c' = c
  | Throw e => e = ShardKeyNotFound /\ ~ (lo ≼ k /\ k ≺ hi)
  | Abort | Undef => False
  end.
Proof.
  intros Hwf Ht. rewrite find_simple.
  destruct (cm_chunkMap cm !! upper_bound k (cm_chunkMap cm)) as [[mx c]|] eqn:Hl.
  - pose proof (list_elem_of_lookup_2 _ _ _ Hl) as Hin. destruct (proj2 Hwf mx c Hin) as [-> _].
    destruct (chunk_containsKey c k) eqn:Hc.
    + apply chunk_containsKey_spec in Hc. split_and!; [done..|]. intros k' c' Hin' Hc'.
      pose proof Hc as Hc2. apply (tiling_range lo _ hi _ _ _ Hwf Ht Hin) in Hc2 as [? ?].
      apply (tiling_range lo _ hi _ _ _ Hwf Ht Hin') in Hc' as [? ?].
      assert (E : (k', c') = (getMax c, c)) by (by eapply (tiling_unique getMin lo _ hi)).
      by injection E as _ ->.
    + split; [done|]. intros [Hlo Hhi].
      destruct (tiling_lookup getMin lo _ hi k Ht Hlo Hhi) as (k2 & c2 & Hl2 & Hin2 & Hr).
      pose proof (eq_trans (eq_sym Hl) Hl2). simplify_eq. apply (tiling_range lo _ hi _ _ _ Hwf Ht Hin) in Hr.
      apply chunk_containsKey_spec in Hr. congruence.
  - split; [done|]. intros [Hlo Hhi].
    destruct (tiling_lookup getMin lo _ hi k Ht Hlo Hhi) as (k2 & c2 & Hl2 & _).
    by pose proof (eq_trans (eq_sym Hl) Hl2).
Qed.

(** * Targeting a range *)

Lemma ksorted_NoDup {V : Type} (m : list (string * V)) : ksorted m -> NoDup (m.*1).
Proof.
  induction m as [|[k v] m IH]; [constructor|]. intros [Hs Hall]%ksorted_cons.
  apply NoDup_cons. split; [|by apply IH]. intros ([k' v'] & E & Hin)%list_elem_of_fmap.
  simpl in E. subst k'. specialize (Hall k v' Hin). simpl in Hall. unfold klt in Hall. by rewrite kcmp_refl in Hall.
Qed.

Lemma size_all_shards cm :
  cm_ok cm -> size (getAllShardIds cm) = List.length (shardVersions (cm_views cm)).
Proof.
  intros [_ _ Hv _ _]. unfold getAllShardIds. rewrite size_list_to_set, length_fmap; [done|].
  apply ksorted_NoDup, Hv.
Qed.

Lemma range_shard cm k r :
  cm_ok cm -> (k, r) ∈ chunkRangeMap (cm_views cm) ->
  exists c, (k, c) ∈ cm_chunkMap cm /\ getShardId c = scr_shardId r.
Proof.
  intros [_ _ Hv _ _] Hin. destruct (vo_range _ _ Hv k r Hin) as (_ & _ & c & Hc). exists c.
  split; [done|]. destruct (vo_run _ _ Hv k c Hc) as (K & r' & HK & Hle & <- & Hmin).
  assert (Heq : k ≅k K) by (specialize (Hmin k r Hin ltac:(korder)); korder).
  pose proof (ksorted_unique _ _ _ _ _ (vo_sorted _ _ Hv) Hin HK Heq). congruence.
Qed.

Lemma shard_known cm k c :
  cm_ok cm -> (k, c) ∈ cm_chunkMap cm -> getShardId c ∈ getAllShardIds cm.
Proof.
  intros [_ _ Hv _ _] Hin. unfold getAllShardIds. apply elem_of_list_to_set.
  pose proof (vo_versions _ _ Hv (getShardId c)) as Hs.
  destruct (map_get _ _) as [v|] eqn:E; [|by destruct (Hs k c Hin)].
  apply map_get_Some in E as (s & Hs' & <-%string_keq); [|apply Hv].
  apply list_elem_of_fmap. by exists (getShardId c, v).
Qed.

(** Stopping once every shard is in the set loses nothing. *)
Lemma range_loop_spec n (U : gset ShardId) l ids :
  size U = n -> ids ⊆ U -> (forall k r, (k, r) ∈ l -> scr_shardId r ∈ U) ->
  forall s, s ∈ range_loop n l ids <-> s ∈ ids \/ exists k r, (k, r) ∈ l /\ scr_shardId r = s.
Proof.
  intros HU. revert ids. induction l as [|[k r] l IH]; intros ids Hids Hl s; simpl.
  - split; [by left|]. intros [?|(k & r & []%not_elem_of_nil & _)]; done.
  - assert (Hids' : {[scr_shardId r]} ∪ ids ⊆ U)
      by (apply union_subseteq; split; [apply singleton_subseteq_l, (Hl k r), list_elem_of_here|done]).
    assert (Hl' : forall k r, (k, r) ∈ l -> scr_shardId r ∈ U)
      by (intros; eapply Hl; by apply list_elem_of_further).
    assert (Hgoal : (s ∈ {[scr_shardId r]} ∪ ids \/ exists k r, (k, r) ∈ l /\ scr_shardId r = s) <->
      s ∈ ids \/ exists k' r', (k', r') ∈ (k, r) :: l /\ scr_shardId r' = s).
    { rewrite elem_of_union, elem_of_singleton. split.
      - intros [[->|?]|(k' & r' & ? & ?)]; [|by left|].
        + right. exists k, r. split; [apply list_elem_of_here|done].
        + right. exists k', r'. split; [by apply list_elem_of_further|done].
      - intros [?|(k' & r' & [[= -> ->]|?]%elem_of_cons & ?)]; [auto|auto|].
        right. by exists k', r'. }
    rewrite <- Hgoal. destruct (Nat.eqb_spec (size ({[scr_shardId r]} ∪ ids)) n) as [Hn|_];
      [|by apply IH].
    assert (HE : {[scr_shardId r]} ∪ ids = U)
      by (apply leibniz_equiv, set_subseteq_size_equiv; [done|lia]).
    rewrite HE. split; [by left|]. intros [?|(k' & r' & Hin & <-)]; [done|by eapply Hl'].
Qed.

(** The per-shard view as a tiling with the bounds of the chunks. *)
Lemma views_tiling cm lo hi :
  cm_ok cm -> cm_chunkMap cm <> [] -> tiling getMin lo (cm_chunkMap cm) hi ->
  exists lo' hi', tiling scr_min lo' (chunkRangeMap (cm_views cm)) hi' /\ lo' ≅k lo /\
    forall k c, (k, c) ∈ cm_chunkMap cm -> k ≼ hi'.
Proof.
  intros Hok Hne Ht. destruct (ranges_tiling cm Hok Hne) as (k0 & r0 & kl & Hh & _ & _ & Htr).
  exists (scr_min r0), kl. split; [done|]. destruct Hok as [_ _ Hv _ _].
  destruct (cm_chunkMap cm) as [|[k1 c1] m] eqn:Hm; [done|]. split.
  - destruct (vo_head _ _ Hv k1 c1 eq_refl) as (K & r & Hh2 & E).
    rewrite Hh in Hh2. injection Hh2 as <- <-. unfold scr_min. rewrite E. apply Ht.
  - intros k c Hin. destruct (vo_run _ _ Hv k c Hin) as (K & r & HK & Hle & _).
    destruct (tiling_in _ _ _ _ _ _ Htr HK) as (_ & _ & ?). korder.
Qed.

(** The range that holds a point of a chunk is on the chunk's shard. *)
Lemma run_at cm lo hi k c p :
  cm_ok cm -> tiling getMin lo (cm_chunkMap cm) hi -> (k, c) ∈ cm_chunkMap cm ->
  getMin c ≼ p -> p ≺ k ->
  exists K r, (K, r) ∈ chunkRangeMap (cm_views cm) /\ scr_shardId r = getShardId c /\
    scr_min r ≼ p /\ p ≺ K.
Proof.
  intros Hok Ht Hin Hp1 Hp2.
  destruct (views_tiling cm lo hi Hok) as (lo' & hi' & Htr & Hlo & Hhi); [by intros E; rewrite E in Hin;
    apply not_elem_of_nil in Hin|done|].
  pose proof (Hhi k c Hin). destruct (tiling_in _ _ _ _ _ _ Ht Hin) as (? & _ & _).
  destruct (tiling_lookup scr_min lo' _ hi' p Htr) as (K2 & r2 & _ & HK2 & Hm2 & Hx2); [korder..|].
  destruct Hok as [_ _ Hv _ _]. destruct (vo_range _ _ Hv K2 r2 HK2) as (_ & _ & c2 & Hc2).
  assert (Hk2 : k ≼ K2).
  { destruct (kltb K2 k) eqn:E; [|korder]. assert (K2 ≺ k) by korder.
    pose proof (tiling_disjoint _ _ _ _ _ _ _ _ Ht Hc2 Hin H1). korder. }
  destruct (vo_run _ _ Hv k c Hin) as (K & r & HK & Hle & Hsh & Hmin).
  specialize (Hmin K2 r2 HK2 Hk2).
  assert (Heq : K ≅k K2).
  { destruct (kltb K K2) eqn:E; [|korder]. assert (K ≺ K2) by korder.
    pose proof (tiling_disjoint _ _ _ _ _ _ _ _ Htr HK HK2 H1). korder. }
  pose proof (ksorted_unique _ _ _ _ _ (vo_sorted _ _ Hv) HK HK2 Heq). simplify_eq.
  exists K2, r2. done.
Qed.

Definition kmax (a b : BSONObj) : BSONObj := if kltb a b then b else a.

Lemma kmax_spec a b c : (a ≼ kmax a b /\ b ≼ kmax a b) /\
  (a ≺ c -> b ≺ c -> kmax a b ≺ c) /\ (a ≼ c -> b ≼ c -> kmax a b ≼ c).
Proof. unfold kmax. destruct (kltb a b) eqn:E; split_and!; korder. Qed.

(** The ranges view and the chunks agree on which shards meet an interval. *)
Lemma ranges_meet cm lo hi a b s :
  cm_ok cm -> tiling getMin lo (cm_chunkMap cm) hi -> a ≼ b ->
  (exists k r, (k, r) ∈ chunkRangeMap (cm_views cm) /\ scr_shardId r = s /\ a ≺ k /\ scr_min r ≼ b) <->
  exists k c, (k, c) ∈ cm_chunkMap cm /\ getShardId c = s /\ a ≺ k /\ getMin c ≼ b.
Proof.
  intros Hok Ht Hab. split.
  - intros (K & r & HK & <- & Ha & Hb). destruct (range_shard cm K r Hok HK) as (c0 & Hc0 & _).
    destruct (views_tiling cm lo hi Hok) as (lo' & hi' & Htr & Hlo & Hhi);
      [by intros E; rewrite E in Hc0; apply not_elem_of_nil in Hc0|done|].
    destruct (tiling_in _ _ _ _ _ _ Htr HK) as (? & ? & ?).
    destruct (tiling_in _ _ _ _ _ _ Ht Hc0) as (? & ? & ?).
    destruct (kmax_spec a (scr_min r) K) as ([Hp1 Hp2] & Hp3 & _). specialize (Hp3 Ha ltac:(done)).
    destruct (kmax_spec a (scr_min r) b) as (_ & _ & Hp4). specialize (Hp4 Hab Hb).
    set (p := kmax a (scr_min r)) in *.
    destruct (tiling_lookup getMin lo _ hi p Ht) as (k & c & _ & Hin & Hc1 & Hc2); [korder..|].
    destruct (run_at cm lo hi k c p Hok Ht Hin Hc1 Hc2) as (K2 & r2 & HK2 & Hsh & ? & ?).
    assert (E : (K2, r2) = (K, r)) by (by eapply (tiling_unique scr_min lo' _ hi' _ _ _ _ p)).
    injection E as -> ->. exists k, c. split_and!; [done|done|korder|korder].
  - intros (k & c & Hin & <- & Ha & Hb). destruct (tiling_in _ _ _ _ _ _ Ht Hin) as (? & ? & ?).
    destruct (kmax_spec a (getMin c) k) as ([Hp1 Hp2] & Hp3 & _). specialize (Hp3 Ha ltac:(done)).
    destruct (kmax_spec a (getMin c) b) as (_ & _ & Hp4). specialize (Hp4 Hab Hb).
    set (p := kmax a (getMin c)) in *.
    destruct (run_at cm lo hi k c p Hok Ht Hin) as (K & r & HK & Hsh & ? & ?); [korder..|].
    exists K, r. split_and!; [done|done|korder|korder].
Qed.

Lemma getShardIdsForRange_spec cm lo hi a b ids :
  cm_ok cm -> cm_chunkMap cm <> [] -> tiling getMin lo (cm_chunkMap cm) hi ->
  ids ⊆ getAllShardIds cm -> lo ≼ b -> a ≼ b ->
  exists ids', getShardIdsForRange cm a b ids = Ret ids' /\ ids' ⊆ getAllShardIds cm /\
    forall s, s ∈ ids' <-> s ∈ ids \/
      exists k c, (k, c) ∈ cm_chunkMap cm /\ getShardId c = s /\ a ≺ k /\ getMin c ≼ b.
Proof.
  intros Hok Hne Ht Hids Hlo Hab. unfold getShardIdsForRange.
  rewrite wo_le, (proj2 (kleb_spec a b) Hab). cbn [uassert obind].
  eexists. split; [reflexivity|].
  destruct (views_tiling cm lo hi Hok Hne Ht) as (lo' & hi' & Htr & Hlo' & _).
  set (crm := chunkRangeMap (cm_views cm)) in *.
  pose proof (fun x => tiling_scan scr_min lo' crm hi' a b x Htr ltac:(korder) Hab) as Hscan.
  cbn zeta in Hscan. set (l := drop _ _) in *.
  assert (Hl : forall k r, (k, r) ∈ l -> scr_shardId r ∈ getAllShardIds cm).
  { intros k r [Hin _]%Hscan. destruct (range_shard cm k r Hok Hin) as (c & Hc & <-).
    by eapply shard_known. }
  pose proof (range_loop_spec _ _ l ids (size_all_shards cm Hok) Hids Hl) as Hrl.
  assert (Hiff : forall s, (exists k r, (k, r) ∈ l /\ scr_shardId r = s) <->
    exists k c, (k, c) ∈ cm_chunkMap cm /\ getShardId c = s /\ a ≺ k /\ getMin c ≼ b).
  { intros s. rewrite <- (ranges_meet cm lo hi a b s Hok Ht Hab). split.
    - intros (k & r & (? & ? & ?)%Hscan & <-). by exists k, r.
    - intros (k & r & ? & <- & ? & ?). exists k, r. split; [by apply Hscan|done]. }
  split.
  - intros s [?|(k & r & Hin & <-)]%Hrl; [by apply Hids|by eapply Hl].
  - intros s. rewrite Hrl, Hiff. done.
Qed.

(** Range targeting is exact.  For an interval [a, b] of the key space the
    result adds precisely the shards that own a chunk meeting the interval (both
    ends included), although the loop runs over compressed ranges and stops
    early once all shards are known.  An inverted interval is refused. *)
Lemma getShardIdsForRange_exact cm lo hi a b ids :
  reachable cm -> tiling getMin lo (cm_chunkMap cm) hi ->
  ids ⊆ getAllShardIds cm -> lo ≼ b ->
  (b ≺ a -> getShardIdsForRange cm a b ids = Throw BadValue) /\
  (a ≼ b -> exists ids', getShardIdsForRange cm a b ids = Ret ids' /\
     forall s, s ∈ ids' <-> s ∈ ids \/
       exists k c, (k, c) ∈ cm_chunkMap cm /\ getShardId c = s /\ a ≺ k /\ getMin c ≼ b).
Proof.
  intros Hr Ht Hids Hlo. destruct (reachable_ok cm Hr) as [Hok Hv]. split.
  - intros Hba. unfold getShardIdsForRange. rewrite wo_le.
    by rewrite (proj2 (kleb_false a b) Hba).
  - intros Hab. destruct (getShardIdsForRange_spec cm lo hi a b ids Hok (has_version_ne cm Hv) Ht Hids
      Hlo Hab) as (ids' & ? & _ & ?). by exists ids'.
Qed.

(** The two routing structures agree on points: the shard found through the
    chunk map for a key is the only shard the range view gives for the one-point
    interval of that key. *)
Lemma point_routing_agrees cm lo hi k c :
  reachable cm -> tiling getMin lo (cm_chunkMap cm) hi ->
  findIntersectingChunkWithSimpleCollation cm k = Ret c ->
  getShardIdsForRange cm k k ∅ = Ret {[ getShardId c ]}.
Proof.
  intros Hr Ht Hf. destruct (reachable_ok cm Hr) as [Hok Hv].
  apply find_sound in Hf as (mx & Hl & Hc). apply list_elem_of_lookup_2 in Hl as Hin.
  pose proof (proj1 (tiling_range lo _ hi _ _ _ (ok_map _ Hok) Ht Hin) Hc) as [H1 H2].
  destruct (tiling_in _ _ _ _ _ _ Ht Hin) as (? & _ & _).
  destruct (getShardIdsForRange_spec cm lo hi k k ∅ Hok (has_version_ne cm Hv) Ht) as
    (ids' & -> & _ & Hids); [apply empty_subseteq|korder..|].
  f_equal. apply leibniz_equiv. intros s. rewrite Hids, elem_of_singleton. split.
  - intros [[]%not_elem_of_empty|(k' & c' & Hin' & <- & ? & ?)].
    assert (E : (k', c') = (mx, c)) by (by eapply (tiling_unique getMin lo _ hi _ _ _ _ k)).
    by injection E as _ ->.
  - intros ->. right. by exists mx, c.
Qed.

(** * Targeting a query *)

Lemma ranges_loop_spec cm lo hi ranges ids :
  cm_ok cm -> cm_chunkMap cm <> [] -> tiling getMin lo (cm_chunkMap cm) hi ->
  ids ⊆ getAllShardIds cm -> Forall (fun b : BSONObj * BSONObj => lo ≼ b.2 /\ b.1 ≼ b.2) ranges ->
  exists ids', ranges_loop cm ranges ids = Ret ids' /\ ids ⊆ ids' /\ ids' ⊆ getAllShardIds cm /\
    forall b k c, b ∈ ranges -> (k, c) ∈ cm_chunkMap cm -> b.1 ≺ k -> getMin c ≼ b.2 ->
      getShardId c ∈ ids'.
Proof.
  intros Hok Hne Ht Hids Hr. revert ids Hids.
  induction Hr as [|[mn mx] ranges [Hlo Hle] _ IH]; intros ids Hids; simpl in *.
  - exists ids. split_and!; try done. by intros ? ? ? ?%not_elem_of_nil.
  - destruct (getShardIdsForRange_spec cm lo hi mn mx ids Hok Hne Ht Hids Hlo Hle)
      as (ids1 & -> & Hall1 & Hiff). simpl.
    assert (Hsub : ids ⊆ ids1) by (intros s Hs; apply Hiff; by left).
    assert (Hhd : forall k c, (k, c) ∈ cm_chunkMap cm -> mn ≺ k -> getMin c ≼ mx -> getShardId c ∈ ids1)
      by (intros k c ? ? ?; apply Hiff; right; by exists k, c).
    destruct (Nat.eqb_spec (size ids1) (List.length (shardVersions (cm_views cm)))) as [Hn|_].
    + exists ids1. split_and!; try done. intros b k c _ Hin _ _.
      assert (HE : ids1 = getAllShardIds cm).
      { apply leibniz_equiv, set_subseteq_size_equiv; [done|]. rewrite size_all_shards by done. lia. }
      rewrite HE. by eapply shard_known.
    + destruct (IH ids1 Hall1) as (ids' & -> & Hsub' & Hall' & Hr'). exists ids'.
      split_and!; [done|by etrans|done|]. intros b k c [->|Hb]%elem_of_cons Hin H1 H2; [|by eapply Hr'].
      apply Hsub'. by eapply Hhd.
Qed.

Lemma query_slow_path_spec cm lo hi bounds vs mx c :
  cm_ok cm -> tiling getMin lo (cm_chunkMap cm) hi ->
  lo = (fun el : BSONElement => (el.1, VMinKey)) <$> skp_pattern (cm_shardKeyPattern cm) ->
  List.length bounds = List.length (skp_pattern (cm_shardKeyPattern cm)) ->
  Forall oil_ok bounds ->
  Forall2 (fun v ivs => exists i, i ∈ ivs /\ in_interval v i) vs bounds ->
  let key : BSONObj := zip ((skp_pattern (cm_shardKeyPattern cm)).*1) vs in
  (mx, c) ∈ cm_chunkMap cm -> getMin c ≼ key -> key ≺ mx ->
  match query_slow_path cm bounds ∅ with
  | Ret ids => getShardId c ∈ ids
  | Throw e => e = Location 17439
  | Abort | Undef => False
  end.
Proof.
  intros Hcm Ht Hlo Hlen Hok Hvs key Hmem Hc1 Hc2. unfold query_slow_path.
  pose proof (flattenBounds_covers (cm_shardKeyPattern cm) bounds vs Hlen Hok Hvs) as Hcov.
  cbn zeta in Hcov. fold key in Hcov. clearbody key.
  destruct (flattenBounds _ _) as [bl| | |] eqn:Hfl; simpl; try done.
  destruct Hcov as (b & Hb & Hb1 & Hb2). apply flattenBounds_shape in Hfl; [|done].
  assert (Hne : cm_chunkMap cm <> []) by (intros E; rewrite E in Hmem; by apply not_elem_of_nil in Hmem).
  destruct (ranges_loop_spec cm lo hi bl ∅ Hcm Hne Ht) as (ids & -> & _ & _ & Hids);
    [apply empty_subseteq|..].
  - eapply Forall_impl; [exact Hfl|]. intros [b1 b2] (_ & Hn & Hle). split; [|done].
    subst lo. by apply key_space_min.
  - simpl. assert (Hs : getShardId c ∈ ids) by (eapply Hids; [done..|korder|korder]).
    rewrite bool_decide_eq_false_2; [done|]. intros ->. by apply not_elem_of_empty in Hs.
Qed.

Lemma find_total cm k coll :
  match findIntersectingChunk cm k coll with
  | Ret _ => True
  | Throw e => e = ShardKeyNotFound
  | Abort | Undef => False
  end.
Proof.
  unfold findIntersectingChunk.
  assert (Hb : match (if hasSimpleCollation cm coll then Ret () else ofold (fun _ el =>
      uassert ShardKeyNotFound (negb (isCollatableType (el.2 : BSONValue)))) () k) with
    | Ret _ => True | Throw e => e = ShardKeyNotFound | Abort | Undef => False end).
  { destruct (hasSimpleCollation cm coll); [done|]. induction k as [|[n v] k IH]; simpl; [done|].
    by destruct (isCollatableType v). }
  destruct (if hasSimpleCollation cm coll then _ else _); try done. simpl.
  destruct (cm_chunkMap cm !! _) as [[mx c]|]; [|done]. by destruct (chunk_containsKey c k).
Qed.

(** C4: query targeting never misses a shard.  If a key satisfies the query's
    index bounds (and equals the key its equalities fix, if they fix one), the
    shard that owns the key's chunk is targeted.  Targeting fails only when the
    bounds exceed the combination limit. *)
Theorem getShardIdsForQuery_complete cm lo hi shardKeyToFind bounds coll vs c :
  reachable cm -> tiling getMin lo (cm_chunkMap cm) hi ->
  lo = (fun el : BSONElement => (el.1, VMinKey)) <$> skp_pattern (cm_shardKeyPattern cm) ->
  List.length bounds = List.length (skp_pattern (cm_shardKeyPattern cm)) ->
  Forall oil_ok bounds ->
  Forall2 (fun v ivs => exists i, i ∈ ivs /\ in_interval v i) vs bounds ->
  let key : BSONObj := zip ((skp_pattern (cm_shardKeyPattern cm)).*1) vs in
  shardKeyToFind = [] \/ shardKeyToFind = key ->
  findIntersectingChunkWithSimpleCollation cm key = Ret c ->
  match getShardIdsForQuery cm shardKeyToFind bounds coll ∅ with
  | Ret ids => getShardId c ∈ ids
  | Throw e => e = Location 17439
  | Abort | Undef => False
  end.
Proof.
  intros Hr Ht Hlo Hlen Hok Hvs key Hsk Hf. destruct (reachable_ok cm Hr) as [Hcm Hv].
  apply find_sound in Hf as (mx & Hl & Hin). apply list_elem_of_lookup_2 in Hl as Hmem.
  pose proof (proj1 (tiling_range lo _ hi _ _ _ (ok_map _ Hcm) Ht Hmem) Hin) as [Hc1 Hc2].
  pose proof (query_slow_path_spec cm lo hi bounds vs mx c Hcm Ht Hlo Hlen Hok Hvs Hmem Hc1 Hc2) as Hs.
  unfold getShardIdsForQuery.
  destruct shardKeyToFind as [|e sk]; [done|]. destruct Hsk as [|Hsk]; [done|]. rewrite Hsk.
  pose proof (find_total cm key coll) as Htot.
  destruct (findIntersectingChunk cm key coll) as [c'| | |] eqn:Hfk; try done.
  apply find_sound in Hfk as (mx' & Hl' & _). rewrite Hl in Hl'. injection Hl' as _ <-.
  apply elem_of_union_l, elem_of_singleton. done.
Qed.

(** * Examples *)

Definition sample_pattern : KeyPattern := [("x", VInt (mkInt32 1 eq_refl))].
Definition sample_key (s : string) : BSONObj := [("x", VString s)].
Definition sample_lo : BSONObj := [("x", VMinKey)].
Definition sample_hi : BSONObj := [("x", VMaxKey)].
Definition sample_entry (mn mx : BSONObj) (major minor : Z) (s : ShardId) : ChunkType :=
  newChunkType "db.c" (mkRange mn mx) (newVersion major minor OID_zero) s.

(** Three chunks on two shards; the first two form one range. *)
Definition sample_chunks : list (ChunkType * Z) :=
  [(sample_entry sample_lo (sample_key "g") 1 0 "s0", 0);
   (sample_entry (sample_key "g") (sample_key "m") 1 1 "s0", 0);
   (sample_entry (sample_key "m") sample_hi 1 2 "s1", 0)].

Definition sample_load : Outcome (Z * ChunkManager) :=
  makeNew 0 "db.c" sample_pattern None false OID_zero sample_chunks.

Definition sample_cm : ChunkManager :=
  match sample_load with
  | Ret (_, cm) => cm
  | _ => mkCM 0 "" (mkSKP [] []) None false [] (mkViews [] []) DROPPED
  end.

Lemma sample_load_ok : sample_load = Ret (2, sample_cm).
Proof. vm_compute. reflexivity. Qed.

Lemma sample_reachable : reachable sample_cm.
Proof. eapply (reach_new 0 "db.c" sample_pattern None false OID_zero sample_chunks). apply sample_load_ok. Qed.

Lemma sample_tiling : tiling getMin sample_lo (cm_chunkMap sample_cm) sample_hi.
Proof. vm_compute. repeat split. Qed.

Lemma routing_table_invariant_witness :
  exists k c, (k, c) ∈ cm_chunkMap sample_cm /\ getLastmod c = cm_collectionVersion sample_cm.
Proof. apply (routing_table_invariant sample_cm sample_reachable). Defined.

Definition sample_change : list (ChunkType * Z) :=
  [(sample_entry (sample_key "m") (sample_key "t") 2 0 "s0", 5);
   (sample_entry (sample_key "t") sample_hi 2 1 "s1", 5)].

Lemma makeUpdated_progress_witness :
  exists cm', makeUpdated 2 sample_cm sample_change = Ret (3, cm') /\
    toLong (cm_collectionVersion sample_cm) < toLong (cm_collectionVersion cm').
Proof.
  destruct (makeUpdated 2 sample_cm sample_change) as [[s cm']| | |] eqn:E;
    [|vm_compute in E; discriminate E..].
  pose proof (makeUpdated_progress sample_cm 2 sample_change s cm' sample_reachable E)
    as [[_ Hs]|(Hlt & _ & _ & _ & Hs)].
  - vm_compute in E. subst s. discriminate E.
  - exists cm'. subst s. split; [reflexivity|exact Hlt].
Defined.

Lemma getVersion_max_witness :
  getVersion sample_cm "s0" = newVersion 1 1 OID_zero /\
  (exists k c, (k, c) ∈ cm_chunkMap sample_cm /\ getShardId c = "s0" /\
     getLastmod c = getVersion sample_cm "s0").
Proof.
  split; [vm_compute; reflexivity|].
  apply (getVersion_max sample_cm "s0" sample_reachable).
  do 2 eexists. split; [apply list_elem_of_here|]. vm_compute. reflexivity.
Defined.

Lemma findIntersectingChunk_correct_witness :
  exists c, findIntersectingChunkWithSimpleCollation sample_cm (sample_key "h") = Ret c /\
    getShardId c = "s0" /\ in_range (c_range c) (sample_key "h").
Proof.
  pose proof (findIntersectingChunk_correct sample_cm sample_lo sample_hi (sample_key "h")
    (ok_map _ (proj1 (reachable_ok _ sample_reachable))) sample_tiling) as H.
  destruct (findIntersectingChunkWithSimpleCollation sample_cm (sample_key "h")) as [c| | |] eqn:E;
    [|vm_compute in E; discriminate E..].
  exists c. split; [reflexivity|]. split; [|apply H].
  vm_compute in E. injection E as <-. reflexivity.
Defined.

Lemma getShardIdsForRange_exact_witness :
  exists ids, getShardIdsForRange sample_cm (sample_key "h") (sample_key "z") ∅ = Ret ids /\
    "s0" ∈ ids /\ "s1" ∈ ids.
Proof.
  destruct (getShardIdsForRange_exact sample_cm sample_lo sample_hi (sample_key "h") (sample_key "z") ∅
    sample_reachable sample_tiling) as [_ H].
  - apply empty_subseteq.
  - vm_compute. congruence.
  - destruct H as (ids & E & Hiff); [vm_compute; congruence|]. exists ids. split; [exact E|].
    split; apply Hiff; right; do 2 eexists.
    + split; [apply (list_elem_of_lookup_2 _ 1); vm_compute; reflexivity|].
      vm_compute. repeat split. congruence.
    + split; [apply (list_elem_of_lookup_2 _ 2); vm_compute; reflexivity|].
      vm_compute. repeat split. congruence.
Defined.

Lemma point_routing_agrees_witness :
  exists c, findIntersectingChunkWithSimpleCollation sample_cm (sample_key "q") = Ret c /\
    getShardIdsForRange sample_cm (sample_key "q") (sample_key "q") ∅ = Ret {[ getShardId c ]}.
Proof.
  destruct (findIntersectingChunkWithSimpleCollation sample_cm (sample_key "q")) as [c| | |] eqn:E;
    [|vm_compute in E; discriminate E..].
  exists c. split; [reflexivity|].
  apply (point_routing_agrees sample_cm sample_lo sample_hi (sample_key "q") c
           sample_reachable sample_tiling E).
Defined.

(** [{x: {$in: ["a", "q"]}}] *)
Lemma getShardIdsForQuery_complete_witness :
  let pt s := mkInterval (VString s) true (VString s) true in
  match getShardIdsForQuery sample_cm [] [[pt "a"; pt "q"]] [] ∅ with
  | Ret ids => "s1" ∈ ids
  | Throw e => e = Location 17439
  | Abort | Undef => False
  end.
Proof.
  intros pt.
  destruct (findIntersectingChunkWithSimpleCollation sample_cm (sample_key "q")) as [c| | |] eqn:E;
    [|vm_compute in E; discriminate E..].
  assert (Hs : getShardId c = "s1") by (vm_compute in E; injection E as <-; reflexivity).
  rewrite <- Hs.
  apply (getShardIdsForQuery_complete sample_cm sample_lo sample_hi [] [[pt "a"; pt "q"]] []
           [VString "q"] c sample_reachable sample_tiling).
  - reflexivity.
  - reflexivity.
  - repeat constructor; vm_compute; congruence.
  - repeat constructor. exists (pt "q"). split; [apply list_elem_of_further, list_elem_of_here|].
    split; vm_compute; congruence.
  - left. reflexivity.
  - exact E.
Defined.
