(* ===== verification/ChunkRefresh.v ===== *)
(** Incremental refresh implements the catalog: applying the chunks that
    changed since the cached version to a complete routing table gives exactly
    the new complete routing table ([ChunkManager::makeUpdated]). *)

From stdpp Require Import base list sorting strings gmap.
From Stdlib Require Import ZArith Lia String.
From S2P Require Import Prelude OrdMap Tiling Bson Text ChunkVersion ChunkType ShardKey Chunk ChunkManager.
Local Open Scope string_scope.
Local Open Scope Z_scope.
Local Open Scope list_scope.
Local Open Scope outcome_scope.

(** A complete set of chunks: it tiles the key space, from a bound of MinKeys to
    a bound of MaxKeys, and every chunk carries a version. *)
Record snapshot (lo hi : BSONObj) (m : ChunkMap) : Prop := {
  sn_wf : chunk_map_wf m;
  sn_tiling : tiling getMin lo m hi;
  sn_first k c : head m = Some (k, c) -> all_type MinKey (getMin c);
  sn_last k c : last m = Some (k, c) -> all_type MaxKey k;
  sn_set k c : (k, c) ∈ m -> isSet (getLastmod c) = true;
  sn_ne : m <> []
}.

(** The changes the catalog sends lead from the cached chunks [m] to the new
    chunks [T]: each change is a chunk of [T], and a chunk of [T] that is not
    sent was already cached. *)
Definition leads_to (m : ChunkMap) (changes : list (ChunkType * Z)) (T : ChunkMap) : Prop :=
  (forall ch seed, (ch, seed) ∈ changes -> exists c, newChunk seed ch = Ret c /\ (getMax c, c) ∈ T) /\
  (forall k c, (k, c) ∈ T -> (k, c) ∈ m \/
     exists ch seed, (ch, seed) ∈ changes /\ newChunk seed ch = Ret c).

(** Versions do not decrease and stay in the epoch of the collection. *)
Fixpoint ascending (v : ChunkVersion) (changes : list (ChunkType * Z)) : Prop :=
  match changes with
  | [] => True
  | (ch, _) :: changes =>
      exists w, _version ch = Some w /\ _epoch w = _epoch v /\ toLong v <= toLong w /\
        ascending w changes
  end.

Definition last_version (v : ChunkVersion) (changes : list (ChunkType * Z)) : ChunkVersion :=
  foldl (fun v ch => default v (_version (ch.1 : ChunkType))) v changes.

(** Entry [x] is outside the range of chunk [c]. *)
Definition outside (c : Chunk) (x : BSONObj * Chunk) : Prop := x.1 ≼ getMin c \/ getMax c ≺ x.1.

Lemma changes_defined m v (T : ChunkMap) changes :
  (forall ch seed, (ch, seed) ∈ changes -> exists c, newChunk seed ch = Ret c /\ (getMax c, c) ∈ T) ->
  ascending v changes ->
  exists m', ofold apply_change (m, v) changes = Ret (m', last_version v changes).
Proof.
  revert m v. induction changes as [|[ch seed] changes IH]; intros m v Hd Ha; [by exists m|].
  destruct Ha as (w & Hw & He & Hle & Ha).
  destruct (Hd ch seed (list_elem_of_here _ _)) as (c & Hc & _).
  destruct (newChunk_Ret seed ch c Hc) as (_ & Hmn & Hmx & _).
  cbn [ofold apply_change]. rewrite Hw, Hmn, Hmx.
  rewrite (proj2 (oid_eqb_eq _ _) (eq_sym He)). unfold version_ge.
  rewrite (proj2 (Z.leb_le _ _) Hle). cbn [uassert invariant obind]. rewrite Hc. cbn [obind].
  destruct (IH (map_insert (getMax c) c
    (erase_range (upper_bound (getMin c) m) (upper_bound (getMax c) m) m)) w) as [m' Hm'];
    [intros ch' s' Hin; apply Hd; by apply list_elem_of_further|done|].
  exists m'. etrans; [exact Hm'|]. unfold last_version. simpl. by rewrite Hw.
Qed.

(** Two chunks of a tiling are the same entry or do not touch each other. *)
Lemma same_or_outside lo hi T k c k' c' :
  chunk_map_wf T -> tiling getMin lo T hi -> (k, c) ∈ T -> (k', c') ∈ T ->
  (k, c) = (k', c') \/ outside c' (k, c).
Proof.
  intros [Hs Hk] Ht H1 H2. unfold outside. destruct (Hk k' c' H2) as [-> _]. simpl.
  destruct (kltb k (getMax c')) eqn:E1; [|destruct (kltb (getMax c') k) eqn:E2].
  - right. left. assert (k ≺ getMax c') by korder. by eapply (tiling_disjoint getMin).
  - right. right. korder.
  - left. eapply (ksorted_unique T); [done..|]. korder.
Qed.

(** A chunk of [T] is among the changes or outside all of them. *)
Lemma changed_or_outside lo hi T (changes : list (ChunkType * Z)) k c :
  chunk_map_wf T -> tiling getMin lo T hi -> (k, c) ∈ T ->
  (forall ch seed, (ch, seed) ∈ changes -> exists c, newChunk seed ch = Ret c /\ (getMax c, c) ∈ T) ->
  (exists ch seed, (ch, seed) ∈ changes /\ newChunk seed ch = Ret c) \/
  (forall ch seed c', (ch, seed) ∈ changes -> newChunk seed ch = Ret c' -> outside c' (k, c)).
Proof.
  intros HwT HT Hin. induction changes as [|[ch seed] changes IH]; intros Hd.
  - right. by intros ? ? ? ?%not_elem_of_nil.
  - destruct (Hd ch seed (list_elem_of_here _ _)) as (c0 & Hc0 & HcT).
    destruct (same_or_outside lo hi T k c _ _ HwT HT Hin HcT) as [[= -> ->]|Ho].
    + left. exists ch, seed. split; [apply list_elem_of_here|done].
    + destruct IH as [(ch' & s' & ? & ?)|Hall].
      * intros; apply Hd; by apply list_elem_of_further.
      * left. exists ch', s'. split; [by apply list_elem_of_further|done].
      * right. intros ch' s' c' [[= -> ->]|Hin']%elem_of_cons Hc'; [|by eapply Hall].
        rewrite Hc0 in Hc'. by simplify_eq.
Qed.

(** The entries after all changes. *)
Lemma changes_members lo hi T changes m v m' v' :
  chunk_map_wf T -> tiling getMin lo T hi -> chunk_map_wf m ->
  (forall ch seed, (ch, seed) ∈ changes -> exists c, newChunk seed ch = Ret c /\ (getMax c, c) ∈ T) ->
  ofold apply_change (m, v) changes = Ret (m', v') ->
  chunk_map_wf m' /\
  forall x, x ∈ m' <->
    (exists ch seed c, (ch, seed) ∈ changes /\ newChunk seed ch = Ret c /\ x = (getMax c, c)) \/
    (x ∈ m /\ forall ch seed c, (ch, seed) ∈ changes -> newChunk seed ch = Ret c -> outside c x).
Proof.
  intros HwT HT. revert m v. induction changes as [|[ch seed] changes IH]; intros m v Hwm Hd Hf.
  - injection Hf as <- <-. split; [done|]. intros x. split.
    + intros Hx. right. split; [done|]. by intros ? ? ? ?%not_elem_of_nil.
    + intros [(? & ? & ? & []%not_elem_of_nil & _)|[? _]]; done.
  - cbn [ofold] in Hf. apply obind_Ret_inv in Hf as ([m1 v1] & H1 & H2).
    destruct (apply_change_spec _ _ _ _ _ _ Hwm H1) as (c & Hc & Hw1 & Hm1).
    assert (Hd' : forall ch seed, (ch, seed) ∈ changes ->
      exists c, newChunk seed ch = Ret c /\ (getMax c, c) ∈ T)
      by (intros; apply Hd; by apply list_elem_of_further).
    destruct (IH m1 v1 Hw1 Hd' H2) as [Hw' Hm']. split; [done|]. intros x. rewrite Hm', Hm1.
    destruct (Hd ch seed (list_elem_of_here _ _)) as (c0 & Hc0 & HcT). rewrite Hc in Hc0. simplify_eq.
    split.
    + intros [(ch' & s' & c' & Hin & ? & ?)|[[->|[Hx Hout]] Hall]].
      * left. exists ch', s', c'. split; [by apply list_elem_of_further|done].
      * left. exists ch, seed, c0. split; [apply list_elem_of_here|done].
      * right. split; [done|]. intros ch' s' c' [[= -> ->]|Hin]%elem_of_cons Hc'.
        -- rewrite Hc in Hc'. by simplify_eq.
        -- by eapply Hall.
    + intros [(ch' & s' & c' & [[= -> ->]|Hin]%elem_of_cons & Hc' & ->)|[Hx Hall]].
      * rewrite Hc in Hc'. simplify_eq.
        destruct (changed_or_outside lo hi T changes (getMax c') c') as [(ch1 & s1 & ? & ?)|Hall];
          [done..|left; by exists ch1, s1, c'|]. right. split; [by left|done].
      * left. by exists ch', s', c'.
      * right. split; [right; split; [done|]|].
        -- by apply (Hall ch seed); [apply list_elem_of_here|].
        -- intros ch' s' c' Hin. apply (Hall ch'). by apply list_elem_of_further.
Qed.

(** The map after the changes is the new set of chunks. *)
Lemma changes_reach lo hi T changes m v m' v' :
  chunk_map_wf T -> tiling getMin lo T hi -> chunk_map_wf m ->
  m = [] \/ tiling getMin lo m hi -> leads_to m changes T ->
  ofold apply_change (m, v) changes = Ret (m', v') -> m' = T.
Proof.
  intros HwT HT Hwm Hm [Hd Hc] Hf.
  destruct (changes_members lo hi T changes m v m' v' HwT HT Hwm Hd Hf) as [Hw' Hiff].
  apply ksorted_ext; [apply Hw'|apply HwT|]. intros [k c]. rewrite Hiff. split.
  - intros [(ch & seed & c' & Hin & Hn & [= -> ->])|[Hin Hall]].
    + destruct (Hd ch seed Hin) as (c0 & Hc0 & ?). rewrite Hn in Hc0. by simplify_eq.
    + destruct Hm as [->|Hm]; [by apply not_elem_of_nil in Hin|].
      destruct (tiling_in _ _ _ _ _ _ Hm Hin) as (? & ? & ?).
      destruct (tiling_cover_end getMin lo T hi k HT) as (k2 & c2 & Hin2 & Hl & Hu); [korder..|].
      destruct (Hc k2 c2 Hin2) as [Hin2m|(ch & seed & Hch & Hn)].
      * destruct (same_or_outside lo hi m k c k2 c2 Hwm Hm Hin Hin2m) as [E|[Ho|Ho]];
          [by rewrite E|simpl in Ho; korder|].
        rewrite <- (proj1 (proj2 Hwm k2 c2 Hin2m)) in Ho. simpl in Ho. korder.
      * destruct (Hall ch seed c2 Hch Hn) as [Ho|Ho]; simpl in Ho; [korder|].
        rewrite <- (proj1 (proj2 HwT k2 c2 Hin2)) in Ho. korder.
  - intros Hin. destruct (changed_or_outside lo hi T changes k c HwT HT Hin Hd)
      as [(ch & seed & ? & ?)|Hall].
    + left. exists ch, seed, c. split_and!; [done..|]. by rewrite (proj1 (proj2 HwT k c Hin)) at 1.
    + destruct (Hc k c Hin) as [Hinm|(ch & seed & Hch & Hn)]; [by right|].
      left. exists ch, seed, c. split_and!; [done..|]. by rewrite (proj1 (proj2 HwT k c Hin)) at 1.
Qed.

(** * The views of a complete set of chunks can always be built *)

Lemma tiling_app_mid lo hi dn k c l kd cd :
  tiling getMin lo (dn ++ (k, c) :: l) hi -> last dn = Some (kd, cd) -> getMin c ≅k kd.
Proof.
  revert lo. induction dn as [|[k1 c1] dn IH]; intros lo Ht Hl; [done|].
  destruct Ht as (_ & _ & Ht). destruct dn as [|e dn]; [|by apply (IH k1)].
  injection Hl as -> ->. apply Ht.
Qed.

(** The last range ends where the last chunk ends. *)
Lemma views_last m views kd cd K r :
  chunk_map_wf m -> views_of m views -> last m = Some (kd, cd) ->
  last (chunkRangeMap views) = Some (K, r) -> K = kd.
Proof.
  intros [Hs Hk] Hv Hl HK. apply last_Some_elem_of in Hl as Hin. apply last_Some_elem_of in HK as HKin.
  destruct (vo_range _ _ Hv K r HKin) as (_ & _ & c & Hc).
  destruct (vo_run _ _ Hv kd cd Hin) as (K2 & r2 & HK2 & Hle & _).
  pose proof (ksorted_last _ _ _ _ _ (vo_sorted _ _ Hv) HK HK2).
  pose proof (ksorted_last _ _ _ _ _ Hs Hl Hc).
  assert (Heq : K ≅k kd) by korder.
  by injection (ksorted_unique _ _ _ _ _ Hs Hc Hin Heq).
Qed.

Lemma add_range_complete crm mn mx s :
  (forall k r, (k, r) ∈ crm -> k ≺ mx) -> (forall k r, last crm = Some (k, r) -> k ≅k mn) ->
  exists crm', add_range crm mn mx s = Ret crm'.
Proof.
  intros Hlt Hadj. unfold add_range. rewrite map_insert_end by done.
  rewrite length_app, Nat.add_comm. simpl. rewrite Nat.eqb_refl. cbn [uassert obind].
  rewrite (lower_bound_end mx crm) by (done || (intros ? [= <-]; simpl; korder)).
  destruct crm as [|[k r] crm _] using rev_ind; [by eexists|].
  rewrite length_app, Nat.add_comm. simpl.
  rewrite lookup_app_l by (rewrite length_app; simpl; lia).
  rewrite lookup_app_r, Nat.sub_diag by lia. simpl. rewrite wo_eq.
  specialize (Hadj k r). rewrite last_snoc in Hadj.
  rewrite (proj2 (keqb_spec _ _) (Hadj eq_refl)). by eexists.
Qed.

Lemma views_loop_complete fuel epoch lo hi dn l views :
  (List.length l <= fuel)%nat -> chunk_map_wf (dn ++ l) -> tiling getMin lo (dn ++ l) hi ->
  (forall k c, (k, c) ∈ l -> isSet (getLastmod c) = true) -> views_of dn views ->
  exists views', views_loop fuel epoch l views = Ret views'.
Proof.
  revert dn l views. induction fuel as [|fuel IH]; intros dn [|[k0 first] l] views Hf Hwf Ht Hset Hv;
    cbn [views_loop]; try (by eexists); simpl in Hf; [lia|].
  destruct (scan_run _ _ _ _) as [[mv lst] rest] eqn:Hscan.
  apply scan_run_first in Hscan as (run & kl & Hl & Hhd & Hlast & Hmv & Hlen & Hrun).
  rewrite Hl in *. rewrite app_assoc in Hwf, Ht.
  apply last_Some_elem_of in Hlast as Hinl.
  assert (Hwf1 : chunk_map_wf (dn ++ run)).
  { destruct Hwf as [Hs Hk]. split; [by apply ksorted_app in Hs as (? & _)|].
    intros k c Hin. apply Hk. apply elem_of_app. by left. }
  assert (Hkl : kl = getMax lst) by (apply Hwf1; apply elem_of_app; by right).
  destruct (add_range_complete (chunkRangeMap views) (getMin first) (getMax lst) (getShardId first))
    as [crm Hcrm].
  { intros K r HK. rewrite <- Hkl. destruct (vo_range _ _ Hv K r HK) as (_ & _ & c & Hc).
    by apply (ksorted_before dn run K c kl lst (proj1 Hwf1)). }
  { intros K r HK. destruct (vo_range _ _ Hv K r) as (_ & _ & c & Hc); [by apply last_Some_elem_of|].
    destruct (last dn) as [[kd cd]|] eqn:Hd; [|apply last_None in Hd as ->; by apply not_elem_of_nil in Hc].
    assert (Hwd : chunk_map_wf dn).
    { destruct Hwf1 as [Hs Hk]. split; [by apply ksorted_app in Hs as (? & _)|].
      intros ? ? Hin. apply Hk. apply elem_of_app. by left. }
    rewrite (views_last dn views kd cd K r Hwd Hv Hd HK).
    rewrite <- app_assoc, <- Hl in Ht. pose proof (tiling_app_mid _ _ _ _ _ _ _ _ Ht Hd). korder. }
  assert (Hmvset : isSet mv = true).
  { apply Z.ltb_lt. rewrite Hmv.
    destruct (foldl_vmax (default (newVersion 0 0 epoch)
      (map_get (getShardId first) (shardVersions views))) run) as (_ & Hmax & _).
    specialize (Hmax (kl, lst) Hinl). simpl in Hmax.
    assert (Hs : isSet (getLastmod lst) = true) by (apply (Hset kl); apply elem_of_app; by left).
    apply Z.ltb_lt in Hs. lia. }
  rewrite Hcrm. cbn [obind]. rewrite Hmvset. cbn [invariant obind].
  apply (IH (dn ++ run)); [lia|done|done|..].
  - intros k c Hin. apply (Hset k c). apply elem_of_app. by right.
  - by eapply views_step.
Qed.

Lemma checkAll_complete t o : all_type t o -> checkAllElementsAreOfType t o = Ret ().
Proof.
  unfold checkAllElementsAreOfType. induction 1 as [|[n v] o Hv _ IH]; [done|]. simpl in *.
  by rewrite bool_decide_eq_true_2.
Qed.

Lemma constructChunkMapViews_complete epoch lo hi m :
  snapshot lo hi m -> exists views, constructChunkMapViews epoch m = Ret views.
Proof.
  intros [Hwf Ht Hfirst Hlast Hset Hne]. unfold constructChunkMapViews.
  destruct (views_loop_complete (List.length m) epoch lo hi [] m (mkViews [] [])) as [views Hl];
    [done..|apply views_of_nil|].
  pose proof (views_loop_spec _ _ [] _ _ _ Hwf views_of_nil Hl) as Hv. simpl in Hv.
  rewrite Hl. cbn [obind]. destruct m as [|[k1 c1] m]; [done|].
  destruct (vo_head _ _ Hv k1 c1 eq_refl) as (K & r & Hh & Hmin).
  destruct (chunkRangeMap views) as [|[K' r'] crm] eqn:Hcrm; [done|]. injection Hh as -> ->.
  destruct (last ((K, r) :: crm)) as [[kl rl]|] eqn:Hcl; [|by apply last_None in Hcl].
  pose proof (vo_versions _ _ Hv (getShardId c1)) as Hsv.
  destruct (shardVersions views) as [|sv0 sv]; [by destruct (Hsv k1 c1 (list_elem_of_here _ _))|].
  destruct (last ((k1, c1) :: m)) as [[kd cd]|] eqn:Hd; [|by apply last_None in Hd].
  rewrite (checkAll_complete MinKey) by (rewrite Hmin; by apply (Hfirst k1)). cbn [obind].
  rewrite <- Hcrm in Hcl. rewrite (views_last _ _ _ _ _ _ Hwf Hv Hd Hcl).
  rewrite (checkAll_complete MaxKey) by (by apply (Hlast kd cd)). cbn [obind]. by eexists.
Qed.

Lemma refresh_total seq cm changes lo hi T :
  cm_ok cm -> cm_chunkMap cm = [] \/ tiling getMin lo (cm_chunkMap cm) hi ->
  snapshot lo hi T -> leads_to (cm_chunkMap cm) changes T ->
  ascending (cm_collectionVersion cm) changes ->
  last_version (cm_collectionVersion cm) changes <> cm_collectionVersion cm ->
  exists cm', makeUpdated seq cm changes = Ret (u32 (seq + 1), cm') /\ cm_chunkMap cm' = T /\
    cm_collectionVersion cm' = last_version (cm_collectionVersion cm) changes.
Proof.
  intros Hok Hm HT Hlt Ha Hne.
  destruct (changes_defined (cm_chunkMap cm) _ T _ (proj1 Hlt) Ha) as [m' Hf].
  assert (m' = T) as ->
    by (eapply changes_reach; [apply HT|apply HT|apply Hok|exact Hm|exact Hlt|exact Hf]).
  unfold makeUpdated. rewrite Hf. cbn [obind].
  destruct (version_equals _ _) eqn:E; [by apply version_equals_eq in E|].
  unfold newChunkManager. rewrite (ok_pattern _ Hok). cbn [obind].
  destruct (constructChunkMapViews_complete
    (_epoch (last_version (cm_collectionVersion cm) changes)) lo hi T HT) as [views ->].
  cbn [obind]. by eexists.
Qed.

(** Changes that lead to no newer version leave the table as it is. *)
Lemma refresh_same seq cm changes (T : ChunkMap) :
  leads_to (cm_chunkMap cm) changes T -> ascending (cm_collectionVersion cm) changes ->
  last_version (cm_collectionVersion cm) changes = cm_collectionVersion cm ->
  makeUpdated seq cm changes = Ret (seq, cm).
Proof.
  intros Hlt Ha He. destruct (changes_defined (cm_chunkMap cm) _ T _ (proj1 Hlt) Ha) as [m' Hf].
  unfold makeUpdated. rewrite Hf. cbn [obind]. rewrite He.
  by rewrite (proj2 (version_equals_eq _ _) eq_refl).
Qed.

(** C3: an incremental refresh implements the catalog.  Starting from a
    complete table, if the changes are chunks of the new complete set [T], in
    ascending version order within the epoch, and every chunk of [T] that was
    not sent is already cached, then the refresh succeeds and the new table is
    exactly [T], in whatever order splits, merges and moves produced it. *)
Theorem refresh_correct seq cm changes lo hi T :
  reachable cm -> tiling getMin lo (cm_chunkMap cm) hi ->
  snapshot lo hi T -> leads_to (cm_chunkMap cm) changes T ->
  ascending (cm_collectionVersion cm) changes ->
  last_version (cm_collectionVersion cm) changes <> cm_collectionVersion cm ->
  exists cm', makeUpdated seq cm changes = Ret (u32 (seq + 1), cm') /\ cm_chunkMap cm' = T /\
    cm_collectionVersion cm' = last_version (cm_collectionVersion cm) changes.
Proof.
  intros Hr Hm. apply refresh_total; [by apply reachable_ok|by right].
Qed.

Lemma makeNew_total seq nss kp coll u epoch chunks lo hi T p :
  newShardKeyPattern kp = Ret p -> snapshot lo hi T -> leads_to [] chunks T ->
  ascending (newVersion 0 0 epoch) chunks ->
  last_version (newVersion 0 0 epoch) chunks <> newVersion 0 0 epoch ->
  exists seq' cm, makeNew seq nss kp coll u epoch chunks = Ret (seq', cm) /\ cm_chunkMap cm = T /\
    cm_collectionVersion cm = last_version (newVersion 0 0 epoch) chunks.
Proof.
  intros Hp HT Hlt Ha Hne. unfold makeNew.
  destruct (newChunkManager seq nss kp coll u [] (newVersion 0 0 epoch)) as [[s0 cm0]| | |] eqn:H0;
    unfold newChunkManager in H0; rewrite Hp in H0; try discriminate H0.
  cbn [obind constructChunkMapViews views_loop] in *. injection H0 as Hs0 Hcm0.
  pose proof (newShardKeyPattern_inv kp p Hp) as [Hkp _].
  destruct (refresh_total s0 cm0 chunks lo hi T) as (cm & Hu & Hm & Hv); subst cm0; try done;
    [|by left|].
  - split; simpl; try done; [split; [apply ksorted_nil|]| |apply views_of_nil|by rewrite Hkp];
      by intros ? ? ?%not_elem_of_nil.
  - rewrite Hu. cbn [obind fst]. assert (Hs : (u32 (s0 + 1) =? s0) = false).
    { apply Z.eqb_neq. rewrite <- Hs0. unfold u32. Z.to_euclidean_division_equations; lia. }
    rewrite Hs. by do 2 eexists.
Qed.

(** A full load succeeds for every complete set of chunks sent in ascending
    version order, and gives exactly that set. *)
Lemma makeNew_correct seq nss kp coll u epoch chunks lo hi T p :
  newShardKeyPattern kp = Ret p -> snapshot lo hi T -> leads_to [] chunks T ->
  ascending (newVersion 0 0 epoch) chunks ->
  last_version (newVersion 0 0 epoch) chunks <> newVersion 0 0 epoch ->
  exists seq' cm, makeNew seq nss kp coll u epoch chunks = Ret (seq', cm) /\ cm_chunkMap cm = T /\
    cm_collectionVersion cm = last_version (newVersion 0 0 epoch) chunks.
Proof. apply makeNew_total. Qed.

(** * Examples *)

Definition entry_of (change : ChunkType * Z) : ChunkMap :=
  match newChunk change.2 change.1 with Ret c => [(getMax c, c)] | _ => [] end.

(** The last chunk of [sample_cm] split in two, its lower half moved. *)
Definition sample_target : ChunkMap :=
  take 2 (cm_chunkMap sample_cm) ++ (ch ← sample_change; entry_of ch).

(** The entries of an explicit list, one by one. *)
Ltac list_cases H :=
  vm_compute in H;
  repeat (apply elem_of_cons in H as [H|H]; [injection H as -> ->|]);
  [..|by apply not_elem_of_nil in H].

Lemma sample_snapshot : snapshot sample_lo sample_hi sample_target.
Proof.
  assert (Ht : tiling getMin sample_lo sample_target sample_hi) by (vm_compute; repeat split).
  split; [split; [by apply tiling_sorted in Ht|]|done|..].
  - intros k c H. list_cases H; split; vm_compute; reflexivity.
  - intros k c H. vm_compute in H. injection H as <- <-. repeat constructor.
  - intros k c H. vm_compute in H. injection H as <- <-. repeat constructor.
  - intros k c H. list_cases H; vm_compute; reflexivity.
  - discriminate.
Qed.

Lemma sample_leads_to : leads_to (cm_chunkMap sample_cm) sample_change sample_target.
Proof.
  split.
  - intros ch seed H. apply elem_of_cons in H as [[= -> ->]|H]; [|apply list_elem_of_singleton in H as [= -> ->]].
    + eexists. split; [reflexivity|]. apply (list_elem_of_lookup_2 _ 2). vm_compute. reflexivity.
    + eexists. split; [reflexivity|]. apply (list_elem_of_lookup_2 _ 3). vm_compute. reflexivity.
  - intros k c H. list_cases H.
    + left. apply (list_elem_of_lookup_2 _ 0). vm_compute. reflexivity.
    + left. apply (list_elem_of_lookup_2 _ 1). vm_compute. reflexivity.
    + right. do 2 eexists. split; [apply list_elem_of_here|vm_compute; reflexivity].
    + right. do 2 eexists. split; [apply list_elem_of_further, list_elem_of_here|vm_compute; reflexivity].
Qed.

Lemma refresh_correct_witness :
  exists cm', makeUpdated 2 sample_cm sample_change = Ret (3, cm') /\ cm_chunkMap cm' = sample_target.
Proof.
  destruct (refresh_correct 2 sample_cm sample_change sample_lo sample_hi sample_target
    sample_reachable sample_tiling sample_snapshot sample_leads_to) as (cm' & H1 & H2 & _).
  - eexists. split; [reflexivity|]. split; [vm_compute; reflexivity|]. split; [vm_compute; discriminate|].
    eexists. split; [reflexivity|]. split; [vm_compute; reflexivity|]. split; [vm_compute; discriminate|].
    exact I.
  - vm_compute. discriminate.
  - exists cm'. split; [exact H1|exact H2].
Defined.

Lemma makeNew_correct_witness :
  exists seq' cm, makeNew 0 "db.c" sample_pattern None false OID_zero
    ((sample_entry sample_lo sample_hi 1 0 "s0", 0) :: []) = Ret (seq', cm) /\
    cm_chunkMap cm = entry_of (sample_entry sample_lo sample_hi 1 0 "s0", 0).
Proof.
  destruct (makeNew_correct 0 "db.c" sample_pattern None false OID_zero
    [(sample_entry sample_lo sample_hi 1 0 "s0", 0)] sample_lo sample_hi
    (entry_of (sample_entry sample_lo sample_hi 1 0 "s0", 0)) (mkSKP sample_pattern [["x"]]))
    as (s & cm & H1 & H2 & _).
  - reflexivity.
  - assert (Ht : tiling getMin sample_lo (entry_of (sample_entry sample_lo sample_hi 1 0 "s0", 0)) sample_hi)
      by (vm_compute; repeat split).
    split; [split; [by apply tiling_sorted in Ht|]|done|..].
    + intros k c H. list_cases H; split; vm_compute; reflexivity.
    + intros k c H. vm_compute in H. injection H as <- <-. repeat constructor.
    + intros k c H. vm_compute in H. injection H as <- <-. repeat constructor.
    + intros k c H. list_cases H; vm_compute; reflexivity.
    + discriminate.
  - split.
    + intros ch seed H. apply list_elem_of_singleton in H as [= -> ->].
      eexists. split; [reflexivity|]. apply (list_elem_of_lookup_2 _ 0). vm_compute. reflexivity.
    + intros k c H. list_cases H. right. do 2 eexists. split; [apply list_elem_of_here|reflexivity].
  - eexists. split; [reflexivity|]. split; [vm_compute; reflexivity|]. split; [vm_compute; discriminate|].
    exact I.
  - vm_compute. discriminate.
  - exists s, cm. split; [exact H1|exact H2].
Defined.
