(* ===== verification/AutoSplit.v ===== *)
(** Automatic splitting on the router ([s/commands/cluster_write.cpp],
    [s/shard_util.cpp], [util/concurrency/ticketholder.cpp]): the key text taken
    from an insert, the per-chunk write statistics, the decision to split, the
    hotness-aware tuning of the split points (the DYNAMIC variant, which is the
    one compiled in), and the split and move requests.  The shards, the balancer
    configuration and the catalog cache are inputs. *)

From stdpp Require Import base list sorting strings sets relations.
From Stdlib Require Import ZArith Lia String Ascii.
From S2P Require Import Prelude OrdMap Bson Text Float ChunkVersion ChunkType ShardKey Chunk ChunkManager.
Local Open Scope string_scope.
Local Open Scope Z_scope.
Local Open Scope list_scope.
Local Open Scope outcome_scope.

(** * Tickets *)

(** [TicketHolder]: a counting semaphore. *)
Record TicketHolder := mkTickets { th_outof : Z; th_available : Z }.

Definition newTicketHolder (num : Z) : TicketHolder := mkTickets num num.
Definition tryAcquire (t : TicketHolder) : bool * TicketHolder :=
  if 0 <? th_available t then (true, mkTickets (th_outof t) (th_available t - 1)) else (false, t).
Definition release (t : TicketHolder) : TicketHolder :=
  mkTickets (th_outof t) (th_available t + 1).
Definition available (t : TicketHolder) : Z := th_available t.
Definition used (t : TicketHolder) : Z := th_outof t - th_available t.

Definition maxParallelSplits : Z := 5.
Definition kTooManySplitPoints : Z := 4.

Section auto_split.
Context (snprintf_g16 : Dbl -> string) (hash64 : BSONValue -> Int64).

(** * The key of an insert *)

(** [string_key] in [ClusterWriter::write]: the text of the first field of the
    first document of the batch, without the first ten characters from the
    first underscore on and without the last character.  [None] is a request
    without a "documents" field (an update or a delete). *)
Definition write_key (documents : option (list BSONObj)) : Outcome string :=
  match documents with
  | None => Ret ""
  | Some [] | Some ([] :: _) => Abort
  | Some (((name, v) :: _) :: _) =>
      let* t := value_toString snprintf_g16 false 0 (Some name) v in
      let* t := replace_found t "_" 10 "" in
      erase_last t
  end.

(** * Inputs from the rest of the cluster *)

Record SplitEnv := mkEnv {
  env_maxChunkSizeBytes : Z;
  env_shouldAutoSplit : bool;
  env_refreshAndCheck : Outcome unit;
  env_maxChunkSizeBytes_refreshed : Z;
  env_shouldAutoSplit_refreshed : bool;
  env_shouldBalanceForAutoSplit : bool;
  (** [splitVector] on the shard, for a chunk size *)
  env_selectChunkSplitPoints : Z -> Outcome (list BSONObj);
  (** the second document in shard key order ([true]) or the last one *)
  env_findExtreme : bool -> Outcome (option BSONObj);
  (** the response to [splitChunk] *)
  env_splitChunk : list BSONObj -> Outcome BSONObj;
  env_getCollection_allowBalance : Outcome bool;
  env_reload : Outcome ChunkManager;
  env_rebalanceChunk : ChunkType -> Outcome unit
}.

(** What the code changes: the statistics of the chunk, the tickets, the
    validity of the cached routing table, and the requests it sends. *)
Record SplitState := mkSplit {
  sp_chunk : Chunk;
  sp_tickets : TicketHolder;
  sp_invalidated : bool;
  sp_splits : list (list BSONObj);
  sp_moves : list ChunkType
}.

Definition set_chunk (f : Chunk -> Chunk) (s : SplitState) : SplitState :=
  mkSplit (f (sp_chunk s)) (sp_tickets s) (sp_invalidated s) (sp_splits s) (sp_moves s).
Definition set_tickets (t : TicketHolder) (s : SplitState) : SplitState :=
  mkSplit (sp_chunk s) t (sp_invalidated s) (sp_splits s) (sp_moves s).
Definition invalidate (s : SplitState) : SplitState :=
  mkSplit (sp_chunk s) (sp_tickets s) true (sp_splits s) (sp_moves s).
Definition log_split (p : list BSONObj) (s : SplitState) : SplitState :=
  mkSplit (sp_chunk s) (sp_tickets s) (sp_invalidated s) (p :: sp_splits s) (sp_moves s).
Definition log_move (c : ChunkType) (s : SplitState) : SplitState :=
  mkSplit (sp_chunk s) (sp_tickets s) (sp_invalidated s) (sp_splits s) (c :: sp_moves s).

Context (env : SplitEnv).

(** [findExtremeKeyForShard] *)
Definition findExtremeKeyForShard (shardKeyPattern : ShardKeyPattern) (doSplitAtLower : bool)
    : Outcome BSONObj :=
  (if (doSplitAtLower : bool) then Ret ()
   else ofold (fun _ el => uassert (Location 10163) (isNumber (el.2 : BSONValue))) ()
          (skp_pattern shardKeyPattern)) ;*
  let* e := env_findExtreme env doSplitAtLower in
  match e with
  | None | Some [] => Ret []
  | Some d => Ret (extractShardKeyFromDoc hash64 shardKeyPattern d)
  end.

(** * Tuning the split points *)

(** [e.String()] of the "_id" field without "user" and without its last
    character. *)
Definition id_text (o : BSONObj) : Outcome string :=
  match getField o "_id" with
  | Some (VString s) => let* t := replace_found s "user" 4 "" in erase_last t
  | _ => Throw (Location 13111)
  end.

(** [uint64_t k = 0; iss >> k] on the first ten characters. *)
Definition prefix_number (string_key : string) : Z :=
  default 0 (istream_u64 (substr string_key 0 10)).

(** The number of split points not above the average. *)
Definition count_below (split_average : Z) (splitPoints : list BSONObj) : Outcome Z :=
  ofold (fun n p =>
           let* t := id_text p in
           Ret (if prefix_number t <=? split_average then n + 1 else n)) 0 splitPoints.

(** The prefix of a bound as a number: the variable is not initialised, so a
    text the stream cannot read leaves it undefined. *)
Definition bound_prefix (o : BSONObj) : Outcome Z :=
  let* t := BSONObj_toString snprintf_g16 o in
  let* t := replace_found t "{" 12 "" in
  let* t := erase_last t in
  prefix_u64 t.

(** [new_split_key.replace(begin() + 4, begin() + 14, k)] on "user" followed by
    the text of the key. *)
Definition renumber (string_key : string) (k : Z) : Outcome BSONObj :=
  let new_split_key := "user" +:+ string_key in
  if (String.length new_split_key <? 14)%nat then Undef
  else Ret [("_id", VString (substr new_split_key 0 4 +:+ dec k +:+
                             substr new_split_key 14 (String.length new_split_key)))].

(** The loop over the points above the average; [i] is a [uint8_t].  With at
    most 255 points it ends within 256 iterations; with more it can only end by
    running off a key. *)
Fixpoint right_loop (fuel : nat) (i right_shift : Z) (splitPoints : list BSONObj)
    : Outcome (list BSONObj) :=
  if i <? Z.of_nat (List.length splitPoints) then
    match fuel, splitPoints !! Z.to_nat i with
    | S fuel, Some p =>
        let* t := id_text p in
        let* p' := renumber t (u64 (prefix_number t - right_shift)) in
        right_loop fuel (u8 (i + 1)) (right_shift / 2) (<[Z.to_nat i := p']> splitPoints)
    | _, _ => Undef
    end
  else Ret splitPoints.

(** The loop over the points not above the average, from the last one down. *)
Fixpoint left_loop (split_average : Z) (i : nat) (left_shift : Z) (splitPoints : list BSONObj)
    : Outcome (list BSONObj) :=
  match i with
  | O => Ret splitPoints
  | S i =>
      match splitPoints !! i with
      | None => Undef
      | Some p =>
          let* t := id_text p in
          let k := prefix_number t in
          let '(k, left_shift) :=
            if negb (k =? split_average) then (u64 (k + left_shift), left_shift / 2)
            else (k, left_shift) in
          let* p' := renumber t k in
          left_loop split_average i left_shift (<[i := p']> splitPoints)
      end
  end.

(** One tenth of the range of the chunk's key prefixes, in [double] arithmetic. *)
Definition shift_of (int_chunk_max int_chunk_min : Z) : Outcome Z :=
  let* chunk_range := d_to_u64 (d_sub (d_of_Z int_chunk_max) (d_of_Z int_chunk_min)) in
  d_to_u64 (d_mul (d_of_Z chunk_range) d_0_1).

Definition dynamic_tuning (shardKeyPattern : ShardKeyPattern) (chunk : Chunk)
    (minIsInf maxIsInf : bool) (split_average : Z) (splitPoints : list BSONObj)
    : Outcome (list BSONObj) :=
  let* n := count_below split_average splitPoints in
  let* mx := if (maxIsInf : bool) then findExtremeKeyForShard shardKeyPattern false else Ret (getMax chunk) in
  let* int_chunk_max := bound_prefix mx in
  let* mn := if (minIsInf : bool) then findExtremeKeyForShard shardKeyPattern true else Ret (getMin chunk) in
  let* int_chunk_min := bound_prefix mn in
  let* shift := shift_of int_chunk_max int_chunk_min in
  let* splitPoints := right_loop 256 (u8 n) shift splitPoints in
  left_loop split_average (Z.to_nat n) shift splitPoints.

(** * Splitting *)

Local Open Scope state_scope.

Definition kMaxSplitPoints : Z := 8192.

(** [shardutil::splitChunkAtMultiplePoints] *)
Definition splitChunkAtMultiplePoints (chunkRange : ChunkRange) (splitPoints : list BSONObj)
    : SM SplitState (option ChunkRange) :=
  match head splitPoints, last splitPoints with
  | Some front, Some back =>
      if kMaxSplitPoints <? Z.of_nat (List.length splitPoints) then slift (Throw BadValue)
      else if woCompare (_minKey chunkRange) front =? 0 then slift (Throw CannotSplit)
      else if woCompare (_maxKey chunkRange) back =? 0 then slift (Throw CannotSplit)
      else
        smodify (log_split splitPoints) ;!
        let! cmdResponse := slift (env_splitChunk env splitPoints) in
        match bsonExtractTypedField cmdResponse "shouldMigrate" Object with
        | Ret (VObject o) => let! r := slift (Range.fromBSON o) in sret (Some r)
        | _ => sret None
        end
  | _, _ => slift Abort
  end.

(** The split points with the first or last one replaced by the extreme key of
    the shard. *)
Definition use_extreme_key (shardKeyPattern : ShardKeyPattern) (minIsInf maxIsInf : bool)
    (splitPoints : list BSONObj) : Outcome (list BSONObj) :=
  (if isOrderedKeyPattern (skp_pattern shardKeyPattern) then
     if (minIsInf : bool) then
       let* key := findExtremeKeyForShard shardKeyPattern true in
       Ret (match key with [] => splitPoints | _ => <[0%nat := key]> splitPoints end)
     else if (maxIsInf : bool) then
       let* key := findExtremeKeyForShard shardKeyPattern false in
       Ret (match key with
            | [] => splitPoints
            | _ => <[(List.length splitPoints - 1)%nat := key]> splitPoints
            end)
     else Ret splitPoints
   else Ret splitPoints)%outcome.

Definition chunkSizeToUse (chunkBytesWritten desiredChunkSize : Z) : Outcome Z :=
  (if desiredChunkSize =? 0 then Undef
   else
     let estNumSplitPoints := u64 (chunkBytesWritten / desiredChunkSize * 2) in
     if kTooManySplitPoints <=? estNumSplitPoints
     then Ret (Z.min chunkBytesWritten (env_maxChunkSizeBytes_refreshed env))
     else Ret desiredChunkSize)%outcome.

(** [get_split_sum() / get_cnt()], unsigned: the [int] count is converted. *)
Definition split_average_of (chunk : Chunk) : Outcome Z :=
  (if u64 (get_cnt chunk) =? 0 then Undef else Ret (get_split_sum chunk / u64 (get_cnt chunk)))%outcome.

(** The move of the suggested chunk after the split. *)
Definition move_top_chunk (nss : string) (suggestedMigrateChunk : option ChunkRange)
    : SM SplitState unit :=
  let! shouldBalance :=
    if env_shouldBalanceForAutoSplit env then
      match env_getCollection_allowBalance env with
      | Throw _ => sret false
      | r => slift r
      end
    else sret false in
  let! cm := slift (env_reload env) in
  match shouldBalance, suggestedMigrateChunk with
  | true, Some r =>
      let! chunkToMove := slift (
        let* c := findIntersectingChunkWithSimpleCollation cm (_minKey r) in
        let* t := setNS emptyChunkType nss in
        let* t := setShard t (getShardId c) in
        let* t := setMin t (getMin c) in
        let* t := setMax t (getMax c) in
        setVersion t (getLastmod c))%outcome in
      smodify (log_move chunkToMove) ;!
      slift (env_rebalanceChunk env chunkToMove) ;!
      smodify invalidate
  | _, _ => sret ()
  end.

(** The [try] block. *)
Definition attempt_split (manager : ChunkManager) (minIsInf maxIsInf : bool)
    (chunkBytesWritten desiredChunkSize : Z) : SM SplitState unit :=
  slift (env_refreshAndCheck env) ;!
  if negb (env_shouldAutoSplit_refreshed env) then sret ()
  else
    let! chunkSize := slift (chunkSizeToUse chunkBytesWritten desiredChunkSize) in
    let! s := sget in
    let! split_average := slift (split_average_of (sp_chunk s)) in
    let! splitPoints := slift (env_selectChunkSplitPoints env chunkSize) in
    if (List.length splitPoints <=? 1)%nat then smodify (set_chunk clearBytesWritten)
    else
      let! splitPoints := slift (dynamic_tuning (cm_shardKeyPattern manager) (sp_chunk s)
                                   minIsInf maxIsInf split_average splitPoints) in
      (if minIsInf || maxIsInf then sret () else smodify (set_chunk clearBytesWritten)) ;!
      let! splitPoints := slift (use_extreme_key (cm_shardKeyPattern manager) minIsInf maxIsInf
                                   splitPoints) in
      let! suggestedMigrateChunk := splitChunkAtMultiplePoints (c_range (sp_chunk s)) splitPoints in
      move_top_chunk (cm_nss manager) suggestedMigrateChunk.

Definition isStaleShardingError (e : ErrorCode) : bool :=
  match e with StaleConfig | StaleShardVersion | StaleEpoch => true | _ => false end.

Definition updateChunkWriteStatsAndSplitIfNeeded (manager : ChunkManager) (dataWritten : Z)
    : SM SplitState unit :=
  let! s := sget in
  let pattern := skp_pattern (cm_shardKeyPattern manager) in
  let minIsInf := woCompare (globalMin pattern) (getMin (sp_chunk s)) =? 0 in
  let maxIsInf := woCompare (globalMax pattern) (getMax (sp_chunk s)) =? 0 in
  smodify (set_chunk (fun c => addBytesWritten c dataWritten)) ;!
  let! s := sget in
  let chunkBytesWritten := getBytesWritten (sp_chunk s) in
  let desiredChunkSize := env_maxChunkSizeBytes env in
  let! should := slift (shouldSplit (sp_chunk s) desiredChunkSize minIsInf maxIsInf) in
  if negb should || negb (env_shouldAutoSplit env) then sret ()
  else
    let '(ok, tickets) := tryAcquire (sp_tickets s) in
    if negb ok then sret ()
    else
      smodify (set_tickets tickets) ;!
      sfinally
        (scatch (attempt_split manager minIsInf maxIsInf chunkBytesWritten desiredChunkSize)
           (fun e =>
              smodify (set_chunk clearBytesWritten) ;!
              if isStaleShardingError e then smodify invalidate else sret ()))
        (fun s => set_tickets (release (sp_tickets s)) s).

(** One entry of [TargeterStats::chunkSizeDelta] in [splitIfNeeded]. *)
Definition splitIfNeeded_chunk (manager : ChunkManager) (string_key : string) (delta : Z)
    : SM SplitState unit :=
  let! s := sget in
  let! c := slift (add_cnt (sp_chunk s)) in
  let! c := slift (add_split_sum c string_key) in
  smodify (set_chunk (fun _ => c)) ;!
  updateChunkWriteStatsAndSplitIfNeeded manager delta.
End auto_split.

(** * Tickets, errors and requests *)

Section auto_split_properties.
Context (snprintf_g16 : Dbl -> string) (hash64 : BSONValue -> Int64) (env : SplitEnv).
Abbreviation update := (updateChunkWriteStatsAndSplitIfNeeded snprintf_g16 hash64 env).
Abbreviation attempt := (attempt_split snprintf_g16 hash64 env).

Lemma splitChunk_preserves {B} (f : SplitState -> B) r ps :
  (forall p s, f (log_split p s) = f s) -> spreserves f (splitChunkAtMultiplePoints env r ps).
Proof. intros Hf. unfold splitChunkAtMultiplePoints. preserves; auto. Qed.

Lemma attempt_preserves {B} (f : SplitState -> B) manager a b c d :
  (forall s, f (set_chunk clearBytesWritten s) = f s) -> (forall p s, f (log_split p s) = f s) ->
  (forall m s, f (log_move m s) = f s) -> (forall s, f (invalidate s) = f s) ->
  spreserves f (attempt manager a b c d).
Proof.
  intros H1 H2 H3 H4. unfold attempt_split, move_top_chunk. preserves; auto.
  by apply splitChunk_preserves.
Qed.

(** The request guard, as the state before anything is attempted. *)
Definition recorded (s : SplitState) (dataWritten : Z) : SplitState :=
  set_chunk (fun c => addBytesWritten c dataWritten) s.

Definition atMin (manager : ChunkManager) (s : SplitState) : bool :=
  woCompare (globalMin (skp_pattern (cm_shardKeyPattern manager))) (getMin (sp_chunk s)) =? 0.
Definition atMax (manager : ChunkManager) (s : SplitState) : bool :=
  woCompare (globalMax (skp_pattern (cm_shardKeyPattern manager))) (getMax (sp_chunk s)) =? 0.

Definition wants_split (manager : ChunkManager) (s : SplitState) (dataWritten : Z) : Outcome bool :=
  let* should := shouldSplit (sp_chunk (recorded s dataWritten)) (env_maxChunkSizeBytes env)
                   (atMin manager s) (atMax manager s) in
  Ret (should && env_shouldAutoSplit env && (0 <? th_available (sp_tickets s))).

(** The code after the guards. *)
Definition guarded_attempt (manager : ChunkManager) (s : SplitState) (dataWritten : Z)
    : SplitState * Outcome unit :=
  scatch (attempt manager (atMin manager s) (atMax manager s)
            (getBytesWritten (sp_chunk (recorded s dataWritten))) (env_maxChunkSizeBytes env))
    (fun e =>
       smodify (set_chunk clearBytesWritten) ;!
       if isStaleShardingError e then smodify invalidate else sret ())%state
    (set_tickets (mkTickets (th_outof (sp_tickets s)) (th_available (sp_tickets s) - 1))
       (recorded s dataWritten)).

Lemma update_unfold manager dataWritten s :
  update manager dataWritten s =
  match wants_split manager s dataWritten with
  | Ret true =>
      let '(s', r) := guarded_attempt manager s dataWritten in
      match r with
      | Ret _ | Throw _ => (set_tickets (release (sp_tickets s')) s', r)
      | _ => (s', r)
      end
  | Ret false => (recorded s dataWritten, Ret ())
  | Throw e => (recorded s dataWritten, Throw e)
  | Abort => (recorded s dataWritten, Abort)
  | Undef => (recorded s dataWritten, Undef)
  end.
Proof.
  unfold updateChunkWriteStatsAndSplitIfNeeded, wants_split, guarded_attempt.
  cbn [sbind sget smodify slift]. fold (atMin manager s) (atMax manager s) (recorded s dataWritten).
  destruct (shouldSplit _ _ _ _) as [should| | |]; cbn [obind sbind]; [|done..].
  destruct should; [|done]. destruct (env_shouldAutoSplit env); [|done]. cbn [negb orb andb].
  unfold tryAcquire. change (sp_tickets (recorded s dataWritten)) with (sp_tickets s).
  destruct (0 <? th_available (sp_tickets s)); [|done]. cbn [negb].
  unfold sfinally, sbind, smodify. cbn [fst snd].
  destruct (scatch _ _ _) as [s' [| | |]]; done.
Qed.

Lemma guarded_preserves {B} (f : SplitState -> B) manager s dataWritten :
  (forall s, f (set_chunk clearBytesWritten s) = f s) -> (forall p s, f (log_split p s) = f s) ->
  (forall m s, f (log_move m s) = f s) -> (forall s, f (invalidate s) = f s) ->
  f (guarded_attempt manager s dataWritten).1 =
  f (set_tickets (mkTickets (th_outof (sp_tickets s)) (th_available (sp_tickets s) - 1))
       (recorded s dataWritten)).
Proof.
  intros H1 H2 H3 H4. unfold guarded_attempt.
  match goal with |- f (?m ?x).1 = _ => assert (Hp : spreserves f m) end; [|apply Hp].
  preserves; auto. by apply attempt_preserves.
Qed.

Lemma guarded_contains manager s dataWritten e :
  (guarded_attempt manager s dataWritten).2 = Throw e -> isDBException e = false.
Proof.
  unfold guarded_attempt, scatch. destruct (attempt _ _ _ _ _ _) as [s' [|e'| |]]; simpl; try done.
  destruct (isDBException e') eqn:E; [|by intros [= <-]].
  unfold sbind, smodify. simpl. by destruct (isStaleShardingError e').
Qed.

(** An automatic split attempt gives its ticket back on every return and on
    every exception, and it starts only when a ticket was available. *)
Lemma autosplit_tickets_balanced manager dataWritten s :
  0 <= th_available (sp_tickets s) ->
  let '(s', r) := updateChunkWriteStatsAndSplitIfNeeded snprintf_g16 hash64 env manager dataWritten s in
  match r with
  | Ret _ | Throw _ => sp_tickets s' = sp_tickets s
  | _ => True
  end /\
  (sp_splits s' <> sp_splits s -> 0 < th_available (sp_tickets s)).
Proof.
  intros Ht. rewrite update_unfold.
  destruct (wants_split manager s dataWritten) as [[]| | |] eqn:Hw; try done.
  pose proof (guarded_preserves sp_tickets manager s dataWritten ltac:(done) ltac:(done) ltac:(done)
    ltac:(done)) as Hg.
  assert (Hpos : 0 < th_available (sp_tickets s)).
  { unfold wants_split in Hw. inv_ret. repeat match goal with H : _ && _ = true |- _ =>
      apply andb_true_iff in H as [? ?] end. by apply Z.ltb_lt. }
  destruct (guarded_attempt manager s dataWritten) as [s' [u|e| |]]; simpl in *; (split; [|done]); try done;
    rewrite Hg; unfold release; simpl; destruct (sp_tickets s); simpl; f_equal; lia.
Qed.

(** Below the split threshold, with automatic splitting switched off, or
    without a free ticket, the only effect of a write is the byte counter of its
    chunk; no request is sent. *)
Lemma autosplit_idle manager dataWritten s :
  wants_split manager s dataWritten = Ret false ->
  updateChunkWriteStatsAndSplitIfNeeded snprintf_g16 hash64 env manager dataWritten s = (recorded s dataWritten, Ret ()).
Proof. intros Hw. by rewrite update_unfold, Hw. Qed.

(** C37: no database error escapes from an automatic split: whatever the shards,
    the configuration or the catalog answer, only a standard library exception
    (a key text without the expected pieces) can leave the function. *)
Theorem autosplit_errors_contained manager dataWritten s s' e :
  0 <= env_maxChunkSizeBytes env < 2 ^ 64 ->
  updateChunkWriteStatsAndSplitIfNeeded snprintf_g16 hash64 env manager dataWritten s = (s', Throw e) -> e = StdOutOfRange.
Proof.
  intros Hsz. rewrite update_unfold.
  destruct (shouldSplit_total (sp_chunk (recorded s dataWritten)) _ (atMin manager s)
    (atMax manager s) Hsz) as [b Hb].
  unfold wants_split. rewrite Hb. cbn [obind]. destruct (_ && _); [|done].
  pose proof (guarded_contains manager s dataWritten) as Hc.
  destruct (guarded_attempt manager s dataWritten) as [s1 [u|e1| |]]; try done.
  intros [= _ <-]. specialize (Hc e1 eq_refl). by destruct e1.
Qed.

(** A write path that never counted a write on the chunk (findAndModify and
    mapReduce call the function directly) divides by zero as soon as the chunk
    is due for a split check. *)
Lemma autosplit_uncounted_chunk_undefined manager dataWritten s :
  wants_split manager s dataWritten = Ret true -> get_cnt (sp_chunk s) = 0 ->
  env_refreshAndCheck env = Ret () -> env_shouldAutoSplit_refreshed env = true ->
  (update manager dataWritten s).2 = Undef.
Proof.
  intros Hw Hc Hr Ha. rewrite update_unfold, Hw. unfold guarded_attempt, attempt_split, scatch.
  unfold sbind at 1, slift at 1. rewrite Hr, Ha. cbn [negb].
  unfold sbind at 1, slift at 1. unfold chunkSizeToUse.
  destruct (env_maxChunkSizeBytes env =? 0); [done|].
  assert (Havg : forall t, split_average_of (sp_chunk (set_tickets t (recorded s dataWritten))) = Undef).
  { intros t. unfold split_average_of. unfold recorded, set_chunk. simpl.
    unfold get_cnt in *. simpl. by rewrite Hc. }
  destruct (kTooManySplitPoints <=? _); unfold sbind at 1, sget, sbind at 1, slift at 1;
    rewrite Havg; done.
Qed.

(** * What is requested *)

Lemma right_loop_length fuel i rs ps ps' :
  right_loop fuel i rs ps = Ret ps' -> List.length ps' = List.length ps.
Proof.
  revert i rs ps. induction fuel as [|fuel IH]; intros i rs ps; cbn [right_loop];
    (destruct (i <? _); [|by intros [= <-]]); [done|].
  destruct (ps !! Z.to_nat i); [|done]. intros Hr. inv_ret.
  match goal with H : right_loop _ _ _ _ = Ret _ |- _ => apply IH in H; rewrite H end.
  apply length_insert.
Qed.

Lemma left_loop_length avg i ls ps ps' :
  left_loop avg i ls ps = Ret ps' -> List.length ps' = List.length ps.
Proof.
  revert ls ps. induction i as [|i IH]; intros ls ps; cbn [left_loop]; [by intros [= <-]|].
  destruct (ps !! i); [|done]. intros Hr. apply obind_Ret_inv in Hr as (t & _ & Hr).
  destruct (if negb _ then _ else _) as [k ls']. inv_ret.
  match goal with H : left_loop _ _ _ _ = Ret _ |- _ => apply IH in H; rewrite H end.
  apply length_insert.
Qed.

Lemma dynamic_tuning_length skp c a b avg ps ps' :
  dynamic_tuning snprintf_g16 hash64 env skp c a b avg ps = Ret ps' ->
  List.length ps' = List.length ps.
Proof.
  unfold dynamic_tuning. intros Hr. inv_ret.
  match goal with H : left_loop _ _ _ _ = Ret _ |- _ => apply left_loop_length in H; rewrite H end.
  by eapply right_loop_length.
Qed.

Lemma use_extreme_key_length skp a b ps ps' :
  use_extreme_key hash64 env skp a b ps = Ret ps' -> List.length ps' = List.length ps.
Proof.
  unfold use_extreme_key. destruct (isOrderedKeyPattern _); [|by intros [= <-]].
  destruct a; [|destruct b; [|by intros [= <-]]]; intros Hr; inv_ret; subst ps';
    match goal with |- context [match ?k with _ => _ end] => destruct k end;
    rewrite ?length_insert; done.
Qed.

(** A request that [splitChunkAtMultiplePoints] lets through. *)
Definition split_request (r : ChunkRange) (ps : list BSONObj) : Prop :=
  (2 <= List.length ps)%nat /\ Z.of_nat (List.length ps) <= kMaxSplitPoints /\
  exists front back, head ps = Some front /\ last ps = Some back /\
    ~ _minKey r ≅k front /\ ~ _maxKey r ≅k back.

Lemma splitChunk_log r ps s :
  (2 <= List.length ps)%nat ->
  sp_splits (splitChunkAtMultiplePoints env r ps s).1 = sp_splits s \/
  (sp_splits (splitChunkAtMultiplePoints env r ps s).1 = ps :: sp_splits s /\ split_request r ps).
Proof.
  intros Hlen. unfold splitChunkAtMultiplePoints.
  destruct (head ps) as [front|] eqn:Hh; [|by left].
  destruct (last ps) as [back|] eqn:Hl; [|by left].
  destruct (Z.ltb_spec kMaxSplitPoints (Z.of_nat (List.length ps))); [by left|].
  rewrite !wo_eq. destruct (keqb (_minKey r) front) eqn:E1; [by left|].
  destruct (keqb (_maxKey r) back) eqn:E2; [by left|]. right. split.
  - match goal with |- sp_splits (sbind ?m ?k s).1 = _ =>
      change (sp_splits (k () (log_split ps s)).1 = sp_splits (log_split ps s)) end.
    match goal with |- sp_splits (?m ?x).1 = _ => assert (Hp : spreserves sp_splits m) end;
      [|apply Hp]. cbv beta. preserves; done.
  - split_and!; [done|lia|]. exists front, back. split_and!; try done; by apply keqb_false.
Qed.

(** Splits the first step of a program; the failing case ends in the state of
    that step. *)
Ltac step H :=
  apply sbind_inv in H as [(?s & ?a & ?Hm & H)|[<- _]]; [|try (by left)].

Lemma attempt_log manager a b c d s s' r :
  attempt manager a b c d s = (s', r) ->
  sp_splits s' = sp_splits s \/
  exists ps, sp_splits s' = ps :: sp_splits s /\ split_request (c_range (sp_chunk s)) ps.
Proof.
  intros H. unfold attempt_split in H. step H. injection Hm as <- _.
  destruct (negb (env_shouldAutoSplit_refreshed env)); [injection H as <- _; by left|].
  step H. injection Hm as <- _. step H. injection Hm as <- <-. step H. injection Hm as <- _.
  step H. injection Hm as <- _. destruct (Nat.leb_spec (List.length a3) 1) as [|Hlen];
    [injection H as <- _; by left|].
  step H. injection Hm as <- Hd. apply dynamic_tuning_length in Hd.
  apply sbind_inv in H as [(s1 & [] & Hm & H)|[_ Hf]]; [|by destruct Hf, (a || b)].
  assert (Hs1 : sp_splits s1 = sp_splits s) by (destruct (a || b); injection Hm as <-; done).
  step H. injection Hm0 as <- Hu. apply use_extreme_key_length in Hu.
  assert (Hp : forall x, spreserves sp_splits (move_top_chunk env (cm_nss manager) x))
    by (intros x; unfold move_top_chunk; preserves; done).
  destruct (splitChunk_log (c_range (sp_chunk s)) a5 s1 ltac:(lia)) as [Hl|[Hl Hreq]];
    apply sbind_inv in H as [(s2 & x & Hm0 & H)|[<- _]]; rewrite Hs1 in Hl.
  - left. specialize (Hp x s2). rewrite H in Hp. rewrite Hm0 in Hl. simpl in *. congruence.
  - by left.
  - right. exists a5. specialize (Hp x s2). rewrite H in Hp. rewrite Hm0 in Hl. simpl in *.
    split; [congruence|done].
  - right. by exists a5.
Qed.

Lemma guarded_log manager s dataWritten s' r :
  guarded_attempt manager s dataWritten = (s', r) ->
  sp_splits s' = sp_splits s \/
  exists ps, sp_splits s' = ps :: sp_splits s /\ split_request (c_range (sp_chunk s)) ps.
Proof.
  unfold guarded_attempt, scatch.
  destruct (attempt _ _ _ _ _ _) as [s1 r1] eqn:Ha. apply attempt_log in Ha.
  assert (Hh : forall e, spreserves sp_splits
    (smodify (set_chunk clearBytesWritten) ;!
     if isStaleShardingError e then smodify invalidate else sret ())%state)
    by (intros e; preserves; done).
  destruct r1 as [u|e| |]; try (intros [= <- _]; exact Ha).
  destruct (isDBException e); [|intros [= <- _]; exact Ha].
  intros H. specialize (Hh e s1). rewrite H in Hh. simpl in Hh. rewrite Hh. exact Ha.
Qed.

(** One write sends at most one split request, for the chunk it wrote to,
    with at least two and at most 8192 split points that are not the bounds of
    the chunk; the range, shard and version of the cached chunk stay as they
    are. *)
Lemma autosplit_request manager dataWritten s :
  let '(s', _) := updateChunkWriteStatsAndSplitIfNeeded snprintf_g16 hash64 env manager dataWritten s in
  same_routing (sp_chunk s) (sp_chunk s') /\
  (sp_splits s' = sp_splits s \/
   exists ps, sp_splits s' = ps :: sp_splits s /\ split_request (c_range (sp_chunk s)) ps).
Proof.
  rewrite update_unfold. destruct (wants_split manager s dataWritten) as [[]| | |]; try (split; [done|by left]).
  pose proof (guarded_preserves (fun s => (c_range (sp_chunk s), c_shardId (sp_chunk s),
    c_lastmod (sp_chunk s))) manager s dataWritten ltac:(done) ltac:(done) ltac:(done)
    ltac:(done)) as Hg.
  destruct (guarded_attempt manager s dataWritten) as [s' r] eqn:E. apply guarded_log in E.
  simpl in Hg. injection Hg as H1 H2 H3. destruct r; (split; [done|exact E]).
Qed.

(** The size handed to splitVector is the configured chunk size as long as
    the configuration does not change during the attempt; the "too many split
    points" branch never lowers it. *)
Lemma chunkSizeToUse_is_configured written size :
  0 < size < 2 ^ 63 -> 0 <= written < 2 ^ 64 -> env_maxChunkSizeBytes_refreshed env = size ->
  chunkSizeToUse env written size = Ret size.
Proof.
  intros Hs Hw He. unfold chunkSizeToUse. rewrite He.
  destruct (Z.eqb_spec size 0); [lia|].
  destruct (Z.leb_spec kTooManySplitPoints (u64 (written / size * 2))) as [Hk|]; [|done].
  f_equal. apply Z.min_r. unfold kTooManySplitPoints, u64 in Hk.
  assert (0 < written / size).
  { destruct (Z.eq_dec (written / size) 0) as [E|]; [rewrite E in Hk; by vm_compute in Hk|].
    pose proof (Z.div_pos written size). lia. }
  pose proof (Z.mul_div_le written size). nia.
Qed.
End auto_split_properties.

(** * What the tuning computes *)

(** Keys as the workload generator makes them: "user", a number of ten digits,
    and further characters. *)
Definition user_point (k : Z) (rest : string) : BSONObj :=
  [("_id", VString ("user" +:+ dec k +:+ rest))].

Definition ten_digits (k : Z) : Prop := 10 ^ 9 <= k < 10 ^ 10.
Definition user_key_ok (e : Z * string) : Prop := ten_digits e.1 /\ e.2 <> "".

(** A tuned point: the new number, and the rest of the key without its last
    character. *)
Definition tuned_point (k : Z) (rest : string) : BSONObj := user_point k (init rest).

(** The numbers above the average move down, by the shift, half of it, and so
    on; those below it move up, starting from the one nearest to the average. *)
Fixpoint move_down (s : Z) (ks : list Z) : list Z :=
  match ks with
  | [] => []
  | k :: ks => u64 (k - s) :: move_down (s / 2) ks
  end.

Fixpoint move_up (avg s : Z) (rks : list Z) : list Z :=
  match rks with
  | [] => []
  | k :: rks => if k =? avg then k :: move_up avg s rks else u64 (k + s) :: move_up avg (s / 2) rks
  end.

Definition below (avg : Z) (ks : list Z) : nat := List.length (filter (fun k => k <= avg) ks).

Definition tuned_numbers (avg s : Z) (ks : list Z) : list Z :=
  rev (move_up avg s (rev (take (below avg ks) ks))) ++ move_down s (drop (below avg ks) ks).

Section tuning.
Context (snprintf_g16 : Dbl -> string) (hash64 : BSONValue -> Int64) (env : SplitEnv).

Lemma dec10 k : ten_digits k -> String.length (dec k) = 10%nat.
Proof. intros Hk. apply (dec_length 10); [lia|exact Hk]. Qed.

Lemma prefix_number_dec k r : ten_digits k -> prefix_number (dec k +:+ r) = k.
Proof.
  intros Hk. unfold prefix_number. rewrite <- (dec10 k Hk), substr_app_l0, istream_u64_dec; [done|].
  unfold ten_digits in Hk. lia.
Qed.

Lemma id_text_user k r : r <> "" -> id_text (user_point k r) = Ret (dec k +:+ init r).
Proof.
  intros Hr. unfold id_text, user_point. cbn [getField String.eqb Ascii.eqb Bool.eqb].
  rewrite (replace_found_prefix "user" "user"); [|done|apply is_prefix_of_app|done].
  cbn [obind]. by apply erase_last_app.
Qed.

Lemma renumber_user k r k' : ten_digits k -> renumber (dec k +:+ r) k' = Ret (user_point k' r).
Proof.
  intros Hk. unfold renumber, user_point.
  assert (Hl : String.length ("user" +:+ dec k) = 14%nat) by (rewrite length_app_string, dec10; done).
  assert (Ha : "user" +:+ dec k +:+ r = ("user" +:+ dec k) +:+ r) by (by rewrite app_assoc_string).
  assert (Hlen : (14 <= String.length ("user" +:+ dec k +:+ r))%nat)
    by (rewrite Ha, length_app_string, Hl; lia).
  rewrite (proj2 (Nat.ltb_ge _ _) Hlen). do 4 f_equal.
  assert (H1 : substr ("user" +:+ dec k +:+ r) 0 4 = "user") by (apply (substr_app_l0 "user")).
  assert (H2 : substr ("user" +:+ dec k +:+ r) 14 (String.length ("user" +:+ dec k +:+ r)) = r).
  { rewrite Ha. rewrite <- Hl at 1. rewrite substr_app_r. apply substr_all.
    rewrite length_app_string. lia. }
  by rewrite H1, H2.
Qed.

Lemma count_below_user avg (l : list (Z * string)) n :
  Forall user_key_ok l ->
  ofold (fun n p => let* t := id_text p in
                    Ret (if prefix_number t <=? avg then n + 1 else n)) n
    ((fun e => user_point e.1 e.2) <$> l) =
  Ret (n + Z.of_nat (below avg (l.*1))).
Proof.
  intros Hl. revert n. induction Hl as [|[k r] l [Hk Hr] _ IH]; intros n.
  - unfold below. simpl. f_equal. lia.
  - simpl in Hk, Hr. rewrite !fmap_cons. cbn [fst snd ofold]. rewrite id_text_user by done. cbn [obind].
    rewrite prefix_number_dec by done. rewrite IH. f_equal. unfold below. rewrite filter_cons.
    destruct (Z.leb_spec k avg).
    + rewrite decide_True by done. simpl. lia.
    + rewrite decide_False by lia. done.
Qed.

Lemma below_le avg ks : (below avg ks <= List.length ks)%nat.
Proof. apply length_filter. Qed.

Lemma right_loop_user fuel s pre (l : list (Z * string)) :
  Forall user_key_ok l -> (List.length pre + List.length l <= 255)%nat -> (List.length l <= fuel)%nat ->
  right_loop fuel (Z.of_nat (List.length pre)) s (pre ++ ((fun e => user_point e.1 e.2) <$> l)) =
  Ret (pre ++ zip_with tuned_point (move_down s (l.*1)) (l.*2)).
Proof.
  intros Hl. revert fuel s pre. induction Hl as [|[k r] l [Hk Hr] _ IH]; intros fuel s pre Hlen Hf.
  - simpl. rewrite !app_nil_r. destruct fuel; cbn [right_loop]; by rewrite Z.ltb_irrefl.
  - destruct fuel as [|fuel]; simpl in Hf, Hlen; [lia|]. simpl in Hk, Hr.
    cbn [right_loop]. rewrite (proj2 (Z.ltb_lt _ _)) by (rewrite length_app; simpl; lia).
    rewrite Nat2Z.id, lookup_app_r, Nat.sub_diag by lia. cbn [fmap list_fmap lookup list_lookup fst snd].
    rewrite id_text_user by done. cbn [obind]. rewrite prefix_number_dec, renumber_user by done.
    cbn [obind]. rewrite insert_app_r_alt, Nat.sub_diag by lia.
    assert (Hi : u8 (Z.of_nat (List.length pre) + 1) = Z.of_nat (List.length (pre ++ [tuned_point (u64 (k - s)) r]))).
    { unfold u8. rewrite Z.mod_small by lia. rewrite length_app. simpl. lia. }
    cbn [insert list_insert]. rewrite Hi.
    specialize (IH fuel (s / 2) (pre ++ [tuned_point (u64 (k - s)) r])).
    rewrite <- !app_assoc in IH. cbn [app] in IH.
    etrans; [apply IH; rewrite ?length_app; simpl; lia|]. done.
Qed.

Lemma move_up_length avg s rks : List.length (move_up avg s rks) = List.length rks.
Proof.
  revert s. induction rks as [|k rks IH]; intros s; simpl; [done|].
  destruct (k =? avg); simpl; by rewrite IH.
Qed.

Lemma move_down_length s ks : List.length (move_down s ks) = List.length ks.
Proof. revert s. induction ks as [|k ks IH]; intros s; simpl; [done|]. by rewrite IH. Qed.

Lemma left_loop_user avg s (l : list (Z * string)) post :
  Forall user_key_ok l ->
  left_loop avg (List.length l) s (((fun e => user_point e.1 e.2) <$> l) ++ post) =
  Ret (zip_with tuned_point (rev (move_up avg s (rev (l.*1)))) (l.*2) ++ post).
Proof.
  revert s post. induction l as [|[k r] l IH] using rev_ind; intros s post Hl; [done|].
  apply Forall_app in Hl as [Hl [[Hk Hr] _]%Forall_cons]. simpl in Hk, Hr.
  rewrite length_app, Nat.add_comm. cbn [List.length Nat.add left_loop].
  rewrite !fmap_app, <- app_assoc, lookup_app_r, length_fmap, Nat.sub_diag by (by rewrite length_fmap).
  cbn [fmap list_fmap app lookup list_lookup fst snd]. rewrite id_text_user by done. cbn [obind].
  rewrite prefix_number_dec by done. rewrite rev_app_distr. cbn [rev app move_up].
  assert (Hz : forall s' k', left_loop avg (List.length l) s'
      (<[List.length l := tuned_point k' r]> (((fun e => user_point e.1 e.2) <$> l) ++ user_point k r :: post)) =
    Ret (zip_with tuned_point (rev (move_up avg s' (rev (l.*1))) ++ [k']) (l.*2 ++ [r]) ++ post)).
  { intros s' k'. rewrite insert_app_r_alt, length_fmap, Nat.sub_diag by (by rewrite length_fmap).
    cbn [insert list_insert]. etrans; [by apply IH|]. f_equal.
    rewrite zip_with_app by (by rewrite length_rev, move_up_length, length_rev, !length_fmap).
    by rewrite <- app_assoc. }
  destruct (Z.eqb_spec k avg); cbn [negb rev]; rewrite renumber_user by done; cbn [obind]; apply Hz.
Qed.

Lemma tuning_loops avg s (l : list (Z * string)) :
  Forall user_key_ok l -> (List.length l <= 255)%nat ->
  (let* ps := right_loop 256 (u8 (Z.of_nat (below avg (l.*1)))) s ((fun e => user_point e.1 e.2) <$> l) in
   left_loop avg (below avg (l.*1)) s ps) =
  Ret (zip_with tuned_point (tuned_numbers avg s (l.*1)) (l.*2)).
Proof.
  intros Hl Hlen. set (n := below avg (l.*1)).
  assert (Hn : (n <= List.length l)%nat) by (unfold n; rewrite <- (length_fmap fst l); apply below_le).
  pose proof (take_drop n l) as Htd. set (l1 := take n l) in *. set (l2 := drop n l) in *.
  assert (Hl1 : List.length l1 = n) by (unfold l1; rewrite length_take; lia).
  assert (Hall : Forall user_key_ok l1 /\ Forall user_key_ok l2) by (apply Forall_app; by rewrite Htd).
  assert (Hu8 : u8 (Z.of_nat n) =
    Z.of_nat (List.length ((fun e : Z * string => user_point e.1 e.2) <$> l1))).
  { rewrite length_fmap, Hl1. unfold u8. apply Z.mod_small. lia. }
  unfold tuned_numbers. fold n. rewrite <- fmap_take, <- fmap_drop. fold l1 l2.
  assert (Hps : (fun e : Z * string => user_point e.1 e.2) <$> l =
    ((fun e => user_point e.1 e.2) <$> l1) ++ ((fun e => user_point e.1 e.2) <$> l2))
    by (by rewrite <- fmap_app, Htd).
  rewrite Hps, Hu8. assert (Hl2 : List.length l2 = (List.length l - n)%nat) by apply length_drop.
  rewrite right_loop_user; [|apply Hall|rewrite length_fmap; lia|lia]. cbn [obind].
  rewrite <- Hl1. etrans; [apply left_loop_user, Hall|]. f_equal.
  assert (Hsnd : l.*2 = l1.*2 ++ l2.*2) by (by rewrite <- fmap_app, Htd).
  rewrite Hsnd, zip_with_app; [done|].
  by rewrite length_rev, move_up_length, length_rev, !length_fmap.
Qed.

(** The text of a bound starts with the ten digits after twelve characters. *)
Lemma user_point_text k r :
  ten_digits k -> exists tail, tail <> "" /\
    BSONObj_toString snprintf_g16 (user_point k r) =
      Ret (("{ _id: " +:+ quote +:+ "user") +:+ (dec k +:+ tail)).
Proof.
  intros Hk. unfold user_point.
  change (BSONObj_toString snprintf_g16 [("_id", VString ("user" +:+ dec k +:+ r))]) with
    (Ret ("{ " +:+ ("_id: " +:+ scalar_toString snprintf_g16 false
       (VString ("user" +:+ dec k +:+ r))) +:+ " }")).
  cbn [scalar_toString negb andb]. unfold write.
  destruct (160 <? slen ("user" +:+ dec k +:+ r) + 1).
  - exists ((substr r 0 136 +:+ "..." +:+ quote) +:+ " }"). split.
    + destruct (substr r 0 136); done.
    + f_equal. change (Z.to_nat 150) with (String.length "user" + (10 + 136))%nat.
      rewrite substr_app_l. rewrite <- (dec10 k Hk) at 1. rewrite substr_app_l.
      by rewrite !app_assoc_string.
  - exists (r +:+ quote +:+ " }"). split; [by destruct r|]. f_equal.
    rewrite slen_length, Nat2Z.id, substr_all by done. by rewrite !app_assoc_string.
Qed.

Lemma bound_prefix_user k r : ten_digits k -> bound_prefix snprintf_g16 (user_point k r) = Ret k.
Proof.
  intros Hk. unfold bound_prefix. destruct (user_point_text k r Hk) as (tail & Htail & ->).
  cbn [obind]. rewrite (replace_found_prefix "{"); [|done|done|done]. cbn [obind].
  rewrite erase_last_app by done. cbn [obind]. unfold prefix_u64.
  rewrite <- (dec10 k Hk), substr_app_l0, istream_u64_dec; [done|].
  unfold ten_digits in Hk. lia.
Qed.

Lemma dynamic_tuning_user skp chunk avg (l : list (Z * string)) kmin rmin kmax rmax s :
  Forall user_key_ok l -> (List.length l <= 255)%nat ->
  ten_digits kmin -> ten_digits kmax ->
  getMin chunk = user_point kmin rmin -> getMax chunk = user_point kmax rmax ->
  shift_of kmax kmin = Ret s ->
  dynamic_tuning snprintf_g16 hash64 env skp chunk false false avg
    ((fun e => user_point e.1 e.2) <$> l) =
  Ret (zip_with tuned_point (tuned_numbers avg s (l.*1)) (l.*2)).
Proof.
  intros Hl Hlen Hkmin Hkmax Hmn Hmx Hs. unfold dynamic_tuning, count_below.
  rewrite count_below_user, Z.add_0_l by done. cbn [obind]. rewrite Hmx, Hmn. cbn [obind].
  rewrite bound_prefix_user by done. cbn [obind]. rewrite bound_prefix_user by done. cbn [obind].
  rewrite Hs. cbn [obind]. rewrite Nat2Z.id. by apply tuning_loops.
Qed.

(** C36: for keys of the workload's form and at most 255 split points, tuning
    returns every split point with its ten-digit number moved towards the
    average: those above the average down by the shift, a half, a quarter, ...,
    those below it up in the same way starting from the nearest; the characters
    after the number stay, except that the last one is lost. *)
Theorem dynamic_tuning_numbers skp chunk avg (l : list (Z * string)) kmin rmin kmax rmax s :
  Forall user_key_ok l -> (List.length l <= 255)%nat ->
  ten_digits kmin -> ten_digits kmax ->
  getMin chunk = user_point kmin rmin -> getMax chunk = user_point kmax rmax ->
  shift_of kmax kmin = Ret s ->
  dynamic_tuning snprintf_g16 hash64 env skp chunk false false avg
    ((fun e => user_point e.1 e.2) <$> l) =
  Ret (zip_with tuned_point (tuned_numbers avg s (l.*1)) (l.*2)).
Proof. apply dynamic_tuning_user. Qed.
End tuning.

(** * The order of tuned points *)

Lemma move_down_bound b s ks :
  0 <= b -> 0 <= s -> (forall k, k ∈ ks -> b + s <= k < 2 ^ 64) ->
  forall x, x ∈ move_down s ks -> b <= x.
Proof.
  intros Hb. revert s. induction ks as [|k ks IH]; intros s Hs Hk x; simpl; [by intros ?%not_elem_of_nil|].
  pose proof (Hk k (list_elem_of_here _ _)). rewrite u64_id by lia.
  intros [->|Hin]%elem_of_cons; [lia|]. eapply (IH (s / 2)); [apply Z.div_pos; lia| |done].
  intros k' Hk'. specialize (Hk k' (list_elem_of_further _ _ _ Hk')).
  assert (s / 2 <= s) by (apply Z.div_le_upper_bound; lia). lia.
Qed.

Lemma move_down_sorted s ks :
  StronglySorted Z.lt ks -> 0 <= s -> (forall k, k ∈ ks -> s <= k < 2 ^ 64) ->
  StronglySorted Z.lt (move_down s ks).
Proof.
  intros Hks. revert s. induction Hks as [|k ks Hks IH Hall]; intros s Hs Hk; simpl; [constructor|].
  pose proof (Hk k (list_elem_of_here _ _)). rewrite Forall_forall in Hall.
  assert (0 <= s / 2 <= s) by (split; [apply Z.div_pos|apply Z.div_le_upper_bound]; lia).
  assert (Hk' : forall k', k' ∈ ks -> k < k' < 2 ^ 64).
  { intros k' Hin. split; [by apply Hall|]. by apply (Hk k'), list_elem_of_further. }
  rewrite u64_id by lia. constructor.
  - apply IH; [lia|]. intros k' Hin. specialize (Hk' k' Hin). lia.
  - apply Forall_forall. intros x Hx. enough (k - s + 1 <= x) by lia.
    eapply (move_down_bound (k - s + 1) (s / 2) ks); [lia|lia| |done]. intros k' Hin. specialize (Hk' k' Hin). lia.
Qed.

Lemma move_up_bound avg b s rks :
  avg ∉ rks -> 0 <= s -> (forall k, k ∈ rks -> 0 <= k /\ k + s <= b < 2 ^ 64) ->
  forall x, x ∈ move_up avg s rks -> x <= b.
Proof.
  revert s. induction rks as [|k rks IH]; intros s Ha Hs Hk x; simpl; [by intros ?%not_elem_of_nil|].
  apply not_elem_of_cons in Ha as [Hne Ha]. pose proof (Hk k (list_elem_of_here _ _)).
  destruct (Z.eqb_spec k avg); [congruence|]. rewrite u64_id by lia.
  intros [->|Hin]%elem_of_cons; [lia|]. eapply (IH (s / 2)); [done|apply Z.div_pos; lia| |done].
  intros k' Hk'. specialize (Hk k' (list_elem_of_further _ _ _ Hk')).
  assert (s / 2 <= s) by (apply Z.div_le_upper_bound; lia). lia.
Qed.

Lemma move_up_sorted avg s rks :
  StronglySorted (fun x y => y < x) rks -> avg ∉ rks -> 0 <= s -> (forall k, k ∈ rks -> 0 <= k /\ k + s < 2 ^ 64) ->
  StronglySorted (fun x y => y < x) (move_up avg s rks).
Proof.
  intros Hks. revert s. induction Hks as [|k ks Hks IH Hall]; intros s Ha Hs Hk; simpl; [constructor|].
  apply not_elem_of_cons in Ha as [Hne Ha]. pose proof (Hk k (list_elem_of_here _ _)).
  rewrite Forall_forall in Hall.
  assert (0 <= s / 2 <= s) by (split; [apply Z.div_pos|apply Z.div_le_upper_bound]; lia).
  assert (Hk' : forall k', k' ∈ ks -> 0 <= k' < k).
  { intros k' Hin. specialize (Hall k' Hin). specialize (Hk k' (list_elem_of_further _ _ _ Hin)). lia. }
  destruct (Z.eqb_spec k avg); [congruence|]. rewrite u64_id by lia. constructor.
  - apply IH; [done|lia|]. intros k' Hin. specialize (Hk' k' Hin). lia.
  - apply Forall_forall. intros x Hx. enough (x <= k + s - 1) by lia.
    eapply (move_up_bound avg (k + s - 1) (s / 2) ks); [done|lia| |done]. intros k' Hin. specialize (Hk' k' Hin). lia.
Qed.

Lemma StronglySorted_rev (R : Z -> Z -> Prop) l :
  StronglySorted R l -> StronglySorted (fun x y => R y x) (rev l).
Proof.
  induction 1 as [|x l Hl IH Hall]; simpl; [constructor|]. rewrite Forall_forall in Hall.
  apply StronglySorted_app. split; [|split; [done|repeat constructor]].
  intros x1 x2 H1 ->%list_elem_of_singleton. apply Hall. by apply list_elem_of_In, in_rev, list_elem_of_In.
Qed.

Lemma below_take avg ks : StronglySorted Z.le ks ->
  (forall k, k ∈ take (below avg ks) ks -> k <= avg) /\
  (forall k, k ∈ drop (below avg ks) ks -> avg < k).
Proof.
  unfold below. induction 1 as [|k ks Hks [IH1 IH2] Hall]; [split; intros ? ?%not_elem_of_nil; done|].
  rewrite Forall_forall in Hall. rewrite filter_cons. destruct (decide (k <= avg)) as [Hk|Hk].
  - cbn [List.length take drop]. split; [|done]. intros k' [->|?]%elem_of_cons; auto.
  - assert (filter (fun k => k <= avg) ks = []) as ->.
    { destruct (filter (fun k => k <= avg) ks) as [|k' l] eqn:E; [done|].
      assert (k' ∈ filter (fun k => k <= avg) ks) as [? Hin]%list_elem_of_filter by (rewrite E; left).
      specialize (Hall k' Hin). lia. }
    cbn [List.length take drop]. split; [by intros ? ?%not_elem_of_nil|].
    intros k' [->|Hin]%elem_of_cons; [lia|]. specialize (Hall k' Hin). lia.
Qed.

Lemma move_up_head avg s a l :
  avg <> a -> last (rev (move_up avg s (rev (l ++ [a])))) = Some (u64 (a + s)).
Proof.
  intros Ha. rewrite rev_app_distr. cbn [rev app move_up]. destruct (Z.eqb_spec a avg); [congruence|].
  cbn [rev]. by rewrite last_snoc.
Qed.

(** Every point below the average ends at or below where the nearest one ends;
    every point above it at or above where the nearest one ends. *)
Lemma tuned_left avg s a l x :
  StronglySorted Z.le (l ++ [a]) -> avg ∉ l ++ [a] -> 0 <= s ->
  (forall k, k ∈ l ++ [a] -> 0 <= k /\ k + s < 2 ^ 64) ->
  x ∈ rev (move_up avg s (rev (l ++ [a]))) -> x <= a + s.
Proof.
  intros Hl Ha Hs Hk Hx. pose proof (Hk a ltac:(set_solver)) as Hka.
  apply StronglySorted_app in Hl as (Hl & _ & _).
  eapply (move_up_bound avg (a + s) s (rev (l ++ [a]))); [..|by apply list_elem_of_In, in_rev, list_elem_of_In].
  - intros Hin. apply Ha. by apply list_elem_of_In, in_rev, list_elem_of_In.
  - done.
  - intros k Hin%list_elem_of_In%in_rev%list_elem_of_In. pose proof (Hk k Hin) as Hkk.
    apply elem_of_app in Hin as [Hin| ->%list_elem_of_singleton]; [|lia].
    pose proof (Hl k a Hin ltac:(set_solver)). lia.
Qed.

Lemma tuned_right s b r x :
  StronglySorted Z.le (b :: r) -> 0 <= s -> (forall k, k ∈ b :: r -> s <= k < 2 ^ 64) ->
  x ∈ move_down s (b :: r) -> b - s <= x.
Proof.
  intros [Hr Hall]%StronglySorted_inv Hs Hk Hx. rewrite Forall_forall in Hall.
  pose proof (Hk b ltac:(set_solver)).
  eapply (move_down_bound (b - s) s (b :: r)); [lia|done| |done].
  intros k Hin. pose proof (Hk k Hin). apply elem_of_cons in Hin as [->|Hin]; [lia|].
  specialize (Hall k Hin). lia.
Qed.

(** The numbers stay numbers of ten digits: there is room for the shift. *)
Definition room (avg s k : Z) : Prop := if k <=? avg then (10 ^ 9 <= k /\ k + s < 10 ^ 10) else (10 ^ 9 + s <= k < 10 ^ 10).

Lemma Zlt_le_sorted l : StronglySorted Z.lt l -> StronglySorted Z.le l.
Proof. induction 1 as [|k l _ IH Hall]; constructor; [done|]. eapply Forall_impl; [exact Hall|]. intros x; cbn; lia. Qed.

Section tuned.
Context (avg s : Z) (ks : list Z).
Context (Hks : StronglySorted Z.lt ks) (Ha : avg ∉ ks) (Hs : 0 <= s) (Hk : forall k, k ∈ ks -> room avg s k).

Let L := take (below avg ks) ks.
Let R := drop (below avg ks) ks.

Lemma tuned_halves : StronglySorted Z.lt L /\ StronglySorted Z.lt R /\ avg ∉ L /\
  (forall k, k ∈ L -> 10 ^ 9 <= k /\ k + s < 10 ^ 10) /\ forall k, k ∈ R -> 10 ^ 9 + s <= k < 10 ^ 10.
Proof.
  destruct (below_take avg ks (Zlt_le_sorted ks Hks)) as [HL HR]. fold L in HL. fold R in HR.
  assert (E : ks = L ++ R) by (unfold L, R; by rewrite take_drop). pose proof Hks as Hso. rewrite E in Hso.
  apply StronglySorted_app in Hso as (_ & H1 & H2). split_and!; [done|done| | |].
  - intros Hin. apply Ha. rewrite E. apply elem_of_app. by left.
  - intros k Hin. specialize (Hk k ltac:(rewrite E; apply elem_of_app; by left)). specialize (HL k Hin). unfold room in Hk.
    by rewrite (proj2 (Z.leb_le k avg)) in Hk.
  - intros k Hin. specialize (Hk k ltac:(rewrite E; apply elem_of_app; by right)). specialize (HR k Hin). unfold room in Hk.
    by rewrite (proj2 (Z.leb_gt k avg)) in Hk.
Qed.

Lemma tuned_ten x : x ∈ tuned_numbers avg s ks -> ten_digits x.
Proof.
  destruct tuned_halves as (H1 & H2 & HaL & HL & HR). unfold tuned_numbers. fold L R. intros [Hx|Hx]%elem_of_app; unfold ten_digits.
  - apply list_elem_of_In, in_rev, list_elem_of_In in Hx.
    assert (HL' : forall k, k ∈ rev L -> 10 ^ 9 <= k /\ k + s < 10 ^ 10).
    { intros k Hin. apply HL. by apply list_elem_of_In, in_rev, list_elem_of_In. }
    revert Hs HL' Hx. clear. generalize (rev L). intros l. revert s. induction l as [|k l IH]; intros s Hs HL Hx; cbn [move_up] in Hx; [by apply not_elem_of_nil in Hx|].
    assert (0 <= s / 2 <= s) by (split; [apply Z.div_pos|apply Z.div_le_upper_bound]; lia).
    pose proof (HL k ltac:(left)). destruct (k =? avg); apply elem_of_cons in Hx as [->|Hx]; [lia| |rewrite u64_id by lia; lia|].
    + apply (IH s); [done|intros; apply HL; by right|done].
    + apply (IH (s / 2)); [lia| |done]. intros k' Hin. specialize (HL k' ltac:(by right)). lia.
  - revert Hs HR Hx. clear. generalize R. intros l. revert s. induction l as [|k l IH]; intros s Hs HR Hx; cbn [move_down] in Hx; [by apply not_elem_of_nil in Hx|].
    assert (0 <= s / 2 <= s) by (split; [apply Z.div_pos|apply Z.div_le_upper_bound]; lia).
    pose proof (HR k ltac:(left)). apply elem_of_cons in Hx as [->|Hx]; [rewrite u64_id by lia; lia|].
    apply (IH (s / 2)); [lia| |done]. intros k' Hin. specialize (HR k' ltac:(by right)). lia.
Qed.

(** The two numbers around the average decide the order. *)
Lemma tuned_cross a b : StronglySorted Z.le (tuned_numbers avg s ks) -> last L = Some a -> head R = Some b -> a + s <= b - s.
Proof.
  destruct tuned_halves as (_ & _ & HaL & HL & HR). unfold tuned_numbers. fold L R. intros (Hx & _ & _)%StronglySorted_app El Er.
  apply last_Some in El as [L' EL]. destruct R as [|b' R'] eqn:ER; [done|]. injection Er as ->.
  pose proof (HL a ltac:(rewrite EL; apply elem_of_app; right; left)). pose proof (HR b ltac:(left)).
  rewrite <- (u64_id (a + s)), <- (u64_id (b - s)) by lia. apply Hx; [|left].
  apply last_Some_elem_of. rewrite EL. apply move_up_head. intros ->. apply HaL. rewrite EL. apply elem_of_app. right. left.
Qed.

Lemma tuned_strict : (forall a b, last L = Some a -> head R = Some b -> a + s < b - s) -> StronglySorted Z.lt (tuned_numbers avg s ks).
Proof.
  destruct tuned_halves as (H1 & H2 & HaL & HL & HR). intros Hab. unfold tuned_numbers. fold L R. apply StronglySorted_app. split_and!.
  - intros x y Hx Hy. destruct R as [|b R'] eqn:ER; [by apply not_elem_of_nil in Hy|].
    destruct (last L) as [a|] eqn:El; [|apply last_None in El; rewrite El in Hx; by apply not_elem_of_nil in Hx].
    specialize (Hab a b eq_refl eq_refl). apply last_Some in El as [L' EL]. rewrite EL in *.
    apply tuned_left in Hx; [|by apply Zlt_le_sorted|done|done|intros k Hin; specialize (HL k Hin); lia].
    apply tuned_right in Hy; [|by apply Zlt_le_sorted|done|intros k Hin; specialize (HR k Hin); lia]. lia.
  - apply (StronglySorted_rev (fun x y => y < x)). apply move_up_sorted; [exact (StronglySorted_rev Z.lt L H1)| |done|].
    + by rewrite list_elem_of_In, <- in_rev, <- list_elem_of_In.
    + intros k Hin%list_elem_of_In%in_rev%list_elem_of_In. specialize (HL k Hin). lia.
  - apply move_down_sorted; [done|done|]. intros k Hin. specialize (HR k Hin). lia.
Qed.
End tuned.

(** * The order of tuned keys *)

Lemma user_point_cmp x y r r' : ten_digits x -> ten_digits y ->
  kcmp (user_point x r) (user_point y r') = lexc (x ?= y) (slex r r').
Proof.
  intros Hx Hy. unfold kcmp, BSONObj_KeyOrder, woCompare, BSONObj_woCompare_gen, user_point. rewrite objects_loop_cons.
  unfold BSONElement_woCompare. rewrite elem_woCompare_lex. cbn [idx_flip tail objects_loop compareElements type_of].
  rewrite compareElementStringValues_spec, Z.compare_refl, slex_refl. cbn [lexc].
  rewrite <- (dec_order 10 x y r r') by (done || lia).
  change (slex ("user" +:+ dec x +:+ r) ("user" +:+ dec y +:+ r')) with (slex (dec x +:+ r) (dec y +:+ r')).
  by destruct (slex _ _).
Qed.

Lemma tuned_keys_sorted ks rs : (forall k, k ∈ ks -> ten_digits k) -> StronglySorted Z.lt ks -> StronglySorted klt (zip_with tuned_point ks rs).
Proof.
  intros Ht Hs. revert rs. induction Hs as [|k ks Hs IH Hall]; intros [|r rs]; cbn [zip_with]; try constructor.
  - apply IH. intros x Hx. apply Ht. by right.
  - apply Forall_forall. intros p (x & r' & -> & Hx & _)%elem_of_zip_with. rewrite Forall_forall in Hall. specialize (Hall x Hx).
    unfold klt, tuned_point. rewrite user_point_cmp; [|apply Ht; left|apply Ht; by right]. by rewrite (proj2 (Z.compare_lt_iff k x)).
Qed.

Lemma sorted_keys_numbers ks rs : (forall k, k ∈ ks -> ten_digits k) -> List.length ks = List.length rs ->
  StronglySorted klt (zip_with tuned_point ks rs) -> StronglySorted Z.le ks.
Proof.
  revert rs. induction ks as [|k ks IH]; intros [|r rs] Ht Hl Hs; try done; [constructor|]. cbn [zip_with] in Hs.
  apply StronglySorted_inv in Hs as [Hs Hall]. constructor; [apply (IH rs); [intros x Hx; apply Ht; by right|by injection Hl|done]|].
  apply Forall_forall. intros x Hx. rewrite Forall_forall in Hall. apply list_elem_of_lookup in Hx as [i Hi].
  destruct (lookup_lt_is_Some_2 rs i) as [r' Hr']; [injection Hl as Hl; rewrite <- Hl; by eapply lookup_lt_Some|].
  specialize (Hall (tuned_point x r') (elem_of_lookup_zip_with_2 _ _ _ _ _ [] i Hi Hr')). unfold klt, tuned_point in Hall.
  rewrite user_point_cmp in Hall; [|apply Ht; left|apply Ht; right; by eapply list_elem_of_lookup_2].
  destruct (Z.compare_spec k x); [lia|lia|]. cbn [lexc] in Hall. discriminate Hall.
Qed.

Section tuning_order.
Context (snprintf_g16 : Dbl -> string) (hash64 : BSONValue -> Int64) (env : SplitEnv).

(** C35: The keys that come back from the tuning ascend exactly when the two split
    points around the average are more than two shifts apart.  This is for keys of the
    workload's form and at most 255 split points whose numbers ascend strictly, none
    equal to the average, with room for the shift within ten digits, and not exactly
    two shifts apart at the average; the order is that of the keys, [woCompare]. *)
Theorem dynamic_tuning_order skp chunk avg (l : list (Z * string)) kmin rmin kmax rmax s :
  Forall user_key_ok l -> (List.length l <= 255)%nat ->
  ten_digits kmin -> ten_digits kmax ->
  getMin chunk = user_point kmin rmin -> getMax chunk = user_point kmax rmax ->
  shift_of kmax kmin = Ret s ->
  StronglySorted Z.lt l.*1 -> avg ∉ l.*1 -> 0 <= s -> (forall k, k ∈ l.*1 -> room avg s k) ->
  let around a b := last (take (below avg l.*1) l.*1) = Some a /\ head (drop (below avg l.*1) l.*1) = Some b in
  (forall a b, around a b -> a + s <> b - s) ->
  exists splitPoints,
    dynamic_tuning snprintf_g16 hash64 env skp chunk false false avg ((fun e => user_point e.1 e.2) <$> l) = Ret splitPoints /\
    List.length splitPoints = List.length l /\
    (StronglySorted klt splitPoints <-> forall a b, around a b -> a + s < b - s).
Proof.
  intros Hl Hlen Hmin Hmax Hb1 Hb2 Hsh Hks Ha Hs Hk around Hne. exists (zip_with tuned_point (tuned_numbers avg s l.*1) l.*2).
  assert (El : List.length (tuned_numbers avg s l.*1) = List.length l).
  { unfold tuned_numbers. rewrite length_app, length_rev, move_up_length, length_rev, move_down_length.
    by rewrite <- length_app, take_drop, length_fmap. }
  pose proof (tuned_ten avg s l.*1 Hks Ha Hs Hk) as Ht. split_and!.
  - by apply (dynamic_tuning_user _ _ _ _ _ _ _ kmin rmin kmax rmax).
  - rewrite length_zip_with, El, length_fmap. lia.
  - split.
    + intros Hso a b Hab. apply sorted_keys_numbers in Hso; [|done|by rewrite El, length_fmap].
      pose proof (tuned_cross avg s l.*1 Hks Ha Hs Hk a b Hso (proj1 Hab) (proj2 Hab)). specialize (Hne a b Hab). lia.
    + intros Hab. apply tuned_keys_sorted; [done|]. apply tuned_strict; [done..|]. intros a b H1 H2. by apply Hab.
Qed.
End tuning_order.

(** * Concurrent attempts *)

(** The attempts of different threads share the ticket holder: [running] is the
    number of attempts that hold a ticket. *)
Inductive ticket_step : TicketHolder * nat -> TicketHolder * nat -> Prop :=
| step_acquired t t' running :
    tryAcquire t = (true, t') -> ticket_step (t, running) (t', S running)
| step_refused t t' running :
    tryAcquire t = (false, t') -> ticket_step (t, running) (t', running)
| step_released t running :
    ticket_step (t, S running) (release t, running).

Lemma ticket_step_inv p q :
  ticket_step p q ->
  used p.1 = Z.of_nat p.2 /\ 0 <= available p.1 -> used q.1 = Z.of_nat q.2 /\ 0 <= available q.1.
Proof.
  unfold used, available. destruct 1 as [t t' n H|t t' n H|t n]; unfold tryAcquire, release in *;
    try (destruct (Z.ltb_spec 0 (th_available t))); simplify_eq; simpl; lia.
Qed.

Lemma ticket_step_outof p q : ticket_step p q -> th_outof q.1 = th_outof p.1.
Proof. destruct 1 as [t t' n H|t t' n H|t n]; unfold tryAcquire in *; try case_match; simplify_eq; done. Qed.

(** However attempts of concurrent threads interleave, the tickets in use
    are the attempts running, and there are never more than five of them. *)
Lemma parallel_splits_bounded t running :
  rtc ticket_step (newTicketHolder maxParallelSplits, 0%nat) (t, running) ->
  used t = Z.of_nat running /\ Z.of_nat running <= maxParallelSplits.
Proof.
  intros H.
  assert (Hinv : (used t = Z.of_nat running /\ 0 <= available t) /\ th_outof t = maxParallelSplits).
  { change ((fun q : TicketHolder * nat => (used q.1 = Z.of_nat q.2 /\ 0 <= available q.1) /\
      th_outof q.1 = maxParallelSplits) (t, running)). revert H. apply rtc_ind_r; [done|].
    intros y z _ Hyz [IH1 IH2]. split; [by eapply ticket_step_inv|].
    by rewrite (ticket_step_outof y z). }
  unfold used, available in *. lia.
Qed.

(** * Example runs *)

(** A cluster that answers every request, with three split points. *)
Definition sample_points : list (Z * string) :=
  [(3000000000, "aa"); (5000000000, "bb"); (9000000000, "cc")].

Definition sample_env (allow : bool) (points : list BSONObj) : SplitEnv :=
  mkEnv 1024 allow (Ret ()) 1024 allow false (fun _ => Ret points) (fun _ => Ret None)
    (fun _ => Ret []) (Ret true) (Ret sample_cm) (fun _ => Ret ()).

Definition user_chunk (cnt : Z) : Chunk :=
  mkChunk (mkRange (user_point 1000000000 "a") (user_point 9990000000 "z")) "s0"
    (newVersion 1 0 OID_zero) false 900 4500000000 0 cnt.

Definition sample_split (chunk : Chunk) : SplitState :=
  mkSplit chunk (newTicketHolder maxParallelSplits) false [] [].

Definition sample_update (allow : bool) (points : list BSONObj) :=
  updateChunkWriteStatsAndSplitIfNeeded (fun _ => "") (fun _ => mkInt64 0 eq_refl)
    (sample_env allow points) sample_cm 5000.

Lemma autosplit_tickets_balanced_witness :
  let points := (fun e => user_point e.1 e.2) <$> sample_points in
  let s := sample_split (user_chunk 1) in
  (sample_update true points s).2 = Ret () /\
  List.length (sp_splits (sample_update true points s).1) = 1%nat /\
  sp_tickets (sample_update true points s).1 = sp_tickets s.
Proof.
  intros points s.
  pose proof (autosplit_tickets_balanced (fun _ => "") (fun _ => mkInt64 0 eq_refl)
    (sample_env true points) sample_cm 5000 s ltac:(done)) as H.
  unfold sample_update. destruct (updateChunkWriteStatsAndSplitIfNeeded _ _ _ _ _ s) as [s' r] eqn:E.
  vm_compute in E. injection E as <- <-. split; [done|]. split; [done|]. apply H.
Defined.

Lemma autosplit_idle_witness :
  let s := sample_split (user_chunk 1) in
  sample_update false [] s = (recorded s 5000, Ret ()).
Proof. intros s. unfold sample_update. apply autosplit_idle. vm_compute. reflexivity. Defined.

(** A split point whose text is not of the workload's form. *)
Definition foreign_point : BSONObj := [("_id", VString "order7")].

Lemma autosplit_errors_contained_witness :
  exists s' e, sample_update true [foreign_point; foreign_point] (sample_split (user_chunk 1)) =
    (s', Throw e) /\ e = StdOutOfRange.
Proof.
  destruct (sample_update true [foreign_point; foreign_point] (sample_split (user_chunk 1)))
    as [s' r] eqn:E.
  assert (Hr : exists e, r = Throw e) by (vm_compute in E; injection E as <- <-; by eexists).
  destruct Hr as [e ->]. exists s', e. split; [done|].
  unfold sample_update in E. eapply autosplit_errors_contained; [|exact E]. done.
Defined.

Lemma autosplit_uncounted_chunk_undefined_witness :
  (sample_update true [] (sample_split (user_chunk 0))).2 = Undef.
Proof.
  unfold sample_update. apply autosplit_uncounted_chunk_undefined; vm_compute; reflexivity.
Defined.

Lemma chunkSizeToUse_is_configured_witness :
  chunkSizeToUse (sample_env true []) 5900 1024 = Ret 1024.
Proof. apply chunkSizeToUse_is_configured; [lia|lia|reflexivity]. Defined.

Lemma dynamic_tuning_numbers_witness :
  dynamic_tuning (fun _ => "") (fun _ => mkInt64 0 eq_refl) (sample_env true [])
    (cm_shardKeyPattern sample_cm) (user_chunk 1) false false 4500000000
    ((fun e => user_point e.1 e.2) <$> sample_points) =
  Ret [user_point 3899000000 "a"; user_point 4101000000 "b"; user_point 8550500000 "c"].
Proof.
  refine (eq_trans (dynamic_tuning_numbers _ _ _ _ _ 4500000000 sample_points 1000000000 "a"
    9990000000 "z" 899000000 _ _ _ _ _ _ _) _).
  - repeat constructor; done.
  - simpl; lia.
  - done.
  - done.
  - reflexivity.
  - reflexivity.
  - vm_compute; reflexivity.
  - vm_compute; reflexivity.
Defined.

(** Evenly spaced points cross. *)
Definition even_points : list (Z * string) :=
  [(3000000000, "aa"); (4000000000, "bb"); (5000000000, "cc"); (6000000000, "dd")].

Lemma dynamic_tuning_order_witness :
  exists splitPoints, dynamic_tuning (fun _ => "") (fun _ => mkInt64 0 eq_refl) (sample_env true [])
      (cm_shardKeyPattern sample_cm) (user_chunk 1) false false 4500000000
      ((fun e => user_point e.1 e.2) <$> even_points) = Ret splitPoints /\
    ~ StronglySorted klt splitPoints.
Proof.
  destruct (dynamic_tuning_order (fun _ => "") (fun _ => mkInt64 0 eq_refl) (sample_env true [])
    (cm_shardKeyPattern sample_cm) (user_chunk 1) 4500000000 even_points 1000000000 "a"
    9990000000 "z" 899000000) as (ps & H1 & _ & H2).
  - repeat constructor; done.
  - simpl; lia.
  - done.
  - done.
  - reflexivity.
  - reflexivity.
  - vm_compute; reflexivity.
  - repeat constructor; done.
  - intros H%list_elem_of_In. simpl in H. lia.
  - done.
  - intros k Hk. repeat (apply elem_of_cons in Hk as [->|Hk]; [vm_compute; split; congruence|]). by apply not_elem_of_nil in Hk.
  - intros a b [Ea Eb]. vm_compute in Ea, Eb. injection Ea as <-. injection Eb as <-. lia.
  - exists ps. split; [exact H1|]. intros Hs.
    assert (Hc : 4000000000 + 899000000 < 5000000000 - 899000000)
      by (apply (proj1 H2 Hs); split; vm_compute; reflexivity).
    lia.
Defined.

(** A number that loses a digit is printed before others: points more than two shifts
    apart come back in descending order. *)
Definition wide_chunk : Chunk :=
  let c := user_chunk 1 in
  mkChunk (mkRange (user_point 1000000000 "a") (user_point 9999999999 "z")) (c_shardId c) (c_lastmod c) (c_jumbo c)
    (c_dataWrittenBytes c) (c_split_sum c) (c_split_average c) (c_cnt c).

Lemma tuned_digit_lost :
  exists p q, dynamic_tuning (fun _ => "") (fun _ => mkInt64 0 eq_refl) (sample_env true [])
      (cm_shardKeyPattern sample_cm) wide_chunk false false 1200000000
      [user_point 1500000000 "aa"; user_point 5000000000 "bb"] = Ret [p; q] /\ q ≺ p.
Proof. eexists _, _. split; [vm_compute; reflexivity|]. vm_compute. reflexivity. Qed.

Lemma parallel_splits_bounded_witness :
  used (mkTickets 5 4) = 1 /\ 1 <= maxParallelSplits.
Proof.
  apply (parallel_splits_bounded (mkTickets 5 4) 1). eapply rtc_l; [by apply step_acquired|]. apply rtc_refl.
Defined.
