(* ===== verification/ConfigChunks.v ===== *)
(** The chunk collection of the config server: splits, merges and migrations
    as committed by [s/catalog/sharding_catalog_manager_chunk_operations.cpp]
    through [applyOps] ([db/repl/apply_ops.cpp], [db/repl/oplog.cpp]), with the
    retries of [s/client/shard.cpp] and the check of
    [ShardingCatalogClientImpl::applyChunkOpsDeprecated].  Each commit replaces
    some chunks by others that cover the same keys at a newer version, whatever
    the replies that get lost. *)

From stdpp Require Import base list sorting strings sets.
From Stdlib Require Import ZArith Lia String Ascii.
From S2P Require Import Prelude OrdMap Tiling Bson Text ChunkVersion ChunkType ShardKey.
Local Open Scope string_scope.
Local Open Scope Z_scope.
Local Open Scope list_scope.
Local Open Scope outcome_scope.

(** * Keys that can be stored *)

Definition starts_dollar (s : string) : bool :=
  match s with String c _ => Ascii.eqb c "$"%char | EmptyString => false end.
Definition is_string (v : BSONValue) : bool := match v with VString _ => true | _ => false end.

(** [BSONObj::storageValidEmbedded] of the object a value holds. *)
Fixpoint storageValidEmbedded (v : BSONValue) : bool :=
  let fix go (first : bool) (o : list (string * BSONValue)) : bool :=
    match o with
    | [] => true
    | (n, v) :: o =>
        if starts_dollar n then
          if first && String.eqb n "$ref" && is_string v then
            match o with
            | (n, _) :: o =>
                if String.eqb n "$id" then
                  match o with
                  | [] => true
                  | (n, v) :: o =>
                      if String.eqb n "$db" && is_string v then go false o
                      else if starts_dollar n then false
                      else storageValidEmbedded v && go false o
                  end
                else false
            | [] => false
            end
          else false
        else storageValidEmbedded v && go false o
    end in
  match v with VObject o | VArray o | VCodeWScope _ o => go true o | _ => true end.

Definition isValidShardKeyElementForStorage (v : BSONValue) : bool :=
  isValidShardKeyElement (Some v) &&
  match v with
  | VRegEx _ _ => false
  | VObject _ => storageValidEmbedded v
  | _ => true
  end.

Definition checkShardKeyIsValidForMetadataStorage (shardKey : BSONObj) : Outcome unit :=
  uassert BadValue (forallb (fun el => isValidShardKeyElementForStorage el.2) shardKey).

(** [BSONElement::computeSize] without type byte and name, [BSONObj::objsize]. *)
Fixpoint value_size (v : BSONValue) : Z :=
  let fix go (o : list (string * BSONValue)) : Z :=
    match o with
    | [] => 0
    | (n, v) :: o => 1 + Z.of_nat (String.length n) + 1 + value_size v + go o
    end in
  let len s := Z.of_nat (String.length s) in
  match v with
  | VMinKey | VMaxKey | VUndefined | VNull => 0
  | VBool _ => 1
  | VInt _ => 4
  | VDouble _ | VDate _ | VTimestamp _ | VLong _ => 8
  | VOID _ => 12
  | VString s | VCode s | VSymbol s => 4 + len s + 1
  | VDBRef ns _ => 4 + len ns + 1 + 12
  | VBinData _ bytes => 4 + 1 + len bytes
  | VRegEx p f => len p + 1 + len f + 1
  | VObject o | VArray o => 4 + go o + 1
  | VCodeWScope c o => 4 + 4 + len c + 1 + (4 + go o + 1)
  end.
Definition objsize (o : BSONObj) : Z := value_size (VObject o).

Definition kMaxShardKeySizeBytes : Z := 512.
Definition checkShardKeySize (shardKey : BSONObj) : Outcome unit :=
  uassert ShardKeyTooBig (objsize shardKey <=? kMaxShardKeySizeBytes).

(** * The collection config.chunks *)

(** A document, with the fields of [ChunkType::toConfigBSON]. *)
Record ChunkDoc := mkDoc {
  d_id : string;
  d_ns : string;
  d_min : BSONObj;
  d_max : BSONObj;
  d_lastmod : ChunkVersion;
  d_shard : ShardId;
  d_jumbo : option bool
}.

(** [ChunkType::fromConfigBSON] of a document. *)
Definition doc_chunk (d : ChunkDoc) : ChunkType :=
  mkChunkType (Some (d_ns d)) (Some (d_min d)) (Some (d_max d)) (Some (d_lastmod d))
    (Some (d_shard d)) (d_jumbo d).

(** The operations of an [applyOps] command: "u" with its upsert flag, update
    object and query id, and "d". *)
Inductive ChunkOp :=
  | OpUpdate (b : bool) (o : ChunkDoc) (o2 : string)
  | OpDelete (o : string).

(** A precondition: the newest chunk with these bounds has this epoch and shard. *)
Record PreCondition := mkPre {
  pc_ns : string;
  pc_min : BSONObj;
  pc_max : BSONObj;
  pc_epoch : OID;
  pc_shard : ShardId
}.

(** The unique indexes of [ShardingCatalogManager::_initConfigIndexes]. *)
Definition conflicts (a b : ChunkDoc) : bool :=
  String.eqb (d_ns a) (d_ns b) &&
  ((woCompare (d_min a) (d_min b) =? 0) ||
   (String.eqb (d_shard a) (d_shard b) && (woCompare (d_min a) (d_min b) =? 0)) ||
   (toLong (d_lastmod a) =? toLong (d_lastmod b))).

(** The first document in descending version order that satisfies a query. *)
Definition newest (p : ChunkDoc -> bool) (l : list ChunkDoc) : option ChunkDoc :=
  foldl (fun best d =>
           if p d then
             match best with
             | Some b => if toLong (d_lastmod b) <? toLong (d_lastmod d) then Some d else best
             | None => Some d
             end
           else best) None l.

Definition has_id (id : string) (d : ChunkDoc) : bool := String.eqb (d_id d) id.

(** [applyOperation_inlock] for "u" and "d".  No command of the catalog manager
    sets "alwaysUpsert", whose default is true. *)
Definition alwaysUpsert : bool := true.

Definition apply_op (l : list ChunkDoc) (op : ChunkOp) : Outcome (list ChunkDoc) :=
  match op with
  | OpUpdate b o o2 =>
      if existsb (fun d => negb (has_id o2 d) && conflicts d o) l then Throw DuplicateKey
      else if existsb (has_id o2) l then Ret (map (fun d => if has_id o2 d then o else d) l)
      else if b || alwaysUpsert then Ret (l ++ [o])
      else Throw UpdateOperationFailed
  | OpDelete o => Ret (List.filter (fun d => negb (has_id o d)) l)
  end.

Definition same_bounds (ns : string) (mn mx : BSONObj) (d : ChunkDoc) : bool :=
  String.eqb (d_ns d) ns && (woCompare (d_min d) mn =? 0) && (woCompare (d_max d) mx =? 0).

(** [_checkPrecondition] *)
Definition checkPrecondition (l : list ChunkDoc) (pre : list PreCondition) : Outcome unit :=
  ofold (fun _ p =>
           uassert BadValue
             match newest (same_bounds (pc_ns p) (pc_min p) (pc_max p)) l with
             | Some d => oid_eqb (_epoch (d_lastmod d)) (pc_epoch p) && String.eqb (d_shard d) (pc_shard p)
             | None => false
             end) () pre.

(** [applyOps]: one unit of work, all or nothing. *)
Definition applyOps (l : list ChunkDoc) (ops : list ChunkOp) (pre : list PreCondition)
    : Outcome (list ChunkDoc) :=
  checkPrecondition l pre ;* ofold apply_op l ops.

(** * Commands, retries and confirmation *)

(** What can happen to one request: it fails without effect, it is carried out,
    or it is carried out but its write concern is not satisfied. *)
Inductive Fault := Fine | Refused (e : ErrorCode) | Unconfirmed (e : ErrorCode).

(** The collection and what will happen to the next requests. *)
Record Config := mkConfig { cfg_chunks : list ChunkDoc; cfg_faults : list Fault }.

Definition set_chunks (l : list ChunkDoc) (c : Config) : Config := mkConfig l (cfg_faults c).

Section config.
Context (snprintf_g16 : Dbl -> string).
Local Open Scope state_scope.
Abbreviation genID := (genID snprintf_g16).

Definition next_fault : SM Config Fault :=
  fun c => match cfg_faults c with
           | [] => (c, Ret Fine)
           | f :: fs => (mkConfig (cfg_chunks c) fs, Ret f)
           end.

(** [exhaustiveFindOnConfig]: a read, all retries together. *)
Definition find {A} (q : list ChunkDoc -> A) : SM Config A :=
  let! f := next_fault in
  match f with
  | Refused e => slift (Throw e)
  | _ => let! c := sget in sret (q (cfg_chunks c))
  end.

(** [StatusWith<Shard::CommandResponse>]: no response, or the status of the
    command and of its write concern. *)
Definition Response : Type := Outcome (Outcome unit * Outcome unit).

Definition effective_status (r : Response) : Outcome unit :=
  (let* (commandStatus, writeConcernStatus) := r in commandStatus ;* writeConcernStatus)%outcome.

(** [ShardLocal::_runCommand] of an [applyOps] command. *)
Definition runCommandOnce (ops : list ChunkOp) (pre : list PreCondition) : SM Config Response :=
  let! f := next_fault in
  match f with
  | Refused e => sret (Throw e)
  | _ =>
      let! c := sget in
      let writeConcernStatus := match f with Unconfirmed e => Throw e | _ => Ret () end in
      match applyOps (cfg_chunks c) ops pre with
      | Ret l => smodify (set_chunks l) ;! sret (Ret (Ret (), writeConcernStatus))
      | Throw e => sret (Ret (Throw e, Ret ()))
      | Abort => slift Abort
      | Undef => slift Undef
      end
  end.

(** [ShardLocal::isRetriableError] with [kIdempotent]. *)
Definition isRetriableError (s : Outcome unit) : bool :=
  match s with Throw WriteConcernFailed => true | _ => false end.

Definition kOnErrorNumRetries : nat := 3.

Fixpoint runCommandWithFixedRetryAttempts (attempts : nat) (ops : list ChunkOp)
    (pre : list PreCondition) : SM Config Response :=
  match attempts with
  | O => slift Abort
  | S attempts =>
      let! r := runCommandOnce ops pre in
      match attempts with
      | O => sret r
      | _ =>
          if isRetriableError (effective_status r)
          then runCommandWithFixedRetryAttempts attempts ops pre
          else sret r
      end
  end.

(** The check of [applyChunkOpsDeprecated] after an error: the commit went
    through if a chunk with the last version exists. *)
Definition confirm (status : Outcome unit) (nss : string) (lastChunkVersion : ChunkVersion)
    : SM Config unit :=
  fun c =>
    let q := fun d => String.eqb (d_ns d) nss && (toLong (d_lastmod d) =? toLong lastChunkVersion) &&
                      oid_eqb (_epoch (d_lastmod d)) (_epoch lastChunkVersion) in
    match find (existsb q) c with
    | (c, Ret true) => (c, Ret ())
    | (c, _) => (c, status)
    end.

Definition applyChunkOpsDeprecated (ops : list ChunkOp) (pre : list PreCondition) (nss : string)
    (lastChunkVersion : ChunkVersion) : SM Config unit :=
  let! response := runCommandWithFixedRetryAttempts kOnErrorNumRetries ops pre in
  match response with
  | Ret (Ret _, Ret _) => sret ()
  | Ret (Ret _, status) | Ret (status, _) => confirm status nss lastChunkVersion
  | Throw e => slift (Throw e)
  | Abort => slift Abort
  | Undef => slift Undef
  end.

(** * Split *)

Definition getMaxChunkVersion (q : ChunkDoc -> bool) : SM Config ChunkVersion :=
  let! d := find (newest q) in
  match d with
  | Some d => sret (d_lastmod d)
  | None => slift (Throw IllegalOperation)
  end.

Definition isEmpty (o : BSONObj) : bool := match o with [] => true | _ => false end.

(** The loop over the new chunk bounds: the update operations and the last
    version. *)
Fixpoint split_loop (nss : string) (shardName : ShardId) (range : ChunkRange) (startKey : BSONObj)
    (newChunkBounds : list BSONObj) (currentMaxVersion : ChunkVersion)
    : Outcome (list ChunkOp * ChunkVersion) :=
  (match newChunkBounds with
   | [] => Ret ([], currentMaxVersion)
   | endKey :: newChunkBounds =>
       if negb (woCompare endKey (_maxKey range) =? 0) && negb (Range.containsKey range endKey)
       then Throw InvalidOptions
       else if woCompare endKey startKey <? 0 then Throw InvalidOptions
       else if woCompare endKey startKey =? 0 then Throw InvalidOptions
       else
         checkShardKeySize endKey ;*
         checkShardKeyIsValidForMetadataStorage endKey ;*
         let* v := incMinor currentMaxVersion in
         let* id := genID nss startKey in
         invariant (negb (isEmpty startKey)) ;*
         invariant (negb (isEmpty endKey)) ;*
         invariant (isSet v) ;*
         let* (ops, last) := split_loop nss shardName range endKey newChunkBounds v in
         Ret (OpUpdate true (mkDoc id nss startKey endKey v shardName None) id :: ops, last)
   end)%outcome.

Definition commitChunkSplit (nss : string) (requestEpoch : OID) (range : ChunkRange)
    (splitPoints : list BSONObj) (shardName : ShardId) : SM Config unit :=
  let! collVersion := getMaxChunkVersion (fun d => String.eqb (d_ns d) nss) in
  if negb (oid_eqb (_epoch collVersion) requestEpoch) then slift (Throw StaleEpoch)
  else
    let! shardVersion :=
      getMaxChunkVersion (fun d => String.eqb (d_ns d) nss && String.eqb (d_shard d) shardName) in
    let! currentMaxVersion :=
      slift (if version_equals shardVersion collVersion then incMajor collVersion
             else Ret collVersion) in
    let! (ops, last) :=
      slift (split_loop nss shardName range (_minKey range) (splitPoints ++ [_maxKey range])
               currentMaxVersion) in
    applyChunkOpsDeprecated ops
      [mkPre nss (_minKey range) (_maxKey range) requestEpoch shardName] nss last.

(** * Merge *)

(** The chunks to merge, from their boundaries. *)
Fixpoint merge_loop (itMax : BSONObj) (chunkBoundaries : list BSONObj)
    : Outcome (list (BSONObj * BSONObj)) :=
  (match chunkBoundaries with
   | [] => Ret []
   | b :: chunkBoundaries =>
       invariant (negb (isEmpty itMax)) ;*
       if woCompare b itMax <=? 0 then Throw InvalidOptions
       else
         invariant (negb (isEmpty b)) ;*
         let* rest := merge_loop b chunkBoundaries in
         Ret ((itMax, b) :: rest)
   end)%outcome.

(** [buildMergeChunksApplyOpsUpdates] *)
Definition buildMergeChunksApplyOpsUpdates (nss : string) (shardName : ShardId)
    (chunksToMerge : list (BSONObj * BSONObj)) (mergeVersion : ChunkVersion)
    : Outcome (list ChunkOp) :=
  (match chunksToMerge, last chunksToMerge with
   | (mn, _) :: rest, Some (_, mx) =>
       let* id := genID nss mn in
       let* ids := ofold (fun l c => let* id := genID nss c.1 in Ret (l ++ [OpDelete id])) [] rest in
       Ret (OpUpdate false (mkDoc id nss mn mx mergeVersion shardName None) id :: ids)
   | _, _ => Undef
   end)%outcome.

(** [buildMergeChunksApplyOpsPrecond] *)
Definition buildMergeChunksApplyOpsPrecond (nss : string) (shardName : ShardId)
    (chunksToMerge : list (BSONObj * BSONObj)) (collVersion : ChunkVersion) : list PreCondition :=
  map (fun c => mkPre nss c.1 c.2 (_epoch collVersion) shardName) chunksToMerge.

Definition commitChunkMerge (nss : string) (requestEpoch : OID) (chunkBoundaries : list BSONObj)
    (shardName : ShardId) : SM Config unit :=
  match chunkBoundaries with
  | [] => slift Abort
  | front :: rest =>
      let! collVersion := getMaxChunkVersion (fun d => String.eqb (d_ns d) nss) in
      if negb (oid_eqb (_epoch collVersion) requestEpoch) then slift (Throw StaleEpoch)
      else
        slift (invariant (negb (isEmpty front)) ;* invariant (negb (String.eqb nss "")) ;*
               invariant (ShardId_isValid shardName))%outcome ;!
        let! chunksToMerge := slift (merge_loop front rest) in
        let! mergeVersion := slift (incMinor collVersion) in
        let! ops :=
          slift (buildMergeChunksApplyOpsUpdates nss shardName chunksToMerge mergeVersion) in
        applyChunkOpsDeprecated ops
          (buildMergeChunksApplyOpsPrecond nss shardName chunksToMerge collVersion) nss mergeVersion
  end.

(** * Migration *)

(** [getMin()] and [getMax()] of a chunk read from a command. *)
Definition chunk_bounds (c : ChunkType) : Outcome (BSONObj * BSONObj) :=
  match _min c, _max c with
  | Some mn, Some mx => Ret (mn, mx)
  | _, _ => Undef
  end.

Definition checkChunkIsOnShard (nss : string) (mn mx : BSONObj) (shard : ShardId) : SM Config unit :=
  let! found := find (existsb (fun d => same_bounds nss mn mx d && String.eqb (d_shard d) shard)) in
  slift (uassert (Location 40165) found).

(** The check of the control chunk; its bounds and jumbo flag. *)
Definition checkControlChunk (nss : string) (controlChunk : option ChunkType) (shard : ShardId)
    : SM Config (option (BSONObj * BSONObj * bool)) :=
  match controlChunk with
  | None => sret None
  | Some c =>
      let! b := slift (chunk_bounds c) in
      checkChunkIsOnShard nss b.1 b.2 shard ;!
      sret (Some (b.1, b.2, getJumbo c))
  end.

(** [makeCommitChunkApplyOpsCommand]: the updates of the migrated chunk and of
    the control chunk. *)
Definition makeCommitChunkApplyOpsCommand (nss : string) (migrated : BSONObj * BSONObj)
    (v : ChunkVersion) (controlChunk : option (BSONObj * BSONObj * bool)) (cv : ChunkVersion)
    (fromShard toShard : ShardId) : Outcome (list ChunkOp) :=
  (let* id := genID nss migrated.1 in
   let migrate := OpUpdate false (mkDoc id nss migrated.1 migrated.2 v toShard None) id in
   match controlChunk with
   | None => Ret [migrate]
   | Some (mn, mx, jumbo) =>
       let* id := genID nss mn in
       Ret [migrate; OpUpdate false (mkDoc id nss mn mx cv fromShard (Some jumbo)) id]
   end)%outcome.

Definition commitChunkMigration (nss : string) (migratedChunk : ChunkType)
    (controlChunk : option ChunkType) (collectionEpoch : OID) (fromShard toShard : ShardId)
    : SM Config (ChunkVersion * option ChunkVersion) :=
  let! newest := find (newest (fun d => String.eqb (d_ns d) nss)) in
  match newest with
  | None => slift (Throw IncompatibleShardingMetadata)
  | Some d =>
      let current := d_lastmod d in
      if negb (oid_eqb (_epoch current) collectionEpoch) then slift (Throw StaleEpoch)
      else
        let! migrated := slift (chunk_bounds migratedChunk) in
        checkChunkIsOnShard nss migrated.1 migrated.2 fromShard ;!
        let! control := checkControlChunk nss controlChunk fromShard in
        let v := newVersion (u32 (majorVersion current + 1)) 0 (_epoch current) in
        let cv := newVersion (u32 (majorVersion current + 1)) 1 (_epoch current) in
        slift (invariant (isSet v)) ;!
        let! ops := slift (makeCommitChunkApplyOpsCommand nss migrated v control cv fromShard toShard) in
        let! response := runCommandWithFixedRetryAttempts kOnErrorNumRetries ops [] in
        match response with
        | Ret (Ret _, _) => sret (v, match control with Some _ => Some cv | None => None end)
        | Ret (Throw e, _) => slift (Throw e)
        | Ret (Abort, _) | Abort => slift Abort
        | Ret (Undef, _) | Undef => slift Undef
        | Throw e => slift (Throw e)
        end
  end.
End config.

(** * What applyOps does to the set of documents *)

Definition op_id (op : ChunkOp) : string :=
  match op with OpUpdate _ _ o2 => o2 | OpDelete o => o end.

(** The update object of every update carries the id of its query. *)
Definition op_wf (op : ChunkOp) : Prop :=
  match op with OpUpdate _ o o2 => d_id o = o2 | OpDelete _ => True end.

Definition writes (op : ChunkOp) (d : ChunkDoc) : Prop :=
  match op with OpUpdate _ o _ => d = o | OpDelete _ => False end.

Lemma has_id_true id d : has_id id d = true <-> d_id d = id.
Proof. apply String.eqb_eq. Qed.
Lemma has_id_false id d : has_id id d = false <-> d_id d <> id.
Proof. apply String.eqb_neq. Qed.

Lemma existsb_elem (p : ChunkDoc -> bool) l : existsb p l = true <-> exists d, d ∈ l /\ p d = true.
Proof. rewrite existsb_exists. by setoid_rewrite <- list_elem_of_In. Qed.

Lemma existsb_none (p : ChunkDoc -> bool) l :
  existsb p l = false -> forall d, d ∈ l -> p d = false.
Proof.
  intros H d Hd. destruct (p d) eqn:E; [|done].
  rewrite (proj2 (existsb_elem p l)) in H; [done|by exists d].
Qed.

Lemma apply_op_members l op l' :
  apply_op l op = Ret l' -> op_wf op -> NoDup (d_id <$> l) ->
  NoDup (d_id <$> l') /\ forall d, d ∈ l' <-> writes op d \/ d ∈ l /\ d_id d <> op_id op.
Proof.
  destruct op as [b o o2|o]; simpl; intros H Hw Hn.
  - destruct (existsb (fun d => _) l); [done|].
    destruct (existsb (has_id o2) l) eqn:E; [|destruct (b || alwaysUpsert); [|done]]; injection H as <-.
    + apply existsb_elem in E as (d0 & Hd0 & Hid%has_id_true). split.
      * assert (He : d_id <$> map (fun d => if has_id o2 d then o else d) l = d_id <$> l).
        { clear -Hw. induction l as [|d l IH]; [done|]. cbn [map fmap list_fmap] in *. f_equal; [|done].
          destruct (has_id o2 d) eqn:Ei; [|done]. apply has_id_true in Ei. congruence. }
        by rewrite He.
      * intros d. rewrite list_elem_of_In, in_map_iff. split.
        -- intros (x & <- & Hx%list_elem_of_In). destruct (has_id o2 x) eqn:Ei; [by left|].
           right. by apply has_id_false in Ei.
        -- intros [->|[Hd Hne]].
           ++ exists d0. split; [|by apply list_elem_of_In]. by rewrite (proj2 (has_id_true _ _) Hid).
           ++ exists d. split; [|by apply list_elem_of_In]. by rewrite (proj2 (has_id_false _ _) Hne).
    + pose proof (existsb_none _ _ E) as Hnone. split.
      * rewrite fmap_app. apply NoDup_app. split_and!; [done| |apply NoDup_singleton].
        intros id (d & -> & Hd)%list_elem_of_fmap Hi%list_elem_of_singleton.
        specialize (Hnone d Hd). apply has_id_false in Hnone. congruence.
      * intros d. rewrite elem_of_app, list_elem_of_singleton. split.
        -- intros [Hd|Hd]; [|by left]. right. split; [done|]. by apply has_id_false, Hnone.
        -- intros [->|[Hd _]]; [by right|by left].
  - injection H as <-. split.
    + clear Hw. induction l as [|d l IH]; [constructor|]. cbn [fmap list_fmap List.filter] in *.
      apply NoDup_cons in Hn as [Hd Hl]. destruct (negb (has_id o d)); [|by apply IH].
      cbn [fmap list_fmap]. apply NoDup_cons. split; [|by apply IH]. intros (x & Hx & Hin)%list_elem_of_fmap.
      apply Hd. rewrite Hx. apply list_elem_of_fmap_2. apply list_elem_of_In, filter_In in Hin as [Hin _].
      by apply list_elem_of_In.
    + intros d. rewrite list_elem_of_In, filter_In, <- list_elem_of_In, negb_true_iff, has_id_false. tauto.
Qed.

Lemma apply_ops_members l ops l' :
  ofold apply_op l ops = Ret l' -> Forall op_wf ops -> NoDup (op_id <$> ops) -> NoDup (d_id <$> l) ->
  NoDup (d_id <$> l') /\
  forall d, d ∈ l' <-> (exists op, op ∈ ops /\ writes op d) \/ d ∈ l /\ d_id d ∉ op_id <$> ops.
Proof.
  revert l. induction ops as [|op ops IH]; intros l H Hw Hn Hl.
  - injection H as <-. split; [done|]. intros d. split.
    + intros Hd. right. split; [done|apply not_elem_of_nil].
    + by intros [(? & ?%not_elem_of_nil & _)|[? _]].
  - cbn [ofold] in H. apply obind_Ret_inv in H as (l1 & H1 & H2).
    inversion_clear Hw as [|? ? Hw1 Hw2]. cbn [fmap list_fmap] in Hn. apply NoDup_cons in Hn as [Hn1 Hn2].
    destruct (apply_op_members l op l1 H1 Hw1 Hl) as [Hl1 Hm1].
    destruct (IH l1 H2 Hw2 Hn2 Hl1) as [Hl2 Hm2]. split; [done|]. intros d. rewrite Hm2, Hm1.
    cbn [fmap list_fmap]. rewrite not_elem_of_cons. split.
    + intros [(op' & Hin & Hwr)|[[Hwr|[Hd Hne]] Hni]].
      * left. exists op'. split; [by right|done].
      * left. exists op. split; [by left|done].
      * right. split_and!; done.
    + intros [(op' & [->|Hin]%elem_of_cons & Hwr)|[Hd [Hne Hni]]].
      * right. split; [by left|]. destruct op as [b o o2|o]; [|done]. simpl in *. by subst.
      * left. by exists op'.
      * right. split; [by right|done].
Qed.

(** A list on which an operation has nothing left to do. *)
Definition settled (l : list ChunkDoc) (op : ChunkOp) : Prop :=
  match op with
  | OpUpdate _ o o2 => o ∈ l /\ forall d, d ∈ l -> d_id d = o2 -> d = o
  | OpDelete o => forall d, d ∈ l -> d_id d <> o
  end.

Lemma settled_apply l op l' : settled l op -> op_wf op -> apply_op l op = Ret l' -> l' = l.
Proof.
  destruct op as [b o o2|o]; simpl.
  - intros [Ho Hu] Hw. destruct (existsb (fun d => _) l); [done|].
    rewrite (proj2 (existsb_elem _ _)) by (exists o; split; [done|by apply has_id_true]).
    intros [= <-]. clear Ho. induction l as [|d l IH]; [done|]. cbn [map]. f_equal.
    + destruct (has_id o2 d) eqn:E; [|done]. symmetry. apply Hu; [by left|by apply has_id_true].
    + apply IH. intros d' Hd'. apply Hu. by right.
  - intros Hs _ [= <-]. induction l as [|d l IH]; [done|]. cbn [List.filter].
    rewrite (proj2 (has_id_false _ _)) by (apply Hs; by left). cbn [negb]. f_equal. apply IH.
    intros d' Hd'. apply Hs. by right.
Qed.

Lemma settled_ops l ops l' :
  Forall (settled l) ops -> Forall op_wf ops -> ofold apply_op l ops = Ret l' -> l' = l.
Proof.
  intros Hs Hw. induction ops as [|op ops IH]; [by intros [= <-]|].
  inversion_clear Hs. inversion_clear Hw. cbn [ofold]. intros (l1 & H3 & H4)%obind_Ret_inv.
  apply settled_apply in H3 as ->; [|done..]. by apply IH.
Qed.

(** Carrying out a command a second time changes nothing. *)
Lemma apply_ops_again l ops l' l'' :
  ofold apply_op l ops = Ret l' -> Forall op_wf ops -> NoDup (op_id <$> ops) -> NoDup (d_id <$> l) ->
  ofold apply_op l' ops = Ret l'' -> l'' = l'.
Proof.
  intros H Hw Hn Hl. destruct (apply_ops_members l ops l' H Hw Hn Hl) as [Hl' Hm].
  apply settled_ops; [|done]. apply Forall_forall. intros op Hop.
  pose proof (proj1 (Forall_forall _ _) Hw op Hop) as Hwop.
  destruct op as [b o o2|o]; simpl in *.
  - assert (Ho : o ∈ l') by (apply Hm; left; by exists (OpUpdate b o o2)).
    split; [done|]. intros d Hd He. apply (NoDup_fmap_eq d_id l'); [done..|congruence].
  - intros d Hd He. apply Hm in Hd as [(op & Hin & Hwr)|[_ Hni]].
    + destruct op as [b o' o2|o']; [|done]. simpl in Hwr. subst d.
      pose proof (proj1 (Forall_forall _ _) Hw _ Hin) as Hw'. simpl in Hw'.
      assert (OpUpdate b o' o2 = OpDelete o); [|done].
      apply (NoDup_fmap_eq op_id ops); [done..|simpl; congruence].
    + apply Hni. rewrite He. change o with (op_id (OpDelete o)). by apply list_elem_of_fmap_2.
Qed.

(** * Retries *)

Definition succeeded (r : Outcome Response) : Prop := exists w, r = Ret (Ret (Ret (), w)).

Lemma runOnce_spec ops pre c c' r :
  runCommandOnce ops pre c = (c', r) ->
  cfg_chunks c' = cfg_chunks c /\ ~ succeeded r \/
  applyOps (cfg_chunks c) ops pre = Ret (cfg_chunks c').
Proof.
  unfold runCommandOnce, sbind, next_fault.
  destruct (cfg_faults c) as [|[|e|e] fs]; cbn [fst snd sget cfg_chunks];
    try (intros [= <- <-]; left; split; [done|by intros [? [=]]]);
    (destruct (applyOps (cfg_chunks c) ops pre) as [l| e'| |] eqn:E;
     intros [= <- <-]; [by right|left; split; [done|by intros [? [=]]]..]).
Qed.

(** The operations of a command whose preconditions hold address distinct
    documents. *)
Definition ops_ok (l : list ChunkDoc) (ops : list ChunkOp) (pre : list PreCondition) : Prop :=
  checkPrecondition l pre = Ret () -> Forall op_wf ops /\ NoDup (op_id <$> ops).

Lemma retries_spec n ops pre c c' r :
  ops_ok (cfg_chunks c) ops pre -> NoDup (d_id <$> cfg_chunks c) ->
  runCommandWithFixedRetryAttempts n ops pre c = (c', r) ->
  cfg_chunks c' = cfg_chunks c /\ ~ succeeded r \/
  applyOps (cfg_chunks c) ops pre = Ret (cfg_chunks c').
Proof.
  revert c. induction n as [|n IH]; intros c Hok Hl; cbn [runCommandWithFixedRetryAttempts].
  { intros [= <- <-]. left. split; [done|by intros [? [=]]]. }
  intros [(c1 & r1 & H1 & H2)|(Hc & _ & Hr)]%sbind_inv.
  - pose proof (runOnce_spec _ _ _ _ _ H1) as Hs.
    assert (Hend : (c1, Ret r1) = (c', r) -> cfg_chunks c' = cfg_chunks c /\ ~ succeeded r \/
      applyOps (cfg_chunks c) ops pre = Ret (cfg_chunks c')) by (by intros [= <- <-]).
    destruct n as [|n]; [by apply Hend|]. destruct (isRetriableError _); [|by apply Hend].
    destruct Hs as [[He _]|He].
    + rewrite <- He in Hl, Hok |- *. by apply IH.
    + right. pose proof He as He'. unfold applyOps in He'. apply obind_Ret_inv in He' as ([] & Hp & He').
      destruct (Hok Hp) as [Hw Hn]. pose proof (apply_ops_members _ _ _ He' Hw Hn Hl) as [Hl1 _].
      destruct (IH c1 (fun _ => conj Hw Hn) Hl1 H2) as [[Heq _]|Heq]; [by rewrite Heq|].
      unfold applyOps in Heq. apply obind_Ret_inv in Heq as (u' & _ & Heq).
      apply (apply_ops_again _ _ _ _ He' Hw Hn Hl) in Heq. by rewrite Heq.
  - destruct (runCommandOnce ops pre c) as [c1 r1] eqn:E. simpl in Hc. subst c1.
    apply runOnce_spec in E as [[He Hs]|He]; [left|by right]. split; [done|]. by intros [w ->].
Qed.

Lemma find_chunks {A} (q : list ChunkDoc -> A) c c' r :
  find q c = (c', r) ->
  cfg_chunks c' = cfg_chunks c /\ (forall a, r = Ret a -> a = q (cfg_chunks c)).
Proof.
  unfold find, sbind, next_fault. destruct (cfg_faults c) as [|[|e|e] fs]; cbn;
    intros [= <- <-]; (split; [done|]); by intros a [= <-].
Qed.

Lemma confirm_spec status nss last c c' r :
  confirm status nss last c = (c', r) ->
  cfg_chunks c' = cfg_chunks c /\
  (r = status \/ exists d, d ∈ cfg_chunks c /\ d_ns d = nss /\ toLong (d_lastmod d) = toLong last).
Proof.
  unfold confirm. destruct (find _ c) as [c1 r1] eqn:Ef. apply find_chunks in Ef as [Hc Hq].
  destruct r1 as [[]| | |]; intros [= <- <-]; (split; [done|]); [|by left..].
  right. specialize (Hq _ eq_refl). symmetry in Hq. apply existsb_elem in Hq as (d & Hd & Hp).
  apply andb_true_iff in Hp as [[Hns Hv]%andb_true_iff _].
  exists d. split_and!; [done|by apply String.eqb_eq|by apply Z.eqb_eq].
Qed.

(** The commit reports success only if the command was carried out, and leaves
    the collection as it was or as the command makes it. *)
Lemma applyChunkOps_spec ops pre nss last c c' r :
  ops_ok (cfg_chunks c) ops pre -> NoDup (d_id <$> cfg_chunks c) ->
  (forall d, d ∈ cfg_chunks c -> d_ns d = nss -> toLong (d_lastmod d) <> toLong last) ->
  applyChunkOpsDeprecated ops pre nss last c = (c', r) ->
  cfg_chunks c' = cfg_chunks c /\ is_Ret r = false \/
  applyOps (cfg_chunks c) ops pre = Ret (cfg_chunks c').
Proof.
  intros Hok Hl Hfresh [(c1 & r1 & H1 & H2)|(Hc & _ & Hr)]%sbind_inv.
  - apply retries_spec in H1; [|done..]. destruct H1 as [[He Hns]|He].
    + left. assert (Hcf : forall st, is_Ret st = false -> confirm st nss last c1 = (c', r) ->
        cfg_chunks c' = cfg_chunks c /\ is_Ret r = false).
      { intros st Hst (Hc & [-> |(d & Hd & Hd1 & Hd2)])%confirm_spec; [by rewrite Hc|].
        rewrite He in Hd. by destruct (Hfresh d Hd). }
      destruct r1 as [[[[]|?| |] [[]|?| |]]|?| |]; try (injection H2 as <- <-; done);
        try (by eapply Hcf; [|exact H2]). destruct Hns. by eexists.
    + right. assert (cfg_chunks c' = cfg_chunks c1) as ->; [|done].
      destruct r1 as [[[[]|?| |] [[]|?| |]]|?| |]; try (injection H2 as <- <-; done);
        by apply confirm_spec in H2 as [? _].
  - destruct (runCommandWithFixedRetryAttempts _ _ _ c) as [c1 r1] eqn:E. simpl in Hc. subst c1.
    apply retries_spec in E as [[? _]|?]; [by left|by right|done..].
Qed.
