(* ===== verification/ConfigCatalog.v ===== *)
(** The chunk catalog stays a partition: every commit of a split, merge or
    migration, however its requests are retried, replaces some chunks of the
    collection by others that cover the same keys at newer versions, so every
    key keeps exactly one chunk. *)

From stdpp Require Import base list sorting strings sets relations.
From Stdlib Require Import ZArith Lia String Ascii.
From S2P Require Import Prelude OrdMap Tiling Bson Text Float ChunkVersion ChunkType ShardKey ConfigChunks.
Local Open Scope string_scope.
Local Open Scope Z_scope.
Local Open Scope list_scope.
Local Open Scope outcome_scope.

(** * The partition invariant *)

Lemma newest_spec p l :
  match newest p l with
  | Some d => d ∈ l /\ p d = true /\
      forall d', d' ∈ l -> p d' = true -> toLong (d_lastmod d') <= toLong (d_lastmod d)
  | None => forall d, d ∈ l -> p d = false
  end.
Proof.
  unfold newest. induction l as [|x l IH] using rev_ind; [by intros ? ?%not_elem_of_nil|].
  rewrite foldl_snoc. destruct (foldl _ None l) as [b|].
  - destruct IH as (Hin & Hpb & Hmax). destruct (p x) eqn:Hp;
      [destruct (Z.ltb_spec (toLong (d_lastmod b)) (toLong (d_lastmod x))) as [Hlt|Hge]|];
      (split_and!; [apply elem_of_app; rewrite list_elem_of_singleton; auto|done|]);
      intros d' [Hd| ->%list_elem_of_singleton]%elem_of_app Hp'; try congruence; try lia;
      specialize (Hmax d' Hd Hp'); lia.
  - destruct (p x) eqn:Hp.
    + split_and!; [apply elem_of_app; rewrite list_elem_of_singleton; auto|done|].
      intros d' [Hd| ->%list_elem_of_singleton]%elem_of_app Hp'; [|lia]. by rewrite IH in Hp'.
    + intros d [Hd| ->%list_elem_of_singleton]%elem_of_app; auto.
Qed.

Definition covers (d : ChunkDoc) (k : BSONObj) : Prop := d_min d ≼ k /\ k ≺ d_max d.

(** The documents of a namespace. *)
Definition docs_of (ns : string) (l : list ChunkDoc) (d : ChunkDoc) : Prop := d ∈ l /\ d_ns d = ns.

Section catalog.
Context (snprintf_g16 : Dbl -> string) (ns : string) (epoch : OID) (lo hi : BSONObj).

(** The chunks of a collection: one epoch, distinct set versions, ids generated
    from the lower bounds, and every key of the key space in exactly one chunk. *)
Record catalog (l : list ChunkDoc) : Prop := {
  ct_ids : NoDup (d_id <$> l);
  ct_id d : docs_of ns l d -> genID snprintf_g16 ns (d_min d) = Ret (d_id d);
  ct_epoch d : docs_of ns l d -> _epoch (d_lastmod d) = epoch;
  ct_set d : docs_of ns l d -> isSet (d_lastmod d) = true;
  ct_versions d1 d2 : docs_of ns l d1 -> docs_of ns l d2 ->
    toLong (d_lastmod d1) = toLong (d_lastmod d2) -> d1 = d2;
  ct_range d : docs_of ns l d -> lo ≼ d_min d /\ d_min d ≺ d_max d /\ d_max d ≼ hi;
  ct_cover k : lo ≼ k -> k ≺ hi -> exists d, docs_of ns l d /\ covers d k;
  ct_unique d1 d2 k : docs_of ns l d1 -> docs_of ns l d2 -> covers d1 k -> covers d2 k -> d1 = d2
}.

(** The abstract specification of a commit: the documents [old] are replaced by
    [new], which cover the same keys, at versions above all others; everything
    else stays. *)
Record replaces (old new : list ChunkDoc) (l l' : list ChunkDoc) : Prop := {
  rp_old d : d ∈ old -> docs_of ns l d;
  rp_ns d : d ∈ new -> d_ns d = ns;
  rp_ids : NoDup (d_id <$> l');
  rp_id d : d ∈ new -> genID snprintf_g16 ns (d_min d) = Ret (d_id d);
  rp_members d : d ∈ l' <-> d ∈ new \/ d ∈ l /\ d ∉ old;
  rp_range d : d ∈ new -> d_min d ≺ d_max d;
  rp_bounds d : d ∈ new -> exists o1 o2, o1 ∈ old /\ o2 ∈ old /\
    d_min o1 ≼ d_min d /\ d_max d ≼ d_max o2;
  rp_cover k : (exists d, d ∈ new /\ covers d k) <-> (exists d, d ∈ old /\ covers d k);
  rp_unique d1 d2 k : d1 ∈ new -> d2 ∈ new -> covers d1 k -> covers d2 k -> d1 = d2;
  rp_epoch d : d ∈ new -> _epoch (d_lastmod d) = epoch;
  rp_newer d d0 : d ∈ new -> docs_of ns l d0 -> toLong (d_lastmod d0) < toLong (d_lastmod d);
  rp_versions d1 d2 : d1 ∈ new -> d2 ∈ new ->
    toLong (d_lastmod d1) = toLong (d_lastmod d2) -> d1 = d2
}.

Lemma replaces_docs old new l l' d :
  replaces old new l l' -> docs_of ns l' d <-> d ∈ new \/ docs_of ns l d /\ d ∉ old.
Proof.
  intros H. unfold docs_of. rewrite (rp_members _ _ _ _ H). split; [tauto|].
  intros [Hd|[[? ?] ?]]; [|tauto]. split; [by left|by apply (rp_ns _ _ _ _ H)].
Qed.

(** A commit that meets the specification keeps the invariant. *)
Lemma catalog_replaces old new l l' : catalog l -> replaces old new l l' -> catalog l'.
Proof.
  intros [Hids Hid He Hset Hv Hr Hc Hu] H. pose proof (fun d => replaces_docs _ _ _ _ d H) as Hd.
  pose proof H as [Ho Hns Hn Hnid Hm Hrg Hb Hcov Hun Hep Hnew Hver].
  assert (Hx : forall d1 d2 k, d1 ∈ new -> docs_of ns l d2 -> covers d1 k -> covers d2 k -> d2 ∈ old).
  { intros d1 d2 k H1 H2 Hk1 Hk2. destruct (proj1 (Hcov k)) as (o & Hold & Hko); [by exists d1|].
    by rewrite (Hu d2 o k H2 (Ho o Hold) Hk2 Hko). }
  assert (Hne : forall d, d ∈ new -> exists o, docs_of ns l o).
  { intros d Hin. destruct (Hb d Hin) as (o & _ & Hin' & _). exists o. by apply Ho. }
  split.
  - done.
  - intros d [?|[? _]]%Hd; auto.
  - intros d [?|[? _]]%Hd; auto.
  - intros d [Hin|[? _]]%Hd; [|auto]. destruct (Hne d Hin) as [o Hin'].
    specialize (Hnew d o Hin Hin'). pose proof (ui64_range (_combined (d_lastmod o))).
    unfold isSet. apply Z.ltb_lt. unfold toLong in *. lia.
  - intros d1 d2 [H1|[H1 _]]%Hd [H2|[H2 _]]%Hd Heq; auto.
    + specialize (Hnew d1 d2 H1 H2). lia.
    + specialize (Hnew d2 d1 H2 H1). lia.
  - intros d [Hin|[? _]]%Hd; [|auto]. destruct (Hb d Hin) as (o1 & o2 & Ho1 & Ho2 & Hmn & Hmx).
    destruct (Hr o1 (Ho o1 Ho1)) as (? & _), (Hr o2 (Ho o2 Ho2)) as (_ & _ & ?).
    specialize (Hrg d Hin). split_and!; korder.
  - intros k Hlo Hhi. destruct (Hc k Hlo Hhi) as (d & Hdl & Hk).
    assert (Hin : d ∈ old \/ d ∉ old) by (destruct (decide (Exists (fun x => d_id x = d_id d) old)) as [Hx'|Hx'];
      [left|right; intros Hin; apply Hx', Exists_exists; by exists d];
      apply Exists_exists in Hx' as (x & Hxin & Hxe);
      rewrite (NoDup_fmap_eq d_id l d x); [done|done|apply Hdl|apply (Ho x Hxin)|done]).
    destruct Hin as [Hin|Hin].
    + destruct (proj2 (Hcov k)) as (d' & Hd' & Hk'); [by exists d|]. exists d'. rewrite Hd. auto.
    + exists d. rewrite Hd. auto.
  - intros d1 d2 k [H1|[H1 Hn1]]%Hd [H2|[H2 Hn2]]%Hd Hk1 Hk2; eauto.
    + by destruct Hn2; eapply Hx.
    + by destruct Hn1; eapply Hx.
Qed.
(** * Chains of new chunks *)

Definition entries (ds : list ChunkDoc) : list (BSONObj * ChunkDoc) := (fun d => (d_max d, d)) <$> ds.

Lemma elem_entries ds d : d ∈ ds -> (d_max d, d) ∈ entries ds.
Proof. intros Hd. by apply (list_elem_of_fmap_2 (fun d => (d_max d, d))). Qed.

Lemma entries_cover s e ds k :
  tiling d_min s (entries ds) e -> (exists d, d ∈ ds /\ covers d k) <-> s ≼ k /\ k ≺ e.
Proof.
  intros Ht. split.
  - intros (d & Hd & H1 & H2). destruct (tiling_in d_min s _ e _ _ Ht (elem_entries ds d Hd)) as (? & _ & ?).
    split; korder.
  - intros [H1 H2]. destruct (tiling_lookup d_min s _ e k Ht H1 H2) as (k' & d & _ & Hin & ? & ?).
    apply list_elem_of_fmap in Hin as (d' & [= -> ->] & Hd). by exists d'.
Qed.

Lemma entries_unique s e ds d1 d2 k :
  tiling d_min s (entries ds) e -> d1 ∈ ds -> d2 ∈ ds -> covers d1 k -> covers d2 k -> d1 = d2.
Proof.
  intros Ht H1 H2 [Ha Hb] [Hc Hd]. pose proof (tiling_unique d_min s _ e _ _ _ _ k Ht
    (elem_entries ds d1 H1) (elem_entries ds d2 H2) Ha Hb Hc Hd) as [= _ He]. done.
Qed.

Lemma entries_range s e ds d :
  tiling d_min s (entries ds) e -> d ∈ ds -> s ≼ d_min d /\ d_min d ≺ d_max d /\ d_max d ≼ e.
Proof. intros Ht Hd. exact (tiling_in d_min s _ e _ _ Ht (elem_entries ds d Hd)). Qed.

(** Ids identify lower bounds: no two of the keys have the same id, and a
    document with the id of a key is the chunk that starts there. *)
Definition ids_faithful (l : list ChunkDoc) (keys : list BSONObj) : Prop :=
  (forall k1 k2 id, k1 ∈ keys -> k2 ∈ keys -> genID snprintf_g16 ns k1 = Ret id ->
     genID snprintf_g16 ns k2 = Ret id -> k1 ≅k k2) /\
  (forall d k, d ∈ l -> k ∈ keys -> genID snprintf_g16 ns k = Ret (d_id d) ->
     d_ns d = ns /\ d_min d ≅k k).

Lemma chain_ids s e ds l keys :
  tiling d_min s (entries ds) e -> ids_faithful l keys -> NoDup ds ->
  (forall d, d ∈ ds -> d_min d ∈ keys /\ genID snprintf_g16 ns (d_min d) = Ret (d_id d)) ->
  NoDup (d_id <$> ds).
Proof.
  intros Ht [Hf _] Hnd Hd. apply NoDup_fmap_2_strong; [|done]. intros d1 d2 H1 H2 He.
  destruct (Hd d1 H1) as [Hk1 Hg1], (Hd d2 H2) as [Hk2 Hg2]. rewrite He in Hg1.
  pose proof (Hf _ _ _ Hk1 Hk2 Hg1 Hg2). destruct (entries_range s e ds d1 Ht H1) as (_ & ? & _).
  destruct (entries_range s e ds d2 Ht H2) as (_ & ? & _).
  eapply (entries_unique s e ds _ _ (d_min d1)); [done..| |]; split; korder.
Qed.

(** * Splits *)

Definition update_of (b : bool) (d : ChunkDoc) : ChunkOp := OpUpdate b d (d_id d).

Lemma incMinor_inv v w : incMinor v = Ret w -> toLong v < toLong w /\ _epoch w = _epoch v.
Proof.
  destruct (incMinor_spec v) as [H1 H2]. destruct (Z.eq_dec (minorVersion v) 4294967295) as [E|E].
  - by rewrite (H1 E).
  - destruct (H2 E) as (w' & -> & ? & ? & ? & ?). intros [= <-]. split; [lia|done].
Qed.

Lemma incMajor_inv v w : incMajor v = Ret w -> toLong v < toLong w /\ _epoch w = _epoch v.
Proof.
  destruct (incMajor_spec v) as [H1 H2]. destruct (Z.eq_dec (majorVersion v) 4294967295) as [E|E].
  - by rewrite (H1 E).
  - destruct (H2 E) as (w' & -> & ? & ? & ? & ?). intros [= <-]. split; [lia|done].
Qed.

(** The chunks the loop builds: they tile the range from the start key to the
    last bound, at ascending versions. *)
Record split_chain (shard : ShardId) (start : BSONObj) (bounds : list BSONObj) (v lastv : ChunkVersion)
    (ds : list ChunkDoc) : Prop := {
  sc_tiling : tiling d_min start (entries ds) (List.last bounds start);
  sc_bounds : d_max <$> ds = bounds;
  sc_mins d : d ∈ ds -> d_min d ∈ start :: List.removelast bounds;
  sc_head d : head ds = Some d -> d_min d = start;
  sc_doc d : d ∈ ds -> d_ns d = ns /\ d_shard d = shard /\ d_jumbo d = None /\
    genID snprintf_g16 ns (d_min d) = Ret (d_id d);
  sc_version d : d ∈ ds -> _epoch (d_lastmod d) = _epoch v /\
    toLong v < toLong (d_lastmod d) <= toLong lastv;
  sc_last : toLong v <= toLong lastv;
  sc_nodup : NoDup ds;
  sc_versions d1 d2 : d1 ∈ ds -> d2 ∈ ds -> toLong (d_lastmod d1) = toLong (d_lastmod d2) -> d1 = d2
}.

Lemma chain_mins shard s pts e v lastv ds d : split_chain shard s (pts ++ [e]) v lastv ds -> d ∈ ds -> d_min d ∈ s :: pts.
Proof. intros H Hd. pose proof (sc_mins _ _ _ _ _ _ H d Hd) as Hm. by rewrite List.removelast_last in Hm. Qed.

Lemma last_shift {A} (x y : A) l : List.last (x :: l) y = List.last l x.
Proof. revert x y. induction l as [|z l IH]; intros x y; [done|]. exact (eq_trans (IH z y) (eq_sym (IH z x))). Qed.

Lemma split_loop_spec shard range start bounds v ops lastv :
  split_loop snprintf_g16 ns shard range start bounds v = Ret (ops, lastv) ->
  exists ds, ops = update_of true <$> ds /\ split_chain shard start bounds v lastv ds.
Proof.
  revert start v ops. induction bounds as [|b bounds IH]; intros start v ops; cbn [split_loop].
  - intros [= <- <-]. exists []. split; [done|].
    split; simpl; try (by intros ? ?%not_elem_of_nil); try (by intros ? ? ?%not_elem_of_nil);
      try done; try korder; try lia; apply NoDup_nil_2.
  - destruct (negb _ && _); [done|]. rewrite wo_lt, wo_eq.
    destruct (kltb b start) eqn:E1; [done|]. destruct (keqb b start) eqn:E2; [done|].
    intros H. repeat (apply obind_Ret_inv in H as (?u & ?Hu & H)).
    destruct u6 as [ops' last']. injection H as <- <-.
    apply IH in Hu6 as (ds & -> & [Ht Hb Hmn Hh Hdoc Hv Hl Hnd Hvs]). apply incMinor_inv in Hu1 as [Hlt He].
    set (d := mkDoc u2 ns start b u1 shard None).
    assert (Hfresh : forall d', d' ∈ ds -> toLong (d_lastmod d) < toLong (d_lastmod d'))
      by (intros d' Hd'; apply (Hv d' Hd')).
    exists (d :: ds). split; [done|]. split.
    + rewrite last_shift. cbn [entries fmap list_fmap tiling]. split_and!; [simpl; korder..|exact Ht].
    + cbn [fmap list_fmap]. by rewrite Hb.
    + intros d' [->|Hd']%elem_of_cons; [by left|]. right. specialize (Hmn d' Hd').
      destruct bounds as [|b' bounds]; [|exact Hmn]. apply fmap_nil_inv in Hb as ->. by apply not_elem_of_nil in Hd'.
    + by intros d' [= <-].
    + intros d' [->|Hd']%elem_of_cons; [|by apply Hdoc]. by split_and!.
    + intros d' [->|Hd']%elem_of_cons; [simpl; split; [done|lia]|].
      destruct (Hv d' Hd') as [He' Hv']. split; [congruence|lia].
    + lia.
    + apply NoDup_cons. split; [|done]. intros Hin. specialize (Hfresh d Hin). lia.
    + intros d1 d2 [->|H1]%elem_of_cons [->|H2]%elem_of_cons Heq; [done| | |by apply Hvs].
      * specialize (Hfresh d2 H2). lia.
      * specialize (Hfresh d1 H1). lia.
Qed.

(** What [checkPrecondition] establishes for one precondition. *)
Lemma checkPrecondition_inv l pre p :
  checkPrecondition l pre = Ret () -> p ∈ pre ->
  exists d, d ∈ l /\ d_ns d = pc_ns p /\ d_min d ≅k pc_min p /\ d_max d ≅k pc_max p /\
    _epoch (d_lastmod d) = pc_epoch p /\ d_shard d = pc_shard p.
Proof.
  unfold checkPrecondition. induction pre as [|q pre IH]; [by intros _ ?%not_elem_of_nil|].
  cbn [ofold]. intros ([] & Hq & Hr)%obind_Ret_inv [->|Hin]%elem_of_cons; [|by apply IH].
  apply uassert_Ret_inv in Hq.
  pose proof (newest_spec (same_bounds (pc_ns q) (pc_min q) (pc_max q)) l) as Hs.
  destruct (newest _ l) as [d|]; [|done]. destruct Hs as (Hd & Hb & _). unfold same_bounds in Hb.
  rewrite !wo_eq in Hb. exists d.
  repeat match goal with H : _ && _ = true |- _ => apply andb_true_iff in H as [? ?] end.
  split_and!; [done|by apply String.eqb_eq|by apply keqb_spec..|by apply oid_eqb_eq|by apply String.eqb_eq].
Qed.

(** The first update finds the document it replaces: another document with the
    same lower bound would violate the unique index. *)
Lemma first_update_id l b d ops l' old :
  ofold apply_op l (update_of b d :: ops) = Ret l' ->
  old ∈ l -> d_ns old = d_ns d -> d_min old ≅k d_min d -> d_id old = d_id d.
Proof.
  cbn [ofold update_of apply_op]. intros (l1 & H1 & _)%obind_Ret_inv Hold Hns Hmin.
  destruct (existsb _ l) eqn:E; [done|]. pose proof (existsb_none _ _ E old Hold) as Hn. cbv beta in Hn.
  destruct (has_id (d_id d) old) eqn:Ei; [by apply has_id_true|]. exfalso. revert Hn. unfold conflicts.
  rewrite Hns, (String.eqb_refl (d_ns d)), wo_eq, (proj2 (keqb_spec _ _) Hmin). done.
Qed.

Lemma op_ids_update b (ds : list ChunkDoc) : op_id <$> (update_of b <$> ds) = d_id <$> ds.
Proof. rewrite <- list_fmap_compose. done. Qed.

Lemma update_wf b (ds : list ChunkDoc) : Forall op_wf (update_of b <$> ds).
Proof. apply Forall_fmap, Forall_true. done. Qed.

(** Operations that address exactly the documents [old] and write [new] replace
    the former by the latter. *)
Lemma ops_replace l ops l' (old new : list ChunkDoc) :
  catalog l -> ofold apply_op l ops = Ret l' -> Forall op_wf ops -> NoDup (op_id <$> ops) ->
  (forall d, d ∈ new <-> exists op, op ∈ ops /\ writes op d) ->
  (forall d, d ∈ old -> d_id d ∈ op_id <$> ops) ->
  (forall d, d ∈ l -> d_id d ∈ op_id <$> ops -> d ∈ old) ->
  NoDup (d_id <$> l') /\ forall d, d ∈ l' <-> d ∈ new \/ d ∈ l /\ d ∉ old.
Proof.
  intros Hcat Ha Hw Hnd Hnew Hold Hother.
  destruct (apply_ops_members _ _ _ Ha Hw Hnd (ct_ids _ Hcat)) as [Hn Hm]. split; [done|].
  intros d. rewrite Hm, Hnew. split; (intros [?|[Hd Hx]]; [by left|right; split; [done|]]); auto.
Qed.

(** A chunk that starts at a key strictly inside or at the start of another one
    is that chunk. *)
Lemma starts_inside l d old k :
  catalog l -> docs_of ns l d -> docs_of ns l old -> d_min d ≅k k -> covers old k -> d = old.
Proof.
  intros Hcat Hd Ho Hk Hc. destruct (ct_range _ Hcat d Hd) as (_ & ? & _).
  eapply (ct_unique _ Hcat d old k); [done..| |done]. split; korder.
Qed.

(** New chunks that tile a range covered by old ones, at versions above [v]. *)
Lemma chain_replaces l l' (old new : list ChunkDoc) s e v :
  tiling d_min s (entries old) e -> tiling d_min s (entries new) e ->
  (forall d, d ∈ old -> docs_of ns l d) -> old <> [] ->
  (forall d, docs_of ns l d -> toLong (d_lastmod d) <= toLong v) ->
  (forall d, d ∈ new -> d_ns d = ns /\ genID snprintf_g16 ns (d_min d) = Ret (d_id d) /\
     _epoch (d_lastmod d) = epoch /\ toLong v < toLong (d_lastmod d)) ->
  (forall d1 d2, d1 ∈ new -> d2 ∈ new -> toLong (d_lastmod d1) = toLong (d_lastmod d2) -> d1 = d2) ->
  NoDup (d_id <$> l') /\ (forall d, d ∈ l' <-> d ∈ new \/ d ∈ l /\ d ∉ old) ->
  replaces old new l l'.
Proof.
  intros Ho Ht Hod Hne Hmax Hdoc Hvs [Hnl Hm].
  assert (Hends : exists o1 o2, o1 ∈ old /\ o2 ∈ old /\ d_min o1 ≅k s /\ d_max o2 ≅k e).
  { clear - Ho Hne. assert (H1 : exists o1, o1 ∈ old /\ d_min o1 ≅k s).
    { destruct old as [|o old]; [done|]. exists o. split; [by left|]. by destruct Ho as [? _]. }
    assert (H2 : exists o2, o2 ∈ old /\ d_max o2 ≅k e).
    { revert s Ho H1. induction old as [|o old IH]; [done|]. intros s (_ & _ & Ho) _.
      destruct old as [|o' old]; [exists o; split; [by left|done]|].
      destruct (IH ltac:(done) (d_max o) Ho) as (o2 & Hin & He); [|exists o2; split; [by right|done]].
      exists o'. split; [by left|]. by destruct Ho as [? _]. }
    destruct H1 as (o1 & ? & ?), H2 as (o2 & ? & ?). by exists o1, o2. }
  destruct Hends as (o1 & o2 & Ho1 & Ho2 & Hs & He).
  split; try done.
  - intros d Hd. apply (Hdoc d Hd).
  - intros d Hd. apply (Hdoc d Hd).
  - intros d Hd. by apply (entries_range _ _ _ d Ht Hd).
  - intros d Hd. exists o1, o2. destruct (entries_range _ _ _ d Ht Hd) as (? & _ & ?).
    split_and!; [done..|korder|korder].
  - intros k. by rewrite (entries_cover _ _ _ _ Ht), (entries_cover _ _ _ _ Ho).
  - intros d1 d2 k. by apply (entries_unique _ _ _ _ _ _ Ht).
  - intros d Hd. apply (Hdoc d Hd).
  - intros d d0 Hd Hd0. specialize (Hmax d0 Hd0). destruct (Hdoc d Hd) as (_ & _ & _ & ?). lia.
Qed.

Lemma single_tiling d s e :
  d_min d ≅k s -> d_max d ≅k e -> s ≺ e -> tiling d_min s (entries [d]) e.
Proof. intros H1 H2 H3. simpl. split_and!; korder. Qed.

Lemma split_replaces l l' range pts shard v lastv ds :
  catalog l -> ids_faithful l (_minKey range :: pts) ->
  split_chain shard (_minKey range) (pts ++ [_maxKey range]) v lastv ds ->
  (forall d, docs_of ns l d -> toLong (d_lastmod d) <= toLong v) -> _epoch v = epoch ->
  applyOps l (update_of true <$> ds) [mkPre ns (_minKey range) (_maxKey range) epoch shard] = Ret l' ->
  exists old, d_shard old = shard /\ d_min old ≅k _minKey range /\ d_max old ≅k _maxKey range /\
    replaces [old] ds l l'.
Proof.
  intros Hcat Hfa [Ht Hb Hmn Hh Hdoc Hv _ Hnd Hvs] Hmax He ([] & Hp & Ha)%obind_Ret_inv.
  rewrite List.last_last in Ht. rewrite List.removelast_last in Hmn.
  destruct (checkPrecondition_inv _ _ _ Hp ltac:(left)) as (old & Hold & Hns & Hmin & Hmx & _ & Hsh).
  simpl in *. exists old. split_and!; [done..|]. assert (Hdo : docs_of ns l old) by done.
  destruct (ct_range _ Hcat old Hdo) as (_ & Hlt & _).
  apply (chain_replaces _ _ _ _ (_minKey range) (_maxKey range) v); try done.
  - apply single_tiling; [done..|korder].
  - by intros d ->%list_elem_of_singleton.
  - intros d Hd. destruct (Hdoc d Hd) as (? & _ & _ & ?), (Hv d Hd). split_and!; try done; [congruence|lia].
  - apply (ops_replace l (update_of true <$> ds)); rewrite ?op_ids_update; try done.
    + apply update_wf.
    + eapply chain_ids; [exact Ht|exact Hfa|done|]. intros d Hd. split; [by apply Hmn|by apply Hdoc].
    + intros d. split.
      * intros Hd. exists (update_of true d). split; [by apply list_elem_of_fmap_2|done].
      * by intros (op & (x & -> & Hx)%list_elem_of_fmap & ->).
    + intros d ->%list_elem_of_singleton. destruct ds as [|d0 ds]; [by destruct pts|]. cbn [fmap list_fmap].
      apply elem_of_cons. left. specialize (Hh d0 eq_refl).
      eapply (first_update_id l true d0); [exact Ha|done| |by rewrite Hh].
      rewrite Hns. symmetry. apply (Hdoc d0). by left.
    + intros d Hd (x & Hx & Hxd)%list_elem_of_fmap. apply list_elem_of_singleton.
      destruct (Hdoc x Hxd) as (_ & _ & _ & Hg).
      destruct (proj2 Hfa d (d_min x) Hd (Hmn x Hxd)) as [Hdns Hdm]; [by rewrite Hx|].
      destruct (entries_range _ _ _ x Ht Hxd) as (? & ? & ?).
      eapply (starts_inside l); [done..|]. split; korder.
Qed.

(** * Merges *)

Lemma merge_loop_spec s bs ps :
  merge_loop s bs = Ret ps -> ps = zip (s :: bs) bs /\ Forall (fun p => p.1 ≺ p.2) ps.
Proof.
  revert s ps. induction bs as [|b bs IH]; intros s ps; cbn [merge_loop]; [by intros [= <-]|].
  rewrite wo_le. destruct (kleb b s) eqn:E; intros H; inv_ret. subst ps.
  match goal with H : merge_loop _ _ = Ret _ |- _ => apply IH in H as [-> Hf] end.
  split; [done|]. constructor; [simpl; korder|done].
Qed.

(** The documents with the bounds of consecutive pairs form a chain. *)
Lemma merge_docs l shard s bs :
  Forall (fun p => p.1 ≺ p.2) (zip (s :: bs) bs) ->
  (forall p, p ∈ zip (s :: bs) bs -> exists d, docs_of ns l d /\ d_min d ≅k p.1 /\ d_max d ≅k p.2 /\
     d_shard d = shard) ->
  exists ds, tiling d_min s (entries ds) (List.last bs s) /\
    Forall2 (fun p d => docs_of ns l d /\ d_min d ≅k p.1 /\ d_max d ≅k p.2 /\ d_shard d = shard)
      (zip (s :: bs) bs) ds.
Proof.
  revert s. induction bs as [|b bs IH]; intros s Hlt Hd.
  - exists []. split; [simpl; korder|constructor].
  - cbn [zip zip_with] in Hlt, Hd |- *. inversion_clear Hlt as [|? ? Hsb Hlt']. simpl in Hsb.
    destruct (IH b Hlt') as (ds & Ht & Hf); [intros p Hp; apply Hd; by right|].
    destruct (Hd (s, b)) as (d & Hdd & Hmn & Hmx & Hsh); [by left|]. simpl in Hmn, Hmx.
    exists (d :: ds). assert (List.last (b :: bs) s = List.last bs b) as -> by apply last_shift.
    split; [|by constructor].
    cbn [entries fmap list_fmap tiling]. split_and!; [korder..|].
    change ((fun d0 => (d_max d0, d0)) <$> ds) with (entries ds).
    eapply tiling_proper; [exact Hmx|reflexivity| |exact Ht]. korder.
Qed.

Definition delete_of (d : ChunkDoc) : ChunkOp := OpDelete (d_id d).

(** A stored lower bound that compares equal to one of the keys is that key: a
    number is stored with the type it is requested with. *)
Definition exact_bounds (l : list ChunkDoc) (keys : list BSONObj) : Prop :=
  forall d k, docs_of ns l d -> k ∈ keys -> d_min d ≅k k -> d_min d = k.

Lemma chain_nodup s e ds : tiling d_min s (entries ds) e -> NoDup ds.
Proof.
  revert s. induction ds as [|d ds IH]; intros s Ht; [constructor|]. destruct Ht as (? & ? & Ht).
  apply NoDup_cons. split; [|by eapply IH]. intros Hin.
  destruct (entries_range _ _ _ d Ht Hin) as (? & ? & _). korder.
Qed.

Lemma chain_doc_ids l s e ds :
  catalog l -> tiling d_min s (entries ds) e -> (forall d, d ∈ ds -> docs_of ns l d) ->
  NoDup (d_id <$> ds).
Proof.
  intros Hcat Ht Hd. apply NoDup_fmap_2_strong; [|by eapply chain_nodup]. intros d1 d2 H1 H2 He.
  apply (NoDup_fmap_eq d_id l); [apply (ct_ids _ Hcat)|by apply Hd..|done].
Qed.

(** The deletions of the chunks after the first one. *)
Lemma merge_deletes l shard ps olds ops0 ops keys :
  catalog l -> exact_bounds l keys -> (forall p, p ∈ ps -> p.1 ∈ keys) ->
  Forall2 (fun p d => docs_of ns l d /\ d_min d ≅k p.1 /\ d_max d ≅k p.2 /\ d_shard d = shard) ps olds ->
  ofold (fun l c => let* id := genID snprintf_g16 ns (fst c) in Ret (l ++ [OpDelete id])) ops0 ps = Ret ops ->
  ops = ops0 ++ (delete_of <$> olds).
Proof.
  intros Hcat Hex. revert olds ops0. induction ps as [|p ps IH]; intros olds ops0 Hk Hf H.
  - inversion_clear Hf. injection H as <-. by rewrite app_nil_r.
  - inversion_clear Hf as [|? d ? ds Hd Hf']. destruct Hd as (Hd & Hmn & _). cbn [ofold] in H. inv_ret.
    match goal with H : ofold _ _ _ = Ret _ |- _ => apply (IH ds) in H; [|intros; apply Hk; by right|done] end.
    subst ops x. pose proof (ct_id _ Hcat d Hd) as Hid.
    rewrite (Hex d p.1 Hd (Hk p ltac:(left)) Hmn) in Hid.
    match goal with H : genID _ _ _ = Ret x0 |- _ => rewrite H in Hid; injection Hid as -> end.
    by rewrite <- app_assoc.
Qed.

Lemma last_zip (s : BSONObj) bs :
  bs <> [] -> exists a, last (zip (s :: bs) bs) = Some (a, List.last bs s).
Proof.
  revert s. induction bs as [|b bs IH]; [done|]. intros s _. destruct bs as [|b' bs]; [by exists s|].
  destruct (IH b ltac:(done)) as [a Ha]. exists a. etrans; [|etrans; [exact Ha|]]; [done|].
  do 2 f_equal. symmetry. exact (last_shift b s (b' :: bs)).
Qed.

Lemma zip_fst_elem {A} (s : A) bs p : p ∈ zip (s :: bs) bs -> p.1 ∈ s :: bs.
Proof. destruct p as [a b]. intros H%elem_of_zip_l. done. Qed.

Lemma Forall2_elem_r {A B} (P : A -> B -> Prop) l k y :
  Forall2 P l k -> y ∈ k -> exists x, x ∈ l /\ P x y.
Proof.
  induction 1 as [|x y' l k Hp _ IH]; [by intros ?%not_elem_of_nil|].
  intros [->|Hin]%elem_of_cons; [exists x; split; [by left|done]|].
  destruct (IH Hin) as (x' & ? & ?). exists x'. split; [by right|done].
Qed.

(** The operations of a merge: the first chunk is widened, the others deleted. *)
Lemma merge_ops l shard s b bs o0 olds w ops :
  catalog l -> exact_bounds l (s :: b :: bs) ->
  Forall2 (fun p d => docs_of ns l d /\ d_min d ≅k p.1 /\ d_max d ≅k p.2 /\ d_shard d = shard)
    (zip (s :: b :: bs) (b :: bs)) (o0 :: olds) ->
  buildMergeChunksApplyOpsUpdates snprintf_g16 ns shard (zip (s :: b :: bs) (b :: bs)) w = Ret ops ->
  ops = update_of false (mkDoc (d_id o0) ns s (List.last (b :: bs) s) w shard None) ::
        (delete_of <$> olds).
Proof.
  intros Hcat Hex Hf Hb. destruct (last_zip s (b :: bs) ltac:(done)) as [a Hl].
  cbn [zip zip_with] in Hb, Hl. unfold buildMergeChunksApplyOpsUpdates in Hb. rewrite Hl in Hb. inv_ret.
  rename x into id0, x0 into dels. subst ops.
  inversion_clear Hf as [|? ? ? ? (Hd0 & Hmn & _) Hf']. simpl in Hmn.
  pose proof (ct_id _ Hcat o0 Hd0) as Hid. rewrite (Hex o0 s Hd0 ltac:(left) Hmn) in Hid.
  match goal with H : genID _ _ _ = Ret id0 |- _ => rewrite H in Hid; injection Hid as -> end.
  f_equal. eapply (merge_deletes l shard _ olds [] _ (s :: b :: bs) Hcat Hex); [|done|done].
  intros p Hin. right. by apply zip_fst_elem.
Qed.

(** The chunks to merge, once the preconditions hold. *)
Lemma merge_olds l s b bs ps shard v w ops :
  catalog l -> exact_bounds l (s :: b :: bs) -> merge_loop s (b :: bs) = Ret ps ->
  buildMergeChunksApplyOpsUpdates snprintf_g16 ns shard ps w = Ret ops ->
  checkPrecondition l (buildMergeChunksApplyOpsPrecond ns shard ps v) = Ret () ->
  exists o0 olds, tiling d_min s (entries (o0 :: olds)) (List.last (b :: bs) s) /\ d_min o0 = s /\
    (forall d, d ∈ o0 :: olds -> docs_of ns l d /\ d_shard d = shard) /\
    ops = update_of false (mkDoc (d_id o0) ns s (List.last (b :: bs) s) w shard None) ::
          (delete_of <$> olds) /\
    Forall op_wf ops /\ op_id <$> ops = d_id <$> o0 :: olds.
Proof.
  intros Hcat Hex [-> Hlt]%merge_loop_spec Hb Hp.
  destruct (merge_docs l shard s (b :: bs) Hlt) as (olds & Ht & Hf).
  { intros p Hin. destruct (checkPrecondition_inv l _ (mkPre ns p.1 p.2 (_epoch v) shard) Hp)
      as (d & ? & ? & ? & ? & ? & ?); [|by exists d].
    apply list_elem_of_In, in_map_iff. exists p. split; [done|by apply list_elem_of_In]. }
  destruct olds as [|o0 olds]; [by apply Forall2_length in Hf|]. exists o0, olds.
  pose proof (merge_ops l shard s b bs o0 olds w ops Hcat Hex Hf Hb) as ->. split_and!; try done.
  - inversion_clear Hf as [|? ? ? ? (Hd0 & Hmn & _) _]. by apply (Hex o0 s Hd0 ltac:(left)).
  - intros d Hd. by destruct (Forall2_elem_r _ _ _ d Hf Hd) as (p & _ & ? & _ & _ & ?).
  - constructor; [done|]. apply Forall_fmap, Forall_true. done.
  - cbn [fmap list_fmap]. simpl op_id. f_equal. by rewrite <- list_fmap_compose.
Qed.

Lemma merge_replaces l l' s b bs ps shard v w ops :
  catalog l -> exact_bounds l (s :: b :: bs) -> merge_loop s (b :: bs) = Ret ps ->
  buildMergeChunksApplyOpsUpdates snprintf_g16 ns shard ps w = Ret ops ->
  (forall d, docs_of ns l d -> toLong (d_lastmod d) <= toLong v) ->
  toLong v < toLong w -> _epoch w = epoch ->
  applyOps l ops (buildMergeChunksApplyOpsPrecond ns shard ps v) = Ret l' ->
  exists olds merged, replaces olds [merged] l l' /\ Forall (fun d => d_shard d = shard) olds /\
    d_min merged = s /\ d_max merged = List.last (b :: bs) s /\ d_shard merged = shard.
Proof.
  intros Hcat Hex Hloop Hb Hmax Hvw Hew ([] & Hp & Ha)%obind_Ret_inv.
  destruct (merge_olds _ _ _ _ _ _ _ _ _ Hcat Hex Hloop Hb Hp) as (o0 & olds & Ht & Hmn & Hdocs & -> & Hwf & Hops).
  set (merged := mkDoc (d_id o0) ns s (List.last (b :: bs) s) w shard None) in *.
  assert (Hcd : NoDup (d_id <$> o0 :: olds)).
  { eapply (chain_doc_ids l); [done..|]. intros d Hd. by apply Hdocs. }
  exists (o0 :: olds), merged. split_and!; try done; [|apply Forall_forall; intros d Hd; by apply Hdocs].
  apply (chain_replaces _ _ _ _ s (List.last (b :: bs) s) v); try done.
  - apply single_tiling; [simpl; korder..|].
    destruct (entries_range _ _ _ o0 Ht ltac:(left)) as (? & ? & ?). korder.
  - intros d Hd. by apply Hdocs.
  - intros d ->%list_elem_of_singleton. split_and!; try done. simpl. rewrite <- Hmn.
    apply (ct_id _ Hcat). apply Hdocs. by left.
  - by intros d1 d2 ->%list_elem_of_singleton ->%list_elem_of_singleton.
  - apply (ops_replace l (update_of false merged :: (delete_of <$> olds))); rewrite ?Hops; try done.
    + intros d. rewrite list_elem_of_singleton. split.
      * intros ->. exists (update_of false merged). split; [by left|done].
      * intros (op & [->|(x & -> & _)%list_elem_of_fmap]%elem_of_cons & Hw); [exact Hw|done].
    + intros d Hd. by apply list_elem_of_fmap_2.
    + intros d Hd (x & Hx & Hin)%list_elem_of_fmap.
      rewrite (NoDup_fmap_eq d_id l d x); [done|apply (ct_ids _ Hcat)|done|apply (Hdocs x Hin)|done].
Qed.

(** * Migrations *)

(** One update that keeps the bounds of a chunk. *)
Lemma update_replaces l l' b old d v :
  catalog l -> docs_of ns l old -> apply_op l (update_of b d) = Ret l' ->
  d_id d = d_id old -> d_ns d = ns -> genID snprintf_g16 ns (d_min d) = Ret (d_id d) ->
  d_min d ≅k d_min old -> d_max d ≅k d_max old -> _epoch (d_lastmod d) = epoch ->
  (forall d0, docs_of ns l d0 -> toLong (d_lastmod d0) <= toLong v) -> toLong v < toLong (d_lastmod d) ->
  replaces [old] [d] l l'.
Proof.
  intros Hcat Ho Ha Hid Hns Hg Hmn Hmx He Hmax Hlt. destruct (ct_range _ Hcat old Ho) as (_ & ? & _).
  apply (chain_replaces _ _ _ _ (d_min old) (d_max old) v); try done.
  - apply single_tiling; korder.
  - apply single_tiling; korder.
  - by intros x ->%list_elem_of_singleton.
  - by intros x ->%list_elem_of_singleton.
  - by intros d1 d2 ->%list_elem_of_singleton ->%list_elem_of_singleton.
  - apply (ops_replace l [update_of b d]); try done.
    + cbn [ofold]. by rewrite Ha.
    + by repeat constructor.
    + apply NoDup_singleton.
    + intros x. rewrite list_elem_of_singleton. split.
      * intros ->. exists (update_of b d). split; [by left|done].
      * by intros (op & ->%list_elem_of_singleton & Hw).
    + intros x ->%list_elem_of_singleton. simpl. rewrite Hid. by left.
    + intros x Hx. simpl. rewrite list_elem_of_singleton, Hid. intros Hxi. apply list_elem_of_singleton.
      by apply (NoDup_fmap_eq d_id l); [apply (ct_ids _ Hcat)|done|apply Ho|].
Qed.

(** Two replacements of different chunks are one. *)
Lemma replaces_compose l l1 l' old1 new1 old2 new2 :
  catalog l -> replaces old1 new1 l l1 -> replaces old2 new2 l1 l' ->
  new1 <> [] -> (forall d, d ∈ old2 -> d ∉ new1) ->
  replaces (old1 ++ old2) (new1 ++ new2) l l'.
Proof.
  intros Hcat H1 H2 Hne Hdj. pose proof (catalog_replaces _ _ _ _ Hcat H1) as Hcat1.
  pose proof (fun d => replaces_docs _ _ _ _ d H1) as Hd1.
  assert (Hold2 : forall d, d ∈ old2 -> docs_of ns l d /\ d ∉ old1).
  { intros d Hd. destruct (proj1 (Hd1 d) (rp_old _ _ _ _ H2 d Hd)) as [Hn|?]; [|done]. by destruct (Hdj d Hd). }
  assert (Hnew1 : forall d, d ∈ new1 -> docs_of ns l1 d) by (intros d Hd; apply Hd1; by left).
  assert (Hcross : forall d1 d2 k, d1 ∈ new1 -> d2 ∈ new2 -> covers d1 k -> covers d2 k -> False).
  { intros d1 d2 k Hi1 Hi2 Hk1 Hk2. destruct (proj1 (rp_cover _ _ _ _ H2 k)) as (o & Hoo & Hok); [by exists d2|].
    apply (Hdj o Hoo). by rewrite <- (ct_unique _ Hcat1 d1 o k (Hnew1 d1 Hi1) (rp_old _ _ _ _ H2 o Hoo) Hk1 Hok). }
  assert (Hlt : forall d1 d2, d1 ∈ new1 -> d2 ∈ new2 -> toLong (d_lastmod d1) < toLong (d_lastmod d2))
    by (intros d1 d2 Hi1 Hi2; exact (rp_newer _ _ _ _ H2 d2 d1 Hi2 (Hnew1 d1 Hi1))).
  split.
  - intros d [Hd|Hd]%elem_of_app; [by apply (rp_old _ _ _ _ H1)|by apply Hold2].
  - intros d [Hd|Hd]%elem_of_app; [by apply (rp_ns _ _ _ _ H1)|by apply (rp_ns _ _ _ _ H2)].
  - apply (rp_ids _ _ _ _ H2).
  - intros d [Hd|Hd]%elem_of_app; [by apply (rp_id _ _ _ _ H1)|by apply (rp_id _ _ _ _ H2)].
  - intros d. rewrite (rp_members _ _ _ _ H2), (rp_members _ _ _ _ H1), !elem_of_app.
    specialize (Hdj d). specialize (Hold2 d). split; [|tauto].
    intros [?|[[?|[? ?]] ?]]; [by left; right|by left; left|right; tauto].
  - intros d [Hd|Hd]%elem_of_app; [by apply (rp_range _ _ _ _ H1)|by apply (rp_range _ _ _ _ H2)].
  - intros d [Hd|Hd]%elem_of_app;
      [destruct (rp_bounds _ _ _ _ H1 d Hd) as (o1 & o2 & ? & ? & ?)|
       destruct (rp_bounds _ _ _ _ H2 d Hd) as (o1 & o2 & ? & ? & ?)];
      exists o1, o2; rewrite !elem_of_app; tauto.
  - intros k. split; intros (d & [Hd|Hd]%elem_of_app & Hk).
    + destruct (proj1 (rp_cover _ _ _ _ H1 k)) as (o & ? & ?); [by exists d|]. exists o. rewrite elem_of_app. auto.
    + destruct (proj1 (rp_cover _ _ _ _ H2 k)) as (o & ? & ?); [by exists d|]. exists o. rewrite elem_of_app. auto.
    + destruct (proj2 (rp_cover _ _ _ _ H1 k)) as (o & ? & ?); [by exists d|]. exists o. rewrite elem_of_app. auto.
    + destruct (proj2 (rp_cover _ _ _ _ H2 k)) as (o & ? & ?); [by exists d|]. exists o. rewrite elem_of_app. auto.
  - intros d1 d2 k [Ha|Ha]%elem_of_app [Hb|Hb]%elem_of_app Hk1 Hk2.
    + by apply (rp_unique _ _ _ _ H1 d1 d2 k).
    + by destruct (Hcross d1 d2 k).
    + by destruct (Hcross d2 d1 k).
    + by apply (rp_unique _ _ _ _ H2 d1 d2 k).
  - intros d [Hd|Hd]%elem_of_app; [by apply (rp_epoch _ _ _ _ H1)|by apply (rp_epoch _ _ _ _ H2)].
  - intros d d0 [Hd|Hd]%elem_of_app Hd0; [by apply (rp_newer _ _ _ _ H1)|].
    destruct new1 as [|n1 new1]; [done|]. pose proof (rp_newer _ _ _ _ H1 n1 d0 ltac:(left) Hd0).
    specialize (Hlt n1 d ltac:(left) Hd). lia.
  - intros d1 d2 [Ha|Ha]%elem_of_app [Hb|Hb]%elem_of_app Heq;
      [by apply (rp_versions _ _ _ _ H1)|specialize (Hlt d1 d2 Ha Hb); lia|
       specialize (Hlt d2 d1 Hb Ha); lia|by apply (rp_versions _ _ _ _ H2)].
Qed.

(** * The commits meet the specification *)

Lemma getMax_spec q c c' r :
  getMaxChunkVersion q c = (c', r) ->
  cfg_chunks c' = cfg_chunks c /\
  forall v, r = Ret v -> exists d, d ∈ cfg_chunks c /\ q d = true /\ d_lastmod d = v /\
    forall d', d' ∈ cfg_chunks c -> q d' = true -> toLong (d_lastmod d') <= toLong v.
Proof.
  intros [(c1 & o & H1 & H2)|(Hc & Hr1 & Hr)]%sbind_inv.
  - apply find_chunks in H1 as [Hc1 Ho]. specialize (Ho o eq_refl). subst o.
    pose proof (newest_spec q (cfg_chunks c)) as Hs. destruct (newest q (cfg_chunks c)) as [d|];
      injection H2 as <- <-; (split; [done|]); [|done].
    intros v [= <-]. destruct Hs as (? & ? & ?). by exists d.
  - destruct (find (newest q) c) as [c1 r1] eqn:E. simpl in Hc. subst c1.
    apply find_chunks in E as [? _]. split; [done|]. by intros v ->.
Qed.

Lemma find_preserves {A} (q : list ChunkDoc -> A) : spreserves cfg_chunks (find q).
Proof. intros c. destruct (find q c) as [c' r] eqn:E. by apply find_chunks in E as [? _]. Qed.

Lemma getMax_preserves q : spreserves cfg_chunks (getMaxChunkVersion q).
Proof. intros c. destruct (getMaxChunkVersion q c) as [c' r] eqn:E. by apply getMax_spec in E as [? _]. Qed.

(** A commit leaves the collection alone and fails, or meets the specification. *)
Definition commits {A} (P : list ChunkDoc -> list ChunkDoc -> Prop) (m : SM Config A) (c : Config) : Prop :=
  let '(c', r) := m c in
  cfg_chunks c' = cfg_chunks c /\ is_Ret r = false \/ P (cfg_chunks c) (cfg_chunks c').

(** A step that does not change the collection. *)
Lemma commits_read {A B} P (m : SM Config A) (k : A -> SM Config B) c :
  spreserves cfg_chunks m ->
  (forall c1 a, m c = (c1, Ret a) -> cfg_chunks c1 = cfg_chunks c -> commits P (k a) c1) ->
  commits P (sbind m k) c.
Proof.
  intros Hp Hk. unfold commits. specialize (Hp c). unfold sbind. destruct (m c) as [c1 [a|e| |]] eqn:E;
    simpl in Hp; [|by left..]. specialize (Hk c1 a eq_refl Hp). unfold commits in Hk.
  destruct (k a c1) as [c' r]. by rewrite Hp in Hk.
Qed.

Lemma commits_lift {A B} P (m : Outcome A) (k : A -> SM Config B) c :
  (forall a, m = Ret a -> commits P (k a) c) -> commits P (sbind (slift m) k) c.
Proof.
  intros Hk. apply commits_read; [done|]. intros c1 a [= <- ->] _. by apply Hk.
Qed.

Lemma commits_fail {A} P (m : Outcome A) c : is_Ret m = false -> commits P (slift m) c.
Proof. intros Hm. left. done. Qed.

Lemma commits_apply P ops pre nss last c :
  ops_ok (cfg_chunks c) ops pre -> NoDup (d_id <$> cfg_chunks c) ->
  (forall d, docs_of nss (cfg_chunks c) d -> toLong (d_lastmod d) < toLong last) ->
  (forall l', applyOps (cfg_chunks c) ops pre = Ret l' -> P (cfg_chunks c) l') ->
  commits P (applyChunkOpsDeprecated ops pre nss last) c.
Proof.
  intros Hok Hl Hf Hp. unfold commits.
  destruct (applyChunkOpsDeprecated ops pre nss last c) as [c' r] eqn:E.
  apply applyChunkOps_spec in E as [?|?]; [by left|right; by apply Hp|done..|].
  intros d Hd Hns. specialize (Hf d (conj Hd Hns)). lia.
Qed.

(** What a split does: one chunk of the shard is replaced by chunks of the same
    shard that end at the split points and at its upper bound. *)
Definition split_spec (range : ChunkRange) (splitPoints : list BSONObj) (shard : ShardId)
    (l l' : list ChunkDoc) : Prop :=
  exists old new, replaces [old] new l l' /\ d_shard old = shard /\
    d_min old ≅k _minKey range /\ d_max old ≅k _maxKey range /\
    d_max <$> new = splitPoints ++ [_maxKey range] /\ Forall (fun d => d_shard d = shard) new.

Lemma split_commits range pts shard requestEpoch c :
  catalog (cfg_chunks c) -> ids_faithful (cfg_chunks c) (_minKey range :: pts) ->
  commits (split_spec range pts shard)
    (commitChunkSplit snprintf_g16 ns requestEpoch range pts shard) c.
Proof.
  intros Hcat Hfa. unfold commitChunkSplit. apply commits_read; [apply getMax_preserves|].
  intros c1 v [_ Hv]%getMax_spec Hc1. destruct (Hv v eq_refl) as (dv & Hdv & Hns & <- & Hmax).
  apply String.eqb_eq in Hns. destruct (oid_eqb (_epoch (d_lastmod dv)) requestEpoch) eqn:Eep; [|by apply commits_fail].
  apply oid_eqb_eq in Eep. rewrite (ct_epoch _ Hcat dv) in Eep by done. subst requestEpoch. cbn [negb].
  apply commits_read; [apply getMax_preserves|]. intros c2 sv _ Hc2.
  apply commits_lift. intros w Hw. apply commits_lift. intros [ops lastv] Hloop.
  assert (Hvw : toLong (d_lastmod dv) <= toLong w /\ _epoch w = epoch).
  { rewrite <- (ct_epoch _ Hcat dv) by done. destruct (version_equals _ _);
      [apply incMajor_inv in Hw as [? ?]; split; [lia|done]|injection Hw as <-; split; [lia|done]]. }
  destruct Hvw as [Hvw Hew]. rewrite <- Hc1, <- Hc2 in *.
  assert (Hdocs : forall d, docs_of ns (cfg_chunks c2) d -> toLong (d_lastmod d) <= toLong w).
  { intros d [Hd Hdn]. specialize (Hmax d Hd (proj2 (String.eqb_eq _ _) Hdn)). lia. }
  apply split_loop_spec in Hloop as (ds & -> & Hch). apply commits_apply.
  - intros _. split; [apply update_wf|]. rewrite op_ids_update. eapply chain_ids; [apply (sc_tiling _ _ _ _ _ _ Hch)|exact Hfa|apply (sc_nodup _ _ _ _ _ _ Hch)|].
    intros d Hd. split; [by eapply chain_mins|by apply (sc_doc _ _ _ _ _ _ Hch)].
  - apply (ct_ids _ Hcat).
  - intros d Hd. specialize (Hdocs d Hd). pose proof (sc_bounds _ _ _ _ _ _ Hch) as Hb.
    destruct ds as [|d0 ds]; [by destruct pts|]. destruct (sc_version _ _ _ _ _ _ Hch d0 ltac:(left)) as [_ ?]. lia.
  - intros l' Ha. destruct (split_replaces _ _ _ _ _ _ _ _ Hcat Hfa Hch Hdocs Hew Ha) as (old & ? & ? & ? & ?).
    exists old, ds. split_and!; try done; [apply (sc_bounds _ _ _ _ _ _ Hch)|].
    apply Forall_forall. intros d Hd. apply (sc_doc _ _ _ _ _ _ Hch d Hd).
Qed.

(** What a merge does: consecutive chunks of the shard are replaced by one with
    the outer bounds. *)
Definition merge_spec (first last : BSONObj) (shard : ShardId) (l l' : list ChunkDoc) : Prop :=
  exists olds merged, replaces olds [merged] l l' /\ Forall (fun d => d_shard d = shard) olds /\
    d_min merged = first /\ d_max merged = last /\ d_shard merged = shard.

Lemma merge_commits b0 bs shard requestEpoch c :
  catalog (cfg_chunks c) -> exact_bounds (cfg_chunks c) (b0 :: bs) ->
  commits (merge_spec b0 (List.last bs b0) shard)
    (commitChunkMerge snprintf_g16 ns requestEpoch (b0 :: bs) shard) c.
Proof.
  intros Hcat Hex. unfold commitChunkMerge. apply commits_read; [apply getMax_preserves|].
  intros c1 v [_ Hv]%getMax_spec Hc1. destruct (Hv v eq_refl) as (dv & Hdv & Hns & <- & Hmax).
  apply String.eqb_eq in Hns. destruct (oid_eqb (_epoch (d_lastmod dv)) requestEpoch) eqn:Eep; [|by apply commits_fail].
  apply oid_eqb_eq in Eep. rewrite (ct_epoch _ Hcat dv) in Eep by done. subst requestEpoch. cbn [negb].
  apply commits_lift. intros _ _. apply commits_lift. intros ps Hloop.
  apply commits_lift. intros w [Hlt Hew]%incMinor_inv. apply commits_lift. intros ops Hops.
  rewrite (ct_epoch _ Hcat dv) in Hew by done. rewrite <- Hc1 in *.
  destruct bs as [|b bs]; [injection Hloop as <-; done|].
  assert (Hdocs : forall d, docs_of ns (cfg_chunks c1) d -> toLong (d_lastmod d) <= toLong (d_lastmod dv)).
  { intros d [Hd Hdn]. apply (Hmax d Hd). by apply String.eqb_eq. }
  apply commits_apply.
  - intros Hp. destruct (merge_olds _ _ _ _ _ _ _ _ _ Hcat Hex Hloop Hops Hp)
      as (o0 & olds & Ht & _ & Hd & _ & Hwf & ->). split; [done|].
    eapply (chain_doc_ids (cfg_chunks c1)); [done..|]. intros d Hin. by apply Hd.
  - apply (ct_ids _ Hcat).
  - intros d Hd. specialize (Hdocs d Hd). lia.
  - intros l' Ha. by eapply (merge_replaces (cfg_chunks c1)).
Qed.

(** A version with a higher major version than all chunks. *)
Definition new_major (l : list ChunkDoc) (v : ChunkVersion) : Prop :=
  forall d, docs_of ns l d -> majorVersion (d_lastmod d) < majorVersion v.

(** What a migration does: the chunk moves to the other shard at a new major
    version, the control chunk, if there is one, only gets a new version. *)
Definition migration_spec (migrated : BSONObj * BSONObj) (control : option (BSONObj * BSONObj * bool))
    (fromShard toShard : ShardId) (l l' : list ChunkDoc) : Prop :=
  exists m m', d_shard m = fromShard /\ d_shard m' = toShard /\
    d_min m = migrated.1 /\ d_min m' = migrated.1 /\ d_max m ≅k migrated.2 /\ d_max m' = migrated.2 /\
    new_major l (d_lastmod m') /\
    match control with
    | None => replaces [m] [m'] l l'
    | Some (mn, mx, _) =>
        exists k k', d_shard k = fromShard /\ d_shard k' = fromShard /\
          d_min k = mn /\ d_min k' = mn /\ d_max k ≅k mx /\ d_max k' = mx /\
          new_major l (d_lastmod k') /\ replaces [m; k] [m'; k'] l l'
    end.

Lemma check_inv nss mn mx shard c c' u :
  checkChunkIsOnShard nss mn mx shard c = (c', Ret u) ->
  exists d, docs_of nss (cfg_chunks c) d /\ d_min d ≅k mn /\ d_max d ≅k mx /\ d_shard d = shard.
Proof.
  intros [(c1 & b & H1 & H2)|(_ & _ & [=])]%sbind_inv. apply find_chunks in H1 as [_ Hb].
  specialize (Hb b eq_refl). injection H2 as _ Hu. apply uassert_Ret_inv in Hu. rewrite Hu in Hb. symmetry in Hb.
  apply existsb_elem in Hb as (d & Hd & Hp). unfold same_bounds in Hp. rewrite !wo_eq in Hp.
  repeat match goal with H : _ && _ = true |- _ => apply andb_true_iff in H as [? ?] end.
  exists d. split_and!; [split; [done|by apply String.eqb_eq]|by apply keqb_spec..|by apply String.eqb_eq].
Qed.

Lemma check_preserves nss mn mx shard : spreserves cfg_chunks (checkChunkIsOnShard nss mn mx shard).
Proof. apply spreserves_bind; [apply find_preserves|]. intros b. apply spreserves_lift. Qed.

(** The updates of a migration, one after the other. *)
Lemma migration_replaces l l' mn mx control fromShard toShard v cv (m : ChunkDoc) (k : option ChunkDoc) ops dv :
  catalog l -> exact_bounds l (mn :: match control with Some (x, _, _) => [x] | None => [] end) ->
  (forall d, docs_of ns l d -> toLong (d_lastmod d) <= toLong dv) ->
  toLong dv < toLong v -> toLong v < toLong cv -> _epoch v = epoch -> _epoch cv = epoch ->
  new_major l v -> new_major l cv ->
  docs_of ns l m -> d_min m ≅k mn -> d_max m ≅k mx -> d_shard m = fromShard ->
  match control, k with
  | None, _ => True
  | Some (x, y, _), Some k => docs_of ns l k /\ d_min k ≅k x /\ d_max k ≅k y /\ d_shard k = fromShard /\
      ~ x ≅k mn
  | Some _, None => False
  end ->
  makeCommitChunkApplyOpsCommand snprintf_g16 ns (mn, mx) v control cv fromShard toShard = Ret ops ->
  ofold apply_op l ops = Ret l' ->
  migration_spec (mn, mx) control fromShard toShard l l'.
Proof.
  intros Hcat Hex Hmax Hv Hcv He Hce Hnv Hncv Hm Hmn Hmx Hsh Hctl Hops Ha.
  pose proof (Hex m mn Hm ltac:(left) Hmn) as Hmn'. pose proof (ct_id _ Hcat m Hm) as Hid. rewrite Hmn' in Hid.
  unfold makeCommitChunkApplyOpsCommand in Hops. cbn [fst snd] in Hops. rewrite Hid in Hops. cbn [obind] in Hops.
  set (m' := mkDoc (d_id m) ns mn mx v toShard None) in *.
  assert (H1 : forall l1, apply_op l (OpUpdate false m' (d_id m)) = Ret l1 -> replaces [m] [m'] l l1).
  { intros l1 Hl1. apply (update_replaces l l1 false m m' dv); try done; simpl; korder. }
  exists m, m'. split_and!; try done. destruct control as [[[x y] jumbo]|].
  - destruct k as [k|]; [|done]. destruct Hctl as (Hk & Hkx & Hky & Hks & Hne).
    pose proof (Hex k x Hk ltac:(right; left) Hkx) as Hkx'. pose proof (ct_id _ Hcat k Hk) as Hidk.
    rewrite Hkx' in Hidk. rewrite Hidk in Hops. injection Hops as <-.
    cbn [ofold] in Ha. inv_ret. subst l'. specialize (H1 _ H).
    set (k' := mkDoc (d_id k) ns x y cv fromShard (Some jumbo)) in *.
    pose proof (catalog_replaces _ _ _ _ Hcat H1) as Hcat1.
    assert (Hkm : k <> m) by (intros ->; apply Hne; korder).
    exists k, k'. split_and!; try done. apply (replaces_compose l x0 x1 [m] [m'] [k] [k']); try done.
    + apply (update_replaces x0 x1 false k k' v); try done.
      * apply (replaces_docs _ _ _ _ _ H1). right. split; [done|]. by intros ->%list_elem_of_singleton.
      * simpl. korder.
      * simpl. korder.
      * intros d0 Hd0. apply (replaces_docs _ _ _ _ _ H1) in Hd0 as [->%list_elem_of_singleton|[Hd0 _]]; [simpl; lia|].
        specialize (Hmax d0 Hd0). lia.
    + intros d ->%list_elem_of_singleton Heq%list_elem_of_singleton. apply Hne.
      rewrite <- Hkx', Heq. simpl. korder.
  - injection Hops as <-. cbn [ofold] in Ha. inv_ret. subst l'. by apply H1.
Qed.

Lemma control_preserves nss controlChunk shard : spreserves cfg_chunks (checkControlChunk nss controlChunk shard).
Proof.
  destruct controlChunk as [k|]; [|done]. apply spreserves_bind; [done|]. intros b.
  apply spreserves_bind; [apply check_preserves|done].
Qed.

Lemma control_inv nss controlChunk shard c c' control :
  checkControlChunk nss controlChunk shard c = (c', Ret control) ->
  match controlChunk, control with
  | None, None => True
  | Some k, Some (x, y, _) => chunk_bounds k = Ret (x, y) /\
      exists d, docs_of nss (cfg_chunks c) d /\ d_min d ≅k x /\ d_max d ≅k y /\ d_shard d = shard
  | _, _ => False
  end.
Proof.
  destruct controlChunk as [k|]; simpl; [|by intros [= <- <-]].
  intros [(c1 & [x y] & H1 & H2)|(_ & _ & [=])]%sbind_inv. injection H1 as <- Hb.
  apply sbind_inv in H2 as [(c2 & u & H2 & H3)|(_ & _ & [=])]. apply check_inv in H2.
  injection H3 as <- <-. done.
Qed.

Lemma commits_run {A} P ops pre (k : Response -> SM Config A) c :
  ops_ok (cfg_chunks c) ops pre -> NoDup (d_id <$> cfg_chunks c) ->
  (forall r, spreserves cfg_chunks (k r)) ->
  (forall r c1, is_Ret (k r c1).2 = true -> succeeded (Ret r)) ->
  (forall l', applyOps (cfg_chunks c) ops pre = Ret l' -> P (cfg_chunks c) l') ->
  commits P (sbind (runCommandWithFixedRetryAttempts kOnErrorNumRetries ops pre) k) c.
Proof.
  intros Hok Hl Hk Hs Hp. unfold commits.
  destruct (sbind _ k c) as [c' r] eqn:E. apply sbind_inv in E as [(c1 & r1 & H1 & H2)|(Hc & _ & Hr)].
  - apply retries_spec in H1; [|done..]. specialize (Hk r1 c1). specialize (Hs r1 c1). rewrite H2 in Hk, Hs.
    simpl in Hk, Hs. rewrite Hk. destruct H1 as [[He Hns]|Ha]; [left|right; by apply Hp].
    split; [done|]. destruct (is_Ret r); [|done]. by destruct Hns; apply Hs.
  - destruct (runCommandWithFixedRetryAttempts _ _ _ c) as [c1 r1] eqn:E. simpl in Hc. subst c1.
    apply retries_spec in E as [[? _]|Ha]; [by left|right; by apply Hp|done..].
Qed.

(** The updates of a migration address distinct documents. *)
Lemma migration_ops_ok l mn mx control v cv fromShard toShard (m : ChunkDoc) ops :
  catalog l -> exact_bounds l (mn :: match control with Some (x, _, _) => [x] | None => [] end) ->
  docs_of ns l m -> d_min m ≅k mn ->
  match control with
  | None => True
  | Some (x, _, _) => ~ x ≅k mn /\ exists k, docs_of ns l k /\ d_min k ≅k x
  end ->
  makeCommitChunkApplyOpsCommand snprintf_g16 ns (mn, mx) v control cv fromShard toShard = Ret ops ->
  Forall op_wf ops /\ NoDup (op_id <$> ops).
Proof.
  intros Hcat Hex Hm Hmn Hctl Hops. unfold makeCommitChunkApplyOpsCommand in Hops. cbn [fst snd] in Hops.
  pose proof (ct_id _ Hcat m Hm) as Hid. rewrite (Hex m mn Hm ltac:(left) Hmn) in Hid.
  rewrite Hid in Hops. cbn [obind] in Hops. destruct control as [[[x y] jumbo]|].
  - destruct Hctl as (Hne & k & Hk & Hkx). pose proof (ct_id _ Hcat k Hk) as Hidk.
    rewrite (Hex k x Hk ltac:(right; left) Hkx) in Hidk. rewrite Hidk in Hops. injection Hops as <-.
    split; [by repeat constructor|]. cbn. apply NoDup_cons. split; [|apply NoDup_singleton].
    intros Heq%list_elem_of_singleton. assert (m = k) as ->; [|apply Hne; korder].
    apply (NoDup_fmap_eq d_id l); [apply (ct_ids _ Hcat)|apply Hm|apply Hk|done].
  - injection Hops as <-. split; [by repeat constructor|]. apply NoDup_singleton.
Qed.

Lemma next_major dv : majorVersion dv < 2 ^ 32 - 1 ->
  let v := newVersion (u32 (majorVersion dv + 1)) 0 (_epoch dv) in
  let cv := newVersion (u32 (majorVersion dv + 1)) 1 (_epoch dv) in
  toLong dv < toLong v /\ toLong v < toLong cv /\ _epoch v = _epoch dv /\ _epoch cv = _epoch dv /\
  majorVersion v = majorVersion dv + 1 /\ majorVersion cv = majorVersion dv + 1.
Proof.
  intros Hm v cv. pose proof (major_range dv) as Hr. unfold v, cv.
  assert (Hmaj : forall n, majorVersion (newVersion (u32 (majorVersion dv + 1)) n (_epoch dv)) = majorVersion dv + 1).
  { intros n. rewrite (proj1 (newVersion_parts _ _ _)), (u32_id (u32 _)), u32_id; [done|lia|apply u32_range]. }
  rewrite !Hmaj. clear Hr Hmaj. rewrite !toLong_newVersion, (toLong_major_minor dv).
  pose proof (major_range dv). pose proof (minor_range dv).
  rewrite (u32_id (majorVersion dv + 1)), (u32_id (majorVersion dv + 1)), (u32_id 0), (u32_id 1) by lia.
  split_and!; [lia|lia|done..].
Qed.

Definition control_of (controlChunk : option ChunkType) (control : option (BSONObj * BSONObj * bool)) : Prop :=
  match controlChunk, control with
  | None, None => True
  | Some k, Some (x, y, _) => chunk_bounds k = Ret (x, y)
  | _, _ => False
  end.

Lemma migration_commits migratedChunk controlChunk collectionEpoch fromShard toShard mn mx c :
  catalog (cfg_chunks c) -> chunk_bounds migratedChunk = Ret (mn, mx) ->
  (forall d, docs_of ns (cfg_chunks c) d -> majorVersion (d_lastmod d) < 2 ^ 32 - 1) ->
  exact_bounds (cfg_chunks c) (mn :: match controlChunk with
                                     | Some k => match _min k with Some x => [x] | None => [] end
                                     | None => [] end) ->
  match controlChunk with Some k => forall x y, chunk_bounds k = Ret (x, y) -> ~ x ≅k mn | None => True end ->
  commits (fun l l' => exists control, control_of controlChunk control /\
                         migration_spec (mn, mx) control fromShard toShard l l')
    (commitChunkMigration snprintf_g16 ns migratedChunk controlChunk collectionEpoch fromShard toShard) c.
Proof.
  intros Hcat Hb Hmaj Hex Hne. unfold commitChunkMigration. apply commits_read; [apply find_preserves|].
  intros c1 o [_ Ho]%find_chunks Hc1. specialize (Ho o eq_refl). subst o.
  pose proof (newest_spec (fun d => String.eqb (d_ns d) ns) (cfg_chunks c)) as Hmax.
  destruct (newest _ (cfg_chunks c)) as [dv|]; [|by apply commits_fail]. destruct Hmax as (Hdv & Hns & Hmax).
  apply String.eqb_eq in Hns. destruct (oid_eqb _ _); [|by apply commits_fail]. cbn [negb].
  rewrite Hb. apply commits_lift. intros ? [= <-]. cbn [fst snd].
  apply commits_read; [apply check_preserves|]. intros c2 u (m & Hm & Hmn & Hmx & Hsh)%check_inv Hc2.
  rewrite <- Hc1, <- Hc2 in *. apply commits_read; [apply control_preserves|]. intros c3 control Hctl%control_inv Hc3.
  destruct (next_major (d_lastmod dv) (Hmaj dv (conj Hdv Hns))) as (Hv & Hcv & He & Hce & Hmv & Hmcv).
  pose proof (ct_epoch _ Hcat dv (conj Hdv Hns)) as Hep.
  apply commits_lift. intros _ _. apply commits_lift. intros ops Hops. rewrite <- Hc3 in *.
  assert (Hex' : exact_bounds (cfg_chunks c3) (mn :: match control with Some (x, _, _) => [x] | None => [] end)).
  { destruct controlChunk as [k|], control as [[[x y] j]|]; try done. destruct Hctl as [Hkb _].
    unfold chunk_bounds in Hkb. destruct (_min k), (_max k); try done. by injection Hkb as -> ->. }
  assert (Hc : exists kd : option ChunkDoc, match control, kd with
    | None, _ => True
    | Some (x, y, _), Some k => docs_of ns (cfg_chunks c3) k /\ d_min k ≅k x /\ d_max k ≅k y /\
        d_shard k = fromShard /\ ~ x ≅k mn
    | Some _, None => False end).
  { destruct controlChunk as [k|], control as [[[x y] j]|]; try done; [|by exists None].
    destruct Hctl as (Hkb & d & ? & ? & ? & ?). exists (Some d). split_and!; try done. by apply (Hne x y). }
  destruct Hc as [kd Hkd]. apply commits_run.
  - intros _. eapply (migration_ops_ok (cfg_chunks c3)); try done.
    destruct control as [[[x y] j]|]; [|done]. destruct kd as [kd|]; [|done].
    destruct Hkd as (? & ? & _ & _ & ?). split; [done|]. by exists kd.
  - apply (ct_ids _ Hcat).
  - by intros [[[?|?| |] ?]|?| |].
  - intros [[[[]|?| |] w]|?| |] c4; try done. by exists w.
  - intros l' Ha. exists control. split; [by destruct controlChunk, control as [[[x y] j]|]; try apply Hctl|].
    apply obind_Ret_inv in Ha as (u' & _ & Ha).
    eapply (migration_replaces (cfg_chunks c3) l' mn mx control fromShard toShard _ _ m kd ops (d_lastmod dv));
      [exact Hcat|exact Hex'| |exact Hv|exact Hcv|exact (eq_trans He Hep)|exact (eq_trans Hce Hep)| | |exact Hm|exact Hmn|exact Hmx|
       exact Hsh|exact Hkd|exact Hops|exact Ha].
    { intros d [Hd Hdn]. apply (Hmax d Hd). by apply String.eqb_eq. }
    all: intros d [Hd Hdn]; pose proof (version_major_mono _ _ (Hmax d Hd (proj2 (String.eqb_eq _ _) Hdn))); lia.
Qed.

(** * Sequences of commits *)

(** A request to commit with its arguments, and the catalog after it, whatever
    it returns. *)
Inductive Commit :=
  | CommitSplit (requestEpoch : OID) (range : ChunkRange) (splitPoints : list BSONObj) (shard : ShardId)
  | CommitMerge (requestEpoch : OID) (chunkBoundaries : list BSONObj) (shard : ShardId)
  | CommitMigration (migratedChunk : ChunkType) (controlChunk : option ChunkType) (collectionEpoch : OID)
      (fromShard toShard : ShardId).

Definition run_commit (q : Commit) (c : Config) : Config :=
  match q with
  | CommitSplit requestEpoch range splitPoints shard =>
      (commitChunkSplit snprintf_g16 ns requestEpoch range splitPoints shard c).1
  | CommitMerge requestEpoch chunkBoundaries shard => (commitChunkMerge snprintf_g16 ns requestEpoch chunkBoundaries shard c).1
  | CommitMigration migratedChunk controlChunk collectionEpoch fromShard toShard =>
      (commitChunkMigration snprintf_g16 ns migratedChunk controlChunk collectionEpoch fromShard toShard c).1
  end.

(** The condition under which a commit keeps the catalog a partition: the ids of
    a split identify its bounds; the bounds of a merge or a migration are spelled
    as they are stored; a control chunk is not the migrated one, and the major
    version is not exhausted. The code checks none of it. *)
Definition request_ok (l : list ChunkDoc) (q : Commit) : Prop :=
  match q with
  | CommitSplit _ range splitPoints _ => ids_faithful l (_minKey range :: splitPoints)
  | CommitMerge _ chunkBoundaries _ => exact_bounds l chunkBoundaries
  | CommitMigration migratedChunk controlChunk _ _ _ =>
      exists mn mx, chunk_bounds migratedChunk = Ret (mn, mx) /\
        (forall d, docs_of ns l d -> majorVersion (d_lastmod d) < 2 ^ 32 - 1) /\
        exact_bounds l (mn :: match controlChunk with
                              | Some k => match _min k with Some x => [x] | None => [] end
                              | None => [] end) /\
        match controlChunk with
        | Some k => forall x y, chunk_bounds k = Ret (x, y) -> ~ x ≅k mn
        | None => True
        end
  end.

(** A commit of a request that [P] allows in the current catalog. *)
Definition commit_step (P : list ChunkDoc -> Commit -> Prop) (c c' : Config) : Prop :=
  exists q, P (cfg_chunks c) q /\ c' = run_commit q c.

(** What a commit does, by its kind. *)
Definition commit_spec (q : Commit) (l l' : list ChunkDoc) : Prop :=
  match q with
  | CommitSplit _ range splitPoints shard => split_spec range splitPoints shard l l'
  | CommitMerge _ chunkBoundaries shard =>
      exists first bounds, chunkBoundaries = first :: bounds /\ merge_spec first (List.last bounds first) shard l l'
  | CommitMigration migratedChunk controlChunk _ fromShard toShard =>
      exists bounds control, chunk_bounds migratedChunk = Ret bounds /\ control_of controlChunk control /\
        migration_spec bounds control fromShard toShard l l'
  end.

Lemma run_commit_spec q c : catalog (cfg_chunks c) -> request_ok (cfg_chunks c) q ->
  cfg_chunks (run_commit q c) = cfg_chunks c \/ commit_spec q (cfg_chunks c) (cfg_chunks (run_commit q c)).
Proof.
  intros Hcat. destruct q as [ep range pts shard|ep [|b bs] shard|mc kc ep fs ts]; cbn [request_ok run_commit commit_spec].
  - intros Hfa. pose proof (split_commits range pts shard ep c Hcat Hfa) as Hc. unfold commits in Hc.
    destruct (commitChunkSplit _ _ _ _ _ _ c) as [c' r]. destruct Hc as [[? _]|?]; [by left|by right].
  - by left.
  - intros Hex. pose proof (merge_commits b bs shard ep c Hcat Hex) as Hc. unfold commits in Hc.
    destruct (commitChunkMerge _ _ _ _ _ c) as [c' r]. destruct Hc as [[? _]|?]; [by left|right]. by exists b, bs.
  - intros (mn & mx & Hb & Hmaj & Hex & Hne). pose proof (migration_commits mc kc ep fs ts mn mx c Hcat Hb Hmaj Hex Hne) as Hc.
    unfold commits in Hc. destruct (commitChunkMigration _ _ _ _ _ _ _ c) as [c' r].
    destruct Hc as [[? _]|(control & ? & ?)]; [by left|right]. by exists (mn, mx), control.
Qed.

(** Every such commit stutters or replaces some chunks. *)
Lemma commit_step_replaces c c' :
  catalog (cfg_chunks c) -> commit_step request_ok c c' ->
  cfg_chunks c' = cfg_chunks c \/
  exists old new, old <> [] /\ replaces old new (cfg_chunks c) (cfg_chunks c').
Proof.
  intros Hcat (q & Hq & ->). destruct (run_commit_spec q c Hcat Hq) as [?|H]; [by left|right]. destruct q; cbn [commit_spec] in H.
  - destruct H as (old & new & Hr & _). by exists [old], new.
  - destruct H as (b & bs & _ & olds & m & Hr & _). exists olds, [m]. split; [|done].
    intros ->. by destruct (rp_bounds _ _ _ _ Hr m ltac:(left)) as (? & ? & ?%not_elem_of_nil & _).
  - destruct H as ([mn mx] & [[[x y] j]|] & _ & _ & m & m' & Hr).
    + destruct Hr as (_ & _ & _ & _ & _ & _ & _ & k & k' & _ & _ & _ & _ & _ & _ & _ & Hr). by exists [m; k], [m'; k'].
    + destruct Hr as (_ & _ & _ & _ & _ & _ & _ & Hr). by exists [m], [m'].
Qed.

(** [l'] is a later state of [l]: what is new in it is newer than all of [l]. *)
Definition later (l l' : list ChunkDoc) : Prop :=
  (forall d, docs_of ns l' d ->
     docs_of ns l d \/ forall d0, docs_of ns l d0 -> toLong (d_lastmod d0) < toLong (d_lastmod d)) /\
  (forall d0, docs_of ns l d0 -> exists d, docs_of ns l' d /\ toLong (d_lastmod d0) <= toLong (d_lastmod d)).

Lemma later_refl l : later l l.
Proof. split; [by left|]. intros d Hd. by exists d. Qed.

Lemma later_trans l1 l2 l3 : later l1 l2 -> later l2 l3 -> later l1 l3.
Proof.
  intros [H1 H2] [H3 H4]. split.
  - intros d Hd. destruct (H3 d Hd) as [Hd2|Hn]; [by apply H1|]. right. intros d0 Hd0.
    destruct (H2 d0 Hd0) as (d2 & Hd2 & Hle). specialize (Hn d2 Hd2). lia.
  - intros d0 Hd0. destruct (H2 d0 Hd0) as (d2 & Hd2 & Hle). destruct (H4 d2 Hd2) as (d3 & Hd3 & Hle').
    exists d3. split; [done|lia].
Qed.

Lemma replaces_later old new l l' :
  catalog l -> old <> [] -> replaces old new l l' -> later l l'.
Proof.
  intros Hcat Hne H. split.
  - intros d Hd. apply (replaces_docs _ _ _ _ _ H) in Hd as [Hd|[Hd _]]; [right|by left].
    intros d0 Hd0. by apply (rp_newer _ _ _ _ H).
  - destruct old as [|o old]; [done|]. pose proof (rp_old _ _ _ _ H o ltac:(left)) as Ho.
    destruct (ct_range _ Hcat o Ho) as (_ & ? & _).
    destruct (proj2 (rp_cover _ _ _ _ H (d_min o))) as (n & Hn & _).
    { exists o. split; [by left|]. split; korder. }
    intros d0 Hd0. exists n. split; [apply (replaces_docs _ _ _ _ _ H); by left|].
    pose proof (rp_newer _ _ _ _ H n d0 Hn Hd0). lia.
Qed.

Lemma commits_later c c' :
  rtc (commit_step request_ok) c c' -> catalog (cfg_chunks c) ->
  catalog (cfg_chunks c') /\ later (cfg_chunks c) (cfg_chunks c').
Proof.
  induction 1 as [c|c1 c2 c3 Hs _ IH]; intros Hcat; [split; [done|apply later_refl]|].
  destruct (commit_step_replaces c1 c2 Hcat Hs) as [He|(old & new & Hne & Hr)].
  - rewrite <- He in *. by apply IH.
  - destruct (IH (catalog_replaces _ _ _ _ Hcat Hr)) as [? ?]. split; [done|].
    eapply later_trans; [by eapply replaces_later|done].
Qed.

(** * A valid split goes through *)

Fixpoint points_ascend (s : BSONObj) (bounds : list BSONObj) : Prop :=
  match bounds with
  | [] => True
  | b :: bounds => s ≺ b /\ points_ascend b bounds
  end.

Definition storable (k : BSONObj) : Prop :=
  isEmpty k = false /\ checkShardKeySize k = Ret () /\ checkShardKeyIsValidForMetadataStorage k = Ret () /\
  exists id, genID snprintf_g16 ns k = Ret id.

(** The request names a chunk of the shard and ascending split points inside
    it, and the versions are not exhausted. *)
Record valid_split (l : list ChunkDoc) (range : ChunkRange) (pts : list BSONObj) (shard : ShardId) : Prop := {
  vs_chunk : exists d, docs_of ns l d /\ d_min d = _minKey range /\ d_max d = _maxKey range /\ d_shard d = shard;
  vs_ascending : points_ascend (_minKey range) (pts ++ [_maxKey range]);
  vs_storable : Forall storable (_minKey range :: pts ++ [_maxKey range]);
  vs_major d : docs_of ns l d -> majorVersion (d_lastmod d) < 2 ^ 32 - 1;
  vs_minor d : docs_of ns l d -> minorVersion (d_lastmod d) + Z.of_nat (List.length pts) + 1 < 2 ^ 32
}.

Lemma ascending_above s bounds b : points_ascend s bounds -> b ∈ bounds -> s ≺ b.
Proof.
  revert s. induction bounds as [|x bounds IH]; intros s; [by intros _ ?%not_elem_of_nil|].
  intros [H1 H2] [->|Hb]%elem_of_cons; [done|]. specialize (IH x H2 Hb). korder.
Qed.

Lemma ascending_below s bounds e b : points_ascend s (bounds ++ [e]) -> b ∈ bounds -> b ≺ e.
Proof.
  revert s. induction bounds as [|x bounds IH]; intros s; [by intros _ ?%not_elem_of_nil|].
  intros [H1 H2] [->|Hb]%elem_of_cons; [|by eapply IH]. eapply ascending_above; [exact H2|].
  apply elem_of_app. right. by left.
Qed.

Lemma split_loop_total shard range start bounds v :
  points_ascend start bounds -> Forall storable (start :: bounds) ->
  (forall b, b ∈ bounds -> b ≅k _maxKey range \/ Range.containsKey range b = true) ->
  minorVersion v + Z.of_nat (List.length bounds) < 2 ^ 32 ->
  exists r, split_loop snprintf_g16 ns shard range start bounds v = Ret r.
Proof.
  revert start v. induction bounds as [|b bounds IH]; intros start v Ha Hs Hin Hv; [by eexists|].
  destruct Ha as [Hlt Ha]. inversion_clear Hs as [|? ? (Hne & _ & _ & id & Hid) Hs'].
  pose proof (Forall_inv Hs') as (Hneb & Hsz & Hval & _). cbn [List.length] in Hv.
  destruct (proj2 (incMinor_spec v)) as (w & Hw & _ & Hmw & _ & Hlw); [pose proof (minor_range v); lia|].
  destruct (IH b w Ha Hs') as [[ops lastv] Hl]; [intros b' Hb'; apply Hin; by right|lia|].
  cbn [split_loop]. rewrite wo_eq, wo_lt, (wo_eq b start).
  assert (negb (keqb b (_maxKey range)) && negb (Range.containsKey range b) = false) as ->.
  { destruct (Hin b ltac:(left)) as [?%keqb_spec | ->]; [by rewrite H|apply andb_false_r]. }
  destruct (kltb b start) eqn:E1; [exfalso; korder|]. destruct (keqb b start) eqn:E2; [exfalso; korder|].
  rewrite Hsz, Hval, Hw, Hid, Hne, Hneb. cbn [obind invariant negb].
  assert (isSet w = true) as ->.
  { unfold isSet. apply Z.ltb_lt. pose proof (ui64_range (_combined v)). unfold toLong in *. lia. }
  cbn [obind invariant]. rewrite Hl. by eexists.
Qed.

(** Updates none of whose documents clashes with another one, or with a document
    other than the one the first update replaces, go through. *)
Lemma updates_apply l (ds : list ChunkDoc) :
  NoDup (d_id <$> l) -> NoDup (d_id <$> ds) ->
  (forall d1 d2, d1 ∈ ds -> d2 ∈ ds -> d_id d1 <> d_id d2 -> conflicts d1 d2 = false) ->
  (forall d d', d ∈ ds -> d' ∈ l -> d_id d' <> d_id d ->
     (forall h, head ds = Some h -> d_id d' <> d_id h) -> conflicts d' d = false) ->
  exists l', ofold apply_op l (update_of true <$> ds) = Ret l'.
Proof.
  revert l. induction ds as [|d ds IH]; intros l Hl Hnd Hp Hc; [by eexists|].
  cbn [fmap list_fmap] in Hnd. apply NoDup_cons in Hnd as [Hd Hnd].
  assert (H1 : exists l1, apply_op l (update_of true d) = Ret l1).
  { cbn [update_of apply_op orb]. destruct (existsb (fun d' => negb _ && _) l) eqn:E; [|destruct (existsb (has_id _) l); by eexists].
    apply existsb_elem in E as (d' & Hd' & [Hid%negb_true_iff%has_id_false Hcf]%andb_true_iff).
    rewrite (Hc d d' ltac:(left) Hd' Hid) in Hcf; [done|]. by intros h [= <-]. }
  destruct H1 as [l1 H1]. destruct (apply_op_members l _ l1 H1 eq_refl Hl) as [Hl1 Hm].
  destruct (IH l1 Hl1 Hnd) as [l' Hl'].
  - intros d1 d2 Hd1 Hd2. apply Hp; by right.
  - intros x d' Hx Hd' Hid _. apply Hm in Hd' as [Hd'|[Hd' Hne]].
    + simpl in Hd'. subst d'. apply Hp; [by left|by right|done].
    + apply Hc; [by right|done|done|]. by intros h [= <-].
  - exists l'. cbn [fmap list_fmap ofold]. by rewrite H1.
Qed.

Lemma conflicts_false (a b : ChunkDoc) :
  (d_ns a = d_ns b -> d_min a ≅k d_min b -> False) ->
  (d_ns a = d_ns b -> toLong (d_lastmod a) = toLong (d_lastmod b) -> False) -> conflicts a b = false.
Proof.
  intros Hk Hv. unfold conflicts. destruct (String.eqb (d_ns a) (d_ns b)) eqn:En; [|done].
  apply String.eqb_eq in En. rewrite wo_eq. destruct (keqb (d_min a) (d_min b)) eqn:E; [by destruct Hk; [|apply keqb_spec]|].
  destruct (Z.eqb_spec (toLong (d_lastmod a)) (toLong (d_lastmod b))); [by destruct Hv|].
  by rewrite andb_false_r.
Qed.

Lemma precondition_holds l d shard mn mx :
  catalog l -> docs_of ns l d -> d_min d = mn -> d_max d = mx -> d_shard d = shard ->
  checkPrecondition l [mkPre ns mn mx epoch shard] = Ret ().
Proof.
  intros Hcat Hd <- <- <-. unfold checkPrecondition. cbn [ofold pc_ns pc_min pc_max pc_epoch pc_shard].
  pose proof (newest_spec (same_bounds ns (d_min d) (d_max d)) l) as Hn.
  destruct (newest _ l) as [x|].
  - destruct Hn as (Hx & Hb & _). unfold same_bounds in Hb. rewrite !wo_eq in Hb.
    apply andb_true_iff in Hb as [[Hns%String.eqb_eq Hmn%keqb_spec]%andb_true_iff _].
    destruct (ct_range _ Hcat d Hd) as (_ & ? & _).
    assert (x = d) as -> by (eapply (starts_inside l); [done..|split; korder]).
    rewrite (ct_epoch _ Hcat d Hd), (proj2 (oid_eqb_eq _ _) eq_refl), String.eqb_refl. done.
  - specialize (Hn d (proj1 Hd)). unfold same_bounds in Hn. destruct Hd as [_ <-].
    rewrite !wo_eq, String.eqb_refl in Hn. unfold keqb, keq in Hn. by rewrite !kcmp_refl in Hn.
Qed.

Lemma split_applies l range pts shard v lastv ds :
  catalog l -> ids_faithful l (_minKey range :: pts) -> valid_split l range pts shard ->
  split_chain shard (_minKey range) (pts ++ [_maxKey range]) v lastv ds ->
  (forall d, docs_of ns l d -> toLong (d_lastmod d) <= toLong v) ->
  exists l', applyOps l (update_of true <$> ds) [mkPre ns (_minKey range) (_maxKey range) epoch shard] = Ret l'.
Proof.
  intros Hcat Hfa [(old & Hold & Hmn & Hmx & Hsh) _ _ _ _] [Ht Hb Hms Hh Hdoc Hv _ Hnd Hvs] Hmax.
  unfold applyOps. rewrite (precondition_holds l old) by done. cbn [obind]. rewrite List.last_last in Ht.
  rewrite List.removelast_last in Hms.
  assert (Hdis : forall d1 d2, d1 ∈ ds -> d2 ∈ ds -> d_min d1 ≅k d_min d2 -> d1 = d2).
  { intros d1 d2 H1 H2 He. destruct (entries_range _ _ _ d1 Ht H1) as (_ & ? & _).
    destruct (entries_range _ _ _ d2 Ht H2) as (_ & ? & _).
    eapply (entries_unique _ _ ds d1 d2 (d_min d1)); [done..| |]; split; korder. }
  assert (Hids : NoDup (d_id <$> ds)).
  { eapply chain_ids; [exact Ht|exact Hfa|done|]. intros d Hd. split; [by apply Hms|by apply Hdoc]. }
  apply updates_apply; [apply (ct_ids _ Hcat)|done| |].
  - intros d1 d2 H1 H2 Hne. apply conflicts_false; intros _ He; apply Hne; f_equal; auto.
  - intros d d' Hd Hd' Hne Hhead. destruct (Hdoc d Hd) as (Hdn & _). apply conflicts_false; rewrite Hdn; intros Hn He.
    + assert (d' = old) as ->.
      { destruct (entries_range _ _ _ d Ht Hd) as (? & ? & ?).
        apply (starts_inside l d' old (d_min d)); [done..|]. split; rewrite ?Hmn, ?Hmx; korder. }
      destruct ds as [|h ds]; [by apply not_elem_of_nil in Hd|]. apply (Hhead h eq_refl).
      destruct (Hdoc h ltac:(left)) as (_ & _ & _ & Hg). rewrite (Hh h eq_refl), <- Hmn in Hg.
      rewrite (ct_id _ Hcat old Hold) in Hg. by injection Hg.
    + destruct (Hv d Hd) as [_ ?]. specialize (Hmax d' (conj Hd' Hn)). lia.
Qed.

Lemma find_fine {A} (q : list ChunkDoc -> A) c : cfg_faults c = [] -> find q c = (c, Ret (q (cfg_chunks c))).
Proof. intros Hf. unfold find, sbind, next_fault. by rewrite Hf. Qed.

Lemma getMax_fine q d c :
  cfg_faults c = [] -> d ∈ cfg_chunks c -> q d = true ->
  exists x, getMaxChunkVersion q c = (c, Ret (d_lastmod x)) /\ x ∈ cfg_chunks c /\ q x = true /\
    forall y, y ∈ cfg_chunks c -> q y = true -> toLong (d_lastmod y) <= toLong (d_lastmod x).
Proof.
  intros Hf Hd Hq. unfold getMaxChunkVersion, sbind. rewrite find_fine by done. cbn [fst snd].
  pose proof (newest_spec q (cfg_chunks c)) as Hn. destruct (newest q (cfg_chunks c)) as [x|].
  - destruct Hn as (? & ? & ?). exists x. by split_and!.
  - rewrite (Hn d Hd) in Hq. done.
Qed.

Lemma applyChunkOps_fine ops pre nss v c l' :
  cfg_faults c = [] -> applyOps (cfg_chunks c) ops pre = Ret l' ->
  applyChunkOpsDeprecated ops pre nss v c = (mkConfig l' [], Ret ()).
Proof.
  intros Hf Ha. unfold applyChunkOpsDeprecated, sbind. cbn [runCommandWithFixedRetryAttempts kOnErrorNumRetries].
  unfold runCommandOnce, sbind, next_fault. rewrite Hf. cbn [fst snd sget]. rewrite Ha.
  unfold smodify, sbind, set_chunks. cbn. by rewrite Hf.
Qed.

Lemma split_bounds_inside range pts b :
  points_ascend (_minKey range) (pts ++ [_maxKey range]) -> b ∈ pts ++ [_maxKey range] ->
  b ≅k _maxKey range \/ Range.containsKey range b = true.
Proof.
  intros Ha [Hb| ->%list_elem_of_singleton]%elem_of_app; [right|left; korder].
  apply containsKey_spec. pose proof (ascending_below _ _ _ b Ha Hb).
  pose proof (ascending_above _ _ b Ha ltac:(apply elem_of_app; by left)). split; korder.
Qed.

(** A valid split without command failures comes to its updates. *)
Lemma split_reaches range pts shard c :
  catalog (cfg_chunks c) -> valid_split (cfg_chunks c) range pts shard -> cfg_faults c = [] ->
  exists w lastv ds, split_chain shard (_minKey range) (pts ++ [_maxKey range]) w lastv ds /\
    (forall d, docs_of ns (cfg_chunks c) d -> toLong (d_lastmod d) <= toLong w) /\
    commitChunkSplit snprintf_g16 ns epoch range pts shard c =
      applyChunkOpsDeprecated (update_of true <$> ds) [mkPre ns (_minKey range) (_maxKey range) epoch shard] ns lastv c.
Proof.
  intros Hcat Hvs Hf. pose proof Hvs as [(old & [Hold Hns] & _ & _ & Hsh) Hasc Hst Hmaj Hmin].
  destruct (getMax_fine (fun d => String.eqb (d_ns d) ns) old c) as (x & Hx & Hxin & Hxn%String.eqb_eq & Hxm);
    [done|done|by apply String.eqb_eq|].
  destruct (getMax_fine (fun d => String.eqb (d_ns d) ns && String.eqb (d_shard d) shard) old c)
    as (y & Hy & _); [done|done|by rewrite Hns, Hsh, !String.eqb_refl|].
  unfold commitChunkSplit. unfold sbind at 1. rewrite Hx, (ct_epoch _ Hcat x) by done.
  rewrite (proj2 (oid_eqb_eq _ _) eq_refl). cbn [negb]. unfold sbind at 1. rewrite Hy.
  specialize (Hmaj x (conj Hxin Hxn)). specialize (Hmin x (conj Hxin Hxn)).
  assert (Hw : exists w, (if version_equals (d_lastmod y) (d_lastmod x) then incMajor (d_lastmod x)
      else Ret (d_lastmod x)) = Ret w /\ toLong (d_lastmod x) <= toLong w /\
      minorVersion w + Z.of_nat (List.length (pts ++ [_maxKey range])) < 2 ^ 32).
  { rewrite length_app. simpl. destruct (version_equals _ _).
    - destruct (proj2 (incMajor_spec (d_lastmod x))) as (w & ? & _ & Hm & _ & ?); [lia|].
      pose proof (minor_range (d_lastmod x)). exists w. split_and!; [done|lia|lia].
    - eexists. split_and!; [done|lia|lia]. }
  destruct Hw as (w & Hw & Hle & Hlen). unfold sbind at 1, slift at 1. rewrite Hw.
  destruct (split_loop_total shard range (_minKey range) (pts ++ [_maxKey range]) w) as [[ops lastv] Hl];
    [done|done|intros b; by apply split_bounds_inside|done|].
  unfold sbind at 1, slift at 1. rewrite Hl. destruct (split_loop_spec _ _ _ _ _ _ _ Hl) as (ds & -> & Hch).
  exists w, lastv, ds. split_and!; [done| |done].
  intros d [Hd Hdn]. specialize (Hxm d Hd (proj2 (String.eqb_eq _ _) Hdn)). lia.
Qed.

Lemma split_succeeds range pts shard c :
  catalog (cfg_chunks c) -> ids_faithful (cfg_chunks c) (_minKey range :: pts) ->
  valid_split (cfg_chunks c) range pts shard -> cfg_faults c = [] ->
  exists c', commitChunkSplit snprintf_g16 ns epoch range pts shard c = (c', Ret ()).
Proof.
  intros Hcat Hfa Hvs Hf. destruct (split_reaches range pts shard c Hcat Hvs Hf) as (w & lastv & ds & Hch & Hw & ->).
  destruct (split_applies (cfg_chunks c) range pts shard w lastv ds) as [l' Hl']; try done.
  eexists. by apply applyChunkOps_fine.
Qed.

(** * Ids that do not identify *)

(** A document of the catalog other than the one that holds the key. *)
Lemma no_conflict l (old d : ChunkDoc) x : catalog l -> docs_of ns l old -> d_ns d = ns -> covers old (d_min d) ->
  (forall y, docs_of ns l y -> toLong (d_lastmod y) < toLong (d_lastmod d)) -> x ∈ l -> d_id x <> d_id old -> conflicts x d = false.
Proof.
  intros Hcat Hold Hn Hc Hv Hx Hid. apply conflicts_false; rewrite Hn; intros Hns He.
  - apply Hid. f_equal. by apply (starts_inside l x old (d_min d)).
  - specialize (Hv x (conj Hx Hns)). lia.
Qed.

Lemma update_applies l (d : ChunkDoc) : (forall x, x ∈ l -> d_id x <> d_id d -> conflicts x d = false) ->
  exists l', apply_op l (update_of true d) = Ret l'.
Proof.
  intros Hc. cbn [update_of apply_op orb].
  destruct (existsb (fun d' => negb _ && _) l) eqn:E; [|destruct (existsb (has_id _) l); by eexists].
  apply existsb_elem in E as (x & Hx & [Hid%negb_true_iff%has_id_false Hcf]%andb_true_iff). by rewrite (Hc x Hx Hid) in Hcf.
Qed.

(** Two updates with the id of [old]: the second replaces the first. *)
Lemma updates_clash l (old d1 d2 : ChunkDoc) : catalog l -> docs_of ns l old -> d_id d1 = d_id old -> d_id d2 = d_id old ->
  d_ns d1 = ns -> d_ns d2 = ns -> covers old (d_min d1) -> covers old (d_min d2) ->
  (forall y, docs_of ns l y -> toLong (d_lastmod y) < toLong (d_lastmod d1)) ->
  (forall y, docs_of ns l y -> toLong (d_lastmod y) < toLong (d_lastmod d2)) ->
  exists l', ofold apply_op l (update_of true <$> [d1; d2]) = Ret l' /\
    forall d, d ∈ l' <-> d = d2 \/ d ∈ l /\ d_id d <> d_id old.
Proof.
  intros Hcat Hold I1 I2 N1 N2 C1 C2 V1 V2. cbn [fmap list_fmap ofold].
  destruct (update_applies l d1) as [l1 E1]. { intros x Hx. rewrite I1. by eapply no_conflict. }
  destruct (apply_op_members l _ l1 E1 eq_refl (ct_ids _ Hcat)) as [Hl1 Hm1]. cbn in Hm1. rewrite E1. cbn [obind].
  destruct (update_applies l1 d2) as [l2 E2].
  { intros x [->|[Hx _]]%Hm1; [by rewrite I1, I2|]. rewrite I2. by eapply no_conflict. }
  destruct (apply_op_members l1 _ l2 E2 eq_refl Hl1) as [_ Hm2]. cbn in Hm2. rewrite E2. cbn [obind]. exists l2. split; [done|].
  intros d. rewrite Hm2, Hm1, I1, I2. split; [intros [?|[[->|?] ?]]|intros [?|[? ?]]]; naive_solver congruence.
Qed.

Lemma split_clash (old : ChunkDoc) p c :
  catalog (cfg_chunks c) -> docs_of ns (cfg_chunks c) old ->
  valid_split (cfg_chunks c) (mkRange (d_min old) (d_max old)) [p] (d_shard old) -> cfg_faults c = [] ->
  genID snprintf_g16 ns p = Ret (d_id old) ->
  exists c', commitChunkSplit snprintf_g16 ns epoch (mkRange (d_min old) (d_max old)) [p] (d_shard old) c = (c', Ret ()) /\
    forall k d, d_min old ≼ k -> k ≺ p -> docs_of ns (cfg_chunks c') d -> ~ covers d k.
Proof.
  intros Hcat Hold Hvs Hf Hp. destruct (split_reaches _ _ _ c Hcat Hvs Hf) as (w & lastv & ds & Hch & Hw & ->).
  pose proof (vs_ascending _ _ _ _ Hvs) as (Hlo & Hhi & _). cbn in Hlo, Hhi.
  pose proof (sc_bounds _ _ _ _ _ _ Hch) as Hb. pose proof (sc_tiling _ _ _ _ _ _ Hch) as Ht.
  pose proof (sc_head _ _ _ _ _ _ Hch) as Hh. pose proof (sc_doc _ _ _ _ _ _ Hch) as Hd. pose proof (sc_version _ _ _ _ _ _ Hch) as Hv.
  pose proof (fun d => chain_mins _ _ _ _ _ _ _ d Hch) as Hm. clear Hch.
  destruct ds as [|d1 [|d2 [|? ds]]]; try done. injection Hb as M1 M2. cbn in M1, M2, Hm, Ht.
  specialize (Hh d1 eq_refl). cbn in Hh. assert (E2 : d_min d2 = p).
  { destruct Ht as (_ & _ & Ht & _). specialize (Hm d2 ltac:(right; left)).
    apply elem_of_cons in Hm as [Hm|Hm%list_elem_of_singleton]; [|done]. rewrite Hm, M1 in Ht. exfalso. korder. }
  destruct (Hd d1 ltac:(left)) as (N1 & _ & _ & G1), (Hd d2 ltac:(right; left)) as (N2 & _ & _ & G2).
  rewrite Hh, (ct_id _ Hcat old Hold) in G1. rewrite E2, Hp in G2. injection G1 as I1. injection G2 as I2.
  assert (Hnew : forall d y, d ∈ [d1; d2] -> docs_of ns (cfg_chunks c) y -> toLong (d_lastmod y) < toLong (d_lastmod d)).
  { intros d y Hin Hy. destruct (Hv d Hin) as [_ ?]. specialize (Hw y Hy). lia. }
  destruct (updates_clash (cfg_chunks c) old d1 d2) as (l' & Hl' & Hmem); try done.
  - rewrite Hh. split; korder.
  - rewrite E2. split; korder.
  - intros y. apply Hnew. left.
  - intros y. apply Hnew. right; left.
  - exists (mkConfig l' []). split.
    { apply applyChunkOps_fine; [done|]. unfold applyOps. by rewrite (precondition_holds _ old). }
    intros k d Hk1 Hk2 [Hd' Hns] [Hc1 Hc2]. cbn in Hd'. apply Hmem in Hd' as [->|[Hd' Hid]]; [rewrite E2 in Hc1; korder|].
    apply Hid. f_equal. apply (ct_unique _ Hcat d old k); [done|done|done|]. split; korder.
Qed.

End catalog.

(** * The commits *)

(** C18: a split request whose bounds have ids of their own ([ids_faithful]: no
    two of the chunk's lower bound and the split points, and no other document,
    have the same id), however its commands fail or are retried, either leaves
    the catalog as it was and reports an error, or replaces the one chunk that it
    names, on the shard that it names, by chunks that end at the split points,
    cover the same keys and have newer versions; in both cases every key keeps
    exactly one chunk. *)
Theorem split_commit_correct snprintf_g16 ns epoch lo hi range splitPoints shard requestEpoch c :
  catalog snprintf_g16 ns epoch lo hi (cfg_chunks c) ->
  ids_faithful snprintf_g16 ns (cfg_chunks c) (_minKey range :: splitPoints) ->
  let '(c', r) := commitChunkSplit snprintf_g16 ns requestEpoch range splitPoints shard c in
  catalog snprintf_g16 ns epoch lo hi (cfg_chunks c') /\
  (cfg_chunks c' = cfg_chunks c /\ is_Ret r = false \/
   split_spec snprintf_g16 ns epoch range splitPoints shard (cfg_chunks c) (cfg_chunks c')).
Proof.
  intros Hcat Hfa. pose proof (split_commits _ _ _ _ _ range splitPoints shard requestEpoch c Hcat Hfa) as H.
  unfold commits in H. destruct (commitChunkSplit _ _ _ _ _ _ c) as [c' r]. split; [|exact H].
  destruct H as [[-> _]|(old & new & Hr & _)]; [done|]. by eapply catalog_replaces.
Qed.

(** C19: a split request for an existing chunk with ascending, storable split
    points inside it succeeds when no command fails and the versions are not
    exhausted, and does what it says. *)
Theorem split_commit_succeeds snprintf_g16 ns epoch lo hi range splitPoints shard c :
  catalog snprintf_g16 ns epoch lo hi (cfg_chunks c) ->
  ids_faithful snprintf_g16 ns (cfg_chunks c) (_minKey range :: splitPoints) ->
  valid_split snprintf_g16 ns (cfg_chunks c) range splitPoints shard -> cfg_faults c = [] ->
  exists c', commitChunkSplit snprintf_g16 ns epoch range splitPoints shard c = (c', Ret ()) /\
    split_spec snprintf_g16 ns epoch range splitPoints shard (cfg_chunks c) (cfg_chunks c').
Proof.
  intros Hcat Hfa Hv Hf. destruct (split_succeeds _ _ _ _ _ _ _ _ c Hcat Hfa Hv Hf) as [c' Hc'].
  pose proof (split_commits _ _ _ _ _ range splitPoints shard epoch c Hcat Hfa) as H.
  unfold commits in H. rewrite Hc' in H. exists c'. split; [done|]. by destruct H as [[_ [=]]|?].
Qed.

(** A merge request either leaves the catalog as it was and reports an
    error, or replaces adjacent chunks of the named shard by one chunk from the
    first to the last bound with a newer version. *)
Lemma merge_commit_correct snprintf_g16 ns epoch lo hi first bounds shard requestEpoch c :
  catalog snprintf_g16 ns epoch lo hi (cfg_chunks c) ->
  exact_bounds ns (cfg_chunks c) (first :: bounds) ->
  let '(c', r) := commitChunkMerge snprintf_g16 ns requestEpoch (first :: bounds) shard c in
  catalog snprintf_g16 ns epoch lo hi (cfg_chunks c') /\
  (cfg_chunks c' = cfg_chunks c /\ is_Ret r = false \/
   merge_spec snprintf_g16 ns epoch first (List.last bounds first) shard (cfg_chunks c) (cfg_chunks c')).
Proof.
  intros Hcat Hex. pose proof (merge_commits _ _ _ _ _ first bounds shard requestEpoch c Hcat Hex) as H.
  unfold commits in H. destruct (commitChunkMerge _ _ _ _ _ c) as [c' r]. split; [|exact H].
  destruct H as [[-> _]|(olds & m & Hr & _)]; [done|]. by eapply catalog_replaces.
Qed.

(** C20: a migration commit either leaves the catalog as it was and reports an
    error, or moves exactly the migrated chunk from the donor to the recipient
    at a new major version, and gives the control chunk of the donor, if there
    is one, the next version without moving it. *)
Theorem migration_commit_correct snprintf_g16 ns epoch lo hi migratedChunk controlChunk collectionEpoch
    fromShard toShard mn mx c :
  catalog snprintf_g16 ns epoch lo hi (cfg_chunks c) ->
  chunk_bounds migratedChunk = Ret (mn, mx) ->
  (forall d, docs_of ns (cfg_chunks c) d -> majorVersion (d_lastmod d) < 2 ^ 32 - 1) ->
  exact_bounds ns (cfg_chunks c) (mn :: match controlChunk with
                                        | Some k => match _min k with Some x => [x] | None => [] end
                                        | None => [] end) ->
  match controlChunk with Some k => forall x y, chunk_bounds k = Ret (x, y) -> ~ x ≅k mn | None => True end ->
  let '(c', r) := commitChunkMigration snprintf_g16 ns migratedChunk controlChunk collectionEpoch
                    fromShard toShard c in
  catalog snprintf_g16 ns epoch lo hi (cfg_chunks c') /\
  (cfg_chunks c' = cfg_chunks c /\ is_Ret r = false \/
   exists control, control_of controlChunk control /\
     migration_spec snprintf_g16 ns epoch (mn, mx) control fromShard toShard (cfg_chunks c) (cfg_chunks c')).
Proof.
  intros Hcat Hb Hm Hex Hne.
  pose proof (migration_commits _ _ _ _ _ _ _ collectionEpoch fromShard toShard _ _ c Hcat Hb Hm Hex Hne) as H.
  unfold commits in H. destruct (commitChunkMigration _ _ _ _ _ _ _ c) as [c' r]. split; [|exact H].
  destruct H as [[-> _]|([[[x y] j]|] & _ & m & m' & Hr)]; [done| |].
  - destruct Hr as (_ & _ & _ & _ & _ & _ & _ & k & k' & _ & _ & _ & _ & _ & _ & _ & Hr). by eapply catalog_replaces.
  - destruct Hr as (_ & _ & _ & _ & _ & _ & _ & Hr). by eapply catalog_replaces.
Qed.

(** C5: after any sequence of splits, merges and migrations that satisfy
    [request_ok] (the ids of split bounds identify them, the bounds of merges and
    migrations are spelled as stored, a control chunk is not the migrated one,
    and the major version has room), under any failures, every key of the key
    space is in exactly one chunk, and every chunk that was not there before is
    newer than all that were: a router that asks for the chunks since the version
    it knows misses none. *)
Theorem commits_keep_partition snprintf_g16 ns epoch lo hi c c' :
  catalog snprintf_g16 ns epoch lo hi (cfg_chunks c) ->
  rtc (commit_step snprintf_g16 ns (request_ok snprintf_g16 ns)) c c' ->
  (forall k, lo ≼ k -> k ≺ hi ->
     exists d, docs_of ns (cfg_chunks c') d /\ covers d k /\
       forall d', docs_of ns (cfg_chunks c') d' -> covers d' k -> d' = d) /\
  (forall d, docs_of ns (cfg_chunks c') d ->
     docs_of ns (cfg_chunks c) d \/
     forall d0, docs_of ns (cfg_chunks c) d0 -> toLong (d_lastmod d0) < toLong (d_lastmod d)).
Proof.
  intros Hcat Hs. destruct (commits_later _ _ _ _ _ c c' Hs Hcat) as [Hcat' [Hl _]]. split; [|exact Hl].
  intros k Hlo Hhi. destruct (ct_cover _ _ _ _ _ _ Hcat' k Hlo Hhi) as (d & Hd & Hk). exists d.
  split_and!; [done|done|]. intros d' Hd' Hk'. by eapply (ct_unique _ _ _ _ _ _ Hcat').
Qed.

(** Ids do not always identify bounds. A split at a point whose id is that of
    the chunk's lower bound, such as two adjacent doubles, which "%.16g" prints
    alike, reports success when no command fails, and leaves the keys from the
    lower bound to the split point without a chunk: the update of the second
    piece replaces the first. *)
Lemma split_id_clash_loses_keys snprintf_g16 ns epoch lo hi (old : ChunkDoc) p c :
  catalog snprintf_g16 ns epoch lo hi (cfg_chunks c) -> docs_of ns (cfg_chunks c) old ->
  valid_split snprintf_g16 ns (cfg_chunks c) (mkRange (d_min old) (d_max old)) [p] (d_shard old) -> cfg_faults c = [] ->
  genID snprintf_g16 ns p = Ret (d_id old) ->
  exists c', commitChunkSplit snprintf_g16 ns epoch (mkRange (d_min old) (d_max old)) [p] (d_shard old) c = (c', Ret ()) /\
    forall k d, d_min old ≼ k -> k ≺ p -> docs_of ns (cfg_chunks c') d -> ~ covers d k.
Proof. apply split_clash. Qed.

(** * Example: a collection with one chunk, and with two *)

Definition ex_g16 (d : Dbl) : string := "".
Definition ex_epoch : OID := mkOID "abcdefghijkl" eq_refl.
Definition ex_lo : BSONObj := [("x", VMinKey)].
Definition ex_mid : BSONObj := [("x", VBool true)].
Definition ex_hi : BSONObj := [("x", VMaxKey)].
Definition ex_version (n : Z) : ChunkVersion := newVersion n 0 ex_epoch.
Definition ex_doc (id : string) (mn mx : BSONObj) (n : Z) : ChunkDoc :=
  mkDoc id "t.c" mn mx (ex_version n) "s0" None.
Definition ex_one : Config := mkConfig [ex_doc "t.c-x_MinKey" ex_lo ex_hi 1] [].
Definition ex_two : Config :=
  mkConfig [ex_doc "t.c-x_MinKey" ex_lo ex_mid 1; ex_doc "t.c-x_true" ex_mid ex_hi 2] [].

Ltac ex_docs H := apply proj1 in H; repeat (apply elem_of_cons in H as [->|H]); try (by apply not_elem_of_nil in H).

Lemma ex_one_catalog : catalog ex_g16 "t.c" ex_epoch ex_lo ex_hi (cfg_chunks ex_one).
Proof.
  split.
  - apply NoDup_singleton.
  - intros d H. ex_docs H. by vm_compute.
  - intros d H. by ex_docs H.
  - intros d H. by ex_docs H.
  - intros d1 d2 H1 H2 _. ex_docs H1. by ex_docs H2.
  - intros d H. ex_docs H. split_and!; by vm_compute.
  - intros k H1 H2. eexists. split; [split; [left|done]|]. by split.
  - intros d1 d2 k H1 H2 _ _. ex_docs H1. by ex_docs H2.
Qed.

Lemma ex_two_catalog : catalog ex_g16 "t.c" ex_epoch ex_lo ex_hi (cfg_chunks ex_two).
Proof.
  split.
  - apply (bool_decide_unpack _). by vm_compute.
  - intros d H. ex_docs H; by vm_compute.
  - intros d H. by ex_docs H.
  - intros d H. by ex_docs H.
  - intros d1 d2 H1 H2. ex_docs H1; ex_docs H2; by vm_compute.
  - intros d H. ex_docs H; split_and!; by vm_compute.
  - intros k H1 H2. destruct (kltb k ex_mid) eqn:E.
    + eexists. split; [split; [left|done]|]. split; simpl; korder.
    + eexists. split; [split; [right; left|done]|]. split; simpl; korder.
  - intros d1 d2 k H1 H2 [Ha Hb] [Hc Hd]. ex_docs H1; ex_docs H2; try done; simpl in *; exfalso; korder.
Qed.

Definition ex_range : ChunkRange := mkRange ex_lo ex_hi.

Lemma ex_faithful : ids_faithful ex_g16 "t.c" (cfg_chunks ex_one) [ex_lo; ex_mid].
Proof.
  split.
  - intros k1 k2 id H1 H2. repeat (apply elem_of_cons in H1 as [->|H1]); try (by apply not_elem_of_nil in H1);
      repeat (apply elem_of_cons in H2 as [->|H2]); try (by apply not_elem_of_nil in H2);
      vm_compute; intros E1 E2; try done; by rewrite <- E1 in E2.
  - intros d k H1 H2. repeat (apply elem_of_cons in H1 as [->|H1]); try (by apply not_elem_of_nil in H1);
      repeat (apply elem_of_cons in H2 as [->|H2]); try (by apply not_elem_of_nil in H2); vm_compute; try done.
Qed.

Lemma split_commit_correct_witness :
  let c' := (commitChunkSplit ex_g16 "t.c" ex_epoch ex_range [ex_mid] "s0" ex_one).1 in
  catalog ex_g16 "t.c" ex_epoch ex_lo ex_hi (cfg_chunks c') /\ List.length (cfg_chunks c') = 2%nat.
Proof.
  pose proof (split_commit_correct ex_g16 "t.c" ex_epoch ex_lo ex_hi ex_range [ex_mid] "s0" ex_epoch ex_one
    ex_one_catalog ex_faithful) as H.
  destruct (commitChunkSplit _ _ _ _ _ _ ex_one) as [c' r] eqn:E. split; [exact (proj1 H)|].
  vm_compute in E. injection E as <- _. reflexivity.
Defined.

Lemma split_commit_succeeds_witness :
  exists c', commitChunkSplit ex_g16 "t.c" ex_epoch ex_range [ex_mid] "s0" ex_one = (c', Ret ()) /\
    split_spec ex_g16 "t.c" ex_epoch ex_range [ex_mid] "s0" (cfg_chunks ex_one) (cfg_chunks c').
Proof.
  apply (split_commit_succeeds ex_g16 "t.c" ex_epoch ex_lo ex_hi); [exact ex_one_catalog|exact ex_faithful| |done].
  split.
  - eexists. split; [split; [left|done]|done].
  - split_and!; by vm_compute.
  - repeat constructor; try (by vm_compute); vm_compute; by eexists.
  - intros d H. ex_docs H. by vm_compute.
  - intros d H. ex_docs H. by vm_compute.
Defined.

Lemma ex_two_exact keys : Forall (fun k => k ∈ [ex_lo; ex_mid; ex_hi]) keys ->
  exact_bounds "t.c" (cfg_chunks ex_two) keys.
Proof.
  intros Hk d k Hd Hin. apply (proj1 (Forall_forall _ _) Hk) in Hin.
  repeat (apply elem_of_cons in Hin as [->|Hin]); try (by apply not_elem_of_nil in Hin); ex_docs Hd; by vm_compute.
Qed.

Lemma merge_commit_correct_witness :
  let c' := (commitChunkMerge ex_g16 "t.c" ex_epoch [ex_lo; ex_mid; ex_hi] "s0" ex_two).1 in
  catalog ex_g16 "t.c" ex_epoch ex_lo ex_hi (cfg_chunks c') /\ List.length (cfg_chunks c') = 1%nat.
Proof.
  pose proof (merge_commit_correct ex_g16 "t.c" ex_epoch ex_lo ex_hi ex_lo [ex_mid; ex_hi] "s0" ex_epoch ex_two
    ex_two_catalog (ex_two_exact [ex_lo; ex_mid; ex_hi] ltac:(repeat constructor))) as H.
  destruct (commitChunkMerge _ _ _ _ _ ex_two) as [c' r] eqn:E. split; [exact (proj1 H)|].
  vm_compute in E. injection E as <- _. reflexivity.
Defined.

Definition ex_chunk (mn mx : BSONObj) : ChunkType := doc_chunk (ex_doc "" mn mx 1).

Lemma migration_commit_correct_witness :
  let c' := (commitChunkMigration ex_g16 "t.c" (ex_chunk ex_lo ex_mid) (Some (ex_chunk ex_mid ex_hi)) ex_epoch
               "s0" "s1" ex_two).1 in
  catalog ex_g16 "t.c" ex_epoch ex_lo ex_hi (cfg_chunks c') /\
  d_shard <$> cfg_chunks c' = ["s1"; "s0"] /\ (fun d => majorVersion (d_lastmod d)) <$> cfg_chunks c' = [3; 3].
Proof.
  pose proof (migration_commit_correct ex_g16 "t.c" ex_epoch ex_lo ex_hi (ex_chunk ex_lo ex_mid)
    (Some (ex_chunk ex_mid ex_hi)) ex_epoch "s0" "s1" ex_lo ex_mid ex_two ex_two_catalog eq_refl
    ltac:(intros d H; ex_docs H; by vm_compute) (ex_two_exact [ex_lo; ex_mid] ltac:(repeat constructor))
    ltac:(intros x y [= <- <-]; by vm_compute)) as H.
  destruct (commitChunkMigration _ _ _ _ _ _ _ ex_two) as [c' r] eqn:E. split; [exact (proj1 H)|].
  vm_compute in E. injection E as <- _. by vm_compute.
Defined.

Lemma commits_keep_partition_witness :
  exists c', rtc (commit_step ex_g16 "t.c" (request_ok ex_g16 "t.c")) ex_two c' /\ cfg_chunks c' <> cfg_chunks ex_two /\
  (forall k, ex_lo ≼ k -> k ≺ ex_hi ->
     exists d, docs_of "t.c" (cfg_chunks c') d /\ covers d k /\
       forall d', docs_of "t.c" (cfg_chunks c') d' -> covers d' k -> d' = d).
Proof.
  set (c' := (commitChunkMerge ex_g16 "t.c" ex_epoch [ex_lo; ex_mid; ex_hi] "s0" ex_two).1).
  assert (Hs : rtc (commit_step ex_g16 "t.c" (request_ok ex_g16 "t.c")) ex_two c').
  { apply rtc_once. exists (CommitMerge ex_epoch [ex_lo; ex_mid; ex_hi] "s0").
    split; [exact (ex_two_exact [ex_lo; ex_mid; ex_hi] ltac:(repeat constructor))|reflexivity]. }
  exists c'. split; [exact Hs|]. split; [by vm_compute|].
  exact (proj1 (commits_keep_partition ex_g16 "t.c" ex_epoch ex_lo ex_hi ex_two c' ex_two_catalog Hs)).
Defined.

(** The doubles 0.1 and the next one have one text. *)
Definition clash_key (m e : Z) (H : valid_dbl (DFin m e) = true) : BSONObj := [("x", VDouble (mkDouble (DFin m e) H))].
Definition clash_min : BSONObj := clash_key 3602879701896397 (-55) eq_refl.
Definition clash_point : BSONObj := clash_key 7205759403792795 (-56) eq_refl.
Definition clash_old : ChunkDoc := ex_doc "t.c-x_0.1" clash_min ex_hi 2.
Definition clash_config : Config := mkConfig [ex_doc "t.c-x_MinKey" ex_lo clash_min 1; clash_old] [].

Lemma clash_catalog : catalog print_g16 "t.c" ex_epoch ex_lo ex_hi (cfg_chunks clash_config).
Proof.
  split.
  - apply (bool_decide_unpack _). by vm_compute.
  - intros d H. ex_docs H; by vm_compute.
  - intros d H. by ex_docs H.
  - intros d H. by ex_docs H.
  - intros d1 d2 H1 H2. ex_docs H1; ex_docs H2; by vm_compute.
  - intros d H. ex_docs H; split_and!; by vm_compute.
  - intros k H1 H2. destruct (kltb k clash_min) eqn:E.
    + eexists. split; [split; [left|done]|]. split; simpl; korder.
    + eexists. split; [split; [right; left|done]|]. split; simpl; korder.
  - intros d1 d2 k H1 H2 [Ha Hb] [Hc Hd]. ex_docs H1; ex_docs H2; try done; simpl in *; exfalso; korder.
Qed.

Lemma split_id_clash_loses_keys_witness :
  exists c', commitChunkSplit print_g16 "t.c" ex_epoch (mkRange clash_min ex_hi) [clash_point] "s0" clash_config = (c', Ret ()) /\
    forall d, docs_of "t.c" (cfg_chunks c') d -> ~ covers d clash_min.
Proof.
  destruct (split_id_clash_loses_keys print_g16 "t.c" ex_epoch ex_lo ex_hi clash_old clash_point clash_config clash_catalog)
    as (c' & E & H).
  - split; [right; left|reflexivity].
  - split.
    + exists clash_old. split; [split; [right; left|reflexivity]|]. split_and!; reflexivity.
    + split_and!; by vm_compute.
    + repeat constructor; try (by vm_compute); vm_compute; by eexists.
    + intros d Hd. ex_docs Hd; by vm_compute.
    + intros d Hd. ex_docs Hd; by vm_compute.
  - reflexivity.
  - vm_compute. reflexivity.
  - exists c'. split; [exact E|]. intros d. apply H; by vm_compute.
Defined.
