(* ===== verification/ConfigRefresh.v ===== *)
(** From the config server to the router: the chunks that changed since a
    version ([getChangedChunks] of config_server_catalog_cache_loader.cpp), the
    routing table they give ([refreshCollectionRoutingInfo] of
    catalog_cache.cpp), and the two ends together: whatever was committed, the
    refreshed routing table is the chunk catalog. *)

From stdpp Require Import base list sorting strings gmap relations.
From Stdlib Require Import ZArith Lia String.
From S2P Require Import Prelude OrdMap Tiling Bson Text ChunkVersion ChunkType.
From S2P Require Import ShardKey Chunk ChunkManager ChunkRefresh ConfigChunks ConfigCatalog.
Local Open Scope string_scope.
Local Open Scope Z_scope.
Local Open Scope list_scope.
Local Open Scope outcome_scope.

(** * The loader *)

(** The fields of a config.collections entry that the loader uses. *)
Record CollectionType := mkColl {
  coll_epoch : OID;
  coll_dropped : bool;
  coll_keyPattern : KeyPattern;
  coll_defaultCollation : BSONObj;
  coll_unique : bool
}.

Record CollectionAndChangedChunks := mkCCC {
  ccc_epoch : OID;
  ccc_shardKeyPattern : KeyPattern;
  ccc_defaultCollation : BSONObj;
  ccc_shardKeyIsUnique : bool;
  ccc_changedChunks : list ChunkType
}.

(** The query and the sort order. *)
Definition createConfigDiffQuery (nss : string) (collectionVersion : ChunkVersion) (d : ChunkDoc) : bool :=
  String.eqb (d_ns d) nss && (toLong collectionVersion <=? toLong (d_lastmod d)).
Definition by_lastmod (d1 d2 : ChunkDoc) : Prop := toLong (d_lastmod d1) <= toLong (d_lastmod d2).
#[global] Instance by_lastmod_dec : RelDecision by_lastmod.
Proof. intros d1 d2. apply Z_le_dec. Defined.

(** [coll] is the answer of [getCollection], [chunks] the documents at the time
    of the query. *)
Definition getChangedChunks (nss : string) (coll : Outcome CollectionType) (chunks : list ChunkDoc)
    (sinceVersion : ChunkVersion) : Outcome CollectionAndChangedChunks :=
  let* coll := coll in
  uassert NamespaceNotFound (negb (coll_dropped coll)) ;*
  let startingCollectionVersion :=
    if oid_eqb (_epoch sinceVersion) (coll_epoch coll) then sinceVersion
    else newVersion 0 0 (coll_epoch coll) in
  let changedChunks :=
    doc_chunk <$> merge_sort by_lastmod
                    (List.filter (createConfigDiffQuery nss startingCollectionVersion) chunks) in
  uassert ConflictingOperationInProgress (negb (bool_decide (changedChunks = []))) ;*
  Ret (mkCCC (coll_epoch coll) (coll_keyPattern coll) (coll_defaultCollation coll) (coll_unique coll)
         changedChunks).

(** * The routing table *)

Section refresh.
(** The shard registry, the collator factory and the generator of initial write
    estimates. *)
Context (getShard : ShardId -> Outcome unit) (makeFromBSON : BSONObj -> Outcome BSONObj) (seeds : nat -> Z).

Definition with_seeds (chunks : list ChunkType) : list (ChunkType * Z) :=
  imap (fun i ch => (ch, seeds i)) chunks.

Definition refreshCollectionRoutingInfo (nextSeq : Z) (nss : string) (existingRoutingInfo : option ChunkManager)
    (swCollectionAndChangedChunks : Outcome CollectionAndChangedChunks)
    : Outcome (Z * option ChunkManager) :=
  match swCollectionAndChangedChunks with
  | Throw NamespaceNotFound => Ret (nextSeq, None)
  | _ =>
      let* cc := swCollectionAndChangedChunks in
      let fresh :=
        let* defaultCollator :=
          if isEmpty (ccc_defaultCollation cc) then Ret None
          else let* c := makeFromBSON (ccc_defaultCollation cc) in Ret (Some c) in
        makeNew nextSeq nss (ccc_shardKeyPattern cc) defaultCollator (ccc_shardKeyIsUnique cc)
          (ccc_epoch cc) (with_seeds (ccc_changedChunks cc)) in
      let* (seq, chunkManager) :=
        match existingRoutingInfo with
        | Some cm =>
            if oid_eqb (_epoch (cm_collectionVersion cm)) (ccc_epoch cc)
            then makeUpdated nextSeq cm (with_seeds (ccc_changedChunks cc))
            else fresh
        | None => fresh
        end in
      ofold (fun _ shardId => getShard shardId) () ((shardVersions (cm_views chunkManager)).*1) ;*
      Ret (seq, Some chunkManager)
  end.
End refresh.

(** * A partition is a chain *)

Section chain.
Context (snprintf_g16 : Dbl -> string) (ns : string) (epoch : OID) (lo hi : BSONObj).
Abbreviation catalog := (catalog snprintf_g16 ns epoch lo hi).

(** A key at which chunks end and begin. *)
Definition boundary (l : list ChunkDoc) (s : BSONObj) : Prop :=
  s ≅k lo \/ exists d, docs_of ns l d /\ d_max d ≅k s.

Lemma boundary_chunk l s :
  catalog l -> lo ≼ s -> s ≺ hi -> boundary l s ->
  exists d, docs_of ns l d /\ d_min d ≅k s /\ s ≺ d_max d.
Proof.
  intros Hcat Hlo Hhi Hb. destruct (ct_cover _ _ _ _ _ _ Hcat s Hlo Hhi) as (d & Hd & [Hmn Hmx]).
  exists d. split_and!; [done| |done]. destruct (ct_range _ _ _ _ _ _ Hcat d Hd) as (? & ? & _).
  destruct Hb as [Hs|(d0 & Hd0 & Hs)]; [korder|]. destruct (ct_range _ _ _ _ _ _ Hcat d0 Hd0) as (? & ? & _).
  destruct (kltb (d_min d) s) eqn:E; [exfalso|korder].
  assert (d = d0) as ->; [|korder].
  apply (ct_unique _ _ _ _ _ _ Hcat d d0 (if kltb (d_min d) (d_min d0) then d_min d0 else d_min d) Hd Hd0);
    destruct (kltb (d_min d) (d_min d0)) eqn:E'; split; korder.
Qed.

Lemma filter_shrinks {A} (p q : A -> bool) l x :
  (forall y, q y = true -> p y = true) -> x ∈ l -> p x = true -> q x = false ->
  (List.length (List.filter q l) < List.length (List.filter p l))%nat.
Proof.
  intros Hqp Hx Hp Hq. assert (Hle : forall l, (List.length (List.filter q l) <= List.length (List.filter p l))%nat).
  { clear l Hx. induction l as [|y l IH]; [done|]. simpl. destruct (q y) eqn:Ey; [rewrite (Hqp y Ey); simpl; lia|].
    destruct (p y); simpl; lia. }
  induction l as [|y l IH]; [by apply not_elem_of_nil in Hx|]. simpl. apply elem_of_cons in Hx as [<-|Hx].
  - rewrite Hp, Hq. simpl. specialize (Hle l). lia.
  - specialize (IH Hx). destruct (q y) eqn:Ey; [rewrite (Hqp y Ey); simpl; lia|]. destruct (p y); simpl; lia.
Qed.

Lemma chain_from n l s :
  catalog l -> lo ≼ s -> s ≼ hi -> boundary l s ->
  (List.length (List.filter (fun d => kleb s (d_min d)) l) <= n)%nat ->
  exists ds, tiling d_min s (entries ds) hi /\ forall d, d ∈ ds <-> docs_of ns l d /\ s ≼ d_min d.
Proof.
  intros Hcat. revert s. induction n as [|n IH]; intros s Hlo Hhi Hb Hn;
    (destruct (kltb s hi) eqn:E;
     [destruct (boundary_chunk l s Hcat Hlo ltac:(korder) Hb) as (d & Hd & Hmn & Hmx)|]).
  - exfalso. pose proof (filter_shrinks (fun d => kleb s (d_min d)) (fun _ => false) l d
      ltac:(done) (proj1 Hd) ltac:(cbv beta; apply kleb_spec; korder) eq_refl) as Hf. lia.
  - exists []. split; [simpl; korder|]. intros d. split; [by intros ?%not_elem_of_nil|].
    intros [Hd Hs]. destruct (ct_range _ _ _ _ _ _ Hcat d Hd) as (_ & ? & ?). exfalso. korder.
  - destruct (ct_range _ _ _ _ _ _ Hcat d Hd) as (_ & _ & Hmax).
    destruct (IH (d_max d)) as (ds & Ht & Hds); [korder|done|right; exists d; split; [done|korder]| |].
    { pose proof (filter_shrinks (fun x => kleb s (d_min x)) (fun x => kleb (d_max d) (d_min x)) l d) as Hf.
      apply Nat.lt_succ_r. eapply Nat.lt_le_trans; [|exact Hn]. apply Hf.
      - intros y Hy. cbv beta in *. apply kleb_spec. apply kleb_spec in Hy. korder.
      - apply Hd.
      - cbv beta. apply kleb_spec. korder.
      - cbv beta. apply kleb_false. korder. }
    exists (d :: ds). split; [cbn [entries fmap list_fmap tiling]; by split_and!|].
    intros x. rewrite elem_of_cons, Hds. split.
    + intros [->|[? ?]]; (split; [done|korder]).
    + intros [Hx Hs]. destruct (kleb (d_max d) (d_min x)) eqn:Ex; [right; split; [done|korder]|left].
      destruct (ct_range _ _ _ _ _ _ Hcat x Hx) as (_ & ? & _).
      apply (ct_unique _ _ _ _ _ _ Hcat x d (d_min x)); [done..| |]; split; korder.
  - exists []. split; [simpl; korder|]. intros d. split; [by intros ?%not_elem_of_nil|].
    intros [Hd Hs]. destruct (ct_range _ _ _ _ _ _ Hcat d Hd) as (_ & ? & ?). exfalso. korder.
Qed.

Lemma catalog_chain l :
  catalog l -> lo ≼ hi -> exists ds, tiling d_min lo (entries ds) hi /\ forall d, d ∈ ds <-> docs_of ns l d.
Proof.
  intros Hcat Hle. destruct (chain_from (List.length (List.filter (fun d => kleb lo (d_min d)) l)) l lo)
    as (ds & Ht & Hds); [done|korder|done|left; korder|done|].
  exists ds. split; [done|]. intros d. rewrite Hds. split; [tauto|]. intros Hd. split; [done|].
  by destruct (ct_range _ _ _ _ _ _ Hcat d Hd) as (? & _).
Qed.
End chain.

(** * Bounds of the key space *)

Lemma keq_obj_inv n v a m w b : (n, v) :: a ≅k (m, w) :: b -> canonicalType v = canonicalType w /\ a ≅k b.
Proof.
  unfold keq, kcmp, BSONObj_KeyOrder, woCompare, BSONObj_woCompare_gen.
  rewrite objects_loop_cons. unfold idx_flip, BSONElement_woCompare at 1. rewrite elem_woCompare_lex. simpl.
  destruct (canonicalType v ?= canonicalType w) eqn:E; try done. apply Z.compare_eq in E.
  destruct (slex n m), (sgc (compareElements None v w)); simpl; done.
Qed.

(** Only a bound of MinKeys (MaxKeys) equals a bound of MinKeys (MaxKeys). *)
Lemma keq_all_type t x y : t = MinKey \/ t = MaxKey -> x ≅k y -> all_type t y -> all_type t x.
Proof.
  intros Ht. revert y. induction x as [|[n v] x IH]; intros [|[m w] y] He Hy; try done.
  apply keq_obj_inv in He as [Hc He]. inversion_clear Hy as [|? ? Hw Hy']. constructor; [|by eapply IH].
  simpl in Hw |- *. destruct Ht as [-> | ->]; destruct w; try done; by destruct v.
Qed.

Lemma tiling_last {V} (lower : V -> BSONObj) lo m hi k v :
  tiling lower lo m hi -> last m = Some (k, v) -> k ≅k hi.
Proof.
  revert lo. induction m as [|[k1 v1] m IH]; intros lo; [done|]. intros (_ & _ & Ht) Hl.
  destruct m as [|e m]; [injection Hl as <- <-; done|]. exact (IH _ Ht Hl).
Qed.

(** * The routing table of a catalog *)

(** The routing entry of a document. *)
Definition describes (c : Chunk) (d : ChunkDoc) : Prop :=
  getMin c = d_min d /\ getMax c = d_max d /\ getShardId c = d_shard d /\ getLastmod c = d_lastmod d.

Lemma new_describes seed d :
  validate (doc_chunk d) = Ret () -> exists c, newChunk seed (doc_chunk d) = Ret c /\ describes c d.
Proof.
  intros Hv. destruct (newChunk_valid seed _ Hv) as [c Hc]. exists c. split; [done|].
  apply newChunk_Ret in Hc as (_ & H1 & H2 & H3 & H4 & _). simpl in *. by simplify_eq.
Qed.

Lemma choose_list {A B} (R : A -> B -> Prop) l :
  (forall x, x ∈ l -> exists y, R x y) -> exists l', Forall2 R l l'.
Proof.
  induction l as [|x l IH]; intros H; [exists []; constructor|].
  destruct (H x ltac:(left)) as [y Hy]. destruct IH as [l' Hl']; [intros z Hz; apply H; by right|].
  exists (y :: l'). by constructor.
Qed.

Lemma Forall2_in_r {A B} (R : A -> B -> Prop) l l' y : Forall2 R l l' -> y ∈ l' -> exists x, x ∈ l /\ R x y.
Proof.
  intros H (i & Hi)%list_elem_of_lookup. destruct (Forall2_lookup_r _ _ _ _ _ H Hi) as (x & Hx & Hr).
  exists x. split; [by eapply list_elem_of_lookup_2|done].
Qed.

Lemma Forall2_in_l {A B} (R : A -> B -> Prop) l l' x : Forall2 R l l' -> x ∈ l -> exists y, y ∈ l' /\ R x y.
Proof.
  intros H (i & Hi)%list_elem_of_lookup. destruct (Forall2_lookup_l _ _ _ _ _ H Hi) as (y & Hy & Hr).
  exists y. split; [by eapply list_elem_of_lookup_2|done].
Qed.

Section follow.
Context (snprintf_g16 : Dbl -> string) (ns : string) (epoch : OID) (lo hi : BSONObj).
Abbreviation catalog := (catalog snprintf_g16 ns epoch lo hi).
Context (Hlo : all_type MinKey lo) (Hhi : all_type MaxKey hi) (Hlt : lo ≺ hi).

(** A routing table that holds exactly the documents of a collection. *)
Record caches (cm : ChunkManager) (l : list ChunkDoc) : Prop := {
  cc_reach : reachable cm;
  cc_tiling : tiling getMin lo (cm_chunkMap cm) hi;
  cc_doc d : docs_of ns l d -> exists c, (d_max d, c) ∈ cm_chunkMap cm /\ describes c d;
  cc_entry k c : (k, c) ∈ cm_chunkMap cm -> exists d, docs_of ns l d /\ describes c d
}.

(** The entries of [T] are those of the documents [ds], in order. *)
Definition rows (ds : list ChunkDoc) (T : ChunkMap) : Prop :=
  Forall2 (fun d e => e.1 = d_max d /\ describes e.2 d) ds T.

Lemma rows_tiling s ds T : rows ds T -> tiling d_min s (entries ds) hi -> tiling getMin s T hi.
Proof.
  intros H. revert s. induction H as [|d [k c] ds T [Hk (Hmn & _)] _ IH]; intros s; [done|].
  simpl in *. intros (H1 & H2 & H3). rewrite Hk, Hmn. split_and!; [done..|]. by apply IH.
Qed.

Lemma rows_snapshot l ds T :
  catalog l -> (forall d, d ∈ ds <-> docs_of ns l d) -> tiling d_min lo (entries ds) hi -> rows ds T ->
  snapshot lo hi T.
Proof.
  intros Hcat Hds Ht Hr. pose proof (rows_tiling lo ds T Hr Ht) as HT.
  assert (Hin : forall k c, (k, c) ∈ T -> exists d, docs_of ns l d /\ k = d_max d /\ describes c d).
  { intros k c Hkc. destruct (Forall2_in_r _ _ _ _ Hr Hkc) as (d & Hd & Hk & Hc). exists d. by rewrite <- Hds. }
  split; [split; [by eapply tiling_sorted|]|done|..].
  - intros k c Hkc. destruct (Hin k c Hkc) as (d & Hd & -> & Hmn & Hmx & _). rewrite Hmn, Hmx.
    by destruct (ct_range _ _ _ _ _ _ Hcat d Hd) as (_ & ? & _).
  - intros k c Hh. destruct T as [|e T]; [done|]. injection Hh as ->. destruct HT as [He _].
    by eapply keq_all_type; [left| |exact Hlo].
  - intros k c Hl. eapply keq_all_type; [by right|by eapply tiling_last|exact Hhi].
  - intros k c Hkc. destruct (Hin k c Hkc) as (d & Hd & _ & _ & _ & _ & ->). by apply (ct_set _ _ _ _ _ _ Hcat).
  - intros ->. simpl in HT. korder.
Qed.

(** * The changes since a version *)

Definition changed (l : list ChunkDoc) (v : ChunkVersion) : list ChunkDoc :=
  merge_sort by_lastmod (List.filter (createConfigDiffQuery ns v) l).

Lemma elem_changed l v d : d ∈ changed l v <-> docs_of ns l d /\ toLong v <= toLong (d_lastmod d).
Proof.
  unfold changed. rewrite merge_sort_Permutation, list_elem_of_In, filter_In, <- list_elem_of_In.
  unfold createConfigDiffQuery, docs_of. rewrite andb_true_iff, String.eqb_eq, Z.leb_le. tauto.
Qed.

Lemma changed_sorted l v : StronglySorted by_lastmod (changed l v).
Proof.
  apply StronglySorted_merge_sort; unfold by_lastmod; [intros ? ? ? ? ?; lia|intros x y; lia].
Qed.

Lemma changed_nodup l v : NoDup (d_id <$> l) -> NoDup (changed l v).
Proof.
  intros Hl%NoDup_fmap_1. unfold changed. rewrite merge_sort_Permutation.
  induction l as [|d l IH]; [constructor|]. apply NoDup_cons in Hl as [Hd Hl]. simpl.
  destruct (createConfigDiffQuery ns v d); [|by apply IH]. apply NoDup_cons. split; [|by apply IH].
  rewrite list_elem_of_In, filter_In, <- list_elem_of_In. tauto.
Qed.

Context (seeds : nat -> Z).

Lemma elem_with_seeds chunks ch seed :
  (ch, seed) ∈ with_seeds seeds chunks <-> exists i, chunks !! i = Some ch /\ seed = seeds i.
Proof.
  unfold with_seeds. rewrite list_elem_of_lookup. split.
  - intros (i & Hi). rewrite list_lookup_imap in Hi. destruct (chunks !! i) as [x|] eqn:E; [|done].
    injection Hi as -> <-. by exists i.
  - intros (i & Hi & ->). exists i. by rewrite list_lookup_imap, Hi.
Qed.

(** The entries after the refresh of [m]: new ones for the changed documents,
    the cached ones for the others. *)
Lemma refresh_rows l v m :
  catalog l -> (forall d, docs_of ns l d -> validate (doc_chunk d) = Ret ()) ->
  (forall d, docs_of ns l d -> toLong (d_lastmod d) < toLong v ->
     exists c, (d_max d, c) ∈ m /\ describes c d) ->
  exists ds T, (forall d, d ∈ ds <-> docs_of ns l d) /\ tiling d_min lo (entries ds) hi /\ rows ds T /\
    leads_to m (with_seeds seeds (doc_chunk <$> changed l v)) T.
Proof.
  intros Hcat Hval Hm. destruct (catalog_chain _ _ _ _ _ l Hcat ltac:(korder)) as (ds & Ht & Hds).
  set (R := fun (d : ChunkDoc) (e : BSONObj * Chunk) => e.1 = d_max d /\ describes e.2 d /\
    if toLong v <=? toLong (d_lastmod d)
    then exists i, changed l v !! i = Some d /\ newChunk (seeds i) (doc_chunk d) = Ret e.2
    else e ∈ m).
  destruct (choose_list R ds) as [T HT].
  { intros d Hd%Hds. unfold R. destruct (Z.leb_spec (toLong v) (toLong (d_lastmod d))) as [Hle|Hgt].
    - destruct (proj1 (list_elem_of_lookup _ _) (proj2 (elem_changed l v d) (conj Hd Hle))) as [i Hi].
      destruct (new_describes (seeds i) d (Hval d Hd)) as (c & Hc & Hdc). exists (d_max d, c). simpl. eauto.
    - destruct (Hm d Hd Hgt) as (c & Hc & Hdc). by exists (d_max d, c). }
  exists ds, T. split_and!; [done|done|eapply Forall2_impl; [exact HT|]; by intros d e (? & ? & _)|split].
  - intros ch seed (i & Hi & ->)%elem_with_seeds. apply list_lookup_fmap_Some in Hi as (d & -> & Hi).
    pose proof (proj1 (elem_changed l v d) (list_elem_of_lookup_2 _ _ _ Hi)) as [Hd Hle].
    destruct (Forall2_in_l _ _ _ _ HT (proj2 (Hds d) Hd)) as ([k c] & Hkc & Hk & (_ & Hmx & _) & Hr).
    rewrite (proj2 (Z.leb_le _ _) Hle) in Hr. destruct Hr as (j & Hj & Hn). simpl in *.
    rewrite (NoDup_lookup _ _ _ _ (changed_nodup l v (ct_ids _ _ _ _ _ _ Hcat)) Hi Hj).
    exists c. split; [done|]. rewrite Hmx. by rewrite <- Hk.
  - intros k c Hkc. destruct (Forall2_in_r _ _ _ _ HT Hkc) as (d & Hd%Hds & _ & _ & Hr).
    destruct (toLong v <=? toLong (d_lastmod d)); [right|by left]. destruct Hr as (i & Hi & Hn).
    exists (doc_chunk d), (seeds i). split; [|done]. apply elem_with_seeds. exists i. split; [|done].
    apply list_lookup_fmap_Some. by exists d.
Qed.

Lemma ascending_seeds f v (xs : list ChunkDoc) :
  StronglySorted by_lastmod xs -> (forall d, d ∈ xs -> _epoch (d_lastmod d) = _epoch v) ->
  (forall d, d ∈ xs -> toLong v <= toLong (d_lastmod d)) ->
  ascending v (imap (fun i ch => (ch, f i)) (doc_chunk <$> xs)).
Proof.
  revert f v. induction xs as [|d xs IH]; intros f v Hs He Hv; [done|].
  apply StronglySorted_inv in Hs as [Hs Hd]. rewrite Forall_forall in Hd. cbn [fmap list_fmap imap].
  exists (d_lastmod d). split_and!; [done|apply He; by left|apply Hv; by left|].
  apply (IH (f ∘ S)); [done| |by intros d' Hd'; apply Hd].
  intros d' Hd'. rewrite (He d) by (by left). apply He. by right.
Qed.

Lemma last_version_seeds f v (xs : list ChunkDoc) :
  last_version v (imap (fun i ch => (ch, f i)) (doc_chunk <$> xs)) =
  match last xs with Some d => d_lastmod d | None => v end.
Proof.
  revert f v. induction xs as [|d xs IH]; intros f v; [done|]. cbn [fmap list_fmap imap].
  etrans; [exact (IH (f ∘ S) (d_lastmod d))|]. destruct xs as [|d' xs]; [done|].
  change (last (d :: d' :: xs)) with (last (d' :: xs)). destruct (last (d' :: xs)) eqn:E; [done|].
  by apply last_None in E.
Qed.

Lemma changes_ascend l v :
  catalog l -> _epoch v = epoch -> ascending v (with_seeds seeds (doc_chunk <$> changed l v)).
Proof.
  intros Hcat He. apply ascending_seeds; [apply changed_sorted| |]; intros d [Hd ?]%elem_changed; [|done].
  rewrite He. by apply (ct_epoch _ _ _ _ _ _ Hcat).
Qed.

Lemma sorted_last (xs : list ChunkDoc) x d :
  StronglySorted by_lastmod xs -> last xs = Some x -> d ∈ xs -> by_lastmod d x.
Proof.
  induction xs as [|y xs IH]; intros Hs Hl; [by intros ?%not_elem_of_nil|].
  apply StronglySorted_inv in Hs as [Hs Hy]. destruct xs as [|z xs].
  - injection Hl as <-. intros ->%list_elem_of_singleton. unfold by_lastmod. lia.
  - change (last (y :: z :: xs)) with (last (z :: xs)) in Hl. intros [->|Hd]%elem_of_cons; [|by apply IH].
    rewrite Forall_forall in Hy. apply Hy. by apply last_Some_elem_of.
Qed.

(** No changed document is newer than the last version. *)
Lemma last_version_max l v d :
  d ∈ changed l v ->
  toLong (d_lastmod d) <= toLong (last_version v (with_seeds seeds (doc_chunk <$> changed l v))).
Proof.
  intros Hd. unfold with_seeds. rewrite last_version_seeds. destruct (last (changed l v)) as [x|] eqn:E.
  - exact (sorted_last _ _ _ (changed_sorted l v) E Hd).
  - apply last_None in E. rewrite E in Hd. by apply not_elem_of_nil in Hd.
Qed.

Lemma caches_version cm l :
  catalog l -> caches cm l -> _epoch (cm_collectionVersion cm) = epoch /\
  (exists d, docs_of ns l d /\ d_lastmod d = cm_collectionVersion cm) /\
  forall d, docs_of ns l d -> toLong (d_lastmod d) <= toLong (cm_collectionVersion cm).
Proof.
  intros Hcat [Hr _ Hdoc Hent]. destruct (reachable_ok cm Hr) as [Hok (k & c & Hin & Hv)].
  destruct (Hent k c Hin) as (d & Hd & _ & _ & _ & Hdv). split_and!.
  - rewrite <- Hv, Hdv. by apply (ct_epoch _ _ _ _ _ _ Hcat).
  - exists d. split; [done|congruence].
  - intros d' Hd'. destruct (Hdoc d' Hd') as (c' & Hin' & _ & _ & _ & <-).
    by apply (ok_versions _ Hok _ _ Hin').
Qed.

Lemma rows_cache l ds T cm :
  (forall d, d ∈ ds <-> docs_of ns l d) -> tiling d_min lo (entries ds) hi -> rows ds T ->
  reachable cm -> cm_chunkMap cm = T -> caches cm l.
Proof.
  intros Hds Ht Hr Hre Hm. split; rewrite ?Hm; [done|by eapply rows_tiling| |].
  - intros d Hd%Hds. destruct (Forall2_in_l _ _ _ _ Hr Hd) as ([k c] & Hin & Hk & Hc). simpl in *.
    subst k. by exists c.
  - intros k c Hin. destruct (Forall2_in_r _ _ _ _ Hr Hin) as (d & Hd & _ & Hc). exists d. by rewrite <- Hds.
Qed.

(** An incremental refresh. *)
Lemma refresh_follows seq cm l l' :
  catalog l -> catalog l' -> caches cm l -> later ns l l' ->
  (forall d, docs_of ns l' d -> validate (doc_chunk d) = Ret ()) ->
  exists seq' cm', makeUpdated seq cm (with_seeds seeds (doc_chunk <$> changed l' (cm_collectionVersion cm))) =
      Ret (seq', cm') /\ caches cm' l'.
Proof.
  intros Hcat Hcat' Hcc [Hlater _] Hval. destruct (caches_version cm l Hcat Hcc) as (He & (dv & Hdv & Hv) & Hmax).
  set (v := cm_collectionVersion cm) in *.
  destruct (refresh_rows l' v (cm_chunkMap cm) Hcat' Hval) as (ds & T & Hds & Ht & Hr & Hlead).
  { intros d Hd Hltv. apply (cc_doc _ _ Hcc). destruct (Hlater d Hd) as [?|Hn]; [done|].
    specialize (Hn dv Hdv). rewrite Hv in Hn. lia. }
  pose proof (changes_ascend l' v Hcat' He) as Ha.
  pose proof (last_version_max l' v) as Hlast.
  set (changes := with_seeds seeds (doc_chunk <$> changed l' v)) in *.
  destruct (version_equals (last_version v changes) v) eqn:Eq.
  - apply version_equals_eq in Eq. exists seq, cm. split; [by eapply refresh_same|].
    rewrite Eq in Hlast.
    assert (Hsub : forall d, docs_of ns l' d -> docs_of ns l d).
    { intros d Hd. destruct (Hlater d Hd) as [?|Hn]; [done|]. specialize (Hn dv Hdv). rewrite Hv in Hn.
      assert (Hle : toLong v <= toLong (d_lastmod d)) by lia.
      specialize (Hlast d (proj2 (elem_changed l' v d) (conj Hd Hle))). lia. }
    split; [apply Hcc|apply Hcc|intros d Hd; by apply (cc_doc _ _ Hcc), Hsub|].
    intros k c Hin. destruct (cc_entry _ _ Hcc k c Hin) as (d & Hd & Hdc). exists d. split; [|done].
    destruct (ct_range _ _ _ _ _ _ Hcat d Hd) as (? & ? & ?).
    destruct (ct_cover _ _ _ _ _ _ Hcat' (d_min d)) as (d' & Hd' & Hk'); [done|korder|].
    rewrite (ct_unique _ _ _ _ _ _ Hcat d d' (d_min d)); [done|done|by apply Hsub| |done]. split; korder.
  - assert (Hne : last_version v changes <> v) by (intros E; by rewrite (proj2 (version_equals_eq _ _) E) in Eq).
    destruct (refresh_total seq cm changes lo hi T) as (cm' & Hu & Hm & _); try done.
    + by apply reachable_ok, (cc_reach _ _ Hcc).
    + right. apply Hcc.
    + by eapply rows_snapshot.
    + do 2 eexists. split; [exact Hu|]. eapply rows_cache; try done. eapply reach_update; [apply Hcc|exact Hu].
Qed.

Lemma version_zero (e : OID) (w : ChunkVersion) : toLong (newVersion 0 0 e) <= toLong w.
Proof.
  rewrite toLong_newVersion. pose proof (ui64_range (_combined w)). rewrite (u32_id 0) by lia.
  unfold toLong. lia.
Qed.

(** A full load. *)
Lemma load_follows seq kp p coll u l :
  catalog l -> (forall d, docs_of ns l d -> validate (doc_chunk d) = Ret ()) -> newShardKeyPattern kp = Ret p ->
  exists seq' cm', makeNew seq ns kp coll u epoch
      (with_seeds seeds (doc_chunk <$> changed l (newVersion 0 0 epoch))) = Ret (seq', cm') /\ caches cm' l.
Proof.
  intros Hcat Hval Hp. set (v := newVersion 0 0 epoch).
  assert (Hzero : forall w : ChunkVersion, toLong v <= toLong w) by apply version_zero.
  destruct (refresh_rows l v [] Hcat Hval) as (ds & T & Hds & Ht & Hr & Hlead).
  { intros d Hd Hltv. specialize (Hzero (d_lastmod d)). lia. }
  destruct (makeNew_total seq ns kp coll u epoch (with_seeds seeds (doc_chunk <$> changed l v)) lo hi T p)
    as (seq' & cm' & Hn & Hm & _); try done.
  - by eapply rows_snapshot.
  - by apply changes_ascend.
  - destruct (ct_cover _ _ _ _ _ _ Hcat lo) as (d & Hd & _); [korder|done|].
    pose proof (last_version_max l v d (proj2 (elem_changed _ _ _) (conj Hd (Hzero _)))) as Hmax.
    pose proof (ct_set _ _ _ _ _ _ Hcat d Hd) as Hset. intros E. change (newVersion 0 0 epoch) with v in E. rewrite E in Hmax.
    unfold isSet in Hset. apply Z.ltb_lt in Hset. unfold v in Hmax. rewrite toLong_newVersion in Hmax.
    rewrite (u32_id 0) in Hmax by lia. lia.
  - do 2 eexists. split; [exact Hn|]. eapply rows_cache; try done. by eapply reach_new.
Qed.

(** * The refresh of a router *)

(** A table that caches the collection routes every key to the shard that owns it. *)
Lemma caches_route cm l k :
  catalog l -> caches cm l -> lo ≼ k -> k ≺ hi ->
  exists c d, findIntersectingChunkWithSimpleCollation cm k = Ret c /\
    docs_of ns l d /\ covers d k /\ describes c d.
Proof.
  intros Hcat Hcc H1 H2. destruct (reachable_ok cm (cc_reach _ _ Hcc)) as [Hok _].
  destruct (tiling_lookup getMin lo _ hi k (cc_tiling _ _ Hcc) H1 H2) as (mx & c & Hl & Hin & Ha & Hb).
  destruct (cc_entry _ _ Hcc mx c Hin) as (d & Hd & Hdc). exists c, d. rewrite find_simple.
  assert (E : cm_chunkMap cm !! upper_bound k (cm_chunkMap cm) = Some (mx, c)) by exact Hl. rewrite E.
  destruct (proj2 (ok_map _ Hok) mx c Hin) as [-> _].
  rewrite (proj2 (chunk_containsKey_spec c k)) by (split; done).
  split_and!; try done. destruct Hdc as (Hmn & Hmx & _). unfold covers. by rewrite <- Hmn, <- Hmx.
Qed.

Context (getShard : ShardId -> Outcome unit) (makeFromBSON : BSONObj -> Outcome BSONObj).

Lemma shards_known cm l :
  catalog l -> caches cm l -> (forall d, docs_of ns l d -> getShard (d_shard d) = Ret ()) ->
  ofold (fun _ s => getShard s) () ((shardVersions (cm_views cm)).*1) = Ret ().
Proof.
  intros Hcat Hcc Hg. destruct (reachable_ok cm (cc_reach _ _ Hcc)) as [Hok _].
  assert (Hs : forall s, s ∈ (shardVersions (cm_views cm)).*1 -> getShard s = Ret ()).
  { intros s ([s' v] & -> & Hin)%list_elem_of_fmap. simpl.
    destruct (vo_shards _ _ (ok_views _ Hok) s' v Hin) as (k & c & Hkc & Hsh).
    destruct (cc_entry _ _ Hcc k c Hkc) as (d & Hd & _ & _ & Hds & _).
    rewrite <- Hsh, Hds. by apply Hg. }
  clear Hok. induction ((shardVersions (cm_views cm)).*1) as [|s ss IH]; [done|].
  cbn [ofold]. rewrite Hs by left. cbn [obind]. apply IH. intros s' Hs'. apply Hs. by right.
Qed.

(** What the router relies on: the collection exists in this epoch with a valid
    shard key and collation, and its chunks name shards that are known. *)
Record routable (coll : CollectionType) (l : list ChunkDoc) : Prop := {
  ro_epoch : coll_epoch coll = epoch;
  ro_dropped : coll_dropped coll = false;
  ro_pattern : exists p, newShardKeyPattern (coll_keyPattern coll) = Ret p;
  ro_collation : isEmpty (coll_defaultCollation coll) = true \/
                 exists c, makeFromBSON (coll_defaultCollation coll) = Ret c;
  ro_valid d : docs_of ns l d -> validate (doc_chunk d) = Ret ();
  ro_shards d : docs_of ns l d -> getShard (d_shard d) = Ret ()
}.

Lemma getChangedChunks_Ret coll l since d :
  routable coll l ->
  let start := if oid_eqb (_epoch since) epoch then since else newVersion 0 0 epoch in
  docs_of ns l d -> toLong start <= toLong (d_lastmod d) ->
  getChangedChunks ns (Ret coll) l since =
  Ret (mkCCC epoch (coll_keyPattern coll) (coll_defaultCollation coll) (coll_unique coll)
         (doc_chunk <$> changed l start)).
Proof.
  intros [<- Hdrop _ _ _ _] start Hd Hle. unfold getChangedChunks. cbn [obind].
  rewrite Hdrop. cbn [negb uassert obind]. fold start.
  change (merge_sort by_lastmod (List.filter (createConfigDiffQuery ns start) l)) with (changed l start).
  pose proof (proj2 (elem_changed l start d) (conj Hd Hle)) as Hin.
  destruct (changed l start) as [|x xs]; [by apply not_elem_of_nil in Hin|]. done.
Qed.

Lemma refresh_load seq existing coll l since :
  catalog l -> routable coll l -> (if oid_eqb (_epoch since) epoch then since = newVersion 0 0 epoch else True) ->
  (forall cm, existing = Some cm -> oid_eqb (_epoch (cm_collectionVersion cm)) epoch = false) ->
  exists seq' cm', refreshCollectionRoutingInfo getShard makeFromBSON seeds seq ns existing
      (getChangedChunks ns (Ret coll) l since) = Ret (seq', Some cm') /\ caches cm' l.
Proof.
  intros Hcat Hro Hs Hex. destruct (ct_cover _ _ _ _ _ _ Hcat lo) as (d & Hd & _); [korder|done|].
  assert (Hst : (if oid_eqb (_epoch since) epoch then since else newVersion 0 0 epoch) = newVersion 0 0 epoch)
    by (by destruct (oid_eqb _ _)).
  rewrite (getChangedChunks_Ret coll l since d Hro Hd), Hst by (rewrite Hst; apply version_zero).
  pose proof Hro as [_ _ [p Hp] Hcol Hval Hsh].
  assert (Hc : exists dc, (if isEmpty (coll_defaultCollation coll) then Ret None
      else let* c := makeFromBSON (coll_defaultCollation coll) in Ret (Some c)) = Ret dc).
  { destruct (isEmpty _); [by eexists|]. destruct Hcol as [?|[c ->]]; [done|by eexists]. }
  destruct Hc as [dc Hc].
  destruct (load_follows seq (coll_keyPattern coll) p dc (coll_unique coll) l Hcat Hval Hp) as (seq' & cm' & Hn & Hcc).
  exists seq', cm'. split; [|done]. cbn [refreshCollectionRoutingInfo obind ccc_defaultCollation ccc_epoch
    ccc_shardKeyPattern ccc_shardKeyIsUnique ccc_changedChunks]. rewrite Hc. cbn [obind]. rewrite Hn.
  destruct existing as [cm|]; [rewrite (Hex cm eq_refl)|]; cbn [obind];
    by rewrite (shards_known cm' l Hcat Hcc Hsh).
Qed.

Lemma refresh_update seq cm coll l l' :
  catalog l -> catalog l' -> caches cm l -> later ns l l' -> routable coll l' ->
  exists seq' cm', refreshCollectionRoutingInfo getShard makeFromBSON seeds seq ns (Some cm)
      (getChangedChunks ns (Ret coll) l' (cm_collectionVersion cm)) = Ret (seq', Some cm') /\ caches cm' l'.
Proof.
  intros Hcat Hcat' Hcc Hl Hro. destruct (caches_version cm l Hcat Hcc) as (He & (dv & Hdv & Hv) & _).
  destruct (proj2 Hl dv Hdv) as (d & Hd & Hle). rewrite Hv in Hle.
  pose proof (proj2 (oid_eqb_eq _ _) He) as Heq.
  rewrite (getChangedChunks_Ret coll l' (cm_collectionVersion cm) d Hro Hd) by (by rewrite Heq). rewrite Heq.
  destruct (refresh_follows seq cm l l' Hcat Hcat' Hcc Hl (ro_valid _ _ Hro)) as (seq' & cm' & Hu & Hcc').
  exists seq', cm'. split; [|done]. cbn [refreshCollectionRoutingInfo obind ccc_epoch ccc_changedChunks].
  rewrite Heq, Hu. cbn [obind]. by rewrite (shards_known cm' l' Hcat' Hcc' (ro_shards _ _ Hro)).
Qed.
End follow.

(** The version a refresh starts from ([_scheduleCollectionRefresh]). *)
Definition startingCollectionVersion (existingRoutingInfo : option ChunkManager) : ChunkVersion :=
  match existingRoutingInfo with Some cm => cm_collectionVersion cm | None => UNSHARDED end.

(** C7: a router that caches the chunk catalog as it once was (or nothing, or a
    table of another epoch) refreshes after any sequence of splits, merges and
    migrations that satisfy [request_ok], when the catalog can be routed
    ([routable]: the collection's entry and the chunks parse, and the shards are
    known): the refresh succeeds, the new table holds exactly the chunks of the
    catalog at the time of the query, and it routes every key to the shard that
    owns it at that time. *)
Theorem router_follows_catalog snprintf_g16 ns epoch lo hi getShard makeFromBSON seeds nextSeq coll existing c c' :
  all_type MinKey lo -> all_type MaxKey hi -> lo ≺ hi ->
  catalog snprintf_g16 ns epoch lo hi (cfg_chunks c) -> rtc (commit_step snprintf_g16 ns (request_ok snprintf_g16 ns)) c c' ->
  routable ns epoch getShard makeFromBSON coll (cfg_chunks c') ->
  (forall cm, existing = Some cm -> _epoch (cm_collectionVersion cm) = epoch -> caches ns lo hi cm (cfg_chunks c)) ->
  exists seq' cm',
    refreshCollectionRoutingInfo getShard makeFromBSON seeds nextSeq ns existing
      (getChangedChunks ns (Ret coll) (cfg_chunks c') (startingCollectionVersion existing)) = Ret (seq', Some cm') /\
    caches ns lo hi cm' (cfg_chunks c') /\
    forall k, lo ≼ k -> k ≺ hi ->
      exists ch d, findIntersectingChunkWithSimpleCollation cm' k = Ret ch /\
        docs_of ns (cfg_chunks c') d /\ covers d k /\ describes ch d.
Proof.
  intros Hlo Hhi Hlt Hcat Hs Hro Hex. destruct (commits_later _ _ _ _ _ c c' Hs Hcat) as [Hcat' Hl].
  assert (H : exists seq' cm', refreshCollectionRoutingInfo getShard makeFromBSON seeds nextSeq ns existing
      (getChangedChunks ns (Ret coll) (cfg_chunks c') (startingCollectionVersion existing)) = Ret (seq', Some cm') /\
      caches ns lo hi cm' (cfg_chunks c')).
  { destruct existing as [cm|].
    - destruct (oid_eqb (_epoch (cm_collectionVersion cm)) epoch) eqn:E.
      + apply oid_eqb_eq in E. by apply (refresh_update snprintf_g16 ns epoch lo hi) with (l := cfg_chunks c); auto.
      + apply (refresh_load snprintf_g16 ns epoch lo hi); try done; [cbn [startingCollectionVersion]; by rewrite E|].
        by intros cm' [= <-].
    - apply (refresh_load snprintf_g16 ns epoch lo hi); try done. cbn [startingCollectionVersion].
      destruct (oid_eqb _ epoch) eqn:E; [|done]. apply oid_eqb_eq in E. by rewrite <- E. }
  destruct H as (seq' & cm' & H & Hcc). exists seq', cm'. split_and!; [done|done|].
  intros k H1 H2. by eapply caches_route.
Qed.

(** * Example: a merge reaches a router *)

Definition ex_coll : CollectionType := mkColl ex_epoch false [("x", VInt (mkInt32 1 eq_refl))] [] false.
Definition ex_known (s : ShardId) : Outcome unit := Ret ().
Definition ex_collator (o : BSONObj) : Outcome BSONObj := Ret o.

Lemma ex_routable c :
  forallb (fun d => is_Ret (validate (doc_chunk d))) (cfg_chunks c) = true ->
  routable "t.c" ex_epoch ex_known ex_collator ex_coll (cfg_chunks c).
Proof.
  intros H. split; try done; [vm_compute; by eexists|by left|].
  intros d [Hd%list_elem_of_In _]. apply (proj1 (forallb_forall _ _) H) in Hd.
  by destruct (validate (doc_chunk d)) as [[]| | |].
Qed.

Lemma router_follows_catalog_witness :
  exists cm c' seq' cm',
    caches "t.c" ex_lo ex_hi cm (cfg_chunks ex_two) /\
    rtc (commit_step ex_g16 "t.c" (request_ok ex_g16 "t.c")) ex_two c' /\ List.length (cfg_chunks c') = 1%nat /\
    refreshCollectionRoutingInfo ex_known ex_collator (fun _ => 0) 7 "t.c" (Some cm)
      (getChangedChunks "t.c" (Ret ex_coll) (cfg_chunks c') (cm_collectionVersion cm)) = Ret (seq', Some cm') /\
    caches "t.c" ex_lo ex_hi cm' (cfg_chunks c').
Proof.
  assert (Hb : all_type MinKey ex_lo /\ all_type MaxKey ex_hi /\ ex_lo ≺ ex_hi)
    by (split_and!; [repeat constructor|repeat constructor|by vm_compute]).
  destruct Hb as (Hlo & Hhi & Hlt).
  destruct (refresh_load ex_g16 "t.c" ex_epoch ex_lo ex_hi Hlo Hhi Hlt (fun _ => 0) ex_known ex_collator 3 None
    ex_coll (cfg_chunks ex_two) UNSHARDED ex_two_catalog) as (_ & cm & _ & Hcm);
    [apply ex_routable; by vm_compute|by vm_compute|done|].
  set (c' := (commitChunkMerge ex_g16 "t.c" ex_epoch [ex_lo; ex_mid; ex_hi] "s0" ex_two).1).
  assert (Hs : rtc (commit_step ex_g16 "t.c" (request_ok ex_g16 "t.c")) ex_two c').
  { apply rtc_once. exists (CommitMerge ex_epoch [ex_lo; ex_mid; ex_hi] "s0").
    split; [exact (ex_two_exact [ex_lo; ex_mid; ex_hi] ltac:(repeat constructor))|reflexivity]. }
  destruct (router_follows_catalog ex_g16 "t.c" ex_epoch ex_lo ex_hi ex_known ex_collator (fun _ => 0) 7 ex_coll
    (Some cm) ex_two c' Hlo Hhi Hlt ex_two_catalog Hs) as (seq' & cm' & H & Hcm' & _).
  - apply ex_routable. vm_compute. reflexivity.
  - by intros cm0 [= <-] _.
  - exists cm, c', seq', cm'.
    split; [exact Hcm|]. split; [exact Hs|]. split; [vm_compute; reflexivity|]. split; [exact H|exact Hcm'].
Defined.
