(* ===== verification/CatalogCache.v ===== *)
(** The router's cache of routing tables (catalog_cache.cpp): the database and
    collection entries, the refreshes in flight with their notifications and
    retries, invalidation and purging, as atomic operations that threads
    interleave, with the invariants of the cache under every interleaving. *)

From stdpp Require Import base list strings gmap relations.
From Stdlib Require Import ZArith Lia String Ascii.
From S2P Require Import Prelude Bson ChunkVersion ChunkType ShardKey.
From S2P Require Import Chunk ChunkManager ConfigChunks ConfigCatalog ConfigRefresh.
Local Open Scope string_scope.
Local Open Scope Z_scope.
Local Open Scope list_scope.

(** * Data *)

Definition kMaxInconsistentRoutingInfoRefreshAttempts : Z := 3.

(** [CollectionRoutingInfoEntry]; notifications are shared objects, by number. *)
Record CollectionRoutingInfoEntry := mkEntry {
  needsRefresh : bool;
  refreshCompletionNotification : option nat;
  routingInfo : option ChunkManager
}.
Definition new_entry : CollectionRoutingInfoEntry := mkEntry true None None.

Record DatabaseInfoEntry := mkDatabase {
  primaryShardId : ShardId;
  shardingEnabled : bool;
  collections : gmap string CollectionRoutingInfoEntry
}.

(** The counters of [CatalogCache::Stats] other than the waiting time. *)
Record Stats := mkStats {
  countStaleConfigErrors : Z;
  numActiveIncrementalRefreshes : Z;
  countIncrementalRefreshesStarted : Z;
  numActiveFullRefreshes : Z;
  countFullRefreshesStarted : Z;
  countFailedRefreshes : Z
}.

(** A request to the loader that has not been answered, with what its callback
    captures. *)
Record Refresh := mkRefresh {
  rf_dbEntry : nat;
  rf_nss : string;
  rf_existing : option ChunkManager;
  rf_attempt : Z
}.

(** The cache.  Database entries are shared objects: [_databases] and the
    callbacks in flight refer to them by number. *)
Record CatalogCache := mkCache {
  _databases : gmap string nat;
  db_objects : list DatabaseInfoEntry;
  notifications : list (option (Outcome unit));
  requests : gmap nat Refresh;
  nextRequest : nat;
  _stats : Stats
}.

Definition emptyCache : CatalogCache := mkCache ∅ [] [] ∅ 0 (mkStats 0 0 0 0 0 0).

Record CachedCollectionRoutingInfo := mkInfo {
  cri_primaryId : ShardId;
  cri_cm : option ChunkManager;
  cri_nss : string;
  cri_primary : bool
}.

(** [NamespaceString::db] *)
Fixpoint before_dot (s : string) : option string :=
  match s with
  | EmptyString => None
  | String c s => if Ascii.eqb c "." then Some EmptyString else String c <$> before_dot s
  end.
Definition nss_db (ns : string) : string := default EmptyString (before_dot ns).

(** * State *)

Definition set_databases (m : gmap string nat) (c : CatalogCache) : CatalogCache :=
  mkCache m (db_objects c) (notifications c) (requests c) (nextRequest c) (_stats c).
Definition set_object (i : nat) (d : DatabaseInfoEntry) (c : CatalogCache) : CatalogCache :=
  mkCache (_databases c) (<[i := d]> (db_objects c)) (notifications c) (requests c) (nextRequest c) (_stats c).
Definition add_object (d : DatabaseInfoEntry) (c : CatalogCache) : CatalogCache :=
  mkCache (_databases c) (db_objects c ++ [d]) (notifications c) (requests c) (nextRequest c) (_stats c).
Definition set_notifications (l : list (option (Outcome unit))) (c : CatalogCache) : CatalogCache :=
  mkCache (_databases c) (db_objects c) l (requests c) (nextRequest c) (_stats c).
Definition set_stats (s : Stats) (c : CatalogCache) : CatalogCache :=
  mkCache (_databases c) (db_objects c) (notifications c) (requests c) (nextRequest c) s.
Definition add_request (r : Refresh) (c : CatalogCache) : CatalogCache :=
  mkCache (_databases c) (db_objects c) (notifications c) (<[nextRequest c := r]> (requests c))
    (S (nextRequest c)) (_stats c).
Definition remove_request (i : nat) (c : CatalogCache) : CatalogCache :=
  mkCache (_databases c) (db_objects c) (notifications c) (delete i (requests c)) (nextRequest c) (_stats c).

Definition set_collections (m : gmap string CollectionRoutingInfoEntry) (d : DatabaseInfoEntry)
    : DatabaseInfoEntry := mkDatabase (primaryShardId d) (shardingEnabled d) m.

(** [collections.find(nss)] in a database object. *)
Definition find_entry (db : nat) (nss : string) (c : CatalogCache) : option CollectionRoutingInfoEntry :=
  d ← db_objects c !! db; collections d !! nss.

Definition put_entry (db : nat) (nss : string) (e : CollectionRoutingInfoEntry) (c : CatalogCache)
    : CatalogCache :=
  match db_objects c !! db with
  | Some d => set_object db (set_collections (<[nss := e]> (collections d)) d) c
  | None => c
  end.
Definition erase_entry (db : nat) (nss : string) (c : CatalogCache) : CatalogCache :=
  match db_objects c !! db with
  | Some d => set_object db (set_collections (delete nss (collections d)) d) c
  | None => c
  end.

(** * Operations *)

Section cache.
Context (getShard : ShardId -> Outcome unit) (makeFromBSON : BSONObj -> Outcome BSONObj).
Local Open Scope state_scope.

(** [Notification::set]; a null pointer is dereferenced, a second call aborts. *)
Definition notify (n : option nat) (status : Outcome unit) : SM CatalogCache unit :=
  match n with
  | None => slift Undef
  | Some n =>
      let! c := sget in
      match notifications c !! n with
      | Some None => smodify (set_notifications (<[n := Some status]> (notifications c)))
      | Some (Some _) => slift Abort
      | None => slift Undef
      end
  end.

(** [_getDatabase]; [dbDesc] and [colls] are the answers of the catalog client,
    collections as name and dropped flag. *)
Definition _getDatabase (dbName : string) (dbDesc : Outcome (ShardId * bool))
    (colls : Outcome (list (string * bool))) : SM CatalogCache nat :=
  let! c := sget in
  match _databases c !! dbName with
  | Some i => sret i
  | None =>
      let! d := slift dbDesc in
      let! colls := slift colls in
      let collectionEntries :=
        foldl (fun m coll => if coll.2 : bool then m else <[coll.1 := new_entry]> m) ∅ colls in
      let i := List.length (db_objects c) in
      smodify (add_object (mkDatabase d.1 d.2 collectionEntries)) ;!
      smodify (set_databases (<[dbName := i]> (_databases c))) ;!
      sret i
  end.

(** The statistics when a refresh starts and completes. *)
Definition stats_started (isIncremental : bool) (s : Stats) : Stats :=
  if isIncremental
  then mkStats (countStaleConfigErrors s) (numActiveIncrementalRefreshes s + 1)
         (countIncrementalRefreshesStarted s + 1) (numActiveFullRefreshes s) (countFullRefreshesStarted s)
         (countFailedRefreshes s)
  else mkStats (countStaleConfigErrors s) (numActiveIncrementalRefreshes s)
         (countIncrementalRefreshesStarted s) (numActiveFullRefreshes s + 1) (countFullRefreshesStarted s + 1)
         (countFailedRefreshes s).
Definition stats_completed (isIncremental failed : bool) (s : Stats) : Stats :=
  mkStats (countStaleConfigErrors s)
    (if isIncremental then numActiveIncrementalRefreshes s - 1 else numActiveIncrementalRefreshes s)
    (countIncrementalRefreshesStarted s)
    (if isIncremental then numActiveFullRefreshes s else numActiveFullRefreshes s - 1)
    (countFullRefreshesStarted s)
    (if failed then countFailedRefreshes s + 1 else countFailedRefreshes s).

Definition isSome {A} (o : option A) : bool := match o with Some _ => true | None => false end.

Definition onRefreshCompleted (isIncremental : bool) (status : Outcome unit) : SM CatalogCache unit :=
  let! c := sget in
  smodify (set_stats (stats_completed isIncremental (negb (is_Ret status)) (_stats c))).

(** [onRefreshFailed]; [retry] is its call of [_scheduleCollectionRefresh]. *)
Definition onRefreshFailed (retry : SM CatalogCache unit) (r : Refresh) (e : ErrorCode)
    : SM CatalogCache unit :=
  onRefreshCompleted (isSome (rf_existing r)) (Throw e) ;!
  let! c := sget in
  match find_entry (rf_dbEntry r) (rf_nss r) c with
  | None => slift Abort
  | Some collEntry =>
      if bool_decide (e = ConflictingOperationInProgress) &&
         (rf_attempt r <? kMaxInconsistentRoutingInfoRefreshAttempts)
      then retry
      else
        notify (refreshCompletionNotification collEntry) (Throw e) ;!
        smodify (put_entry (rf_dbEntry r) (rf_nss r)
                   (mkEntry (needsRefresh collEntry) None (routingInfo collEntry)))
  end.

(** [scheduled] is the outcome of handing the request to the loader; its failure
    is not retried. *)
Definition _scheduleCollectionRefresh (r : Refresh) (scheduled : Outcome unit) : SM CatalogCache unit :=
  let! c := sget in
  smodify (set_stats (stats_started (isSome (rf_existing r)) (_stats c))) ;!
  match scheduled with
  | Ret _ => smodify (add_request r)
  | Throw e =>
      slift (invariant (negb (bool_decide (e = ConflictingOperationInProgress)))) ;!
      onRefreshFailed (slift Undef) r e
  | Abort => slift Abort
  | Undef => slift Undef
  end.

(** [refreshCallback] for a request, which is [noexcept]; [sw] is the answer of
    the loader, [seq] the process-wide counter of chunk managers. *)
Definition refreshCallback (id : nat) (seq : Z) (seeds : nat -> Z) (sw : Outcome CollectionAndChangedChunks)
    (scheduled : Outcome unit) : SM CatalogCache unit :=
  let! c := sget in
  match requests c !! id with
  | None => slift Undef
  | Some r =>
      smodify (remove_request id) ;!
      match refreshCollectionRoutingInfo getShard makeFromBSON seeds seq (rf_nss r) (rf_existing r) sw with
      | Ret (_, newRoutingInfo) =>
          onRefreshCompleted (isSome (rf_existing r)) (Ret ()) ;!
          let! c := sget in
          match find_entry (rf_dbEntry r) (rf_nss r) c with
          | None => slift Abort
          | Some collEntry =>
              notify (refreshCompletionNotification collEntry) (Ret ()) ;!
              match newRoutingInfo with
              | None => smodify (erase_entry (rf_dbEntry r) (rf_nss r))
              | Some cm => smodify (put_entry (rf_dbEntry r) (rf_nss r) (mkEntry false None (Some cm)))
              end
          end
      | Throw e =>
          if isDBException e
          then onRefreshFailed
                 (_scheduleCollectionRefresh
                    (mkRefresh (rf_dbEntry r) (rf_nss r) None (rf_attempt r + 1)) scheduled) r e
          else slift Abort
      | Abort => slift Abort
      | Undef => slift Undef
      end
  end.

(** The part of [getCollectionRoutingInfo] under the mutex: a result, or a
    notification to wait for. *)
Inductive Lookup := Found (info : Outcome CachedCollectionRoutingInfo) | WaitFor (n : nat).

Definition lookupRoutingInfo (db : nat) (nss : string) (scheduled : Outcome unit)
    : SM CatalogCache Lookup :=
  let! c := sget in
  match db_objects c !! db with
  | None => slift Undef
  | Some dbEntry =>
      match collections dbEntry !! nss with
      | None =>
          sret (Found match getShard (primaryShardId dbEntry) with
                      | Ret _ => Ret (mkInfo (primaryShardId dbEntry) None nss true)
                      | Throw _ => Throw (Location 40371)
                      | Abort => Abort
                      | Undef => Undef
                      end)
      | Some collEntry =>
          if needsRefresh collEntry then
            match refreshCompletionNotification collEntry with
            | Some n => sret (WaitFor n)
            | None =>
                let n := List.length (notifications c) in
                smodify (set_notifications (notifications c ++ [None])) ;!
                smodify (put_entry db nss (mkEntry true (Some n) None)) ;!
                _scheduleCollectionRefresh (mkRefresh db nss (routingInfo collEntry) 1) scheduled ;!
                sret (WaitFor n)
            end
          else sret (Found (Ret (mkInfo (primaryShardId dbEntry) (routingInfo collEntry) "" false)))
      end
  end.

Definition invalidateShardedCollection (nss : string) : SM CatalogCache unit :=
  let! c := sget in
  match _databases c !! nss_db nss with
  | None => sret ()
  | Some db =>
      let e := default new_entry (find_entry db nss c) in
      smodify (put_entry db nss (mkEntry true (refreshCompletionNotification e) (routingInfo e)))
  end.

Definition onStaleConfigError (ccri : CachedCollectionRoutingInfo) : SM CatalogCache unit :=
  let! c := sget in
  let s := _stats c in
  smodify (set_stats (mkStats (countStaleConfigErrors s + 1) (numActiveIncrementalRefreshes s)
    (countIncrementalRefreshesStarted s) (numActiveFullRefreshes s) (countFullRefreshesStarted s)
    (countFailedRefreshes s))) ;!
  match cri_cm ccri with
  | None => invalidateShardedCollection (cri_nss ccri)
  | Some cm =>
      match _databases c !! nss_db (cm_nss cm) with
      | None => sret ()
      | Some db =>
          match find_entry db (cm_nss cm) c with
          | None => sret ()
          | Some e =>
              if needsRefresh e then sret ()
              else
                match routingInfo e with
                | None => slift Undef
                | Some info =>
                    if version_equals (cm_collectionVersion info) (cm_collectionVersion cm)
                    then smodify (put_entry db (cm_nss cm)
                                    (mkEntry true (refreshCompletionNotification e) (routingInfo e)))
                    else sret ()
                end
          end
      end
  end.

Definition purgeCollection (nss : string) : SM CatalogCache unit :=
  let! c := sget in
  match _databases c !! nss_db nss with
  | None => sret ()
  | Some db => smodify (erase_entry db nss)
  end.

Definition purgeDatabase (dbName : string) : SM CatalogCache unit :=
  let! c := sget in smodify (set_databases (delete dbName (_databases c))).

Definition purgeAllDatabases : SM CatalogCache unit := smodify (set_databases ∅).
End cache.

(** * The invariant *)

(** The collections of the cache at rest: an entry that needs no refresh has a
    routing table and no notification; an entry with a notification has given
    its table away, its notification is not set, and exactly one request is in
    flight for it, at most its third.  [hole] is a collection whose request is
    just being made or answered. *)
Record cache_inv (hole : option (nat * string)) (c : CatalogCache) : Prop := {
  ci_db name i : _databases c !! name = Some i -> is_Some (db_objects c !! i);
  ci_clean db nss e : find_entry db nss c = Some e -> needsRefresh e = false ->
    is_Some (routingInfo e) /\ refreshCompletionNotification e = None;
  ci_busy db nss e n : find_entry db nss c = Some e -> refreshCompletionNotification e = Some n ->
    routingInfo e = None /\ notifications c !! n = Some None;
  ci_served db nss e n : find_entry db nss c = Some e -> refreshCompletionNotification e = Some n ->
    hole = Some (db, nss) \/ exists id r, requests c !! id = Some r /\ rf_dbEntry r = db /\ rf_nss r = nss;
  ci_hole db nss : hole = Some (db, nss) ->
    exists e n, find_entry db nss c = Some e /\ refreshCompletionNotification e = Some n;
  ci_request id r : requests c !! id = Some r ->
    hole <> Some (rf_dbEntry r, rf_nss r) /\ 1 <= rf_attempt r <= 3 /\
    exists e n, find_entry (rf_dbEntry r) (rf_nss r) c = Some e /\ refreshCompletionNotification e = Some n;
  ci_single id1 id2 r1 r2 : requests c !! id1 = Some r1 -> requests c !! id2 = Some r2 ->
    rf_dbEntry r1 = rf_dbEntry r2 -> rf_nss r1 = rf_nss r2 -> id1 = id2;
  ci_owner db1 nss1 e1 db2 nss2 e2 n : find_entry db1 nss1 c = Some e1 -> find_entry db2 nss2 c = Some e2 ->
    refreshCompletionNotification e1 = Some n -> refreshCompletionNotification e2 = Some n ->
    (db1, nss1) = (db2, nss2);
  ci_fresh id : (nextRequest c <= id)%nat -> requests c !! id = None
}.

Lemma find_put db nss e db' nss' c :
  is_Some (db_objects c !! db) ->
  find_entry db' nss' (put_entry db nss e c) =
  if decide ((db', nss') = (db, nss)) then Some e else find_entry db' nss' c.
Proof.
  intros [d Hd]. unfold find_entry, put_entry. rewrite Hd. cbn [set_object db_objects].
  destruct (decide ((db', nss') = (db, nss))) as [[= -> ->]|Hne].
  - rewrite list_lookup_insert_eq by (by eapply lookup_lt_Some). cbn. by rewrite lookup_insert_eq.
  - destruct (decide (db' = db)) as [->|Hdb]; [|by rewrite list_lookup_insert_ne].
    rewrite list_lookup_insert_eq by (by eapply lookup_lt_Some). rewrite Hd. cbn.
    rewrite lookup_insert_ne; [done|congruence].
Qed.

Lemma find_erase db nss db' nss' c :
  is_Some (db_objects c !! db) ->
  find_entry db' nss' (erase_entry db nss c) =
  if decide ((db', nss') = (db, nss)) then None else find_entry db' nss' c.
Proof.
  intros [d Hd]. unfold find_entry, erase_entry. rewrite Hd. cbn [set_object db_objects].
  destruct (decide ((db', nss') = (db, nss))) as [[= -> ->]|Hne].
  - rewrite list_lookup_insert_eq by (by eapply lookup_lt_Some). cbn. by rewrite lookup_delete_eq.
  - destruct (decide (db' = db)) as [->|Hdb]; [|by rewrite list_lookup_insert_ne].
    rewrite list_lookup_insert_eq by (by eapply lookup_lt_Some). rewrite Hd. cbn.
    rewrite lookup_delete_ne; [done|congruence].
Qed.

Lemma find_object db nss c e : find_entry db nss c = Some e -> is_Some (db_objects c !! db).
Proof. unfold find_entry. destruct (db_objects c !! db); [by eexists|done]. Qed.

Lemma put_fields db nss e c :
  _databases (put_entry db nss e c) = _databases c /\ notifications (put_entry db nss e c) = notifications c /\
  requests (put_entry db nss e c) = requests c /\ nextRequest (put_entry db nss e c) = nextRequest c /\
  forall i, is_Some (db_objects (put_entry db nss e c) !! i) <-> is_Some (db_objects c !! i).
Proof.
  unfold put_entry. destruct (db_objects c !! db) as [d|] eqn:E; [|done]. split_and!; try done.
  intros i. cbn [set_object db_objects]. rewrite !lookup_lt_is_Some, length_insert. done.
Qed.

Lemma erase_fields db nss c :
  _databases (erase_entry db nss c) = _databases c /\ notifications (erase_entry db nss c) = notifications c /\
  requests (erase_entry db nss c) = requests c /\ nextRequest (erase_entry db nss c) = nextRequest c /\
  forall i, is_Some (db_objects (erase_entry db nss c) !! i) <-> is_Some (db_objects c !! i).
Proof.
  unfold erase_entry. destruct (db_objects c !! db) as [d|] eqn:E; [|done]. split_and!; try done.
  intros i. cbn [set_object db_objects]. rewrite !lookup_lt_is_Some, length_insert. done.
Qed.

(** The invariant depends on the entries only. *)
Lemma inv_ext h c c' :
  cache_inv h c -> (forall name i, _databases c' !! name = Some i -> is_Some (db_objects c' !! i)) ->
  (forall db nss, find_entry db nss c' = find_entry db nss c) ->
  notifications c' = notifications c -> requests c' = requests c -> nextRequest c' = nextRequest c ->
  cache_inv h c'.
Proof.
  intros [Hdb H1 H2 H3 H4 H5 H6 H7 H8] Hd He Hn Hr Hx.
  split; [exact Hd|..]; intros *; rewrite ?He, ?Hn, ?Hr, ?Hx; eauto.
Qed.

Lemma inv_stats h s c : cache_inv h c -> cache_inv h (set_stats s c).
Proof. intros H. eapply inv_ext; [exact H|apply H|done..]. Qed.

(** A collection gets a new notification: its request is to be made. *)
Lemma inv_start db nss e c :
  cache_inv None c -> find_entry db nss c = Some e -> refreshCompletionNotification e = None ->
  cache_inv (Some (db, nss))
    (put_entry db nss (mkEntry true (Some (List.length (notifications c))) None)
       (set_notifications (notifications c ++ [None]) c)).
Proof.
  intros Hi He Hno. set (n := List.length (notifications c)).
  set (c1 := set_notifications (notifications c ++ [None]) c).
  assert (Hob : is_Some (db_objects c1 !! db)) by exact (find_object _ _ _ _ He).
  pose proof (put_fields db nss (mkEntry true (Some n) None) c1) as (F1 & F2 & F3 & F4 & F5).
  assert (Hlt : forall db' nss' e' m, find_entry db' nss' c = Some e' ->
    refreshCompletionNotification e' = Some m -> (m < n)%nat).
  { intros db' nss' e' m H1 H2. destruct (ci_busy _ _ Hi _ _ _ _ H1 H2) as [_ ?%lookup_lt_Some]. done. }
  assert (Hreq : forall id r, requests c !! id = Some r -> (rf_dbEntry r, rf_nss r) <> (db, nss)).
  { intros id r Hr [= <- <-]. destruct (ci_request _ _ Hi id r Hr) as (_ & _ & e' & m & He' & Hm).
    rewrite He in He'. congruence. }
  assert (Hf : forall db' nss' e', find_entry db' nss' (put_entry db nss (mkEntry true (Some n) None) c1) = Some e' ->
    (db', nss') = (db, nss) /\ e' = mkEntry true (Some n) None \/
    (db', nss') <> (db, nss) /\ find_entry db' nss' c = Some e').
  { intros db' nss' e'. rewrite find_put by done. destruct (decide _); [intros [= <-]; by left|by right]. }
  split.
  - intros name i. rewrite F1, F5. apply (ci_db _ _ Hi).
  - intros db' nss' e' [[_ ->]|[_ Hf']]%Hf; [done|]. by apply (ci_clean _ _ Hi db' nss').
  - intros db' nss' e' m. rewrite F2. intros [[_ ->]|[_ Hf']]%Hf Hm.
    + injection Hm as <-. split; [done|]. apply list_lookup_middle. done.
    + destruct (ci_busy _ _ Hi _ _ _ _ Hf' Hm) as [? Hl]. split; [done|]. by apply lookup_app_l_Some.
  - intros db' nss' e' m. rewrite F3. intros [[[= -> ->] _]|[_ Hf']]%Hf Hm; [by left|right].
    by destruct (ci_served _ _ Hi _ _ _ _ Hf' Hm).
  - intros db' nss' [= <- <-]. rewrite find_put by done. rewrite decide_True by done. by do 2 eexists.
  - intros id r. rewrite F3. intros Hr. pose proof (Hreq id r Hr) as Hne.
    destruct (ci_request _ _ Hi id r Hr) as (_ & Ha & e' & m & He' & Hm).
    split; [congruence|]. split; [done|]. exists e', m. rewrite find_put by done. by rewrite decide_False.
  - intros id1 id2 r1 r2. rewrite F3. apply (ci_single _ _ Hi).
  - intros db1 nss1 e1 db2 nss2 e2 m [[E1 ->]|[_ Hf1]]%Hf [[E2 ->]|[_ Hf2]]%Hf Hm1 Hm2.
    + by rewrite E1, E2.
    + injection Hm1 as <-. specialize (Hlt _ _ _ _ Hf2 Hm2). lia.
    + injection Hm2 as <-. specialize (Hlt _ _ _ _ Hf1 Hm1). lia.
    + by apply (ci_owner _ _ Hi db1 nss1 e1 db2 nss2 e2 m).
  - intros id. rewrite F3, F4. apply (ci_fresh _ _ Hi).
Qed.

(** The request of the hole is made. *)
Lemma inv_request r c :
  cache_inv (Some (rf_dbEntry r, rf_nss r)) c -> 1 <= rf_attempt r <= 3 -> cache_inv None (add_request r c).
Proof.
  intros Hi Ha. set (i := nextRequest c).
  assert (Hfr : requests c !! i = None) by (by apply (ci_fresh _ _ Hi)).
  assert (Hl : forall id r', requests (add_request r c) !! id = Some r' ->
    id = i /\ r' = r \/ id <> i /\ requests c !! id = Some r').
  { intros id r'. cbn [requests add_request]. destruct (decide (id = i)) as [->|Hne].
    - rewrite lookup_insert_eq. intros [= <-]. by left.
    - rewrite lookup_insert_ne by done. by right. }
  split; try (apply Hi).
  - intros db nss e n He Hn. right. destruct (ci_served _ _ Hi db nss e n He Hn) as [[= <- <-]|(id & r' & Hr & ? & ?)].
    + exists i, r. cbn. by rewrite lookup_insert_eq.
    + exists id, r'. cbn [requests add_request]. rewrite lookup_insert_ne; [done|]. intros E. rewrite <- E in Hr. unfold i in Hfr. congruence.
  - done.
  - intros id r' [[-> ->]|[Hne Hr]]%Hl; (split; [done|]).
    + split; [done|]. by apply (ci_hole _ _ Hi).
    + by apply (ci_request _ _ Hi id r').
  - intros id1 id2 r1 r2 [[-> ->]|[_ H1]]%Hl [[-> ->]|[_ H2]]%Hl Hd Hn; [done|exfalso..|].
    + destruct (ci_request _ _ Hi _ _ H2) as (Hx & _). by rewrite Hd, Hn in Hx.
    + destruct (ci_request _ _ Hi _ _ H1) as (Hx & _). by rewrite Hd, Hn in Hx.
    + by apply (ci_single _ _ Hi id1 id2 r1 r2).
  - cbn [nextRequest requests add_request]. intros id Hid. rewrite lookup_insert_ne by (unfold i; lia).
    apply (ci_fresh _ _ Hi). lia.
Qed.

(** A request is answered. *)
Lemma inv_answer id r c :
  cache_inv None c -> requests c !! id = Some r ->
  cache_inv (Some (rf_dbEntry r, rf_nss r)) (remove_request id c).
Proof.
  intros Hi Hr.
  assert (Hl : forall id' r', requests (remove_request id c) !! id' = Some r' -> id' <> id /\ requests c !! id' = Some r').
  { intros id' r'. cbn. intros [? ?]%lookup_delete_Some. done. }
  split; try (apply Hi).
  - intros db nss e n He Hn. destruct (ci_served _ _ Hi db nss e n He Hn) as [[=]|(id' & r' & Hr' & Hd & Hs)].
    destruct (decide (id' = id)) as [->|Hne].
    + left. rewrite Hr in Hr'. injection Hr' as <-. by rewrite Hd, Hs.
    + right. exists id', r'. cbn. by rewrite lookup_delete_ne.
  - intros db nss [= <- <-]. by destruct (ci_request _ _ Hi id r Hr) as (_ & _ & ?).
  - intros id' r' [Hne Hr']%Hl. split; [|by destruct (ci_request _ _ Hi id' r' Hr') as (_ & ?)].
    intros [= E1 E2]. destruct Hne. by apply (ci_single _ _ Hi id' id r' r).
  - intros id1 id2 r1 r2 [_ ?]%Hl [_ ?]%Hl. by apply (ci_single _ _ Hi).
  - intros id' Hid. cbn. apply lookup_delete_None. right. by apply (ci_fresh _ _ Hi).
Qed.

(** The refresh of the hole ends: its notification is set and its entry is
    replaced by [o]. *)
Lemma inv_finish db nss e n st o c c' :
  cache_inv (Some (db, nss)) c -> find_entry db nss c = Some e -> refreshCompletionNotification e = Some n ->
  (forall e', o = Some e' -> refreshCompletionNotification e' = None /\
     (needsRefresh e' = false -> is_Some (routingInfo e'))) ->
  (forall db' nss', find_entry db' nss' c' =
     if decide ((db', nss') = (db, nss)) then o else find_entry db' nss' c) ->
  _databases c' = _databases c -> (forall i, is_Some (db_objects c' !! i) <-> is_Some (db_objects c !! i)) ->
  notifications c' = <[n := Some st]> (notifications c) -> requests c' = requests c ->
  nextRequest c' = nextRequest c -> cache_inv None c'.
Proof.
  intros Hi He Hn Ho Hfind F1 F5 F2 F3 F4.
  assert (Hf : forall db' nss' e' m, find_entry db' nss' c' = Some e' -> refreshCompletionNotification e' = Some m ->
    (db', nss') <> (db, nss) /\ find_entry db' nss' c = Some e').
  { intros db' nss' e' m. rewrite Hfind. destruct (decide _); [|done]. intros E Hm.
    destruct (Ho e' E) as [? _]. congruence. }
  split.
  - intros name i. rewrite F1, F5. apply (ci_db _ _ Hi).
  - intros db' nss' e'. rewrite Hfind. destruct (decide _); [|by apply (ci_clean _ _ Hi)].
    intros E Hnr. destruct (Ho e' E) as [? Hr]. split; [by apply Hr|done].
  - intros db' nss' e' m Hf' Hm. destruct (Hf _ _ _ _ Hf' Hm) as [Hne Hold].
    destruct (ci_busy _ _ Hi _ _ _ _ Hold Hm) as [? Hl]. split; [done|]. rewrite F2.
    rewrite list_lookup_insert_ne; [done|]. intros <-. apply Hne. by apply (ci_owner _ _ Hi db' nss' e' db nss e n).
  - intros db' nss' e' m Hf' Hm. destruct (Hf _ _ _ _ Hf' Hm) as [Hne Hold]. rewrite F3.
    destruct (ci_served _ _ Hi _ _ _ _ Hold Hm) as [[= <- <-]|?]; [done|by right].
  - done.
  - intros id r. rewrite F3. intros Hr. destruct (ci_request _ _ Hi id r Hr) as (Hne & Ha & e' & m & He' & Hm).
    split_and!; [done|lia|lia|]. exists e', m. rewrite Hfind, decide_False by congruence. done.
  - intros id1 id2 r1 r2. rewrite F3. apply (ci_single _ _ Hi).
  - intros db1 nss1 e1 db2 nss2 e2 m Hf1 Hf2 Hm1 Hm2.
    destruct (Hf _ _ _ _ Hf1 Hm1) as [_ H1], (Hf _ _ _ _ Hf2 Hm2) as [_ H2].
    by apply (ci_owner _ _ Hi db1 nss1 e1 db2 nss2 e2 m).
  - intros id. rewrite F3, F4. apply (ci_fresh _ _ Hi).
Qed.

(** A collection is marked as needing a refresh. *)
Lemma inv_invalidate db nss c :
  cache_inv None c -> is_Some (db_objects c !! db) ->
  let e := default new_entry (find_entry db nss c) in
  cache_inv None (put_entry db nss (mkEntry true (refreshCompletionNotification e) (routingInfo e)) c).
Proof.
  intros Hi Hob e. set (e1 := mkEntry true _ _).
  pose proof (put_fields db nss e1 c) as (F1 & F2 & F3 & F4 & F5).
  assert (Hf : forall db' nss' e' n, find_entry db' nss' (put_entry db nss e1 c) = Some e' ->
    refreshCompletionNotification e' = Some n ->
    exists e0, find_entry db' nss' c = Some e0 /\ refreshCompletionNotification e0 = Some n /\
      routingInfo e' = routingInfo e0).
  { intros db' nss' e' n. rewrite find_put by done. destruct (decide _) as [[= -> ->]|]; [|eauto].
    intros [= <-] Hm. unfold e1, e in *. simpl in *. destruct (find_entry db nss c) as [e0|]; [eauto|done]. }
  assert (Hback : forall db' nss' e0 n, find_entry db' nss' c = Some e0 -> refreshCompletionNotification e0 = Some n ->
    exists e' n', find_entry db' nss' (put_entry db nss e1 c) = Some e' /\ refreshCompletionNotification e' = Some n').
  { intros db' nss' e0 n H1 H2. rewrite find_put by done. destruct (decide _) as [[= -> ->]|]; [|eauto].
    exists e1, n. split; [done|]. unfold e1, e. by rewrite H1. }
  split.
  - intros name i. rewrite F1, F5. apply (ci_db _ _ Hi).
  - intros db' nss' e'. rewrite find_put by done. destruct (decide _); [by intros [= <-]|]. apply (ci_clean _ _ Hi).
  - intros db' nss' e' n Hf' Hm. destruct (Hf _ _ _ _ Hf' Hm) as (e0 & H0 & Hm0 & ->). rewrite F2.
    by apply (ci_busy _ _ Hi db' nss').
  - intros db' nss' e' n Hf' Hm. destruct (Hf _ _ _ _ Hf' Hm) as (e0 & H0 & Hm0 & _). rewrite F3.
    by apply (ci_served _ _ Hi db' nss' e0 n).
  - done.
  - intros id r. rewrite F3. intros Hr. destruct (ci_request _ _ Hi id r Hr) as (? & ? & e0 & m & He0 & Hm).
    split_and!; [done|lia|lia|]. by eapply Hback.
  - intros id1 id2 r1 r2. rewrite F3. apply (ci_single _ _ Hi).
  - intros db1 nss1 e1' db2 nss2 e2' n Hf1 Hf2 Hm1 Hm2.
    destruct (Hf _ _ _ _ Hf1 Hm1) as (x1 & H1 & Hx1 & _), (Hf _ _ _ _ Hf2 Hm2) as (x2 & H2 & Hx2 & _).
    by apply (ci_owner _ _ Hi db1 nss1 x1 db2 nss2 x2 n).
  - intros id. rewrite F3, F4. apply (ci_fresh _ _ Hi).
Qed.

(** A new database object. *)
Lemma inv_database d dbName c :
  cache_inv None c -> map_Forall (fun _ e => e = new_entry) (collections d) ->
  cache_inv None (set_databases (<[dbName := List.length (db_objects c)]> (_databases c)) (add_object d c)).
Proof.
  intros Hi Hd. set (c' := set_databases _ _).
  assert (Hf : forall db nss e, find_entry db nss c' = Some e -> find_entry db nss c = Some e \/ e = new_entry).
  { intros db nss e. unfold find_entry. cbn [c' set_databases add_object db_objects].
    destruct (db_objects c !! db) as [d0|] eqn:E.
    - rewrite lookup_app_l by (by eapply lookup_lt_Some). rewrite E. by left.
    - apply lookup_ge_None in E. rewrite lookup_app_r by done.
      destruct (_ - _)%nat; [|done]. cbn. intros H. right. by apply (Hd nss). }
  assert (Hb : forall db nss e, find_entry db nss c = Some e -> find_entry db nss c' = Some e).
  { intros db nss e He. pose proof (find_object _ _ _ _ He) as [d0 Hd0]. revert He. unfold find_entry.
    cbn [c' set_databases add_object db_objects].
    rewrite lookup_app_l by (by eapply lookup_lt_Some). done. }
  split; try (apply Hi).
  - intros name i. cbn [c' set_databases add_object db_objects _databases].
    rewrite lookup_lt_is_Some, length_app. simpl. intros [[_ <-]|[_ H]]%lookup_insert_Some; [lia|].
    apply (ci_db _ _ Hi), lookup_lt_is_Some in H. lia.
  - intros db nss e [H| ->]%Hf; [by apply (ci_clean _ _ Hi db nss)|done].
  - intros db nss e n [H| ->]%Hf; [by apply (ci_busy _ _ Hi db nss)|done].
  - intros db nss e n [H| ->]%Hf; [by apply (ci_served _ _ Hi db nss)|done].
  - done.
  - intros id r Hr. destruct (ci_request _ _ Hi id r Hr) as (? & ? & e0 & m & He0 & Hm).
    split_and!; [done|lia|lia|]. exists e0, m. split; [by apply Hb|done].
  - intros db1 nss1 e1 db2 nss2 e2 n [H1| ->]%Hf [H2| ->]%Hf; try done. by apply (ci_owner _ _ Hi).
Qed.

(** * The operations keep the invariant *)

Section safety.
Context (getShard : ShardId -> Outcome unit) (makeFromBSON : BSONObj -> Outcome BSONObj).

(** A value or a database error. *)
Definition answered {A} (r : Outcome A) : Prop :=
  match r with Ret _ => True | Throw e => isDBException e = true | _ => False end.
(** Handing a request to the loader fails only because it shuts down. *)
Definition schedulable (r : Outcome unit) : Prop :=
  match r with Ret _ => True | Throw e => e <> ConflictingOperationInProgress | _ => False end.

(** The notification [n] is set, or the request that will set it is in flight
    and has [k] attempts left. *)
Definition rank (n : nat) (c : CatalogCache) (k : Z) : Prop :=
  k = 0 /\ (exists st, notifications c !! n = Some (Some st)) \/
  exists id r e, requests c !! id = Some r /\ find_entry (rf_dbEntry r) (rf_nss r) c = Some e /\
    refreshCompletionNotification e = Some n /\ k = 4 - rf_attempt r.

Lemma notify_ok n st c :
  notifications c !! n = Some None ->
  notify (Some n) st c = (set_notifications (<[n := Some st]> (notifications c)) c, Ret ()).
Proof. intros H. unfold notify, sbind, sget. by rewrite H. Qed.

(** Ending the refresh of the hole with [o] as its entry. *)
Lemma finish_put db nss e n st e' c :
  cache_inv (Some (db, nss)) c -> find_entry db nss c = Some e -> refreshCompletionNotification e = Some n ->
  refreshCompletionNotification e' = None -> (needsRefresh e' = false -> is_Some (routingInfo e')) ->
  cache_inv None (put_entry db nss e' (set_notifications (<[n := Some st]> (notifications c)) c)).
Proof.
  intros Hi He Hn H1 H2. set (c1 := set_notifications _ c).
  assert (Hob : is_Some (db_objects c1 !! db)) by exact (find_object _ _ _ _ He).
  pose proof (put_fields db nss e' c1) as (F1 & F2 & F3 & F4 & F5).
  eapply (inv_finish db nss e n st (Some e') c); try done.
  - by intros ? [= <-].
  - intros db' nss'. by rewrite find_put by done.
Qed.

Lemma finish_erase db nss e n st c :
  cache_inv (Some (db, nss)) c -> find_entry db nss c = Some e -> refreshCompletionNotification e = Some n ->
  cache_inv None (erase_entry db nss (set_notifications (<[n := Some st]> (notifications c)) c)).
Proof.
  intros Hi He Hn. set (c1 := set_notifications _ c).
  assert (Hob : is_Some (db_objects c1 !! db)) by exact (find_object _ _ _ _ He).
  pose proof (erase_fields db nss c1) as (F1 & F2 & F3 & F4 & F5).
  eapply (inv_finish db nss e n st None c); try done.
  intros db' nss'. by rewrite find_erase by done.
Qed.

(** A failed refresh is retried, or its notification carries the error. *)
Lemma onRefreshFailed_ok retry r e n x c :
  cache_inv (Some (rf_dbEntry r, rf_nss r)) c -> find_entry (rf_dbEntry r) (rf_nss r) c = Some x ->
  refreshCompletionNotification x = Some n ->
  (exists s, onRefreshFailed retry r e c = retry (set_stats s c) /\
     e = ConflictingOperationInProgress /\ rf_attempt r < 3) \/
  exists c', onRefreshFailed retry r e c = (c', Ret ()) /\ cache_inv None c' /\
    notifications c' !! n = Some (Some (Throw e)).
Proof.
  intros Hi He Hn. unfold onRefreshFailed, onRefreshCompleted, sbind, sget, smodify.
  cbn [fst snd]. set (c1 := set_stats _ c). assert (Hi1 : cache_inv (Some (rf_dbEntry r, rf_nss r)) c1) by (by apply inv_stats).
  assert (He1 : find_entry (rf_dbEntry r) (rf_nss r) c1 = Some x) by done. rewrite He1.
  destruct (bool_decide _ && _) eqn:E.
  - left. apply andb_true_iff in E as [E1%bool_decide_eq_true E2%Z.ltb_lt]. by eexists.
  - right. destruct (ci_busy _ _ Hi1 _ _ _ _ He1 Hn) as [_ Hl].
    rewrite Hn, (notify_ok n _ c1 Hl). eexists. split; [done|]. split.
    + eapply finish_put; try done. simpl. intros Hnr. by destruct (ci_clean _ _ Hi1 _ _ _ He1 Hnr) as [? ?].
    + destruct (put_fields (rf_dbEntry r) (rf_nss r) (mkEntry (needsRefresh x) None (routingInfo x))
        (set_notifications (<[n := Some (Throw e)]> (notifications c1)) c1)) as (_ & -> & _).
      apply list_lookup_insert_eq. by eapply lookup_lt_Some.
Qed.

Lemma schedule_ok r n x scheduled c :
  cache_inv (Some (rf_dbEntry r, rf_nss r)) c -> find_entry (rf_dbEntry r) (rf_nss r) c = Some x ->
  refreshCompletionNotification x = Some n -> 1 <= rf_attempt r <= 3 -> schedulable scheduled ->
  exists c', _scheduleCollectionRefresh r scheduled c = (c', Ret ()) /\ cache_inv None c' /\
    (rank n c' 0 \/ rank n c' (4 - rf_attempt r)).
Proof.
  intros Hi He Hn Ha Hs. unfold _scheduleCollectionRefresh. unfold sbind at 1, sget. cbn [fst snd].
  unfold sbind at 1, smodify at 1. set (c1 := set_stats _ c).
  assert (Hi1 : cache_inv (Some (rf_dbEntry r, rf_nss r)) c1) by (by apply inv_stats).
  destruct scheduled as [[]|e| |]; try done.
  - eexists. split; [reflexivity|]. split; [by apply inv_request|]. right. right.
    exists (nextRequest c1), r, x. split_and!; try done. cbn. apply lookup_insert_eq.
  - simpl in Hs. rewrite bool_decide_eq_false_2 by done. unfold sbind at 1, slift at 1. cbn [negb invariant].
    destruct (onRefreshFailed_ok (slift Undef) r e n x c1 Hi1 He Hn) as [(s & _ & ? & _)|(c' & Hr & Hi' & Hl)]; [done|].
    exists c'. split_and!; try done. left. left. split; [done|by eexists].
Qed.

(** * What an operation leaves alone *)

(** Notification [n] keeps its value, and the request that serves it stays. *)
Definition serves (n id : nat) (r : Refresh) (c : CatalogCache) : Prop :=
  requests c !! id = Some r /\
  exists e, find_entry (rf_dbEntry r) (rf_nss r) c = Some e /\ refreshCompletionNotification e = Some n.
Definition keeps (n : nat) (c c' : CatalogCache) : Prop :=
  (forall st, notifications c !! n = Some (Some st) -> notifications c' !! n = Some (Some st)) /\
  (forall id r, serves n id r c -> serves n id r c').

Lemma keeps_trans n c1 c2 c3 : keeps n c1 c2 -> keeps n c2 c3 -> keeps n c1 c3.
Proof. intros [H1 H2] [H3 H4]. split; eauto. Qed.

Lemma keeps_rank n c c' k : keeps n c c' -> rank n c k -> rank n c' k.
Proof.
  intros [H1 H2] [(-> & st & Hst)|(id & r & e & Hr & He & Hn & ->)]; [left; eauto|right].
  destruct (H2 id r) as (Hr' & e' & He' & Hn'); [split; eauto|]. by exists id, r, e'.
Qed.

Lemma keeps_ext n c c' :
  (forall db nss e, find_entry db nss c = Some e -> find_entry db nss c' = Some e) ->
  notifications c' = notifications c -> requests c' = requests c -> keeps n c c'.
Proof.
  intros He Hn Hr. split; [by rewrite Hn|]. intros id r (Hreq & e & Hf & Hne). split; [by rewrite Hr|eauto].
Qed.

Lemma keeps_put n db nss e' c :
  is_Some (db_objects c !! db) ->
  (forall e, find_entry db nss c = Some e -> refreshCompletionNotification e = Some n ->
     refreshCompletionNotification e' = Some n) ->
  keeps n c (put_entry db nss e' c).
Proof.
  intros Hob Hn. destruct (put_fields db nss e' c) as (_ & F2 & F3 & _). split; [by rewrite F2|].
  intros id r (Hr & e & He & Hne). split; [by rewrite F3|]. rewrite find_put by done.
  destruct (decide _) as [[= E1 E2]|]; [|eauto]. exists e'. split; [done|]. rewrite E1, E2 in He. eauto.
Qed.

Lemma keeps_erase n db nss c :
  is_Some (db_objects c !! db) ->
  (forall e, find_entry db nss c = Some e -> refreshCompletionNotification e <> Some n) ->
  keeps n c (erase_entry db nss c).
Proof.
  intros Hob Hn. destruct (erase_fields db nss c) as (_ & F2 & F3 & _). split; [by rewrite F2|].
  intros id r (Hr & e & He & Hne). split; [by rewrite F3|]. rewrite find_erase by done.
  destruct (decide _) as [[= E1 E2]|]; [|eauto]. rewrite E1, E2 in He. by destruct (Hn e He).
Qed.

Lemma keeps_notify n m st c :
  notifications c !! m = Some None -> keeps n c (set_notifications (<[m := Some st]> (notifications c)) c).
Proof.
  intros Hm. split; [|done]. intros st' Hn. cbn. rewrite list_lookup_insert_ne; [done|]. intros ->. congruence.
Qed.

Lemma keeps_new n c : keeps n c (set_notifications (notifications c ++ [None]) c).
Proof. split; [|done]. intros st Hn. by apply lookup_app_l_Some. Qed.

Lemma keeps_add n r h c : cache_inv h c -> keeps n c (add_request r c).
Proof.
  intros Hi. split; [done|]. intros id r' (Hr & e & He & Hn). split; [|by exists e]. cbn.
  rewrite lookup_insert_ne; [done|]. intros E. rewrite (ci_fresh _ _ Hi id) in Hr; [done|lia].
Qed.

Lemma keeps_remove n id r c : requests c !! id = Some r -> ~ serves n id r c -> keeps n c (remove_request id c).
Proof.
  intros Hr Hns. split; [done|]. intros id' r' (Hr' & e & He & Hn). split; [|by exists e]. cbn.
  rewrite lookup_delete_ne; [done|]. intros <-. rewrite Hr in Hr'. injection Hr' as <-. apply Hns. split; eauto.
Qed.

(** The hole's own notification aside, scheduling and failing leave all alone. *)
Lemma onRefreshFailed_keeps retry r e n m x c :
  find_entry (rf_dbEntry r) (rf_nss r) c = Some x -> refreshCompletionNotification x = Some n -> m <> n ->
  notifications c !! n = Some None ->
  (forall s, keeps m c (retry (set_stats s c)).1) -> keeps m c (onRefreshFailed retry r e c).1.
Proof.
  intros He Hn Hm Hl Hr. unfold onRefreshFailed, onRefreshCompleted, sbind, sget, smodify. cbn [fst snd].
  set (c1 := set_stats _ c). assert (He1 : find_entry (rf_dbEntry r) (rf_nss r) c1 = Some x) by done. rewrite He1.
  destruct (bool_decide _ && _); [apply Hr|]. rewrite Hn, (notify_ok n _ c1 Hl). cbn [fst].
  apply (keeps_trans m c (set_notifications (<[n := Some (Throw e)]> (notifications c1)) c1));
    [exact (keeps_notify m n _ c1 Hl)|].
  apply keeps_put; [exact (find_object _ _ _ _ He)|]. intros e0 E Hn0.
  assert (Hx : Some e0 = Some x) by exact (eq_trans (eq_sym E) He). congruence.
Qed.

Lemma schedule_keeps r n m x scheduled c :
  cache_inv (Some (rf_dbEntry r, rf_nss r)) c -> find_entry (rf_dbEntry r) (rf_nss r) c = Some x ->
  refreshCompletionNotification x = Some n -> m <> n -> schedulable scheduled ->
  keeps m c (_scheduleCollectionRefresh r scheduled c).1.
Proof.
  intros Hi He Hn Hm Hs. unfold _scheduleCollectionRefresh. unfold sbind at 1, sget. cbn [fst snd].
  unfold sbind at 1, smodify at 1. set (c1 := set_stats _ c).
  assert (Hi1 : cache_inv (Some (rf_dbEntry r, rf_nss r)) c1) by (by apply inv_stats).
  destruct (ci_busy _ _ Hi1 _ _ _ _ He Hn) as [_ Hl].
  destruct scheduled as [[]|e| |]; try done.
  - cbn [fst]. exact (keeps_add m r _ c1 Hi1).
  - simpl in Hs. rewrite bool_decide_eq_false_2 by done. unfold sbind at 1, slift at 1. cbn [negb invariant].
    by apply (onRefreshFailed_keeps (slift Undef) r e n m x c1).
Qed.

(** * Callbacks and lookups *)

Lemma serves_owner m n id r e c :
  find_entry (rf_dbEntry r) (rf_nss r) c = Some e -> refreshCompletionNotification e = Some n ->
  serves m id r c -> m = n.
Proof. intros He Hn (_ & e' & He' & Hm). congruence. Qed.

Lemma callback_ok id r e n seq seeds sw scheduled c :
  cache_inv None c -> requests c !! id = Some r ->
  find_entry (rf_dbEntry r) (rf_nss r) c = Some e -> refreshCompletionNotification e = Some n ->
  answered (refreshCollectionRoutingInfo getShard makeFromBSON seeds seq (rf_nss r) (rf_existing r) sw) ->
  schedulable scheduled ->
  exists c', refreshCallback getShard makeFromBSON id seq seeds sw scheduled c = (c', Ret ()) /\
    cache_inv None c' /\ (exists k, rank n c' k /\ 0 <= k < 4 - rf_attempt r) /\
    forall m, m <> n -> keeps m c c'.
Proof.
  intros Hi Hr He Hn Hans Hsch. unfold refreshCallback. unfold sbind at 1, sget at 1. rewrite Hr.
  unfold sbind at 1, smodify at 1. set (c1 := remove_request id c).
  assert (Hi1 : cache_inv (Some (rf_dbEntry r, rf_nss r)) c1) by (by apply inv_answer).
  assert (He1 : find_entry (rf_dbEntry r) (rf_nss r) c1 = Some e) by done.
  destruct (ci_request _ _ Hi id r Hr) as (_ & Ha & _). destruct (ci_busy _ _ Hi1 _ _ _ _ He1 Hn) as [_ Hl].
  assert (Hk : forall m, m <> n -> keeps m c c1).
  { intros m Hm. apply (keeps_remove m id r); [done|]. intros Hs. apply Hm. exact (serves_owner m n id r e c He Hn Hs). }
  destruct (refreshCollectionRoutingInfo _ _ _ _ _ _ _) as [[seq' new]|err| |]; try done.
  - unfold onRefreshCompleted, sbind, sget, smodify. cbn [fst snd]. set (c2 := set_stats _ c1).
    assert (He2 : find_entry (rf_dbEntry r) (rf_nss r) c2 = Some e) by done. rewrite He2, Hn.
    assert (Hi2 : cache_inv (Some (rf_dbEntry r, rf_nss r)) c2) by (by apply inv_stats).
    rewrite (notify_ok n _ c2 Hl). set (c3 := set_notifications _ c2).
    assert (Hob : is_Some (db_objects c3 !! rf_dbEntry r)) by exact (find_object _ _ _ _ He).
    assert (Hst : notifications c3 !! n = Some (Some (Ret ()))) by (apply list_lookup_insert_eq; by eapply lookup_lt_Some).
    assert (Hk3 : forall m, m <> n -> keeps m c c3).
    { intros m Hm. eapply keeps_trans; [by apply Hk|]. exact (keeps_notify m n (Ret ()) c2 Hl). }
    destruct new as [cm|]; (eexists; split; [reflexivity|]); (split_and!; [|exists 0; split; [left; split; [done|]|lia]|]).
    + by eapply finish_put.
    + exists (Ret ()). destruct (put_fields (rf_dbEntry r) (rf_nss r) (mkEntry false None (Some cm)) c3) as (_ & -> & _). done.
    + intros m Hm. eapply keeps_trans; [by apply Hk3|]. apply keeps_put; [done|]. intros e0 E ?. assert (Some e0 = Some e) by exact (eq_trans (eq_sym E) He). congruence.
    + by eapply finish_erase.
    + exists (Ret ()). destruct (erase_fields (rf_dbEntry r) (rf_nss r) c3) as (_ & -> & _). done.
    + intros m Hm. eapply keeps_trans; [by apply Hk3|]. apply keeps_erase; [done|]. intros e0 E ?. assert (Some e0 = Some e) by exact (eq_trans (eq_sym E) He). congruence.
  - simpl in Hans. rewrite Hans. set (r' := mkRefresh (rf_dbEntry r) (rf_nss r) None (rf_attempt r + 1)).
    pose proof (onRefreshFailed_keeps (_scheduleCollectionRefresh r' scheduled) r err n) as Hkeep.
    destruct (onRefreshFailed_ok (_scheduleCollectionRefresh r' scheduled) r err n e c1 Hi1 He1 Hn)
      as [(s & Hre & _ & Hlt)|(c' & Hre & Hi' & Hl')].
    + destruct (schedule_ok r' n e scheduled (set_stats s c1)) as (c' & Hsc & Hi' & Hrank);
        [by apply inv_stats|done|done|simpl; lia|done|].
      exists c'. rewrite Hre, Hsc. split_and!; try done.
      * destruct Hrank as [H|H]; eexists; (split; [exact H|simpl; lia]).
      * intros m Hm. eapply keeps_trans; [by apply Hk|].
        pose proof (schedule_keeps r' n m e scheduled (set_stats s c1) (inv_stats _ _ _ Hi1) He1 Hn Hm Hsch) as Hx.
        rewrite Hsc in Hx. exact Hx.
    + exists c'. split_and!; try done.
      * exists 0. split; [left; split; [done|by eexists]|lia].
      * intros m Hm. eapply keeps_trans; [by apply Hk|]. specialize (Hkeep m e c1 He1 Hn Hm Hl).
        rewrite Hre in Hkeep. apply Hkeep. intros s. by apply (schedule_keeps r' n m e scheduled (set_stats s c1) (inv_stats _ _ _ Hi1)).
Qed.

Lemma lookup_ok db nss scheduled c :
  cache_inv None c -> is_Some (db_objects c !! db) -> schedulable scheduled ->
  exists c' res, lookupRoutingInfo getShard db nss scheduled c = (c', Ret res) /\ cache_inv None c' /\
    (forall m k, rank m c k -> rank m c' k) /\
    match res with
    | Found (Ret info) => cri_cm info = None <-> find_entry db nss c = None
    | Found _ => find_entry db nss c = None
    | WaitFor n => exists k, rank n c' k /\ 0 <= k <= 3
    end.
Proof.
  intros Hi [d Hd] Hs. unfold lookupRoutingInfo. unfold sbind at 1, sget at 1. rewrite Hd.
  assert (Hf : find_entry db nss c = collections d !! nss) by (unfold find_entry; by rewrite Hd).
  destruct (collections d !! nss) as [e|] eqn:E.
  - destruct (needsRefresh e) eqn:Hnr.
    + destruct (refreshCompletionNotification e) as [n|] eqn:Hn.
      * do 2 eexists. split; [reflexivity|]. split_and!; try done.
        destruct (ci_served _ _ Hi _ _ _ _ Hf Hn) as [[=]|(id & r & Hr & <- & <-)].
        destruct (ci_request _ _ Hi id r Hr) as (_ & ? & _). exists (4 - rf_attempt r). split; [|lia].
        right. by exists id, r, e.
      * set (n := List.length (notifications c)). unfold sbind at 1, smodify at 1. unfold sbind at 1, smodify at 1.
        set (r := mkRefresh db nss (routingInfo e) 1).
        pose proof (inv_start db nss e c Hi Hf Hn) as Hi1. fold n in Hi1.
        set (c0 := set_notifications (notifications c ++ [None]) c) in *.
        assert (Hob : is_Some (db_objects c0 !! db)) by (by exists d).
        set (c1 := put_entry db nss (mkEntry true (Some n) None) c0) in *.
        assert (He1 : find_entry db nss c1 = Some (mkEntry true (Some n) None))
          by (unfold c1; rewrite find_put by done; by rewrite decide_True).
        destruct (schedule_ok r n (mkEntry true (Some n) None) scheduled c1) as (c' & Hsc & Hi' & Hrank);
          [done|done|done|simpl; lia|done|].
        pose proof (schedule_keeps r n) as Hk. unfold sbind. rewrite Hsc.
        do 2 eexists. split; [reflexivity|]. split_and!; [done| |destruct Hrank as [H|H]; eexists; (split; [exact H|simpl; lia])].
        intros m k Hrk. assert (Hm : m <> n).
        { intros ->. destruct Hrk as [(_ & st & Hst)|(id & r0 & e0 & _ & He0 & Hn0 & _)].
          - apply lookup_lt_Some in Hst. unfold n in Hst. lia.
          - destruct (ci_busy _ _ Hi _ _ _ _ He0 Hn0) as [_ Hst%lookup_lt_Some]. unfold n in Hst. lia. }
        specialize (Hk m (mkEntry true (Some n) None) scheduled c1 Hi1 He1 eq_refl Hm Hs). rewrite Hsc in Hk.
        apply (keeps_rank m c); [|done]. eapply keeps_trans; [exact (keeps_new m c)|].
        eapply keeps_trans; [|exact Hk]. apply keeps_put; [done|]. intros e0 He0.
        assert (Hx : Some e0 = Some e) by exact (eq_trans (eq_sym He0) Hf). congruence.
    + do 2 eexists. split; [reflexivity|]. split_and!; try done. rewrite Hf. simpl.
      destruct (ci_clean _ _ Hi _ _ _ Hf Hnr) as [[cm ->] _]. done.
  - do 2 eexists. split; [reflexivity|]. split_and!; try done. destruct (getShard _); rewrite Hf; done.
Qed.

Lemma foldl_new_entries (colls : list (string * bool)) (m : gmap string CollectionRoutingInfoEntry) :
  map_Forall (fun _ e => e = new_entry) m ->
  map_Forall (fun _ e => e = new_entry)
    (foldl (fun m coll => if coll.2 : bool then m else <[coll.1 := new_entry]> m) m colls).
Proof.
  revert m. induction colls as [|[n b] colls IH]; intros m Hm; [done|]. cbn [foldl fst snd]. apply IH.
  destruct b; [done|]. by apply map_Forall_insert_2.
Qed.

Lemma getDatabase_ok dbName dbDesc colls c :
  cache_inv None c -> answered dbDesc -> answered colls ->
  let '(c', r) := _getDatabase dbName dbDesc colls c in
  cache_inv None c' /\ answered r /\ (forall i, r = Ret i -> is_Some (db_objects c' !! i)) /\
  forall m, keeps m c c'.
Proof.
  intros Hi Hd Hc. unfold _getDatabase, sbind, sget, slift, smodify.
  destruct (_databases c !! dbName) as [i|] eqn:E.
  { split_and!; try done. intros i' [= <-]. by eapply (ci_db _ _ Hi). }
  destruct dbDesc as [[prim sh]|e| |]; try done. destruct colls as [l|e| |]; try done. cbn [fst snd sret].
  split_and!; [apply inv_database; [done|by apply foldl_new_entries]|done| |].
  - intros i [= <-]. apply lookup_lt_is_Some. cbn. rewrite length_app. simpl. lia.
  - intros m. apply keeps_ext; try done. intros db nss e He. pose proof (find_object _ _ _ _ He) as [d0 Hd0].
    revert He. unfold find_entry. cbn. rewrite lookup_app_l by (by eapply lookup_lt_Some). done.
Qed.

Lemma invalidate_ok nss c :
  cache_inv None c ->
  exists c', invalidateShardedCollection nss c = (c', Ret ()) /\ cache_inv None c' /\ forall m, keeps m c c'.
Proof.
  intros Hi. unfold invalidateShardedCollection, sbind, sget, smodify.
  destruct (_databases c !! nss_db nss) as [db|] eqn:E; [|by exists c].
  pose proof (ci_db _ _ Hi _ _ E) as Hob. eexists. split; [reflexivity|].
  split; [by apply inv_invalidate|]. intros m. apply keeps_put; [done|]. intros e He. by rewrite He.
Qed.

Lemma stale_ok ccri c :
  cache_inv None c ->
  exists c', onStaleConfigError ccri c = (c', Ret ()) /\ cache_inv None c' /\ forall m, keeps m c c'.
Proof.
  intros Hi. unfold onStaleConfigError. unfold sbind at 1, sget. cbn [fst snd]. unfold sbind at 1, smodify at 1.
  set (c1 := set_stats _ c). assert (Hi1 : cache_inv None c1) by (by apply inv_stats).
  destruct (cri_cm ccri) as [cm|]; [|apply (invalidate_ok (cri_nss ccri) c1 Hi1)].
  destruct (_databases c !! _) as [db|] eqn:E; [|by exists c1].
  destruct (find_entry db (cm_nss cm) c) as [e|] eqn:He; [|by exists c1].
  destruct (needsRefresh e) eqn:Hn; [by exists c1|].
  destruct (ci_clean _ _ Hi _ _ _ He Hn) as [[info Hinfo] _]. rewrite Hinfo.
  destruct (version_equals _ _); [|by exists c1]. eexists. split; [reflexivity|].
  pose proof (inv_invalidate db (cm_nss cm) c1 Hi1 (find_object _ _ _ _ He)) as Hx.
  assert (He1 : find_entry db (cm_nss cm) c1 = Some e) by done. rewrite He1 in Hx. simpl in Hx.
  split; [|intros m; apply (keeps_put m db (cm_nss cm) _ c1); [exact (find_object _ _ _ _ He)|]].
  - rewrite Hinfo in Hx. exact Hx.
  - intros e0 E0. assert (Some e0 = Some e) as [= ->] by exact (eq_trans (eq_sym E0) He). done.
Qed.

Lemma purge_ok nss c :
  cache_inv None c ->
  (forall db e, _databases c !! nss_db nss = Some db -> find_entry db nss c = Some e ->
     refreshCompletionNotification e = None) ->
  exists c', purgeCollection nss c = (c', Ret ()) /\ cache_inv None c' /\ forall m, keeps m c c'.
Proof.
  intros Hi Hno. unfold purgeCollection, sbind, sget, smodify.
  destruct (_databases c !! nss_db nss) as [db|] eqn:E; [|by exists c].
  pose proof (ci_db _ _ Hi _ _ E) as Hob. eexists. split; [reflexivity|].
  destruct (erase_fields db nss c) as (F1 & F2 & F3 & F4 & F5).
  split; [|intros m; apply keeps_erase; [done|]; intros e He; by rewrite (Hno db e eq_refl He)].
  assert (Hf : forall db' nss' e, find_entry db' nss' (erase_entry db nss c) = Some e ->
    (db', nss') <> (db, nss) /\ find_entry db' nss' c = Some e)
    by (intros db' nss' e; rewrite find_erase by done; by destruct (decide _)).
  split; rewrite ?F3, ?F4.
  - intros name i. rewrite F1, F5. apply (ci_db _ _ Hi).
  - intros db' nss' e [_ He]%Hf. by apply (ci_clean _ _ Hi db' nss').
  - intros db' nss' e n [_ He]%Hf. rewrite F2. by apply (ci_busy _ _ Hi db' nss').
  - intros db' nss' e n [_ He]%Hf. by apply (ci_served _ _ Hi db' nss' e n).
  - done.
  - intros id r Hr. destruct (ci_request _ _ Hi id r Hr) as (? & ? & e & m & He & Hm). split_and!; [done|lia|lia|].
    exists e, m. rewrite find_erase by done. rewrite decide_False; [done|]. intros [= E1 E2].
    rewrite E1, E2 in He. by rewrite (Hno db e eq_refl He) in Hm.
  - apply (ci_single _ _ Hi).
  - intros db1 nss1 e1 db2 nss2 e2 n [_ H1]%Hf [_ H2]%Hf. by apply (ci_owner _ _ Hi).
  - apply (ci_fresh _ _ Hi).
Qed.

(** * Interleavings *)

(** The atomic operations of the threads that use the cache and of the loader. *)
Inductive CacheOp :=
  | GetDatabase (dbName : string) (dbDesc : Outcome (ShardId * bool)) (colls : Outcome (list (string * bool)))
  | LookupRoutingInfo (db : nat) (nss : string) (scheduled : Outcome unit)
  | RefreshCallback (id : nat) (seq : Z) (seeds : nat -> Z) (sw : Outcome CollectionAndChangedChunks)
      (scheduled : Outcome unit)
  | StaleConfigError (ccri : CachedCollectionRoutingInfo)
  | Invalidate (nss : string)
  | PurgeCollection (nss : string)
  | PurgeDatabase (dbName : string)
  | PurgeAllDatabases.

Definition run_op (op : CacheOp) : SM CatalogCache unit :=
  (match op with
   | GetDatabase dbName dbDesc colls => let! _ := _getDatabase dbName dbDesc colls in sret ()
   | LookupRoutingInfo db nss scheduled => let! _ := lookupRoutingInfo getShard db nss scheduled in sret ()
   | RefreshCallback id seq seeds sw scheduled => refreshCallback getShard makeFromBSON id seq seeds sw scheduled
   | StaleConfigError ccri => onStaleConfigError ccri
   | Invalidate nss => invalidateShardedCollection nss
   | PurgeCollection nss => purgeCollection nss
   | PurgeDatabase dbName => purgeDatabase dbName
   | PurgeAllDatabases => purgeAllDatabases
   end)%state.

(** When an operation can happen: lookups and callbacks refer to what exists,
    the services answer with a value or a database error, and a collection is
    not purged while it is being refreshed. *)
Definition op_ok (c : CatalogCache) (op : CacheOp) : Prop :=
  match op with
  | GetDatabase _ dbDesc colls => answered dbDesc /\ answered colls
  | LookupRoutingInfo db _ scheduled => is_Some (db_objects c !! db) /\ schedulable scheduled
  | RefreshCallback id seq seeds sw scheduled =>
      exists r, requests c !! id = Some r /\
        answered (refreshCollectionRoutingInfo getShard makeFromBSON seeds seq (rf_nss r) (rf_existing r) sw) /\
        schedulable scheduled
  | PurgeCollection nss =>
      forall db e, _databases c !! nss_db nss = Some db -> find_entry db nss c = Some e ->
        refreshCompletionNotification e = None
  | _ => True
  end.

Definition cache_step (c c' : CatalogCache) : Prop := exists op, op_ok c op /\ (run_op op c).1 = c'.

Definition is_callback_for (n : nat) (c : CatalogCache) (op : CacheOp) : Prop :=
  match op with RefreshCallback id _ _ _ _ => exists r, serves n id r c | _ => False end.

Lemma inv_databases m c :
  cache_inv None c -> (forall name i, m !! name = Some i -> is_Some (db_objects c !! i)) ->
  cache_inv None (set_databases m c).
Proof. intros Hi Hm. by eapply inv_ext. Qed.

(** One operation: it returns, keeps the invariant, and brings every waiter
    closer to its notification or leaves it where it is. *)
Lemma op_safe op c :
  cache_inv None c -> op_ok c op ->
  let '(c', r) := run_op op c in
  cache_inv None c' /\ answered r /\
  forall n k, rank n c k -> exists k', rank n c' k' /\ 0 <= k' <= k /\ (is_callback_for n c op -> k' < k).
Proof.
  assert (Hrk : forall n k, cache_inv None c -> rank n c k -> 0 <= k).
  { intros n k Hi [[-> _]|(id & r & e & Hr & _ & _ & ->)]; [done|].
    destruct (ci_request _ _ Hi id r Hr) as (_ & ? & _). lia. }
  intros Hi Hok. assert (Hstay : forall c' n k, rank n c k -> (rank n c k -> rank n c' k) ->
    exists k', rank n c' k' /\ 0 <= k' <= k).
  { intros c' n k H H'. exists k. split; [auto|]. specialize (Hrk n k Hi H). lia. }
  assert (Hkeep : forall c' n k, keeps n c c' -> rank n c k -> exists k', rank n c' k' /\ 0 <= k' <= k /\ (False -> k' < k)).
  { intros c' n k Hk H. destruct (Hstay c' n k H) as (k' & ? & ?); [by apply keeps_rank|]. by exists k'. }
  destruct op as [dbName dbDesc colls|db nss sch|id seq seeds sw sch|ccri|nss|nss|dbName|];
    cbn [run_op op_ok is_callback_for] in *.
  - destruct Hok as [H1 H2]. pose proof (getDatabase_ok dbName dbDesc colls c Hi H1 H2) as H.
    unfold sbind. destruct (_getDatabase dbName dbDesc colls c) as [c' r]. destruct H as (Hi' & Hr & _ & Hk).
    destruct r; (split_and!; [done|done|]); intros n k; by apply Hkeep.
  - destruct Hok as [H1 H2]. destruct (lookup_ok db nss sch c Hi H1 H2) as (c' & res & Hl & Hi' & Hr & _).
    unfold sbind. rewrite Hl. split_and!; [done|done|]. intros n k H.
    destruct (Hstay c' n k H (Hr n k)) as (k' & ? & ?). by exists k'.
  - destruct Hok as (r & Hr & Ha & Hs). destruct (ci_request _ _ Hi id r Hr) as (_ & _ & e & m & He & Hm).
    destruct (callback_ok id r e m seq seeds sw sch c Hi Hr He Hm Ha Hs) as (c' & -> & Hi' & (k0 & Hk0 & Hle) & Hk).
    split_and!; [done|done|]. intros n k H. destruct (decide (n = m)) as [->|Hne].
    + exists k0. split; [done|]. assert (Hkr : k = 0 \/ k = 4 - rf_attempt r).
      { destruct H as [[-> _]|(id' & r' & e' & Hr' & He' & Hn' & ->)]; [by left|right].
        assert (E := ci_owner _ _ Hi _ _ _ _ _ _ _ He He' Hm Hn'). injection E as E1 E2.
        rewrite (ci_single _ _ Hi id id' r r' Hr Hr' E1 E2) in Hr. congruence. }
      destruct Hkr as [-> | ->]; [|split; [lia|intros _; lia]]. exfalso.
      destruct H as [(_ & st & Hst)|(id' & r' & e' & Hr' & _ & _ & E)].
      * destruct (ci_busy _ _ Hi _ _ _ _ He Hm) as [_ Hx]. congruence.
      * destruct (ci_request _ _ Hi id' r' Hr') as (_ & ? & _). lia.
    + destruct (Hkeep c' n k (Hk n Hne) H) as (k' & ? & ? & _). exists k'. split_and!; [done|lia|lia|].
      intros (r' & Hs'). destruct Hne. destruct Hs' as (Hr' & e' & He' & Hn'). congruence.
  - destruct (stale_ok ccri c Hi) as (c' & -> & Hi' & Hk). split_and!; [done|done|]. intros n k. by apply Hkeep.
  - destruct (invalidate_ok nss c Hi) as (c' & -> & Hi' & Hk). split_and!; [done|done|]. intros n k. by apply Hkeep.
  - destruct (purge_ok nss c Hi Hok) as (c' & -> & Hi' & Hk). split_and!; [done|done|]. intros n k. by apply Hkeep.
  - split_and!; [|done|intros n k; apply Hkeep; by apply keeps_ext]. apply inv_databases; [done|].
    intros name i [_ H]%lookup_delete_Some. by eapply (ci_db _ _ Hi).
  - split_and!; [|done|intros n k; apply Hkeep; by apply keeps_ext]. apply inv_databases; [done|].
    intros name i. by rewrite lookup_empty.
Qed.

Lemma empty_inv : cache_inv None emptyCache.
Proof.
  assert (Hf : forall db nss, find_entry db nss emptyCache = None) by done.
  split; try done; intros *; rewrite ?Hf; done.
Qed.

Lemma steps_inv c c' : cache_inv None c -> rtc cache_step c c' -> cache_inv None c'.
Proof.
  intros Hi H. revert Hi. induction H as [|c c1 c2 (op & Hok & <-) _ IH]; intros Hi; [done|]. apply IH.
  pose proof (op_safe op c Hi Hok) as Hs. destruct (run_op op c) as [c3 r]. apply Hs.
Qed.

(** Operations of any threads, [k] of them answers of the loader to the request that
    notification [n] waits for. *)
Inductive answers (n : nat) : CatalogCache -> nat -> CatalogCache -> Prop :=
  | answers_none c : answers n c 0 c
  | answers_other c op k c' :
      op_ok c op -> ~ is_callback_for n c op -> answers n (run_op op c).1 k c' -> answers n c k c'
  | answers_one c op k c' :
      op_ok c op -> is_callback_for n c op -> answers n (run_op op c).1 k c' -> answers n c (S k) c'.

Lemma answers_rank n c k c' k0 : answers n c k c' -> cache_inv None c -> rank n c k0 -> 0 <= k0 ->
  cache_inv None c' /\ exists k', rank n c' k' /\ 0 <= k' /\ k' + Z.of_nat k <= k0.
Proof.
  intros H. revert k0. induction H as [c|c op k c' Hok _ _ IH|c op k c' Hok Hcb _ IH]; intros k0 Hi Hr H0; [split; [done|]; exists k0; split_and!; [done|lia|lia]|..].
  all: pose proof (op_safe op c Hi Hok) as Hs; destruct (run_op op c) as [c1 r]; destruct Hs as (Hi1 & _ & Hs);
    destruct (Hs n k0 Hr) as (k1 & Hr1 & Hle & Hlt); destruct (IH k1 Hi1 Hr1) as (Hi' & k' & ? & ? & ?); [lia|];
    (split; [done|]); exists k'; (split_and!; [done|lia|]); try specialize (Hlt Hcb); lia.
Qed.

(** [getCollectionRoutingInfo]: the calls under the mutex and the wait, which
    ends with the notification or an interruption, with the operations of other
    threads in between. *)
Inductive getCollectionRoutingInfo (nss : string) (c : CatalogCache)
    : CatalogCache -> Outcome CachedCollectionRoutingInfo -> Prop :=
  | get_no_database dbDesc colls c1 e :
      answered dbDesc -> answered colls -> _getDatabase (nss_db nss) dbDesc colls c = (c1, Throw e) ->
      getCollectionRoutingInfo nss c c1 (Throw e)
  | get_found dbDesc colls c1 db c2 scheduled c3 info :
      answered dbDesc -> answered colls -> _getDatabase (nss_db nss) dbDesc colls c = (c1, Ret db) ->
      rtc cache_step c1 c2 -> schedulable scheduled ->
      lookupRoutingInfo getShard db nss scheduled c2 = (c3, Ret (Found info)) ->
      getCollectionRoutingInfo nss c c3 info
  | get_stopped dbDesc colls c1 db c2 scheduled c3 n c4 e :
      answered dbDesc -> answered colls -> _getDatabase (nss_db nss) dbDesc colls c = (c1, Ret db) ->
      rtc cache_step c1 c2 -> schedulable scheduled ->
      lookupRoutingInfo getShard db nss scheduled c2 = (c3, Ret (WaitFor n)) -> rtc cache_step c3 c4 ->
      notifications c4 !! n = Some (Some (Throw e)) \/ notifications c4 !! n = Some None ->
      getCollectionRoutingInfo nss c c4 (Throw e)
  | get_again dbDesc colls c1 db c2 scheduled c3 n c4 c5 info :
      answered dbDesc -> answered colls -> _getDatabase (nss_db nss) dbDesc colls c = (c1, Ret db) ->
      rtc cache_step c1 c2 -> schedulable scheduled ->
      lookupRoutingInfo getShard db nss scheduled c2 = (c3, Ret (WaitFor n)) -> rtc cache_step c3 c4 ->
      notifications c4 !! n = Some (Some (Ret ())) -> getCollectionRoutingInfo nss c4 c5 info ->
      getCollectionRoutingInfo nss c c5 info.

(** [getCollectionRoutingInfoWithRefresh] and
    [getShardedCollectionRoutingInfoWithRefresh]. *)
Definition getCollectionRoutingInfoWithRefresh (nss : string) (c c' : CatalogCache)
    (info : Outcome CachedCollectionRoutingInfo) : Prop :=
  exists c1 c2, invalidateShardedCollection nss c = (c1, Ret ()) /\ rtc cache_step c1 c2 /\
    getCollectionRoutingInfo nss c2 c' info.

Definition getShardedCollectionRoutingInfoWithRefresh (nss : string) (c c' : CatalogCache)
    (info : Outcome CachedCollectionRoutingInfo) : Prop :=
  exists routingInfoStatus, getCollectionRoutingInfoWithRefresh nss c c' routingInfoStatus /\
    info = match routingInfoStatus with
           | Ret i => if isSome (cri_cm i) then Ret i else Throw NamespaceNotSharded
           | _ => routingInfoStatus
           end.
End safety.

(** * Properties of the cache *)

(** C8: however lookups, invalidations, stale errors, purges of databases and
    the loader's answers interleave, no operation of the cache aborts or
    dereferences a null pointer; an entry that needs no refresh has a routing
    table, and at most one refresh of a collection is in flight.  A collection
    must not be purged while it is being refreshed. *)
Theorem cache_safe getShard makeFromBSON c op :
  rtc (cache_step getShard makeFromBSON) emptyCache c -> op_ok getShard makeFromBSON c op ->
  answered (run_op getShard makeFromBSON op c).2 /\
  (forall db nss e, find_entry db nss c = Some e -> needsRefresh e = false -> is_Some (routingInfo e)) /\
  (forall id1 id2 r1 r2, requests c !! id1 = Some r1 -> requests c !! id2 = Some r2 ->
     rf_dbEntry r1 = rf_dbEntry r2 -> rf_nss r1 = rf_nss r2 -> id1 = id2).
Proof.
  intros Hs Hok. pose proof (steps_inv _ _ _ _ empty_inv Hs) as Hi. split_and!.
  - pose proof (op_safe _ _ op c Hi Hok) as H. destruct (run_op _ _ op c) as [c' r]. apply H.
  - intros db nss e He Hn. by destruct (ci_clean _ _ Hi db nss e He Hn).
  - apply (ci_single _ _ Hi).
Qed.

(** C29: A thread that waits for a refresh is woken after at most three answers.  In
    every reachable cache, when a lookup makes a thread wait for a notification, then
    after any operations of other threads within [op_ok] (what the cache asks of
    others is answered with a result or an error, and no collection is purged while
    its refresh is in flight) the notification is set, or the request that will set
    it is in flight and the loader has answered the requests for it less than three
    times. *)
Theorem waiters_progress getShard makeFromBSON c db nss scheduled c1 n k c' :
  rtc (cache_step getShard makeFromBSON) emptyCache c -> is_Some (db_objects c !! db) -> schedulable scheduled ->
  lookupRoutingInfo getShard db nss scheduled c = (c1, Ret (WaitFor n)) -> answers getShard makeFromBSON n c1 k c' ->
  (exists st, notifications c' !! n = Some (Some st)) \/ (k < 3)%nat /\ exists id r, serves n id r c'.
Proof.
  intros Hs Hdb Hsch El Ha. pose proof (steps_inv _ _ _ _ empty_inv Hs) as Hi.
  destruct (lookup_ok getShard db nss scheduled c Hi Hdb Hsch) as (c2 & res & E & Hi1 & _ & Hw). rewrite El in E. injection E as <- <-.
  destruct Hw as (k0 & Hr & Hk). destruct (answers_rank _ _ n c1 k c' k0 Ha Hi1 Hr ltac:(lia)) as (Hi' & k' & Hr' & H0 & Hle).
  destruct Hr' as [[_ Hset]|(id & r & e & Hid & He & Hn & ->)]; [by left|right].
  destruct (ci_request _ _ Hi' id r Hid) as (_ & ? & _). split; [lia|]. exists id, r. split; [done|by exists e].
Qed.

(** [getCollectionRoutingInfo] returns only routing tables that are in the
    cache and not marked as stale at that moment, and reports a collection as
    unsharded only if its database entry does not know it. *)
Lemma getCollectionRoutingInfo_current getShard makeFromBSON nss c c' info :
  cache_inv None c -> getCollectionRoutingInfo getShard makeFromBSON nss c c' (Ret info) ->
  cache_inv None c' /\
  exists db, match cri_cm info with
             | Some cm => find_entry db nss c' = Some (mkEntry false None (Some cm))
             | None => find_entry db nss c' = None
             end.
Proof.
  intros Hi H. remember (Ret info) as res eqn:Hres. revert Hi Hres.
  induction H as [| ? ? ? c1 db c2 ? c3 ? H1 H2 Hd Hs Hsch Hl
                  | | ? ? ? c1 db c2 ? c3 n c4 c5 ? H1 H2 Hd Hs Hsch Hl Hs' _ _ IH]; intros Hi Hres; try done;
    pose proof (getDatabase_ok (nss_db nss) _ _ _ Hi H1 H2) as Hdb; rewrite Hd in Hdb; destruct Hdb as (Hi1 & _ & Hob & _);
    pose proof (steps_inv _ _ _ _ Hi1 Hs) as Hi2.
  - subst. unfold lookupRoutingInfo, sbind, sget, smodify, sret in Hl.
    destruct (db_objects c2 !! db) as [d|] eqn:Ed; [|done].
    assert (Hf : find_entry db nss c2 = collections d !! nss) by (unfold find_entry; by rewrite Ed).
    destruct (collections d !! nss) as [e|] eqn:Ee.
    + destruct (needsRefresh e) eqn:Hn.
      * destruct (refreshCompletionNotification e); [done|].
        destruct (_scheduleCollectionRefresh _ _ _) as [? [?|?| |]]; done.
      * injection Hl as <- <-. split; [done|]. exists db. simpl.
        destruct (ci_clean _ _ Hi2 _ _ _ Hf Hn) as [[cm Hcm] Hno]. rewrite Hcm, Hf.
        destruct e; simpl in *. by subst.
    + assert (Hc : c2 = c3 /\ cri_cm info = None).
      { by destruct (getShard _); simplify_eq. }
      destruct Hc as [<- ->]. split; [done|]. by exists db.
  - apply IH; [|done]. eapply steps_inv; [|exact Hs'].
    destruct (lookupRoutingInfo getShard db nss _ c2) as [cx rx] eqn:E. injection Hl as -> ->.
    assert (Hst : cache_step getShard makeFromBSON c2 c3).
    { eexists (LookupRoutingInfo db nss _). split.
      - split; [|exact Hsch]. unfold lookupRoutingInfo, sbind, sget in E. by destruct (db_objects c2 !! db); [eexists|].
      - cbn [run_op]. unfold sbind. by rewrite E. }
    by eapply steps_inv; [exact Hi2|apply rtc_once].
Qed.

(** C31: a collection that is purged while it is being refreshed takes the
    process down: the answer of the loader finds no entry and aborts, whether
    it is a routing table or an error. *)
Theorem purge_during_refresh_aborts getShard makeFromBSON id r seq seeds sw scheduled c :
  cache_inv None c -> requests c !! id = Some r -> _databases c !! nss_db (rf_nss r) = Some (rf_dbEntry r) ->
  answered (refreshCollectionRoutingInfo getShard makeFromBSON seeds seq (rf_nss r) (rf_existing r) sw) ->
  let '(c1, purged) := purgeCollection (rf_nss r) c in
  purged = Ret () /\ (refreshCallback getShard makeFromBSON id seq seeds sw scheduled c1).2 = Abort.
Proof.
  intros Hi Hr Hdb Ha. unfold purgeCollection, sbind, sget, smodify. rewrite Hdb. split; [done|].
  set (c1 := erase_entry _ _ c). pose proof (ci_db _ _ Hi _ _ Hdb) as Hob.
  destruct (erase_fields (rf_dbEntry r) (rf_nss r) c) as (_ & _ & F3 & _).
  assert (Hnone : find_entry (rf_dbEntry r) (rf_nss r) c1 = None)
    by (unfold c1; rewrite find_erase by done; by rewrite decide_True).
  unfold refreshCallback, onRefreshFailed, onRefreshCompleted, sbind, sget, smodify, slift.
  change (requests c1) with (requests (erase_entry (rf_dbEntry r) (rf_nss r) c)). rewrite F3, Hr.
  destruct (refreshCollectionRoutingInfo _ _ _ _ _ _ _) as [[s new]|e| |]; try done; cbn [fst snd].
  - change (find_entry (rf_dbEntry r) (rf_nss r) (set_stats _ _)) with (find_entry (rf_dbEntry r) (rf_nss r) c1).
    by rewrite Hnone.
  - simpl in Ha. rewrite Ha.
    change (find_entry (rf_dbEntry r) (rf_nss r) (set_stats _ _)) with (find_entry (rf_dbEntry r) (rf_nss r) c1).
    by rewrite Hnone.
Qed.

(** An invalidation during a refresh is lost: when the answer of the
    loader, computed before or after, arrives, the table is served as current
    without another refresh. *)
Lemma invalidation_during_refresh_lost getShard makeFromBSON id r seq seeds sw seq' cm sch sch' c :
  cache_inv None c -> requests c !! id = Some r -> _databases c !! nss_db (rf_nss r) = Some (rf_dbEntry r) ->
  refreshCollectionRoutingInfo getShard makeFromBSON seeds seq (rf_nss r) (rf_existing r) sw = Ret (seq', Some cm) ->
  let c1 := (invalidateShardedCollection (rf_nss r) c).1 in
  let c2 := (refreshCallback getShard makeFromBSON id seq seeds sw sch c1).1 in
  exists primary, lookupRoutingInfo getShard (rf_dbEntry r) (rf_nss r) sch' c2 =
    (c2, Ret (Found (Ret (mkInfo primary (Some cm) "" false)))).
Proof.
  intros Hi Hr Hdb Hsw c1. destruct (invalidate_ok (rf_nss r) c Hi) as (c1' & E & Hi1 & Hk).
  assert (c1 = c1') as Hc1 by (unfold c1; by rewrite E). clearbody c1. subst c1'. clear E.
  destruct (ci_request _ _ Hi id r Hr) as (_ & _ & e & n & He & Hn).
  destruct (proj2 (Hk n) id r) as (Hr1 & e1 & He1 & Hn1); [split; eauto|].
  unfold refreshCallback, onRefreshCompleted, sbind, sget, smodify. rewrite Hr1, Hsw. cbn [fst snd].
  change (find_entry (rf_dbEntry r) (rf_nss r) (set_stats _ _)) with (find_entry (rf_dbEntry r) (rf_nss r) c1).
  rewrite He1, Hn1. destruct (ci_busy _ _ Hi1 _ _ _ _ He1 Hn1) as [_ Hl].
  rewrite notify_ok by exact Hl. cbn [fst]. set (c3 := set_notifications _ _). set (c2 := put_entry _ _ _ c3).
  pose proof (find_object _ _ _ _ He1) as [d Hd].
  assert (Hob : is_Some (db_objects c3 !! rf_dbEntry r)) by (by exists d).
  assert (Hf : find_entry (rf_dbEntry r) (rf_nss r) c2 = Some (mkEntry false None (Some cm)))
    by (unfold c2; rewrite find_put by done; by rewrite decide_True).
  unfold lookupRoutingInfo, sbind, sget. unfold find_entry in Hf.
  destruct (db_objects c2 !! rf_dbEntry r) as [d2|]; [|done]. cbn in Hf. rewrite Hf. simpl. by eexists.
Qed.

(** * Example: one collection *)

Definition ex_ops : list CacheOp :=
  [GetDatabase "t" (Ret ("s0", true)) (Ret [("t.c", false); ("t.old", true)]); LookupRoutingInfo 0 "t.c" (Ret ())].
Definition ex_run (ops : list CacheOp) : CatalogCache :=
  foldl (fun c op => (run_op ex_known ex_collator op c).1) emptyCache ops.
Definition ex_busy : CatalogCache := ex_run ex_ops.
Definition ex_answer : Outcome CollectionAndChangedChunks :=
  getChangedChunks "t.c" (Ret ex_coll) (cfg_chunks ex_two) UNSHARDED.
Definition ex_seeds (i : nat) : Z := 0.

Lemma ex_busy_steps : rtc (cache_step ex_known ex_collator) emptyCache ex_busy.
Proof.
  eapply rtc_l; [eexists (GetDatabase "t" (Ret ("s0", true)) (Ret [("t.c", false); ("t.old", true)])); split; [done|reflexivity]|].
  apply rtc_once. eexists (LookupRoutingInfo 0 "t.c" (Ret ())). split; [split; [by eexists|done]|]. reflexivity.
Qed.

Lemma ex_busy_inv : cache_inv None ex_busy.
Proof. exact (steps_inv _ _ _ _ empty_inv ex_busy_steps). Qed.

Lemma ex_busy_request : requests ex_busy !! 0%nat = Some (mkRefresh 0 "t.c" None 1).
Proof. by vm_compute. Qed.

Lemma ex_answered : answered (refreshCollectionRoutingInfo ex_known ex_collator ex_seeds 0 "t.c" None ex_answer).
Proof. assert (H : is_Ret (refreshCollectionRoutingInfo ex_known ex_collator ex_seeds 0 "t.c" None ex_answer) = true) by (by vm_compute).
  by destruct (refreshCollectionRoutingInfo _ _ _ _ _ _ _). Qed.

Lemma ex_callback_ok : op_ok ex_known ex_collator ex_busy (RefreshCallback 0 0 ex_seeds ex_answer (Ret ())).
Proof. eexists. split; [exact ex_busy_request|]. split; [exact ex_answered|done]. Qed.

Lemma cache_safe_witness :
  answered (run_op ex_known ex_collator (RefreshCallback 0 0 ex_seeds ex_answer (Ret ())) ex_busy).2.
Proof. exact (proj1 (cache_safe ex_known ex_collator ex_busy _ ex_busy_steps ex_callback_ok)). Defined.

Definition ex_loaded : CatalogCache := ex_run (take 1 ex_ops).
Definition ex_woken : CatalogCache := (run_op ex_known ex_collator (RefreshCallback 0 0 ex_seeds ex_answer (Ret ())) ex_busy).1.

Lemma ex_loaded_steps : rtc (cache_step ex_known ex_collator) emptyCache ex_loaded.
Proof. apply rtc_once. by exists (GetDatabase "t" (Ret ("s0", true)) (Ret [("t.c", false); ("t.old", true)])). Qed.

Lemma waiters_progress_witness :
  lookupRoutingInfo ex_known 0 "t.c" (Ret ()) ex_loaded = (ex_busy, Ret (WaitFor 0)) /\
  ((exists st, notifications ex_woken !! 0%nat = Some (Some st)) \/ (1 < 3)%nat /\ exists id r, serves 0 id r ex_woken).
Proof.
  assert (El : lookupRoutingInfo ex_known 0 "t.c" (Ret ()) ex_loaded = (ex_busy, Ret (WaitFor 0))) by (vm_compute; reflexivity).
  split; [exact El|]. apply (waiters_progress ex_known ex_collator ex_loaded 0 "t.c" (Ret ()) ex_busy 0 1 ex_woken ex_loaded_steps).
  - by eexists.
  - exact I.
  - exact El.
  - eapply answers_one; [exact ex_callback_ok| |apply answers_none]. exists (mkRefresh 0 "t.c" None 1). split; [exact ex_busy_request|].
    eexists. split; by vm_compute.
Defined.

Lemma purge_during_refresh_aborts_witness :
  (refreshCallback ex_known ex_collator 0 0 ex_seeds ex_answer (Ret ()) (purgeCollection "t.c" ex_busy).1).2 = Abort.
Proof.
  exact (proj2 (purge_during_refresh_aborts ex_known ex_collator 0 (mkRefresh 0 "t.c" None 1) 0 ex_seeds ex_answer
    (Ret ()) ex_busy ex_busy_inv ex_busy_request eq_refl ex_answered)).
Defined.

Lemma invalidation_during_refresh_lost_witness :
  exists cm primary,
    let c1 := (invalidateShardedCollection "t.c" ex_busy).1 in
    let c2 := (refreshCallback ex_known ex_collator 0 0 ex_seeds ex_answer (Ret ()) c1).1 in
    lookupRoutingInfo ex_known 0 "t.c" (Ret ()) c2 = (c2, Ret (Found (Ret (mkInfo primary (Some cm) "" false)))).
Proof.
  assert (H : exists s cm, refreshCollectionRoutingInfo ex_known ex_collator ex_seeds 0 "t.c" None ex_answer = Ret (s, Some cm)).
  { do 2 eexists. vm_compute. reflexivity. }
  destruct H as (s & cm & H). exists cm.
  exact (invalidation_during_refresh_lost ex_known ex_collator 0 (mkRefresh 0 "t.c" None 1) 0 ex_seeds ex_answer s cm
    (Ret ()) (Ret ()) ex_busy ex_busy_inv ex_busy_request eq_refl H).
Defined.

Lemma getCollectionRoutingInfo_current_witness :
  exists c' info, getCollectionRoutingInfo ex_known ex_collator "t.old" ex_busy c' (Ret info) /\
    exists db, find_entry db "t.old" c' = None.
Proof.
  assert (Hg : getCollectionRoutingInfo ex_known ex_collator "t.old" ex_busy ex_busy
    (Ret (mkInfo "s0" None "t.old" true))).
  { apply (get_found ex_known ex_collator "t.old" ex_busy (Ret ("s0", true)) (Ret []) ex_busy 0 ex_busy (Ret ()));
      [done|done|by vm_compute|apply rtc_refl|done|by vm_compute]. }
  exists ex_busy, (mkInfo "s0" None "t.old" true). split; [exact Hg|].
  exact (proj2 (getCollectionRoutingInfo_current ex_known ex_collator "t.old" ex_busy ex_busy _ ex_busy_inv Hg)).
Defined.
