(* ===== verification/RouterSystem.v ===== *)
(** The router and the config server together: commits on the config server,
    reads by the loader and operations of the router's cache interleave freely,
    and every routing table the router ever serves is a consistent state of the
    chunk catalog, never a mixture of two. *)

From stdpp Require Import base list strings gmap relations.
From Stdlib Require Import ZArith Lia String.
From S2P Require Import Prelude Tiling Bson ChunkVersion ChunkType ShardKey.
From S2P Require Import Chunk ChunkManager ConfigChunks ConfigCatalog ConfigRefresh CatalogCache.
Local Open Scope string_scope.
Local Open Scope Z_scope.
Local Open Scope list_scope.

(** * Where routing tables come from *)

Definition table_at (c : CatalogCache) (nss : string) (cm : ChunkManager) : Prop :=
  exists db e, find_entry db nss c = Some e /\ routingInfo e = Some cm.

(** The tables of the entries of [c'] are those of [c] or new ones, and a
    request made in between took its table from an entry of [c]. *)
Record origin (N : string -> ChunkManager -> Prop) (c c' : CatalogCache) : Prop := {
  og_table nss cm : table_at c' nss cm -> table_at c nss cm \/ N nss cm;
  og_request id r : requests c' !! id = Some r ->
    requests c !! id = Some r \/
    (nextRequest c <= id)%nat /\ forall cm, rf_existing r = Some cm -> table_at c (rf_nss r) cm;
  og_next : (nextRequest c <= nextRequest c')%nat
}.

Definition nothing (nss : string) (cm : ChunkManager) : Prop := False.

Lemma origin_ext N c0 c c' :
  origin N c0 c -> (forall nss cm, table_at c' nss cm -> table_at c nss cm) ->
  (forall id r, requests c' !! id = Some r -> requests c !! id = Some r) -> nextRequest c' = nextRequest c ->
  origin N c0 c'.
Proof. intros [H1 H2 H3] Ht Hr Hn. split; [eauto|eauto|by rewrite Hn]. Qed.

Lemma origin_refl N c : origin N c c.
Proof. split; auto. Qed.

Lemma origin_view N c0 c c' :
  origin N c0 c -> db_objects c' = db_objects c -> requests c' = requests c -> nextRequest c' = nextRequest c ->
  origin N c0 c'.
Proof.
  intros H Hd Hr Hn. eapply origin_ext; [exact H| |by rewrite Hr|done].
  intros nss cm (db & e & Hf & He). exists db, e. split; [|done]. revert Hf. unfold find_entry. by rewrite Hd.
Qed.

Lemma table_put db nss e c nss' cm :
  (routingInfo e = None \/ exists e0, find_entry db nss c = Some e0 /\ routingInfo e = routingInfo e0) ->
  table_at (put_entry db nss e c) nss' cm -> table_at c nss' cm.
Proof.
  intros He (db' & e' & Hf & Hr). destruct (db_objects c !! db) as [d|] eqn:Ed.
  - rewrite find_put in Hf by (by exists d). destruct (decide _) as [[= -> ->]|]; [|by exists db', e'].
    injection Hf as <-. destruct He as [?|(e0 & H0 & H1)]; [congruence|]. exists db, e0. by rewrite <- H1.
  - unfold put_entry in Hf. rewrite Ed in Hf. by exists db', e'.
Qed.

Lemma table_erase db nss c nss' cm : table_at (erase_entry db nss c) nss' cm -> table_at c nss' cm.
Proof.
  intros (db' & e' & Hf & Hr). destruct (db_objects c !! db) as [d|] eqn:Ed.
  - rewrite find_erase in Hf by (by exists d). destruct (decide _); [done|]. by exists db', e'.
  - unfold erase_entry in Hf. rewrite Ed in Hf. by exists db', e'.
Qed.

Lemma origin_put N c0 c db nss e :
  origin N c0 c ->
  (routingInfo e = None \/ exists e0, find_entry db nss c = Some e0 /\ routingInfo e = routingInfo e0) ->
  origin N c0 (put_entry db nss e c).
Proof.
  intros H He. destruct (put_fields db nss e c) as (_ & _ & F3 & F4 & _).
  eapply origin_ext; [exact H| |by rewrite F3|done]. intros nss' cm. by apply table_put.
Qed.

Lemma origin_erase N c0 c db nss : origin N c0 c -> origin N c0 (erase_entry db nss c).
Proof.
  intros H. destruct (erase_fields db nss c) as (_ & _ & F3 & F4 & _).
  eapply origin_ext; [exact H| |by rewrite F3|done]. intros nss' cm. by apply table_erase.
Qed.

Lemma origin_notify N c0 c n st : origin N c0 c -> origin N c0 (notify n st c).1.
Proof.
  intros H. unfold notify. destruct n as [n|]; [|done]. unfold sbind, sget, smodify.
  destruct (notifications c !! n) as [[?|]|]; by eapply origin_view.
Qed.

Lemma origin_fail N c0 c retry r e :
  origin N c0 c -> (forall s, origin N c0 (retry (set_stats s c)).1) ->
  origin N c0 (onRefreshFailed retry r e c).1.
Proof.
  intros H Hr. unfold onRefreshFailed, onRefreshCompleted, sbind, sget, smodify. cbn [fst snd].
  set (c1 := set_stats _ c). assert (H1 : origin N c0 c1) by (by eapply origin_view).
  destruct (find_entry _ _ c1) as [x|] eqn:E; [|done]. destruct (bool_decide _ && _); [apply Hr|].
  pose proof (origin_notify N c0 c1 (refreshCompletionNotification x) (Throw e) H1) as Hn.
  destruct (notify _ _ c1) as [c2 [u|e'| |]] eqn:En; try done. cbn [fst] in *. apply origin_put; [done|].
  right. exists x. split; [|done]. revert En. unfold notify. destruct (refreshCompletionNotification x); [|done].
  unfold sbind, sget, smodify. destruct (notifications c1 !! _) as [[?|]|]; try done. intros [= <- _]. done.
Qed.

Lemma origin_schedule N c0 c r scheduled :
  origin N c0 c -> (forall cm, rf_existing r = Some cm -> table_at c0 (rf_nss r) cm) ->
  origin N c0 (_scheduleCollectionRefresh r scheduled c).1.
Proof.
  intros H Hr. unfold _scheduleCollectionRefresh. unfold sbind at 1, sget. cbn [fst snd].
  unfold sbind at 1, smodify at 1. set (c1 := set_stats _ c). assert (H1 : origin N c0 c1) by (by eapply origin_view).
  destruct scheduled as [[]|e| |]; try done.
  - destruct H1 as [Ht Hq Hn]. split; [exact Ht| |cbn; cbn in Hn; lia]. cbn. intros id r'.
    destruct (decide (id = nextRequest c)) as [->|Hne]; [|rewrite lookup_insert_ne by done; apply Hq].
    rewrite lookup_insert_eq. intros [= <-]. right. split; [exact Hn|done].
  - unfold sbind at 1, slift at 1. destruct (invariant _) as [u|e'| |]; try done. apply origin_fail; [done|]. intros s. by eapply origin_view.
Qed.

Section router.
Context (getShard : ShardId -> Outcome unit) (makeFromBSON : BSONObj -> Outcome BSONObj).

(** The tables an operation can add: the one its callback builds. *)
Definition built (op : CacheOp) (c : CatalogCache) (nss : string) (cm : ChunkManager) : Prop :=
  match op with
  | RefreshCallback id seq seeds sw _ =>
      exists r seq', requests c !! id = Some r /\ rf_nss r = nss /\
        refreshCollectionRoutingInfo getShard makeFromBSON seeds seq nss (rf_existing r) sw = Ret (seq', Some cm)
  | _ => False
  end.

Lemma origin_getDatabase N dbName dbDesc colls c : origin N c (_getDatabase dbName dbDesc colls c).1.
Proof.
  unfold _getDatabase, sbind, sget, slift, smodify. destruct (_databases c !! dbName); [apply origin_refl|].
  destruct dbDesc as [d|e| |]; try apply origin_refl. destruct colls as [l|e| |]; try apply origin_refl.
  cbn [fst]. eapply origin_ext; [apply origin_refl| |done|done]. intros nss cm (db & e & Hf & He).
  revert Hf. unfold find_entry. cbn. destruct (db_objects c !! db) as [d0|] eqn:E.
  - rewrite lookup_app_l by (by eapply lookup_lt_Some). rewrite E. intros Hf. exists db, e.
    unfold find_entry. by rewrite E.
  - apply lookup_ge_None in E. rewrite lookup_app_r by done. destruct (_ - _)%nat; [|done]. cbn. intros Hf.
    assert (Hn : map_Forall (fun _ e => e = new_entry)
      (foldl (fun m coll => if coll.2 : bool then m else <[coll.1 := new_entry]> m) ∅ l))
      by (by apply foldl_new_entries).
    specialize (Hn nss e Hf). simpl in Hn. by rewrite Hn in He.
Qed.

Lemma origin_lookup N db nss scheduled c : origin N c (lookupRoutingInfo getShard db nss scheduled c).1.
Proof.
  unfold lookupRoutingInfo, sbind at 1, sget at 1. destruct (db_objects c !! db) as [d|] eqn:Ed; [|apply origin_refl].
  destruct (collections d !! nss) as [e|] eqn:Ee; [|apply origin_refl].
  destruct (needsRefresh e); [|apply origin_refl].
  destruct (refreshCompletionNotification e); [apply origin_refl|].
  unfold sbind at 1, smodify at 1. unfold sbind at 1, smodify at 1.
  set (c1 := put_entry _ _ _ _). set (r := mkRefresh _ _ _ _).
  assert (H : origin N c (_scheduleCollectionRefresh r scheduled c1).1).
  { apply origin_schedule.
    - apply origin_put; [|by left]. eapply origin_view; [apply origin_refl|done..].
    - intros cm Hcm. exists db, e. split; [|done]. unfold find_entry. by rewrite Ed. }
  unfold sbind. destruct (_scheduleCollectionRefresh r scheduled c1) as [c2 [u|e'| |]]; exact H.
Qed.

Lemma origin_invalidate N nss c0 c : origin N c0 c -> origin N c0 (invalidateShardedCollection nss c).1.
Proof.
  intros H. unfold invalidateShardedCollection, sbind, sget, smodify. destruct (_databases c !! _) as [db|]; [|done].
  cbn [fst]. apply origin_put; [done|]. destruct (find_entry db nss c) as [e|] eqn:E; [right; by exists e|by left].
Qed.

Lemma origin_callback id seq seeds sw scheduled c :
  origin (built (RefreshCallback id seq seeds sw scheduled) c) c
    (refreshCallback getShard makeFromBSON id seq seeds sw scheduled c).1.
Proof.
  set (N := built _ c). unfold refreshCallback. unfold sbind at 1, sget at 1.
  destruct (requests c !! id) as [r|] eqn:Hr; [|apply origin_refl].
  unfold sbind at 1, smodify at 1. set (c1 := remove_request id c).
  assert (H1 : origin N c c1).
  { eapply origin_ext; [apply origin_refl|done| |done]. intros id' r'. cbn. by intros [_ ?]%lookup_delete_Some. }
  destruct (refreshCollectionRoutingInfo _ _ _ _ _ _ _) as [[seq' new]|e| |] eqn:Hsw; try done.
  - unfold onRefreshCompleted, sbind, sget, smodify. cbn [fst snd]. set (c2 := set_stats _ c1).
    assert (H2 : origin N c c2) by (by eapply origin_view).
    destruct (find_entry _ _ c2) as [x|] eqn:E; [|done].
    pose proof (origin_notify N c c2 (refreshCompletionNotification x) (Ret ()) H2) as Hn.
    destruct (notify _ _ c2) as [c3 [u|e'| |]]; try done. destruct new as [cm|]; [|by apply origin_erase].
    cbn [fst] in *. destruct (put_fields (rf_dbEntry r) (rf_nss r) (mkEntry false None (Some cm)) c3) as (_ & _ & F3 & F4 & _).
    destruct Hn as [Ht Hq Hx]. split; [|by rewrite F3|by rewrite F4]. intros nss cm' (db & y & Hf & Hy).
    destruct (db_objects c3 !! rf_dbEntry r) as [d|] eqn:Ed.
    + rewrite find_put in Hf by (by exists d). destruct (decide _) as [[= -> ->]|]; [|apply Ht; by exists db, y].
      injection Hf as <-. injection Hy as <-. right. by exists r, seq'.
    + unfold put_entry in Hf. rewrite Ed in Hf. apply Ht. by exists db, y.
  - destruct (isDBException e); [|done]. apply origin_fail; [done|]. intros s. apply origin_schedule; [|done].
    by eapply origin_view.
Qed.

Lemma origin_op op c : origin (built op c) c (run_op getShard makeFromBSON op c).1.
Proof.
  destruct op as [dbName dbDesc colls|db nss sch|id seq seeds sw sch|ccri|nss|nss|dbName|]; cbn [run_op].
  - pose proof (origin_getDatabase (built (GetDatabase dbName dbDesc colls) c) dbName dbDesc colls c) as H.
    unfold sbind. destruct (_getDatabase _ _ _ c) as [c' [?|?| |]]; exact H.
  - pose proof (origin_lookup (built (LookupRoutingInfo db nss sch) c) db nss sch c) as H.
    unfold sbind. destruct (lookupRoutingInfo _ _ _ _ c) as [c' [?|?| |]]; exact H.
  - apply origin_callback.
  - unfold onStaleConfigError. unfold sbind at 1, sget at 1. unfold sbind at 1, smodify at 1. set (c1 := set_stats _ c).
    assert (H1 : origin (built (StaleConfigError ccri) c) c c1) by (eapply origin_view; [apply origin_refl|done..]).
    destruct (cri_cm ccri) as [cm|]; [|by apply origin_invalidate].
    destruct (_databases c !! _) as [db|]; [|done]. destruct (find_entry db (cm_nss cm) c) as [e|] eqn:E; [|done].
    destruct (needsRefresh e); [done|]. destruct (routingInfo e) as [info|] eqn:Hi; [|done].
    destruct (version_equals _ _); [|done]. apply (origin_put _ _ c1); [done|]. right. exists e. by rewrite Hi.
  - apply origin_invalidate, origin_refl.
  - unfold purgeCollection, sbind, sget, smodify. destruct (_databases c !! _); [|apply origin_refl].
    apply origin_erase, origin_refl.
  - eapply origin_view; [apply origin_refl|done..].
  - eapply origin_view; [apply origin_refl|done..].
Qed.
End router.

(** * The whole system *)

(** The router's cache, the config server, the catalog each request in flight
    has read, and the states the catalog has had. *)
Record World := mkWorld {
  w_cache : CatalogCache;
  w_config : Config;
  w_reads : gmap nat (list ChunkDoc);
  w_history : list (list ChunkDoc)
}.

Section world.
Context (snprintf_g16 : Dbl -> string) (ns : string) (epoch : OID) (lo hi : BSONObj).
Context (getShard : ShardId -> Outcome unit) (makeFromBSON : BSONObj -> Outcome BSONObj) (coll : CollectionType).
Abbreviation catalog := (catalog snprintf_g16 ns epoch lo hi).
Abbreviation routable := (routable ns epoch getShard makeFromBSON coll).
Abbreviation caches := (caches ns lo hi).
Abbreviation run := (run_op getShard makeFromBSON).

(** The loader's answer to a request that has read [l]. *)
Definition answer_of (r : Refresh) (l : list ChunkDoc) : Outcome CollectionAndChangedChunks :=
  getChangedChunks ns (Ret coll) l (startingCollectionVersion (rf_existing r)).

Definition refreshes (op : CacheOp) (c : CatalogCache) : Prop :=
  match op with
  | RefreshCallback id _ _ _ _ => exists r, requests c !! id = Some r /\ rf_nss r = ns
  | _ => False
  end.

(** A step; [P] tells the requests that are committed. *)
Inductive world_step (P : Config -> Commit -> Prop) (w : World) : World -> Prop :=
  | ws_commit q :
      P (w_config w) q -> let config' := run_commit snprintf_g16 ns q (w_config w) in
      world_step P w (mkWorld (w_cache w) config' (w_reads w) (cfg_chunks config' :: w_history w))
  | ws_read id r :
      requests (w_cache w) !! id = Some r -> rf_nss r = ns -> w_reads w !! id = None ->
      world_step P w (mkWorld (w_cache w) (w_config w) (<[id := cfg_chunks (w_config w)]> (w_reads w)) (w_history w))
  | ws_answer id r l seq seeds scheduled :
      requests (w_cache w) !! id = Some r -> rf_nss r = ns -> w_reads w !! id = Some l -> schedulable scheduled ->
      world_step P w (mkWorld (run (RefreshCallback id seq seeds (answer_of r l) scheduled) (w_cache w)).1
                      (w_config w) (w_reads w) (w_history w))
  | ws_error id r e seq seeds scheduled :
      requests (w_cache w) !! id = Some r -> rf_nss r = ns -> isDBException e = true -> schedulable scheduled ->
      world_step P w (mkWorld (run (RefreshCallback id seq seeds (Throw e) scheduled) (w_cache w)).1
                      (w_config w) (w_reads w) (w_history w))
  | ws_cache op :
      op_ok getShard makeFromBSON (w_cache w) op -> ~ refreshes op (w_cache w) ->
      world_step P w (mkWorld (run op (w_cache w)).1 (w_config w) (w_reads w) (w_history w)).

(** The commits for which the tables of the router are proved to be right: those
    that keep the catalog a partition, with shards that the router knows. *)
Definition keeps_routable (c : Config) (q : Commit) : Prop :=
  request_ok snprintf_g16 ns (cfg_chunks c) q /\ routable (cfg_chunks (run_commit snprintf_g16 ns q c)).

Definition past (w : World) (l : list ChunkDoc) : Prop :=
  l ∈ w_history w /\ catalog l /\ routable l /\ later ns l (cfg_chunks (w_config w)).

Record world_inv (w : World) : Prop := {
  wi_cache : cache_inv None (w_cache w);
  wi_now : past w (cfg_chunks (w_config w));
  wi_table cm : table_at (w_cache w) ns cm -> exists l, past w l /\ caches cm l;
  wi_request id r cm : requests (w_cache w) !! id = Some r -> rf_nss r = ns -> rf_existing r = Some cm ->
    exists l0, past w l0 /\ caches cm l0 /\ forall l, w_reads w !! id = Some l -> later ns l0 l;
  wi_reads id l : w_reads w !! id = Some l -> past w l /\ (id < nextRequest (w_cache w))%nat
}.

Context (Hlo : all_type MinKey lo) (Hhi : all_type MaxKey hi) (Hlt : lo ≺ hi).

(** An answered refresh gives the table of the catalog it has read. *)
Lemma answer_table w id r l seeds seq :
  world_inv w -> requests (w_cache w) !! id = Some r -> rf_nss r = ns -> w_reads w !! id = Some l ->
  exists seq' cm, refreshCollectionRoutingInfo getShard makeFromBSON seeds seq ns (rf_existing r) (answer_of r l) =
      Ret (seq', Some cm) /\ caches cm l.
Proof.
  intros Hw Hr Hn Hl. destruct (wi_reads _ Hw id l Hl) as ((_ & Hcat & Hro & _) & _). unfold answer_of.
  destruct (rf_existing r) as [cm|] eqn:E.
  - destruct (wi_request _ Hw id r cm Hr Hn E) as (l0 & (_ & Hcat0 & _) & Hcc & Hlater).
    by apply (refresh_update snprintf_g16 ns epoch lo hi) with (l := l0); auto.
  - apply (refresh_load snprintf_g16 ns epoch lo hi); try done. cbn [startingCollectionVersion].
    destruct (oid_eqb _ epoch) eqn:Eo; [|done]. apply oid_eqb_eq in Eo. by rewrite <- Eo.
Qed.

(** An operation of the cache whose new tables are past states. *)
Lemma world_cache_op w op :
  world_inv w -> op_ok getShard makeFromBSON (w_cache w) op ->
  (forall cm, built getShard makeFromBSON op (w_cache w) ns cm -> exists l, past w l /\ caches cm l) ->
  world_inv (mkWorld (run op (w_cache w)).1 (w_config w) (w_reads w) (w_history w)).
Proof.
  intros [Hi Hnow Ht Hq Hr] Hok Hb. destruct (origin_op getShard makeFromBSON op (w_cache w)) as [Ot Oq On].
  split; cbn [w_cache w_config w_reads w_history].
  - pose proof (op_safe _ _ op _ Hi Hok) as Hs. destruct (run op (w_cache w)) as [c' res]. apply Hs.
  - exact Hnow.
  - intros cm [H|H]%Ot; [by apply Ht|by apply Hb].
  - intros id r cm H Hn He. destruct (Oq id r H) as [Hold|[Hge Hnew]]; [by apply (Hq id r cm)|].
    rewrite Hn in Hnew. destruct (Ht cm (Hnew cm He)) as (l & Hl & Hcc). exists l. split_and!; [done|done|].
    intros l' Hl'. destruct (Hr id l' Hl') as [_ ?]. lia.
  - intros id l Hl. destruct (Hr id l Hl) as [? ?]. split; [done|lia].
Qed.

Lemma world_step_inv w w' : world_inv w -> world_step keeps_routable w w' -> world_inv w'.
Proof.
  intros Hw Hs. pose proof Hw as [Hi Hnow Ht Hq Hr].
  destruct Hs as [q [Hc Hro] config'|id r H Hn Hl|id r l seq seeds sch H Hn Hl Hsch|id r e seq seeds sch H Hn He Hsch|op Hok Hno].
  - destruct Hnow as (Hin & Hcat & _ & _).
    destruct (commits_later _ _ _ _ _ _ _ (rtc_once _ _ (ex_intro _ q (conj Hc eq_refl))) Hcat) as [Hcat' Hlat].
    assert (Hp : forall l, past w l -> past (mkWorld (w_cache w) config' (w_reads w) (cfg_chunks config' :: w_history w)) l).
    { intros l (? & ? & ? & ?). split_and!; [by right|done|done|]. by eapply later_trans. }
    split; cbn [w_cache w_config w_reads w_history]; [done| | | |].
    + split_and!; [by left|done|done|apply later_refl].
    + intros cm Hcm. destruct (Ht cm Hcm) as (l & ? & ?). exists l. auto.
    + intros id r cm H1 H2 H3. destruct (Hq id r cm H1 H2 H3) as (l & ? & ? & ?). exists l. auto.
    + intros id l Hl. destruct (Hr id l Hl) as [? ?]. auto.
  - split; cbn [w_cache w_config w_reads w_history]; [done|done|done| |].
    + intros id' r' cm H1 H2 H3. destruct (Hq id' r' cm H1 H2 H3) as (l0 & Hl0 & Hcc & Hlat).
      exists l0. split_and!; [done|done|]. intros l. rewrite lookup_insert. case_decide; [|apply Hlat].
      intros [= <-]. apply Hl0.
    + intros id' l [[<- <-]|[_ H']]%lookup_insert_Some; [|by apply Hr]. split; [done|].
      destruct (decide (nextRequest (w_cache w) <= id)%nat) as [Hge|]; [|lia].
      by rewrite (ci_fresh _ _ Hi id Hge) in H.
  - destruct (answer_table w id r l seeds seq Hw H Hn Hl) as (seq' & cm & Ha & Hcc). apply world_cache_op; [done| |].
    + exists r. rewrite Hn, Ha. done.
    + intros cm' (r' & s' & Hr' & _ & Hb). rewrite H in Hr'. injection Hr' as <-. rewrite Ha in Hb.
      injection Hb as _ <-. exists l. split; [|done]. by apply (Hr id l Hl).
  - apply world_cache_op; [done| |].
    + exists r. split_and!; [done| |done]. cbn. by destruct e.
    + intros cm (r' & s' & _ & _ & Hb). by destruct e.
  - apply world_cache_op; [done|done|]. intros cm Hb. destruct Hno.
    destruct op; try done. destruct Hb as (r & _ & Hr' & Hn & _). by exists r.
Qed.
End world.

(** C2: while splits, merges and migrations are committed on the config server
    and any number of threads use, invalidate and refresh the router's cache,
    every routing table in the cache is one state the chunk catalog has had: it
    holds exactly the chunks of that state, and routes every key to the shard
    that owned it then. The commits are those that satisfy [request_ok] (ids of
    split bounds identify them, bounds spelled as stored, a control chunk other
    than the migrated one, major versions not exhausted) and lead to chunks that
    parse, on shards the router knows. *)
Theorem router_serves_catalog_states snprintf_g16 ns epoch lo hi getShard makeFromBSON coll config w db e cm :
  all_type MinKey lo -> all_type MaxKey hi -> lo ≺ hi ->
  catalog snprintf_g16 ns epoch lo hi (cfg_chunks config) ->
  routable ns epoch getShard makeFromBSON coll (cfg_chunks config) ->
  rtc (world_step snprintf_g16 ns getShard makeFromBSON coll
         (keeps_routable snprintf_g16 ns epoch getShard makeFromBSON coll))
    (mkWorld emptyCache config ∅ [cfg_chunks config]) w ->
  find_entry db ns (w_cache w) = Some e -> routingInfo e = Some cm ->
  exists l, l ∈ w_history w /\ caches ns lo hi cm l /\
    forall k, lo ≼ k -> k ≺ hi ->
      exists ch d, findIntersectingChunkWithSimpleCollation cm k = Ret ch /\
        docs_of ns l d /\ covers d k /\ describes ch d.
Proof.
  intros Hlo Hhi Hlt Hcat Hro Hs He Hcm.
  assert (Hw : world_inv snprintf_g16 ns epoch lo hi getShard makeFromBSON coll w).
  { assert (H0 : world_inv snprintf_g16 ns epoch lo hi getShard makeFromBSON coll
      (mkWorld emptyCache config ∅ [cfg_chunks config])).
    { split; cbn [w_cache w_config w_reads w_history]; [apply empty_inv| | |done|done].
      - split_and!; [by left|done|done|apply later_refl].
      - by intros cm' (db' & e' & H & _). }
    clear He Hcm. induction Hs as [|w1 w2 w3 H12 _ IH]; [done|]. apply IH. by eapply world_step_inv. }
  destruct (wi_table _ _ _ _ _ _ _ _ _ Hw cm) as (l & (Hin & Hcatl & _) & Hcc); [by exists db, e|].
  exists l. split_and!; [done|done|]. intros k H1 H2. by eapply caches_route.
Qed.

(** * Example: the first refresh of a collection *)

Definition ex_world : World := mkWorld emptyCache ex_two ∅ [cfg_chunks ex_two].
Definition ex_world_step :=
  world_step ex_g16 "t.c" ex_known ex_collator ex_coll (keeps_routable ex_g16 "t.c" ex_epoch ex_known ex_collator ex_coll).
Definition ex_requested : World := mkWorld ex_busy ex_two ∅ [cfg_chunks ex_two].
Definition ex_read : World :=
  mkWorld ex_busy ex_two (<[0%nat := cfg_chunks ex_two]> ∅) [cfg_chunks ex_two].
Definition ex_served : World :=
  mkWorld (run_op ex_known ex_collator
             (RefreshCallback 0 0 ex_seeds (answer_of "t.c" ex_coll (mkRefresh 0 "t.c" None 1) (cfg_chunks ex_two)) (Ret ()))
             ex_busy).1 ex_two (<[0%nat := cfg_chunks ex_two]> ∅) [cfg_chunks ex_two].

Lemma ex_served_steps : rtc ex_world_step ex_world ex_served.
Proof.
  eapply rtc_l.
  { eapply (ws_cache _ _ _ _ _ _ ex_world
      (GetDatabase "t" (Ret ("s0", true)) (Ret [("t.c", false); ("t.old", true)]))); [done|]. by intros []. }
  eapply rtc_l.
  { eapply (ws_cache _ _ _ _ _ _ _ (LookupRoutingInfo 0 "t.c" (Ret ()))); [split; [by eexists|done]|]. by intros []. }
  change (rtc ex_world_step ex_requested ex_served). eapply rtc_l.
  { apply (ws_read _ _ _ _ _ _ ex_requested 0 _ ex_busy_request eq_refl eq_refl). }
  change (rtc ex_world_step ex_read ex_served). apply rtc_once.
  apply (ws_answer _ _ _ _ _ _ ex_read 0 _ (cfg_chunks ex_two) 0 ex_seeds (Ret ()) ex_busy_request eq_refl eq_refl). done.
Qed.

Lemma router_serves_catalog_states_witness :
  exists cm, find_entry 0 "t.c" (w_cache ex_served) = Some (mkEntry false None (Some cm)) /\
    exists l, l ∈ w_history ex_served /\ caches "t.c" ex_lo ex_hi cm l.
Proof.
  assert (H : exists cm, find_entry 0 "t.c" (w_cache ex_served) = Some (mkEntry false None (Some cm)))
    by (eexists; vm_compute; reflexivity).
  destruct H as [cm H]. exists cm. split; [exact H|].
  destruct (router_serves_catalog_states ex_g16 "t.c" ex_epoch ex_lo ex_hi ex_known ex_collator ex_coll ex_two ex_served 0
    (mkEntry false None (Some cm)) cm) as (l & Hl & Hcc & _).
  - repeat constructor.
  - repeat constructor.
  - by vm_compute.
  - exact ex_two_catalog.
  - apply ex_routable. by vm_compute.
  - exact ex_served_steps.
  - exact H.
  - reflexivity.
  - exists l. split; [exact Hl|exact Hcc].
Defined.
