(* ===== verification/Balancer.v ===== *)
(** The balancer's policy (balancer_policy.cpp): the zones of a collection and
    the chunks they hold, the choice of donor and receiver shards, and the
    migrations a balancing round proposes. *)

From stdpp Require Import base list strings gmap sorting.
From Stdlib Require Import ZArith Lia String.
From S2P Require Import Prelude OrdMap Bson ChunkVersion ChunkType ConfigChunks.
Local Open Scope string_scope.
Local Open Scope Z_scope.
Local Open Scope list_scope.
Local Open Scope outcome_scope.

Definition kDefaultImbalanceThreshold : Z := 2.
Definition kAggressiveImbalanceThreshold : Z := 1.

(** * Data *)

Record ZoneRange := mkZone { zr_min : BSONObj; zr_max : BSONObj; zr_zone : string }.

Record ShardStatistics := mkStat {
  ss_shardId : ShardId;
  ss_maxSizeMB : Z;
  ss_currSizeMB : Z;
  ss_isDraining : bool;
  ss_shardTags : gset string;
  ss_mongoVersion : string
}.

Definition isSizeMaxed (s : ShardStatistics) : bool :=
  if (ss_maxSizeMB s =? 0) || (ss_currSizeMB s =? 0) then false else ss_maxSizeMB s <=? ss_currSizeMB s.

(** Ordered maps; the set of tags is iterated in order. *)
Record DistributionStatus := mkDist {
  ds_nss : string;
  ds_shardChunks : list (ShardId * list ChunkType);
  ds_zoneRanges : list (BSONObj * ZoneRange);
  ds_allTags : list (string * unit)
}.

Definition newDistributionStatus (nss : string) (shardToChunksMap : list (ShardId * list ChunkType))
    : DistributionStatus := mkDist nss shardToChunksMap [] [].

(** [MigrateInfo(to, chunk)] *)
Record MigrateInfo := mkMigrate {
  mi_ns : string;
  mi_to : ShardId;
  mi_from : ShardId;
  mi_minKey : BSONObj;
  mi_maxKey : BSONObj;
  mi_version : ChunkVersion
}.

Definition newMigrateInfo (to : ShardId) (chunk : ChunkType) : Outcome MigrateInfo :=
  match validate chunk with
  | Ret _ =>
      invariant (ShardId_isValid to) ;*
      match _ns chunk, _shard chunk, _min chunk, _max chunk, _version chunk with
      | Some ns, Some from, Some mn, Some mx, Some v => Ret (mkMigrate ns to from mn mx v)
      | _, _, _, _, _ => Undef
      end
  | _ => Abort
  end.

(** * Zones *)

Definition addRangeToZone (d : DistributionStatus) (range : ZoneRange) : Outcome DistributionStatus :=
  let z := ds_zoneRanges d in
  let minIntersect := upper_bound (zr_min range) z in
  let maxIntersect := upper_bound (zr_max range) z in
  let new_entry :=
    mkDist (ds_nss d) (ds_shardChunks d) (map_insert (zr_max range) range z)
      (map_insert (zr_zone range) () (ds_allTags d)) in
  if negb (minIntersect =? maxIntersect)%nat then
    match z !! minIntersect with
    | None => Abort
    | Some (_, first) =>
        let* intersectingRange :=
          if woCompare (zr_min first) (zr_max range) <? 0 then Ret first
          else match z !! maxIntersect with Some (_, r) => Ret r | None => Undef end in
        if (woCompare (zr_min intersectingRange) (zr_min range) =? 0) &&
           (woCompare (zr_max intersectingRange) (zr_max range) =? 0) &&
           String.eqb (zr_zone intersectingRange) (zr_zone range)
        then Ret d
        else Throw RangeOverlapConflict
    end
  else
    match z !! minIntersect with
    | Some (_, nextRange) =>
        if 0 <? woCompare (zr_max range) (zr_min nextRange)
        then invariant (woCompare (zr_max range) (zr_max nextRange) <? 0) ;* Throw RangeOverlapConflict
        else Ret new_entry
    | None => Ret new_entry
    end.

Definition getTagForChunk (d : DistributionStatus) (chunk : ChunkType) : Outcome string :=
  let z := ds_zoneRanges d in
  let* (mn, mx) := chunk_bounds chunk in
  let minIntersect := upper_bound mn z in
  let maxIntersect := lower_bound mx z in
  if negb (minIntersect =? maxIntersect)%nat then Ret ""
  else
    match z !! minIntersect with
    | None => Ret ""
    | Some (_, intersectRange) =>
        if (woCompare (zr_min intersectRange) mn <=? 0) && (woCompare mx (zr_max intersectRange) <=? 0)
        then Ret (zr_zone intersectRange)
        else Ret ""
    end.

Definition tags (d : DistributionStatus) : list string := (ds_allTags d).*1.

(** * Counting chunks *)

Definition getChunks (d : DistributionStatus) (shardId : ShardId) : Outcome (list ChunkType) :=
  match map_get shardId (ds_shardChunks d) with Some l => Ret l | None => Abort end.

Definition totalChunks (d : DistributionStatus) : Z :=
  foldl (fun total sc => total + Z.of_nat (List.length sc.2)) 0 (ds_shardChunks d).

Definition numberOfChunksInShard (d : DistributionStatus) (shardId : ShardId) : Outcome Z :=
  let* shardChunks := getChunks d shardId in Ret (Z.of_nat (List.length shardChunks)).

Definition numberOfChunksInShardWithTag (d : DistributionStatus) (shardId : ShardId) (tag : string)
    : Outcome Z :=
  let* shardChunks := getChunks d shardId in
  ofold (fun total chunk =>
           let* t := getTagForChunk d chunk in
           Ret (if String.eqb tag t then total + 1 else total)) 0 shardChunks.

Definition totalChunksWithTag (d : DistributionStatus) (tag : string) : Outcome Z :=
  ofold (fun total sc =>
           let* n := numberOfChunksInShardWithTag d sc.1 tag in Ret (total + n)) 0 (ds_shardChunks d).

(** * Choosing shards *)

Definition isShardSuitableReceiver (stat : ShardStatistics) (chunkTag : string) : Outcome unit :=
  if isSizeMaxed stat then Throw IllegalOperation
  else if ss_isDraining stat then Throw IllegalOperation
  else if negb (String.eqb chunkTag "") && negb (bool_decide (chunkTag ∈ ss_shardTags stat))
  then Throw IllegalOperation
  else Ret ().

(** One shard in the search for the receiver and for the donor. *)
Definition least_loaded_step (d : DistributionStatus) (tag : string) (excludedShards : gset ShardId)
    (st : ShardId * Z) (stat : ShardStatistics) : Outcome (ShardId * Z) :=
  let '(best, minChunks) := st in
  if bool_decide (ss_shardId stat ∈ excludedShards) then Ret (best, minChunks)
  else if negb (is_Ret (isShardSuitableReceiver stat tag)) then Ret (best, minChunks)
  else
    let* n := numberOfChunksInShard d (ss_shardId stat) in
    let myChunks := u32 n in
    if minChunks <=? myChunks then Ret (best, minChunks) else Ret (ss_shardId stat, myChunks).

Definition most_overloaded_step (d : DistributionStatus) (chunkTag : string) (excludedShards : gset ShardId)
    (st : ShardId * Z) (stat : ShardStatistics) : Outcome (ShardId * Z) :=
  let '(worst, maxChunks) := st in
  if bool_decide (ss_shardId stat ∈ excludedShards) then Ret (worst, maxChunks)
  else
    let* n := numberOfChunksInShardWithTag d (ss_shardId stat) chunkTag in
    let shardChunkCount := u32 n in
    if shardChunkCount <=? maxChunks then Ret (worst, maxChunks) else Ret (ss_shardId stat, shardChunkCount).

(** The empty shard id stands for "none". *)
Definition _getLeastLoadedReceiverShard (shardStats : list ShardStatistics) (d : DistributionStatus)
    (tag : string) (excludedShards : gset ShardId) : Outcome ShardId :=
  let* (best, _) := ofold (least_loaded_step d tag excludedShards) ("", 2 ^ 32 - 1) shardStats in Ret best.

Definition _getMostOverloadedShard (shardStats : list ShardStatistics) (d : DistributionStatus)
    (chunkTag : string) (excludedShards : gset ShardId) : Outcome ShardId :=
  let* (worst, _) := ofold (most_overloaded_step d chunkTag excludedShards) ("", 0) shardStats in Ret worst.

(** * A balancing round *)

(** The migrations so far and the shards they use. *)
Definition Round : Type := list MigrateInfo * gset ShardId.

(** [migrations.emplace_back(to, chunk)] and the marking of both shards. *)
Definition add_migration (st : Round) (from to : ShardId) (chunk : ChunkType) : Outcome Round :=
  let '(migrations, usedShards) := st in
  let* m := newMigrateInfo to chunk in
  invariant (negb (bool_decide (from ∈ usedShards))) ;*
  let usedShards := usedShards ∪ {[from]} in
  invariant (negb (bool_decide (to ∈ usedShards))) ;*
  Ret (migrations ++ [m], usedShards ∪ {[to]}).

(** The first chunk of a draining shard that can be moved. *)
Fixpoint drain_chunks (shardStats : list ShardStatistics) (d : DistributionStatus) (from : ShardId)
    (chunks : list ChunkType) (st : Round) : Outcome Round :=
  match chunks with
  | [] => Ret st
  | chunk :: chunks =>
      if getJumbo chunk then drain_chunks shardStats d from chunks st
      else
        let* tag := getTagForChunk d chunk in
        let* to := _getLeastLoadedReceiverShard shardStats d tag st.2 in
        if negb (ShardId_isValid to) then drain_chunks shardStats d from chunks st
        else invariant (negb (String.eqb to from)) ;* add_migration st from to chunk
  end.

Definition drain_shard (shardStats : list ShardStatistics) (d : DistributionStatus) (st : Round)
    (stat : ShardStatistics) : Outcome Round :=
  if negb (ss_isDraining stat) then Ret st
  else if bool_decide (ss_shardId stat ∈ st.2) then Ret st
  else
    let* chunks := getChunks d (ss_shardId stat) in
    drain_chunks shardStats d (ss_shardId stat) chunks st.

(** The first chunk that is in the wrong zone and can be moved. *)
Fixpoint zone_chunks (shardStats : list ShardStatistics) (d : DistributionStatus) (stat : ShardStatistics)
    (chunks : list ChunkType) (st : Round) : Outcome Round :=
  match chunks with
  | [] => Ret st
  | chunk :: chunks =>
      let* tag := getTagForChunk d chunk in
      if String.eqb tag "" then zone_chunks shardStats d stat chunks st
      else if bool_decide (tag ∈ ss_shardTags stat) then zone_chunks shardStats d stat chunks st
      else if getJumbo chunk then zone_chunks shardStats d stat chunks st
      else
        let* to := _getLeastLoadedReceiverShard shardStats d tag st.2 in
        if negb (ShardId_isValid to) then zone_chunks shardStats d stat chunks st
        else invariant (negb (String.eqb to (ss_shardId stat))) ;*
             add_migration st (ss_shardId stat) to chunk
  end.

Definition zone_shard (shardStats : list ShardStatistics) (d : DistributionStatus) (st : Round)
    (stat : ShardStatistics) : Outcome Round :=
  if bool_decide (ss_shardId stat ∈ st.2) then Ret st
  else
    let* chunks := getChunks d (ss_shardId stat) in
    zone_chunks shardStats d stat chunks st.

(** The first chunk of the zone on the donor that can be moved. *)
Fixpoint donor_chunks (d : DistributionStatus) (tag : string) (to : ShardId) (chunks : list ChunkType)
    (st : Round) : Outcome (bool * Round) :=
  match chunks with
  | [] => Ret (false, st)
  | chunk :: chunks =>
      let* t := getTagForChunk d chunk in
      if negb (String.eqb t tag) then donor_chunks d tag to chunks st
      else if getJumbo chunk then donor_chunks d tag to chunks st
      else
        match _shard chunk with
        | None => Undef
        | Some from => let* st := add_migration st from to chunk in Ret (true, st)
        end
  end.

Definition _singleZoneBalance (shardStats : list ShardStatistics) (d : DistributionStatus) (tag : string)
    (ideal imbalanceThreshold : Z) (st : Round) : Outcome (bool * Round) :=
  let* from := _getMostOverloadedShard shardStats d tag st.2 in
  if negb (ShardId_isValid from) then Ret (false, st)
  else
    let* max := numberOfChunksInShardWithTag d from tag in
    if max <=? ideal then Ret (false, st)
    else
      let* to := _getLeastLoadedReceiverShard shardStats d tag st.2 in
      if negb (ShardId_isValid to) then Ret (false, st)
      else
        let* min := numberOfChunksInShardWithTag d to tag in
        if ideal <=? min then Ret (false, st)
        else if max - ideal <? imbalanceThreshold then Ret (false, st)
        else
          let* chunks := getChunks d from in
          donor_chunks d tag to chunks st.

(** [while (_singleZoneBalance(...));] *)
Fixpoint zone_loop (fuel : nat) (shardStats : list ShardStatistics) (d : DistributionStatus) (tag : string)
    (ideal imbalanceThreshold : Z) (st : Round) : Outcome Round :=
  match fuel with
  | O => Undef
  | S fuel =>
      let* (again, st) := _singleZoneBalance shardStats d tag ideal imbalanceThreshold st in
      if again then zone_loop fuel shardStats d tag ideal imbalanceThreshold st else Ret st
  end.

Definition has_tag (tag : string) (stat : ShardStatistics) : bool :=
  String.eqb tag "" || bool_decide (tag ∈ ss_shardTags stat).

Definition balance_tag (shardStats : list ShardStatistics) (d : DistributionStatus) (imbalanceThreshold : Z)
    (st : Round) (tag : string) : Outcome Round :=
  let* totalNumberOfChunksWithTag :=
    if String.eqb tag "" then Ret (totalChunks d) else totalChunksWithTag d tag in
  let totalNumberOfShardsWithTag := Z.of_nat (List.length (List.filter (has_tag tag) shardStats)) in
  if totalNumberOfShardsWithTag =? 0 then Ret st
  else
    let ideal := totalNumberOfChunksWithTag / totalNumberOfShardsWithTag +
                 (if totalNumberOfChunksWithTag mod totalNumberOfShardsWithTag =? 0 then 0 else 1) in
    zone_loop (S (List.length shardStats)) shardStats d tag ideal imbalanceThreshold st.

Definition balance (shardStats : list ShardStatistics) (d : DistributionStatus)
    (shouldAggressivelyBalance : bool) (usedShards : gset ShardId) : Outcome Round :=
  let* st := ofold (drain_shard shardStats d) ([], usedShards) shardStats in
  let* st :=
    match tags d with
    | [] => Ret st
    | _ => ofold (zone_shard shardStats d) st shardStats
    end in
  let imbalanceThreshold :=
    if shouldAggressivelyBalance || (totalChunks d <? 20) then kAggressiveImbalanceThreshold
    else kDefaultImbalanceThreshold in
  ofold (balance_tag shardStats d imbalanceThreshold) st (tags d ++ [""]).

Definition balanceSingleChunk (chunk : ChunkType) (shardStats : list ShardStatistics)
    (d : DistributionStatus) : Outcome (option MigrateInfo) :=
  let* tag := getTagForChunk d chunk in
  let* newShardId := _getLeastLoadedReceiverShard shardStats d tag ∅ in
  if negb (ShardId_isValid newShardId) then Ret None
  else
    match _shard chunk with
    | None => Undef
    | Some shard =>
        if String.eqb newShardId shard then Ret None
        else let* m := newMigrateInfo newShardId chunk in Ret (Some m)
    end.

(** * Zones do not overlap *)

Definition overlaps (a b : ZoneRange) : Prop := zr_min a ≺ zr_max b /\ zr_min b ≺ zr_max a.

Record zones_ok (z : list (BSONObj * ZoneRange)) : Prop := {
  zo_sorted : ksorted z;
  zo_entry k r : (k, r) ∈ z -> k = zr_max r /\ zr_min r ≺ zr_max r;
  zo_disjoint k1 r1 k2 r2 : (k1, r1) ∈ z -> (k2, r2) ∈ z -> k1 ≺ k2 -> k1 ≼ zr_min r2
}.

Lemma zone_unique z k1 r1 k2 r2 :
  zones_ok z -> (k1, r1) ∈ z -> (k2, r2) ∈ z -> overlaps r1 r2 -> (k1, r1) = (k2, r2).
Proof.
  intros [Hs He Hd] H1 H2 [Ha Hb]. destruct (He _ _ H1) as [-> ?], (He _ _ H2) as [-> ?].
  destruct (kltb (zr_max r1) (zr_max r2)) eqn:E1.
  { pose proof (Hd _ _ _ _ H1 H2 ltac:(korder)). exfalso. korder. }
  destruct (kltb (zr_max r2) (zr_max r1)) eqn:E2.
  { pose proof (Hd _ _ _ _ H2 H1 ltac:(korder)). exfalso. korder. }
  apply (ksorted_unique z); [done|done|done|korder].
Qed.

(** The entries that a range meets lie between the two bounds. *)
Lemma upper_bound_before {V} k (m : list (BSONObj * V)) i k' v :
  m !! i = Some (k', v) -> (i < upper_bound k m)%nat -> k' ≼ k.
Proof.
  intros Hi Hlt. apply (take_upper_bound k m k' v). apply list_elem_of_lookup. exists i.
  by rewrite lookup_take_lt.
Qed.

Lemma upper_bound_after {V} k (m : list (BSONObj * V)) i k' v :
  ksorted m -> m !! i = Some (k', v) -> (upper_bound k m <= i)%nat -> k ≺ k'.
Proof.
  intros Hs Hi Hle. apply (drop_upper_bound k m k' v Hs). apply list_elem_of_lookup.
  exists (i - upper_bound k m)%nat. rewrite lookup_drop. by replace (_ + _)%nat with i by lia.
Qed.

(** What adding a range to disjoint zones gives. *)
Definition add_zone_spec (d : DistributionStatus) (range : ZoneRange) : Prop :=
  match addRangeToZone d range with
  | Ret d' =>
      zones_ok (ds_zoneRanges d') /\
      (d' = d /\ (exists k r, (k, r) ∈ ds_zoneRanges d /\ zr_min r ≅k zr_min range /\
                  zr_max r ≅k zr_max range /\ zr_zone r = zr_zone range) \/
       (forall k r, (k, r) ∈ ds_zoneRanges d -> ~ overlaps r range) /\
       (forall x, x ∈ ds_zoneRanges d' <-> x = (zr_max range, range) \/ x ∈ ds_zoneRanges d))
  | Throw e =>
      e = RangeOverlapConflict /\
      exists k r, (k, r) ∈ ds_zoneRanges d /\ overlaps r range /\
        ~ (zr_min r ≅k zr_min range /\ zr_max r ≅k zr_max range /\ zr_zone r = zr_zone range)
  | Abort | Undef => False
  end.

Lemma addRangeToZone_spec d range :
  zones_ok (ds_zoneRanges d) -> zr_min range ≺ zr_max range -> add_zone_spec d range.
Proof.
  intros Hz Hr. pose proof Hz as [Hs He Hd]. unfold add_zone_spec, addRangeToZone. set (z := ds_zoneRanges d) in *.
  pose proof (upper_bound_mono (zr_min range) (zr_max range) z ltac:(korder)) as Hmono.
  destruct (Nat.eqb_spec (upper_bound (zr_min range) z) (upper_bound (zr_max range) z)) as [E|E]; cbn [negb].
  - assert (Hins : (forall k r, (k, r) ∈ z -> ~ overlaps r range) ->
      zones_ok (map_insert (zr_max range) range z) /\
      (forall x, x ∈ map_insert (zr_max range) range z <-> x = (zr_max range, range) \/ x ∈ z)).
    { intros Hno. assert (Hfresh : forall k r, (k, r) ∈ z -> ~ zr_max range ≅k k).
      { intros k r Hin Heq. destruct (He k r Hin) as [-> ?]. apply (Hno _ r Hin). split; korder. }
      assert (Hm : forall x, x ∈ map_insert (zr_max range) range z <-> x = (zr_max range, range) \/ x ∈ z)
        by (intros x; by apply elem_of_map_insert).
      split; [|done]. split; [by apply map_insert_sorted| |].
      - intros k r [[= -> ->]|Hin]%Hm; [done|by apply He].
      - intros k1 r1 k2 r2 [[= -> ->]|H1]%Hm [[= -> ->]|H2]%Hm Hlt; [korder| | |by eapply Hd].
        + destruct (He k2 r2 H2) as [-> ?]. destruct (kleb (zr_max range) (zr_min r2)) eqn:Ek; [korder|].
          destruct (Hno _ r2 H2). split; korder.
        + destruct (He k1 r1 H1) as [-> ?]. destruct (kleb (zr_max r1) (zr_min range)) eqn:Ek; [korder|].
          destruct (Hno _ r1 H1). split; korder. }
    destruct (z !! upper_bound (zr_min range) z) as [[k next]|] eqn:El.
    + destruct (upper_bound_Some _ _ _ _ Hs El) as (Hin & Hgt & Hleast). destruct (He k next Hin) as [-> Hne].
      assert (Hmax : zr_max range ≺ zr_max next) by (apply (upper_bound_after _ z _ _ next Hs El); lia).
      rewrite wo_gt, wo_lt. destruct (kltb (zr_min next) (zr_max range)) eqn:Ec.
      * rewrite (proj2 (kltb_spec _ _) Hmax). cbn. split; [done|]. exists (zr_max next), next.
        split; [done|]. split; [split; korder|]. intros (_ & ? & _). korder.
      * destruct Hins as [Hok Hm]; [|split; [exact Hok|right; split; [|exact Hm]]];
          (intros k r Hkr [Ha Hb]; destruct (He k r Hkr) as [-> ?];
           pose proof (Hleast _ _ Hkr Hb) as Hle; destruct (kltb (zr_max next) (zr_max r)) eqn:En;
           [pose proof (Hd _ _ _ _ Hin Hkr ltac:(korder)); korder|];
           assert (Heq : (zr_max r, r) = (zr_max next, next)) by (by apply (ksorted_unique z); [..|korder]);
           injection Heq as _ ->; korder).
    + assert (Hno : forall k r, (k, r) ∈ z -> ~ overlaps r range).
      { intros k r Hkr [_ Hb]. pose proof (upper_bound_None _ _ _ _ El Hkr). destruct (He k r Hkr) as [-> ?]. korder. }
      destruct (Hins Hno) as [Hok Hm]. split; [exact Hok|]. right. by split.
  - assert (Hlt : (upper_bound (zr_min range) z < upper_bound (zr_max range) z)%nat) by lia.
    destruct (z !! upper_bound (zr_min range) z) as [[k first]|] eqn:El.
    2:{ apply lookup_ge_None in El. pose proof (upper_bound_le_length (zr_max range) z). lia. }
    destruct (upper_bound_Some _ _ _ _ Hs El) as (Hin & Hgt & _). destruct (He k first Hin) as [-> Hne].
    pose proof (upper_bound_before _ z _ _ _ El Hlt) as Hle.
    rewrite wo_lt. rewrite (proj2 (kltb_spec _ _)) by korder. cbn [obind]. rewrite !wo_eq.
    destruct (keqb _ _ && keqb _ _ && _) eqn:Eq.
    + apply andb_true_iff in Eq as [[H1%keqb_spec H2%keqb_spec]%andb_true_iff H3%String.eqb_eq].
      split; [done|]. left. split; [done|]. by exists (zr_max first), first.
    + split; [done|]. exists (zr_max first), first. split; [done|]. split; [split; korder|].
      intros (H1 & H2 & H3). by rewrite (proj2 (keqb_spec _ _) H1), (proj2 (keqb_spec _ _) H2), H3, String.eqb_refl in Eq.
Qed.

(** Zones never overlap: adding a range to a set of disjoint zones refuses
    it exactly when it overlaps an existing range other than itself, accepts an
    identical range without a change, and otherwise adds just that range; the
    ranges stay disjoint, and no branch reads past the end of the map. *)
Lemma addRangeToZone_disjoint d range :
  zones_ok (ds_zoneRanges d) -> zr_min range ≺ zr_max range ->
  match addRangeToZone d range with
  | Ret d' =>
      zones_ok (ds_zoneRanges d') /\
      (d' = d /\ (exists k r, (k, r) ∈ ds_zoneRanges d /\ zr_min r ≅k zr_min range /\
                  zr_max r ≅k zr_max range /\ zr_zone r = zr_zone range) \/
       (forall k r, (k, r) ∈ ds_zoneRanges d -> ~ overlaps r range) /\
       (forall x, x ∈ ds_zoneRanges d' <-> x = (zr_max range, range) \/ x ∈ ds_zoneRanges d))
  | Throw e =>
      e = RangeOverlapConflict /\
      exists k r, (k, r) ∈ ds_zoneRanges d /\ overlaps r range /\
        ~ (zr_min r ≅k zr_min range /\ zr_max r ≅k zr_max range /\ zr_zone r = zr_zone range)
  | Abort | Undef => False
  end.
Proof. apply addRangeToZone_spec. Qed.

(** * The zone of a chunk *)

Definition holds (r : ZoneRange) (mn mx : BSONObj) : Prop := zr_min r ≼ mn /\ mx ≼ zr_max r.

Lemma upper_bound_at {V} k (l1 l2 : list (BSONObj * V)) k' v :
  (forall k1 v1, (k1, v1) ∈ l1 -> k1 ≼ k) -> k ≺ k' -> upper_bound k (l1 ++ (k', v) :: l2) = List.length l1.
Proof.
  intros H1 H2. induction l1 as [|[k1 v1] l1 IH]; simpl.
  - by rewrite (proj2 (kltb_spec _ _) H2).
  - pose proof (H1 k1 v1 ltac:(left)) as Hk. destruct (kltb k k1) eqn:E; [exfalso; korder|]. f_equal. apply IH.
    intros k2 v2 Hin. apply (H1 k2 v2). by right.
Qed.

Lemma lower_bound_at {V} k (l1 l2 : list (BSONObj * V)) k' v :
  (forall k1 v1, (k1, v1) ∈ l1 -> k1 ≺ k) -> k ≼ k' -> lower_bound k (l1 ++ (k', v) :: l2) = List.length l1.
Proof.
  intros H1 H2. induction l1 as [|[k1 v1] l1 IH]; simpl.
  - destruct (kltb k' k) eqn:E; [exfalso; korder|done].
  - pose proof (H1 k1 v1 ltac:(left)) as Hk. destruct (kltb k1 k) eqn:E; [|exfalso; korder]. f_equal. apply IH.
    intros k2 v2 Hin. apply (H1 k2 v2). by right.
Qed.

(** A chunk inside a zone has its tag. *)
Lemma tag_inside d chunk mn mx k r :
  zones_ok (ds_zoneRanges d) -> chunk_bounds chunk = Ret (mn, mx) -> mn ≺ mx ->
  (k, r) ∈ ds_zoneRanges d -> holds r mn mx -> getTagForChunk d chunk = Ret (zr_zone r).
Proof.
  intros Hz Hb Hlt Hin [H1 H2]. unfold getTagForChunk. rewrite Hb. cbn [obind].
  apply list_elem_of_split in Hin as (l1 & l2 & Hl). destruct Hz as [Hs He Hd]. rewrite Hl in *.
  destruct (He k r) as [-> Hr]; [apply elem_of_app; right; left|].
  assert (Hl1 : forall k1 v1, (k1, v1) ∈ l1 -> k1 ≼ mn).
  { intros k1 v1 Hk1. apply ksorted_app in Hs as (_ & _ & Hlt'). pose proof (Hlt' _ _ _ _ Hk1 ltac:(left)) as Hk.
    pose proof (Hd k1 v1 (zr_max r) r ltac:(apply elem_of_app; by left) ltac:(apply elem_of_app; right; left) Hk). korder. }
  rewrite upper_bound_at by (done || korder).
  rewrite lower_bound_at by (try korder; intros k1 v1 Hk1; pose proof (Hl1 k1 v1 Hk1); korder).
  rewrite Nat.eqb_refl. cbn [negb]. rewrite list_lookup_middle by done.
  rewrite !wo_le. by rewrite (proj2 (kleb_spec _ _) H1), (proj2 (kleb_spec _ _) H2).
Qed.

(** A tag other than the empty one comes from a zone that holds the chunk. *)
Lemma tag_from d chunk t :
  getTagForChunk d chunk = Ret t -> t <> "" ->
  exists mn mx k r, chunk_bounds chunk = Ret (mn, mx) /\ (k, r) ∈ ds_zoneRanges d /\ holds r mn mx /\ zr_zone r = t.
Proof.
  unfold getTagForChunk. intros ([mn mx] & Hb & Ht)%obind_Ret_inv Hne. destruct (negb _); [congruence|].
  destruct (ds_zoneRanges d !! _) as [[k r]|] eqn:El; [|congruence]. rewrite !wo_le in Ht.
  destruct (kleb _ _ && kleb _ _) eqn:E; [|congruence]. injection Ht as <-.
  apply andb_true_iff in E as [?%kleb_spec ?%kleb_spec]. exists mn, mx, k, r. split_and!; try done.
  by eapply list_elem_of_lookup_2.
Qed.

(** The tag of a chunk is the zone whose range holds the whole chunk, and
    empty when the chunk is in no zone or reaches across the border of one. *)
Lemma getTagForChunk_correct d chunk mn mx :
  zones_ok (ds_zoneRanges d) -> chunk_bounds chunk = Ret (mn, mx) -> mn ≺ mx ->
  exists t, getTagForChunk d chunk = Ret t /\
    (forall k r, (k, r) ∈ ds_zoneRanges d -> holds r mn mx -> t = zr_zone r) /\
    (t = "" \/ exists k r, (k, r) ∈ ds_zoneRanges d /\ holds r mn mx /\ zr_zone r = t).
Proof.
  intros Hz Hb Hlt. destruct (getTagForChunk d chunk) as [t|e| |] eqn:Et.
  2-4: exfalso; revert Et; unfold getTagForChunk; rewrite Hb; cbn [obind]; destruct (negb _); [done|];
    destruct (_ !! _) as [[? ?]|]; [destruct (_ && _)|]; done.
  exists t. split; [done|]. split.
  - intros k r Hin Hh. rewrite (tag_inside d chunk mn mx k r Hz Hb Hlt Hin Hh) in Et. by injection Et.
  - destruct (String.eqb_spec t "") as [->|Hne]; [by left|right].
    destruct (tag_from d chunk t Et Hne) as (mn' & mx' & k & r & Hb' & Hin & Hh & Hr).
    rewrite Hb in Hb'. injection Hb' as <- <-. by exists k, r.
Qed.

(** * Examples *)

Definition ex_border : BSONObj := [("x", VBool true)].
Definition ex_zone_low : ZoneRange := mkZone [("x", VMinKey)] ex_border "low".
Definition ex_zone_high : ZoneRange := mkZone ex_border [("x", VMaxKey)] "high".
Definition ex_zones : DistributionStatus := mkDist "t.c" [] [(ex_border, ex_zone_low)] [("low", ())].
Definition ex_zone_chunk : ChunkType := mkChunkType None (Some [("x", VMinKey)]) (Some [("x", VBool false)]) None None None.

Lemma ex_zones_ok : zones_ok (ds_zoneRanges ex_zones).
Proof.
  split.
  - repeat constructor.
  - intros k r [[= -> ->]|H%not_elem_of_nil]%elem_of_cons; [by vm_compute|done].
  - intros k1 r1 k2 r2 H1 H2 Hlt. apply list_elem_of_singleton in H1 as [= -> ->], H2 as [= -> ->]. exfalso. korder.
Qed.

Lemma addRangeToZone_disjoint_witness :
  exists d', addRangeToZone ex_zones ex_zone_high = Ret d' /\ zones_ok (ds_zoneRanges d') /\
    List.length (ds_zoneRanges d') = 2%nat.
Proof.
  pose proof (addRangeToZone_disjoint ex_zones ex_zone_high ex_zones_ok eq_refl) as H.
  destruct (addRangeToZone ex_zones ex_zone_high) as [d'| | |] eqn:E; [|vm_compute in E; discriminate E..].
  exists d'. split; [done|]. split; [exact (proj1 H)|]. vm_compute in E. by injection E as <-.
Defined.

Lemma getTagForChunk_correct_witness : exists t, getTagForChunk ex_zones ex_zone_chunk = Ret t /\ t = "low".
Proof.
  destruct (getTagForChunk_correct ex_zones ex_zone_chunk [("x", VMinKey)] [("x", VBool false)] ex_zones_ok eq_refl eq_refl)
    as (t & Ht & Hz & _).
  exists t. split; [exact Ht|]. apply (Hz ex_border ex_zone_low); [apply list_elem_of_singleton; reflexivity|by vm_compute].
Defined.
