(* ===== verification/BalancerRound.v ===== *)
(** A balancing round is safe: [BalancerPolicy::balance] terminates without
    failing an invariant, every migration it proposes has a reason and a
    suitable receiver, no shard takes part in two of them, and it leaves a
    draining shard or a misplaced chunk alone only when nothing can be done. *)

From stdpp Require Import base list strings gmap sorting.
From Stdlib Require Import ZArith Lia String.
From S2P Require Import Prelude OrdMap Bson ChunkVersion ChunkType ConfigChunks Balancer.
Local Open Scope string_scope.
Local Open Scope Z_scope.
Local Open Scope list_scope.
Local Open Scope outcome_scope.

(** * Well-formed input *)

(** The chunks of a collection by shard, for shards whose statistics are known. *)
Record dist_ok (stats : list ShardStatistics) (d : DistributionStatus) : Prop := {
  do_sorted : ksorted (ds_shardChunks d);
  do_chunk s l chunk : (s, l) ∈ ds_shardChunks d -> chunk ∈ l ->
    validate chunk = Ret () /\ _shard chunk = Some s /\ is_Some (_ns chunk);
  do_size s l : (s, l) ∈ ds_shardChunks d -> Z.of_nat (List.length l) < 2 ^ 32 - 1;
  do_known stat : stat ∈ stats -> is_Some (map_get (ss_shardId stat) (ds_shardChunks d));
  do_valid stat : stat ∈ stats -> ShardId_isValid (ss_shardId stat) = true;
  do_nodup : NoDup (ss_shardId <$> stats)
}.

Definition chunks_on (d : DistributionStatus) (s : ShardId) : list ChunkType :=
  default [] (map_get s (ds_shardChunks d)).
Definition tag_of (d : DistributionStatus) (chunk : ChunkType) : string :=
  match getTagForChunk d chunk with Ret t => t | _ => "" end.
Definition count_tag (d : DistributionStatus) (tag : string) (l : list ChunkType) : Z :=
  Z.of_nat (List.length (List.filter (fun c => String.eqb tag (tag_of d c)) l)).

(** A fold whose every step succeeds and extends what is known of the prefix. *)
Lemma ofold_prefix {A B} (P : list A -> B -> Prop) (f : B -> A -> Outcome B) (l : list A) (b : B) :
  P [] b ->
  (forall pre x b, x ∈ l -> P pre b -> exists b', f b x = Ret b' /\ P (pre ++ [x]) b') ->
  exists b', ofold f b l = Ret b' /\ P l b'.
Proof.
  intros H0 Hs. assert (H : forall post pre b, (forall x, x ∈ post -> x ∈ l) -> P pre b ->
    exists b', ofold f b post = Ret b' /\ P (pre ++ post) b').
  { induction post as [|x post IH]; intros pre b0 Hin HP; [exists b0; by rewrite app_nil_r|].
    destruct (Hs pre x b0 (Hin x ltac:(left)) HP) as (b1 & Hf & HP1). cbn [ofold]. rewrite Hf. cbn [obind].
    destruct (IH (pre ++ [x]) b1) as (b2 & H2 & HP2); [intros y Hy; apply Hin; by right|done|].
    exists b2. by rewrite <- app_assoc in HP2. }
  by apply (H l [] b).
Qed.

Lemma filter_length_lt {A} (f g : A -> bool) (l : list A) :
  (forall x, x ∈ l -> f x = true -> g x = true) -> (exists x, x ∈ l /\ f x = false /\ g x = true) ->
  (List.length (List.filter f l) < List.length (List.filter g l))%nat.
Proof.
  intros Hfg (y & Hy & Hfy & Hgy).
  assert (Hle : forall l', (forall x, x ∈ l' -> f x = true -> g x = true) ->
    (List.length (List.filter f l') <= List.length (List.filter g l'))%nat).
  { induction l' as [|x l' IH]; intros H; [done|]. cbn [List.filter].
    specialize (IH (fun z Hz => H z (list_elem_of_further _ _ _ Hz))).
    pose proof (H x ltac:(left)) as Hx. destruct (f x); [rewrite Hx by done; simpl; lia|]. destruct (g x); simpl; lia. }
  apply list_elem_of_split in Hy as (l1 & l2 & ->). rewrite !List.filter_app, !List.length_app. cbn [List.filter].
  rewrite Hfy, Hgy. cbn [List.length].
  pose proof (Hle l1 (fun x Hx => Hfg x (proj2 (elem_of_app _ _ _) (or_introl Hx)))).
  pose proof (Hle l2 (fun x Hx => Hfg x (proj2 (elem_of_app _ _ _) (or_intror (list_elem_of_further _ _ _ Hx))))). lia.
Qed.

Section round.
Context (stats : list ShardStatistics) (d : DistributionStatus) (Hok : dist_ok stats d).

Lemma chunks_on_elem s chunk :
  chunk ∈ chunks_on d s -> validate chunk = Ret () /\ _shard chunk = Some s /\ is_Some (_ns chunk).
Proof.
  unfold chunks_on. destruct (map_get s (ds_shardChunks d)) as [l|] eqn:E; [|by intros ?%not_elem_of_nil].
  apply map_get_Some in E as (s' & Hin & Hs); [|apply (do_sorted _ _ Hok)].
  apply slex_eq in Hs as <-. apply (do_chunk _ _ Hok s l chunk Hin).
Qed.

Lemma tag_Ret chunk : validate chunk = Ret () -> getTagForChunk d chunk = Ret (tag_of d chunk).
Proof.
  intros Hv. apply validate_inv in Hv as (mn & mx & v & s & H1 & H2 & _).
  unfold tag_of, getTagForChunk, chunk_bounds. rewrite H1, H2. cbn [obind]. destruct (negb _); [done|].
  destruct (_ !! _) as [[k r]|]; [|done]. by destruct (_ && _).
Qed.

Lemma getChunks_Ret stat : stat ∈ stats -> getChunks d (ss_shardId stat) = Ret (chunks_on d (ss_shardId stat)).
Proof.
  intros Hs. unfold getChunks, chunks_on. by destruct (do_known _ _ Hok stat Hs) as [l ->].
Qed.

Lemma size_on s : Z.of_nat (List.length (chunks_on d s)) < 2 ^ 32 - 1.
Proof.
  unfold chunks_on. destruct (map_get s (ds_shardChunks d)) as [l|] eqn:E; [|done].
  apply map_get_Some in E as (s' & Hin & Hs); [|apply (do_sorted _ _ Hok)]. by apply (do_size _ _ Hok s').
Qed.

Lemma count_le tag l : count_tag d tag l <= Z.of_nat (List.length l).
Proof. unfold count_tag. pose proof (List.filter_length_le (fun c => String.eqb tag (tag_of d c)) l). lia. Qed.

Lemma number_Ret stat : stat ∈ stats ->
  numberOfChunksInShard d (ss_shardId stat) = Ret (Z.of_nat (List.length (chunks_on d (ss_shardId stat)))).
Proof. intros Hs. unfold numberOfChunksInShard. by rewrite getChunks_Ret. Qed.

Lemma count_fold tag l n :
  (forall c, c ∈ l -> validate c = Ret ()) ->
  ofold (fun total chunk => let* t := getTagForChunk d chunk in
           Ret (if String.eqb tag t then total + 1 else total)) n l = Ret (n + count_tag d tag l).
Proof.
  revert n. unfold count_tag. induction l as [|c l IH]; intros n Hv; cbn [ofold List.filter].
  - cbn. f_equal. lia.
  - rewrite tag_Ret by (apply Hv; left). cbn [obind]. rewrite IH by (intros x Hx; apply Hv; by right).
    f_equal. destruct (String.eqb tag (tag_of d c)); [|done]. cbn [List.length]. lia.
Qed.

Lemma numberTag_Ret stat tag : stat ∈ stats ->
  numberOfChunksInShardWithTag d (ss_shardId stat) tag = Ret (count_tag d tag (chunks_on d (ss_shardId stat))).
Proof.
  intros Hs. unfold numberOfChunksInShardWithTag. rewrite getChunks_Ret by done. cbn [obind].
  rewrite count_fold; [done|]. intros c Hc. by apply (chunks_on_elem (ss_shardId stat)).
Qed.

Lemma totalTag_Ret tag : exists n, totalChunksWithTag d tag = Ret n.
Proof.
  unfold totalChunksWithTag. assert (H : forall l n, (forall x, x ∈ l -> x ∈ ds_shardChunks d) ->
    exists m, ofold (fun total sc => let* k := numberOfChunksInShardWithTag d sc.1 tag in Ret (total + k)) n l = Ret m).
  { induction l as [|[s cs] l IH]; intros n Hl; [by eexists|]. cbn [ofold fst].
    unfold numberOfChunksInShardWithTag, getChunks.
    assert (Hg : map_get s (ds_shardChunks d) = Some cs).
    { apply map_get_Some; [apply (do_sorted _ _ Hok)|]. exists s. split; [apply Hl; left|]. unfold keq. apply kcmp_refl. }
    rewrite Hg. cbn [obind]. rewrite count_fold. 2:{ intros c Hc. apply (do_chunk _ _ Hok s cs c); [apply Hl; left|done]. }
    cbn [obind]. apply IH. intros x Hx. apply Hl. by right. }
  by apply H.
Qed.

(** * Receivers and donors *)

Definition suitable (stat : ShardStatistics) (tag : string) : Prop := isShardSuitableReceiver stat tag = Ret ().

Lemma suitable_inv stat tag : suitable stat tag ->
  isSizeMaxed stat = false /\ ss_isDraining stat = false /\ (tag = "" \/ tag ∈ ss_shardTags stat).
Proof.
  unfold suitable, isShardSuitableReceiver. destruct (isSizeMaxed stat), (ss_isDraining stat); try done.
  destruct (String.eqb_spec tag ""); [by auto|]. cbn [negb andb].
  destruct (bool_decide_reflect (tag ∈ ss_shardTags stat)); [by auto|done].
Qed.

Definition free (used : gset ShardId) (stat : ShardStatistics) (tag : string) : Prop :=
  stat ∈ stats /\ (ss_shardId stat ∉ used) /\ suitable stat tag.

(** The receiver: none, only when no suitable shard is free, or the one with the
    fewest chunks. *)
Definition receiver_spec (used : gset ShardId) (tag : string) (to : ShardId) : Prop :=
  to = "" /\ (forall stat, ~ free used stat tag) \/
  exists stat, free used stat tag /\ ss_shardId stat = to /\
    forall stat', free used stat' tag ->
      (List.length (chunks_on d to) <= List.length (chunks_on d (ss_shardId stat')))%nat.

Lemma receiver_ok used tag :
  exists to, _getLeastLoadedReceiverShard stats d tag used = Ret to /\ receiver_spec used tag to.
Proof.
  unfold _getLeastLoadedReceiverShard.
  set (P := fun (pre : list ShardStatistics) (st : ShardId * Z) =>
    st = ("", 2 ^ 32 - 1) /\ (forall stat, stat ∈ pre -> ~ free used stat tag) \/
    exists stat, stat ∈ pre /\ free used stat tag /\
      st = (ss_shardId stat, Z.of_nat (List.length (chunks_on d (ss_shardId stat)))) /\
      forall stat', stat' ∈ pre -> free used stat' tag ->
        st.2 <= Z.of_nat (List.length (chunks_on d (ss_shardId stat')))).
  destruct (ofold_prefix P (least_loaded_step d tag used) stats ("", 2 ^ 32 - 1)) as ([to n] & Hf & HP).
  { left. split; [done|]. by intros stat ?%not_elem_of_nil. }
  { intros pre stat [best n] Hin Hinv.
    assert (Hskip : ~ free used stat tag -> P (pre ++ [stat]) (best, n)).
    { intros Hnf. destruct Hinv as [[Hb Hno]|(s0 & Hs0 & Hf & Hb & Hmin)]; [left|right].
      - split; [done|]. by intros s [Hs| ->%list_elem_of_singleton]%elem_of_app; [apply Hno|].
      - exists s0. split_and!; try done; [apply elem_of_app; by left|].
        by intros s' [Hs'| ->%list_elem_of_singleton]%elem_of_app; [apply Hmin|]. }
    unfold least_loaded_step. destruct (bool_decide_reflect (ss_shardId stat ∈ used)) as [Hu|Hu].
    { eexists. split; [done|]. apply Hskip. by intros (_ & ? & _). }
    destruct (isShardSuitableReceiver stat tag) as [[]|e| |] eqn:Hsu; cbn [is_Ret negb];
      try (eexists; split; [done|]; apply Hskip; intros (_ & _ & Hx); unfold suitable in Hx; congruence).
    rewrite number_Ret by done. cbn [obind]. pose proof (size_on (ss_shardId stat)) as Hsz. rewrite u32_id by lia.
    destruct (Z.leb_spec n (Z.of_nat (List.length (chunks_on d (ss_shardId stat))))) as [Hle|Hgt];
      (eexists; split; [done|]; right).
    - destruct Hinv as [[[= -> ->] _]|(s0 & Hs0 & Hf & Hb & Hmin)]; [lia|].
      exists s0. split_and!; try done; [apply elem_of_app; by left|].
      by intros s' [Hs'| ->%list_elem_of_singleton]%elem_of_app Hf'; [apply Hmin|].
    - exists stat. split_and!; try done; [apply elem_of_app; right; left|].
      intros s' [Hs'| ->%list_elem_of_singleton]%elem_of_app Hf'; [simpl|done].
      destruct Hinv as [[_ Hno]|(s0 & _ & _ & _ & Hmin)]; [by destruct (Hno s' Hs')|].
      specialize (Hmin s' Hs' Hf'). simpl in Hmin. lia. }
  rewrite Hf. exists to. split; [done|]. destruct HP as [[[= -> ->] Hno]|(s0 & Hs0 & Hfr & [= -> ->] & Hmin)].
  - left. split; [done|]. intros stat [Hs Hx]. by apply (Hno stat Hs).
  - right. exists s0. split_and!; try done. intros s' Hf'. specialize (Hmin s' (proj1 Hf') Hf'). simpl in Hmin. lia.
Qed.

(** The donor: none, only when no unused shard has chunks of the zone, or the
    one with the most. *)
Lemma donor_ok used tag :
  exists from, _getMostOverloadedShard stats d tag used = Ret from /\
    (from = "" /\ (forall stat, stat ∈ stats -> (ss_shardId stat ∉ used) ->
       count_tag d tag (chunks_on d (ss_shardId stat)) <= 0) \/
     exists stat, stat ∈ stats /\ ss_shardId stat = from /\ (from ∉ used) /\
       forall stat', stat' ∈ stats -> (ss_shardId stat' ∉ used) ->
         count_tag d tag (chunks_on d (ss_shardId stat')) <= count_tag d tag (chunks_on d from)).
Proof.
  unfold _getMostOverloadedShard.
  set (P := fun (pre : list ShardStatistics) (st : ShardId * Z) =>
    (st.1 = "" /\ st.2 = 0 \/ exists stat, stat ∈ stats /\ (ss_shardId stat ∉ used) /\
       st = (ss_shardId stat, count_tag d tag (chunks_on d (ss_shardId stat)))) /\
    forall stat', stat' ∈ pre -> (ss_shardId stat' ∉ used) ->
      count_tag d tag (chunks_on d (ss_shardId stat')) <= st.2).
  destruct (ofold_prefix P (most_overloaded_step d tag used) stats ("", 0)) as ([from n] & Hf & [HP Hmax]).
  { split; [by left|]. by intros stat ?%not_elem_of_nil. }
  { intros pre stat [worst n] Hin [Hinv Hmax]. unfold most_overloaded_step.
    destruct (bool_decide_reflect (ss_shardId stat ∈ used)) as [Hu|Hu].
    { eexists. split; [done|]. split; [done|]. by intros s' [Hs'| ->%list_elem_of_singleton]%elem_of_app Hn; [apply Hmax|]. }
    rewrite numberTag_Ret by done. cbn [obind]. pose proof (size_on (ss_shardId stat)) as Hsz.
    pose proof (count_le tag (chunks_on d (ss_shardId stat))) as Hle.
    rewrite u32_id by (unfold count_tag in *; lia).
    destruct (Z.leb_spec (count_tag d tag (chunks_on d (ss_shardId stat))) n); (eexists; split; [done|]; split).
    - done.
    - by intros s' [Hs'| ->%list_elem_of_singleton]%elem_of_app Hn; [apply Hmax|].
    - right. by exists stat.
    - intros s' [Hs'| ->%list_elem_of_singleton]%elem_of_app Hn; [|done]. specialize (Hmax s' Hs' Hn). simpl in *. lia. }
  rewrite Hf. exists from. split; [done|]. destruct HP as [[? E]|(s0 & Hs0 & Hn & [= -> ->])]; [left|right].
  { simpl in *. subst n. by split. }
  exists s0. by split_and!.
Qed.

(** * Sound migrations *)

(** The ideal number of chunks of a zone on a shard: the mean, rounded up. *)
Definition ideal_of (tag : string) : Z :=
  let total := if String.eqb tag "" then totalChunks d
               else match totalChunksWithTag d tag with Ret n => n | _ => 0 end in
  let shards := Z.of_nat (List.length (List.filter (has_tag tag) stats)) in
  total / shards + (if total mod shards =? 0 then 0 else 1).

Definition threshold_of (aggressive : bool) : Z :=
  if aggressive || (totalChunks d <? 20) then kAggressiveImbalanceThreshold else kDefaultImbalanceThreshold.

Definition count_on (tag : string) (stat : ShardStatistics) : Z :=
  count_tag d tag (chunks_on d (ss_shardId stat)).

(** Why a chunk may leave a shard for another. *)
Inductive why (threshold : Z) (from to : ShardStatistics) (chunk : ChunkType) : Prop :=
  | Draining : ss_isDraining from = true -> why threshold from to chunk
  | Misplaced : tag_of d chunk <> "" -> tag_of d chunk ∉ ss_shardTags from -> why threshold from to chunk
  | Imbalanced :
      threshold <= count_on (tag_of d chunk) from - ideal_of (tag_of d chunk) ->
      count_on (tag_of d chunk) to < ideal_of (tag_of d chunk) -> why threshold from to chunk.

Definition sound_move (threshold : Z) (m : MigrateInfo) : Prop :=
  exists from to chunk, from ∈ stats /\ to ∈ stats /\ ss_shardId from = mi_from m /\ ss_shardId to = mi_to m /\
    mi_from m <> mi_to m /\ chunk ∈ chunks_on d (mi_from m) /\ getJumbo chunk = false /\
    _min chunk = Some (mi_minKey m) /\ _max chunk = Some (mi_maxKey m) /\
    suitable to (tag_of d chunk) /\ why threshold from to chunk.

Definition shards_of (ms : list MigrateInfo) : list ShardId := ms ≫= (fun m => [mi_from m; mi_to m]).

Context (threshold : Z) (used0 : gset ShardId).

Record round_ok (st : Round) : Prop := {
  rk_sound : Forall (sound_move threshold) st.1;
  rk_distinct : NoDup (shards_of st.1);
  rk_fresh s : s ∈ shards_of st.1 -> s ∉ used0;
  rk_used s : s ∈ st.2 <-> s ∈ used0 \/ s ∈ shards_of st.1
}.

Lemma add_ok st from to chunk :
  round_ok st -> from ∈ stats -> to ∈ stats -> ss_shardId from ∉ st.2 -> ss_shardId to ∉ st.2 ->
  ss_shardId from <> ss_shardId to -> chunk ∈ chunks_on d (ss_shardId from) -> getJumbo chunk = false ->
  suitable to (tag_of d chunk) -> why threshold from to chunk ->
  exists st', add_migration st (ss_shardId from) (ss_shardId to) chunk = Ret st' /\ round_ok st' /\
    st'.2 = st.2 ∪ {[ss_shardId from]} ∪ {[ss_shardId to]}.
Proof.
  intros [Hs Hd Hf Hu] Hfrom Hto Hnf Hnt Hne Hc Hj Hsu Hw. destruct st as [ms used]. simpl in *.
  destruct (chunks_on_elem _ _ Hc) as (Hv & Hsh & [ns Hns]).
  pose proof (validate_inv chunk Hv) as (mn & mx & v & s & H1 & H2 & H3 & H4 & _).
  unfold newMigrateInfo. rewrite Hv, (do_valid _ _ Hok to Hto), Hns, Hsh, H1, H2, H3. cbn [invariant obind].
  rewrite bool_decide_eq_false_2 by done. cbn [negb invariant obind].
  rewrite bool_decide_eq_false_2 by set_solver. cbn [negb invariant obind].
  eexists. split; [reflexivity|]. split; [|done]. set (m := mkMigrate _ _ _ _ _ _).
  assert (Hshards : shards_of (ms ++ [m]) = shards_of ms ++ [ss_shardId from; ss_shardId to]).
  { unfold shards_of. rewrite bind_app. done. }
  split; simpl; rewrite ?Hshards.
  - apply Forall_app. split; [done|]. constructor; [|done]. by exists from, to, chunk.
  - apply NoDup_app. split_and!; [done| |].
    + intros x Hx. assert (x ∈ used) by (apply Hu; by right). set_solver.
    + apply NoDup_cons. split; [set_solver|apply NoDup_singleton].
  - intros x [Hx|Hx]%elem_of_app; [by apply Hf|]. assert (x ∉ used) by set_solver. intros ?. apply H. apply Hu. by left.
  - intros x. rewrite elem_of_app. specialize (Hu x). set_solver.
Qed.

(** * Draining and misplaced chunks *)

(** Every way out: a migration from the shard, or no chunk has a free receiver. *)
Lemma drain_ok from chunks st :
  round_ok st -> from ∈ stats -> ss_isDraining from = true -> ss_shardId from ∉ st.2 ->
  (forall c, c ∈ chunks -> c ∈ chunks_on d (ss_shardId from)) ->
  exists st', drain_chunks stats d (ss_shardId from) chunks st = Ret st' /\ round_ok st' /\
    (ss_shardId from ∈ st'.2 /\ st.2 ⊆ st'.2 \/
     st' = st /\ forall c, c ∈ chunks -> getJumbo c = false -> forall stat, ~ free st.2 stat (tag_of d c)).
Proof.
  intros Hr Hfrom Hdr Hnu. induction chunks as [|c chunks IH]; intros Hc; cbn [drain_chunks].
  { exists st. split_and!; [done|done|]. right. split; [done|]. by intros c ?%not_elem_of_nil. }
  destruct IH as (st1 & H1 & Hr1 & Hres); [intros c' Hc'; apply Hc; by right|].
  assert (Hskip : (getJumbo c = false -> forall stat, ~ free st.2 stat (tag_of d c)) ->
    exists st', drain_chunks stats d (ss_shardId from) chunks st = Ret st' /\ round_ok st' /\
    (ss_shardId from ∈ st'.2 /\ st.2 ⊆ st'.2 \/
     st' = st /\ forall c', c' ∈ c :: chunks -> getJumbo c' = false -> forall stat, ~ free st.2 stat (tag_of d c'))).
  { intros Hx. exists st1. split_and!; [done|done|]. destruct Hres as [?|[-> Hall]]; [by left|right]. split; [done|].
    intros c' [->|Hc']%elem_of_cons; [done|by apply Hall]. }
  destruct (getJumbo c) eqn:Hj; [by apply Hskip|].
  rewrite tag_Ret by (apply (chunks_on_elem (ss_shardId from)), Hc; left). cbn [obind].
  destruct (receiver_ok st.2 (tag_of d c)) as (to & Hto & Hspec). rewrite Hto. cbn [obind].
  destruct Hspec as [[-> Hno]|(stat & (Hin & Hn & Hs) & <- & _)]; [by apply Hskip|].
  rewrite (do_valid _ _ Hok stat Hin). cbn [negb]. destruct (suitable_inv _ _ Hs) as (_ & Hnd & _).
  assert (Hne : ss_shardId from <> ss_shardId stat).
  { intros E. rewrite (NoDup_fmap_eq ss_shardId stats from stat (do_nodup _ _ Hok) Hfrom Hin E) in Hdr. congruence. }
  destruct (String.eqb_spec (ss_shardId stat) (ss_shardId from)); [congruence|]. cbn [negb invariant obind].
  destruct (add_ok st from stat c) as (st' & Hadd & Hr' & Hu); try done; [apply Hc; left|by apply Draining|].
  exists st'. split_and!; [done|done|]. left. rewrite Hu. set_solver.
Qed.

Lemma zone_ok from chunks st :
  round_ok st -> from ∈ stats -> ss_shardId from ∉ st.2 ->
  (forall c, c ∈ chunks -> c ∈ chunks_on d (ss_shardId from)) ->
  exists st', zone_chunks stats d from chunks st = Ret st' /\ round_ok st' /\
    (ss_shardId from ∈ st'.2 /\ st.2 ⊆ st'.2 \/
     st' = st /\ forall c, c ∈ chunks -> getJumbo c = false -> tag_of d c <> "" -> (tag_of d c ∉ ss_shardTags from) ->
       forall stat, ~ free st.2 stat (tag_of d c)).
Proof.
  intros Hr Hfrom Hnu. induction chunks as [|c chunks IH]; intros Hc; cbn [zone_chunks].
  { exists st. split_and!; [done|done|]. right. split; [done|]. by intros c ?%not_elem_of_nil. }
  destruct IH as (st1 & H1 & Hr1 & Hres); [intros c' Hc'; apply Hc; by right|].
  assert (Hskip : (getJumbo c = false -> tag_of d c <> "" -> (tag_of d c ∉ ss_shardTags from) ->
      forall stat, ~ free st.2 stat (tag_of d c)) ->
    exists st', zone_chunks stats d from chunks st = Ret st' /\ round_ok st' /\
    (ss_shardId from ∈ st'.2 /\ st.2 ⊆ st'.2 \/
     st' = st /\ forall c', c' ∈ c :: chunks -> getJumbo c' = false -> tag_of d c' <> "" ->
       (tag_of d c' ∉ ss_shardTags from) -> forall stat, ~ free st.2 stat (tag_of d c'))).
  { intros Hx. exists st1. split_and!; [done|done|]. destruct Hres as [?|[-> Hall]]; [by left|right]. split; [done|].
    intros c' [->|Hc']%elem_of_cons; [done|by apply Hall]. }
  rewrite tag_Ret by (apply (chunks_on_elem (ss_shardId from)), Hc; left). cbn [obind].
  destruct (String.eqb_spec (tag_of d c) "") as [E|Hne]; [by apply Hskip|].
  destruct (bool_decide_reflect (tag_of d c ∈ ss_shardTags from)) as [Ht|Ht]; [by apply Hskip|].
  destruct (getJumbo c) eqn:Hj; [by apply Hskip|].
  destruct (receiver_ok st.2 (tag_of d c)) as (to & Hto & Hspec). rewrite Hto. cbn [obind].
  destruct Hspec as [[-> Hno]|(stat & (Hin & Hn & Hs) & <- & _)]; [by apply Hskip|].
  rewrite (do_valid _ _ Hok stat Hin). cbn [negb]. destruct (suitable_inv _ _ Hs) as (_ & _ & [?|Htag]); [done|].
  assert (Hx : ss_shardId from <> ss_shardId stat).
  { intros E. by rewrite (NoDup_fmap_eq ss_shardId stats from stat (do_nodup _ _ Hok) Hfrom Hin E) in Ht. }
  destruct (String.eqb_spec (ss_shardId stat) (ss_shardId from)); [congruence|]. cbn [negb invariant obind].
  destruct (add_ok st from stat c) as (st' & Hadd & Hr' & Hu); try done; [apply Hc; left|by apply Misplaced|].
  exists st'. split_and!; [done|done|]. left. rewrite Hu. set_solver.
Qed.

(** * Zones that are out of balance *)

Definition unused (used : gset ShardId) : list ShardStatistics :=
  List.filter (fun stat => negb (bool_decide (ss_shardId stat ∈ used))) stats.

Lemma unused_decreases used used' from :
  used ⊆ used' -> from ∈ stats -> (ss_shardId from ∉ used) -> ss_shardId from ∈ used' ->
  (List.length (unused used') < List.length (unused used))%nat.
Proof.
  intros Hsub Hf Hn Hin. unfold unused. apply filter_length_lt.
  - intros x _ Hx. apply negb_true_iff, bool_decide_eq_false in Hx.
    apply negb_true_iff, bool_decide_eq_false. set_solver.
  - exists from. split; [done|]. by rewrite bool_decide_eq_true_2, bool_decide_eq_false_2.
Qed.

Lemma donor_chunks_ok tag from to chunks st :
  round_ok st -> from ∈ stats -> to ∈ stats -> (ss_shardId from ∉ st.2) -> (ss_shardId to ∉ st.2) -> suitable to tag ->
  threshold <= count_on tag from - ideal_of tag -> count_on tag to < ideal_of tag -> ideal_of tag < count_on tag from ->
  (forall c, c ∈ chunks -> c ∈ chunks_on d (ss_shardId from)) ->
  exists again st', donor_chunks d tag (ss_shardId to) chunks st = Ret (again, st') /\ round_ok st' /\ st.2 ⊆ st'.2 /\
    if again then ss_shardId from ∈ st'.2
    else st' = st /\ forall c, c ∈ chunks -> tag_of d c = tag -> getJumbo c = true.
Proof.
  intros Hr Hfrom Hto Hnf Hnt Hsu Hth Hmin Hmax. induction chunks as [|c chunks IH]; intros Hc; cbn [donor_chunks].
  { exists false, st. split_and!; try done. by intros c ?%not_elem_of_nil. }
  destruct IH as (ag & st1 & H1 & Hr1 & Hsub & Hres); [intros c' Hc'; apply Hc; by right|].
  assert (Hcc := Hc c ltac:(left)). destruct (chunks_on_elem _ _ Hcc) as (Hv & Hsh & _).
  rewrite tag_Ret by done. cbn [obind].
  destruct (String.eqb_spec (tag_of d c) tag) as [<-|Hne]; cbn [negb].
  2:{ exists ag, st1. split_and!; try done. destruct ag; [done|]. destruct Hres as [-> Hall]. split; [done|].
      intros c' [->|Hc']%elem_of_cons; [done|by apply Hall]. }
  destruct (getJumbo c) eqn:Hj.
  { exists ag, st1. split_and!; try done. destruct ag; [done|]. destruct Hres as [-> Hall]. split; [done|].
    intros c' [->|Hc']%elem_of_cons; [done|by apply Hall]. }
  rewrite Hsh. assert (Hne : ss_shardId from <> ss_shardId to) by (unfold count_on in *; intros E; rewrite E in *; lia).
  destruct (add_ok st from to c) as (st' & -> & Hr' & Hu); try done; [by apply Imbalanced|].
  exists true, st'. cbn [obind]. split_and!; [done|done| |]; rewrite Hu; set_solver.
Qed.

(** Why a zone has nothing to move, with the donor and the receiver it looked at. *)
Inductive settled (tag : string) (used : gset ShardId) : Prop :=
  | NoDonor : (forall stat, stat ∈ stats -> (ss_shardId stat ∉ used) ->
                count_on tag stat <= ideal_of tag \/ count_on tag stat - ideal_of tag < threshold) ->
              settled tag used
  | NoReceiver : (forall stat, ~ free used stat tag) -> settled tag used
  | ReceiverFull to : free used to tag -> ideal_of tag <= count_on tag to ->
      (forall stat, free used stat tag ->
         (List.length (chunks_on d (ss_shardId to)) <= List.length (chunks_on d (ss_shardId stat)))%nat) ->
      settled tag used
  | AllJumbo from : from ∈ stats -> (ss_shardId from ∉ used) ->
      (forall c, c ∈ chunks_on d (ss_shardId from) -> tag_of d c = tag -> getJumbo c = true) ->
      (forall stat, stat ∈ stats -> (ss_shardId stat ∉ used) -> count_on tag stat <= count_on tag from) ->
      settled tag used.

Lemma single_ok tag st :
  0 <= ideal_of tag -> round_ok st ->
  exists again st', _singleZoneBalance stats d tag (ideal_of tag) threshold st = Ret (again, st') /\ round_ok st' /\
    st.2 ⊆ st'.2 /\
    if again then (List.length (unused st'.2) < List.length (unused st.2))%nat else st' = st /\ settled tag st.2.
Proof.
  intros Hi Hr. unfold _singleZoneBalance.
  destruct (donor_ok st.2 tag) as (from & -> & Hfrom). cbn [obind].
  assert (Hstop : settled tag st.2 -> exists again st', Ret (false, st) = Ret (again, st') /\ round_ok st' /\
    st.2 ⊆ st'.2 /\
    if again then (List.length (unused st'.2) < List.length (unused st.2))%nat else st' = st /\ settled tag st.2).
  { intros Hx. by exists false, st. }
  destruct Hfrom as [[-> Hno]|(sf & Hsf & <- & Hnf & Hmost)].
  { apply Hstop, NoDonor. intros stat Hs Hn. left. unfold count_on. pose proof (Hno stat Hs Hn). lia. }
  rewrite (do_valid _ _ Hok sf Hsf), numberTag_Ret by done. cbn [negb obind]. fold (count_on tag sf) in *.
  destruct (Z.leb_spec (count_on tag sf) (ideal_of tag)) as [Hle|Hgt].
  { apply Hstop, NoDonor. intros stat Hs Hn. left. pose proof (Hmost stat Hs Hn). unfold count_on. lia. }
  destruct (receiver_ok st.2 tag) as (to & -> & Hto). cbn [obind].
  destruct Hto as [[-> Hno]|(stt & (Hin & Hn & Hs) & <- & Hleast)]; [by apply Hstop, NoReceiver|].
  rewrite (do_valid _ _ Hok stt Hin), numberTag_Ret by done. cbn [negb obind]. fold (count_on tag stt).
  destruct (Z.leb_spec (ideal_of tag) (count_on tag stt)) as [Hle|Hlt]; [by apply Hstop, (ReceiverFull _ _ stt)|].
  destruct (Z.ltb_spec (count_on tag sf - ideal_of tag) threshold) as [Hth|Hth].
  { apply Hstop, NoDonor. intros stat Hs' Hn'. right. pose proof (Hmost stat Hs' Hn'). unfold count_on in *. lia. }
  rewrite getChunks_Ret by done. cbn [obind].
  destruct (donor_chunks_ok tag sf stt (chunks_on d (ss_shardId sf)) st) as (ag & st' & -> & Hr' & Hsub & Hres); try done.
  exists ag, st'. split_and!; try done. destruct ag.
  - by apply (unused_decreases _ _ sf).
  - destruct Hres as [-> Hall]. split; [done|]. by apply (AllJumbo _ _ sf).
Qed.

Lemma zone_loop_ok tag fuel st :
  0 <= ideal_of tag -> round_ok st -> (List.length (unused st.2) < fuel)%nat ->
  exists st', zone_loop fuel stats d tag (ideal_of tag) threshold st = Ret st' /\ round_ok st' /\ st.2 ⊆ st'.2 /\
    settled tag st'.2.
Proof.
  intros Hi. revert st. induction fuel as [|fuel IH]; intros st Hr Hf; [lia|]. cbn [zone_loop].
  destruct (single_ok tag st Hi Hr) as (ag & st1 & -> & Hr1 & Hsub & Hres). cbn [obind]. destruct ag.
  - destruct (IH st1 Hr1) as (st' & -> & Hr' & Hsub' & Hset); [lia|]. exists st'. split_and!; try done. set_solver.
  - destruct Hres as [-> Hset]. by exists st.
Qed.

Lemma total_nonneg : 0 <= totalChunks d.
Proof.
  unfold totalChunks. assert (H : forall (l : list (ShardId * list ChunkType)) n, 0 <= n ->
    0 <= foldl (fun total sc => total + Z.of_nat (List.length sc.2)) n l); [|by apply H].
  induction l as [|[s cs] l IH]; intros n Hn; [done|]. cbn [foldl]. apply IH. lia.
Qed.

Lemma totalTag_nonneg tag n : totalChunksWithTag d tag = Ret n -> 0 <= n.
Proof.
  unfold totalChunksWithTag. assert (H : forall (l : list (ShardId * list ChunkType)) m, 0 <= m ->
    ofold (fun total sc => let* k := numberOfChunksInShardWithTag d sc.1 tag in Ret (total + k)) m l = Ret n -> 0 <= n).
  { induction l as [|[s cs] l IH]; intros m Hm; cbn [ofold]; [congruence|].
    intros (m' & (k & Hk & [= <-])%obind_Ret_inv & Hl)%obind_Ret_inv. apply (IH (m + k)); [|done].
    revert Hk. unfold numberOfChunksInShardWithTag. intros (cs' & _ & Hk)%obind_Ret_inv.
    assert (Hc : forall cs a, 0 <= a -> ofold (fun total chunk => let* t := getTagForChunk d chunk in
        Ret (if String.eqb tag t then total + 1 else total)) a cs = Ret k -> 0 <= k).
    { clear. induction cs as [|c cs IH]; intros a Ha; cbn [ofold]; [congruence|].
      intros (a' & (t & _ & [= <-])%obind_Ret_inv & Hl)%obind_Ret_inv. apply IH in Hl; [done|]. destruct (String.eqb tag t); lia. }
    apply Hc in Hk; lia. }
  by apply H.
Qed.

Lemma ideal_nonneg tag : 0 <= ideal_of tag.
Proof.
  unfold ideal_of. set (total := if String.eqb tag "" then _ else _). set (n := Z.of_nat _).
  assert (0 <= total).
  { subst total. destruct (String.eqb tag ""); [apply total_nonneg|].
    destruct (totalTag_Ret tag) as [k Hk]. rewrite Hk. by apply (totalTag_nonneg tag). }
  assert (0 <= total / n).
  { destruct (Z.eq_dec n 0) as [->|]; [by rewrite Z.div_0_r|]. apply Z.div_pos; lia. }
  destruct (_ =? 0); lia.
Qed.

Lemma balance_tag_ok tag st :
  round_ok st ->
  exists st', balance_tag stats d threshold st tag = Ret st' /\ round_ok st' /\ st.2 ⊆ st'.2 /\
    (settled tag st'.2 \/ forall stat, stat ∈ stats -> has_tag tag stat = false).
Proof.
  intros Hr. unfold balance_tag. destruct (totalTag_Ret tag) as [k Hk].
  assert (Ht : (if String.eqb tag "" then Ret (totalChunks d) else totalChunksWithTag d tag) =
    Ret (if String.eqb tag "" then totalChunks d else match totalChunksWithTag d tag with Ret n => n | _ => 0 end)).
  { destruct (String.eqb tag ""); [done|by rewrite Hk]. }
  rewrite Ht. cbn [obind]. destruct (Z.eqb_spec (Z.of_nat (List.length (List.filter (has_tag tag) stats))) 0) as [E|E].
  - exists st. split_and!; try done. right. intros stat Hs. destruct (has_tag tag stat) eqn:Eh; [|done].
    assert (Hin : List.In stat (List.filter (has_tag tag) stats)) by (apply List.filter_In; by rewrite <- list_elem_of_In).
    destruct (List.filter _ stats); [done|]. cbn [List.length] in E. lia.
  - destruct (zone_loop_ok tag (S (List.length stats)) st) as (st' & Hl & Hr' & Hsub & Hset);
      [apply ideal_nonneg|done| |by exists st'; split_and!; [..|left]].
    unfold unused. pose proof (List.filter_length_le (fun stat => negb (bool_decide (ss_shardId stat ∈ st.2))) stats). lia.
Qed.

(** * The whole round *)

Definition stuck (movable : ShardStatistics -> ChunkType -> Prop) (used : gset ShardId) (from : ShardStatistics) : Prop :=
  (ss_shardId from ∉ used) -> forall c, c ∈ chunks_on d (ss_shardId from) -> getJumbo c = false -> movable from c ->
    forall stat, ~ free used stat (tag_of d c).

Lemma stuck_mono movable used used' from : used ⊆ used' -> stuck movable used from -> stuck movable used' from.
Proof.
  intros Hsub Hs Hn c Hc Hj Hm stat (Hin & Hu & Hsu). apply (Hs ltac:(set_solver) c Hc Hj Hm stat). split_and!; try done. set_solver.
Qed.

Definition drained (from : ShardStatistics) (_ : ChunkType) : Prop := ss_isDraining from = true.
Definition misplaced (from : ShardStatistics) (c : ChunkType) : Prop := tag_of d c <> "" /\ tag_of d c ∉ ss_shardTags from.

(** A pass over the shards in which each step leaves its shard used or stuck. *)
Lemma pass_ok movable f st :
  (forall st stat, stat ∈ stats -> round_ok st -> exists st', f st stat = Ret st' /\ round_ok st' /\ st.2 ⊆ st'.2 /\
     stuck movable st'.2 stat) ->
  round_ok st ->
  exists st', ofold f st stats = Ret st' /\ round_ok st' /\ st.2 ⊆ st'.2 /\ forall stat, stat ∈ stats -> stuck movable st'.2 stat.
Proof.
  intros Hf Hr. destruct (ofold_prefix (fun pre st' => round_ok st' /\ st.2 ⊆ st'.2 /\
    forall stat, stat ∈ pre -> stuck movable st'.2 stat) f stats st) as (st' & Ho & Hr' & Hsub & Hst).
  - split_and!; try done. by intros stat ?%not_elem_of_nil.
  - intros pre stat st1 Hin (Hr1 & Hsub1 & Hst1). destruct (Hf st1 stat Hin Hr1) as (st2 & H2 & Hr2 & Hsub2 & Hst2).
    exists st2. split_and!; try done; [set_solver|].
    intros s [Hs| ->%list_elem_of_singleton]%elem_of_app; [|done]. by apply (stuck_mono _ st1.2), Hst1.
  - by exists st'.
Qed.

Lemma drain_shard_ok st stat :
  stat ∈ stats -> round_ok st -> exists st', drain_shard stats d st stat = Ret st' /\ round_ok st' /\ st.2 ⊆ st'.2 /\
    stuck drained st'.2 stat.
Proof.
  intros Hs Hr. unfold drain_shard. destruct (ss_isDraining stat) eqn:Hd; cbn [negb].
  2:{ exists st. split_and!; try done. intros _ c _ _ Hm. unfold drained in Hm. congruence. }
  destruct (bool_decide_reflect (ss_shardId stat ∈ st.2)) as [Hu|Hu].
  { exists st. split_and!; try done. by intros ?. }
  rewrite getChunks_Ret by done. cbn [obind].
  destruct (drain_ok stat (chunks_on d (ss_shardId stat)) st) as (st' & -> & Hr' & Hres); try done.
  exists st'. split; [done|]. split; [done|]. destruct Hres as [[Hin Hsub]|[-> Hall]].
  - split; [done|]. by intros ?.
  - split; [done|]. intros _ c Hc Hj _. by apply Hall.
Qed.

Lemma zone_shard_ok st stat :
  stat ∈ stats -> round_ok st -> exists st', zone_shard stats d st stat = Ret st' /\ round_ok st' /\ st.2 ⊆ st'.2 /\
    stuck misplaced st'.2 stat.
Proof.
  intros Hs Hr. unfold zone_shard. destruct (bool_decide_reflect (ss_shardId stat ∈ st.2)) as [Hu|Hu].
  { exists st. split_and!; try done. by intros ?. }
  rewrite getChunks_Ret by done. cbn [obind].
  destruct (zone_ok stat (chunks_on d (ss_shardId stat)) st) as (st' & -> & Hr' & Hres); try done.
  exists st'. split; [done|]. split; [done|]. destruct Hres as [[Hin Hsub]|[-> Hall]].
  - split; [done|]. by intros ?.
  - split; [done|]. intros _ c Hc Hj [? ?]. by apply Hall.
Qed.

Lemma tags_ok l st :
  round_ok st -> exists st', ofold (balance_tag stats d threshold) st l = Ret st' /\ round_ok st' /\ st.2 ⊆ st'.2.
Proof.
  intros Hr. destruct (ofold_prefix (fun _ st' => round_ok st' /\ st.2 ⊆ st'.2) (balance_tag stats d threshold) l st)
    as (st' & ? & ? & ?); [done| |by exists st'].
  intros _ tag st1 _ [Hr1 Hsub]. destruct (balance_tag_ok tag st1 Hr1) as (st2 & ? & ? & ? & _).
  exists st2. split_and!; try done. set_solver.
Qed.
End round.

Lemma round_start stats d threshold used : round_ok stats d threshold used ([], used).
Proof. split; simpl; [done|by apply NoDup_nil|by intros s ?%not_elem_of_nil|]. intros s. rewrite elem_of_nil. tauto. Qed.

Lemma no_zone_tag d c : ds_zoneRanges d = [] -> tag_of d c = "".
Proof.
  intros Hz. unfold tag_of, getTagForChunk. rewrite Hz. destruct (chunk_bounds c) as [[mn mx]|e| |]; try done.
Qed.

Lemma untagged d c :
  (forall k r, (k, r) ∈ ds_zoneRanges d -> zr_zone r ∈ tags d) -> tags d = [] -> tag_of d c = "".
Proof.
  intros Hz Ht. apply no_zone_tag. destruct (ds_zoneRanges d) as [|[k r] z] eqn:E; [done|].
  exfalso. pose proof (Hz k r ltac:(left)) as Hin. rewrite Ht in Hin. by apply not_elem_of_nil in Hin.
Qed.

(** The round as a whole: drained shards, misplaced chunks, then every zone. *)
Lemma balance_ok stats d aggressive used :
  dist_ok stats d ->
  exists st, balance stats d aggressive used = Ret st /\ round_ok stats d (threshold_of d aggressive) used st /\
    (forall stat, stat ∈ stats -> stuck stats d drained st.2 stat) /\
    (tags d <> [] -> forall stat, stat ∈ stats -> stuck stats d (misplaced d) st.2 stat) /\
    (settled stats d (threshold_of d aggressive) "" st.2 \/ stats = []).
Proof.
  intros Hok. set (th := threshold_of d aggressive).
  destruct (pass_ok stats d Hok th used drained (drain_shard stats d) ([], used)) as (st1 & H1 & Hr1 & Hsub1 & Hst1);
    [intros st stat Hin Hr; by apply drain_shard_ok|apply round_start|].
  assert (H2 : exists st2, match tags d with [] => Ret st1 | _ => ofold (zone_shard stats d) st1 stats end = Ret st2 /\
    round_ok stats d th used st2 /\ st1.2 ⊆ st2.2 /\
    (tags d <> [] -> forall stat, stat ∈ stats -> stuck stats d (misplaced d) st2.2 stat)).
  { destruct (tags d) as [|t ts]; [by exists st1|].
    destruct (pass_ok stats d Hok th used (misplaced d) (zone_shard stats d) st1) as (st2 & ? & ? & ? & ?);
      [intros st stat Hin Hr; by apply zone_shard_ok|done|]. by exists st2. }
  destruct H2 as (st2 & H2 & Hr2 & Hsub2 & Hst2).
  destruct (tags_ok stats d Hok th used (tags d) st2 Hr2) as (st3 & H3 & Hr3 & Hsub3).
  destruct (balance_tag_ok stats d Hok th used "" st3 Hr3) as (st4 & H4 & Hr4 & Hsub4 & Hset).
  exists st4. split.
  { unfold balance. rewrite H1. cbn [obind]. rewrite H2. cbn [obind]. fold (threshold_of d aggressive). fold th.
    rewrite ofold_app, H3. cbn [obind ofold]. by rewrite H4. }
  split; [done|]. split; [|split].
  - intros stat Hs. apply (stuck_mono stats d Hok _ st1.2); [set_solver|by apply Hst1].
  - intros Ht stat Hs. apply (stuck_mono stats d Hok _ st2.2); [set_solver|by apply Hst2].
  - destruct Hset as [?|Hno]; [by left|right]. destruct stats as [|stat stats']; [done|]. by specialize (Hno stat ltac:(left)).
Qed.

(** * Totals *)

Lemma total_sum d : totalChunks d = Z.of_nat (sum_list_with (fun sc => List.length sc.2) (ds_shardChunks d)).
Proof.
  unfold totalChunks. assert (H : forall (l : list (ShardId * list ChunkType)) n,
    foldl (fun total sc => total + Z.of_nat (List.length sc.2)) n l =
    n + Z.of_nat (sum_list_with (fun sc => List.length sc.2) l)); [|by rewrite H].
  induction l as [|[s cs] l IH]; intros n; cbn [foldl sum_list_with]; [simpl; lia|]. rewrite IH. simpl. lia.
Qed.

Lemma total_bounds stats d :
  dist_ok stats d ->
  Z.of_nat (sum_list_with (fun s => List.length (chunks_on d s)) (ss_shardId <$> stats)) <= totalChunks d.
Proof.
  intros Hok. pose proof (do_sorted _ _ Hok) as Hs.
  assert (Heq : forall l, (forall x, x ∈ l -> x ∈ ds_shardChunks d) ->
    sum_list_with (fun sc => List.length sc.2) l = sum_list_with (fun s => List.length (chunks_on d s)) l.*1).
  { induction l as [|[s cs] l IH]; intros Hl; [done|]. cbn [sum_list_with fmap list_fmap fst snd].
    rewrite IH by (intros x Hx; apply Hl; by right). f_equal. unfold chunks_on.
    assert (Hg : map_get s (ds_shardChunks d) = Some cs); [|by rewrite Hg].
    apply map_get_Some; [done|]. exists s. split; [apply Hl; left|]. unfold keq. apply kcmp_refl. }
  rewrite total_sum, Heq by done.
  assert (Hsub : (ss_shardId <$> stats) ⊆+ (ds_shardChunks d).*1).
  { apply NoDup_submseteq; [apply (do_nodup _ _ Hok)|]. intros s (stat & -> & Hin)%list_elem_of_fmap.
    destruct (do_known _ _ Hok stat Hin) as [l Hl]. apply map_get_Some in Hl as (s' & Hin' & E); [|done].
    apply slex_eq in E as <-. apply list_elem_of_fmap. by exists (ss_shardId stat, l). }
  apply submseteq_Permutation in Hsub as [k ->]. rewrite sum_list_with_app. lia.
Qed.

Lemma sum_at_least {A} (f : A -> nat) (m : nat) (l : list A) x :
  x ∈ l -> (forall y, y ∈ l -> (m <= f y)%nat) -> (f x + m * (List.length l - 1) <= sum_list_with f l)%nat.
Proof.
  intros Hx Hall. apply list_elem_of_split in Hx as (l1 & l2 & ->).
  assert (Hs : forall l', (forall y, y ∈ l' -> (m <= f y)%nat) -> (m * List.length l' <= sum_list_with f l')%nat).
  { induction l' as [|y l' IH]; intros H; [simpl; lia|]. cbn [List.length sum_list_with].
    specialize (IH (fun z Hz => H z (list_elem_of_further _ _ _ Hz))). pose proof (H y ltac:(left)). lia. }
  rewrite sum_list_with_app, List.length_app. cbn [List.length sum_list_with].
  pose proof (Hs l1 (fun y Hy => Hall y (proj2 (elem_of_app _ _ _) (or_introl Hy)))).
  pose proof (Hs l2 (fun y Hy => Hall y (proj2 (elem_of_app _ _ _) (or_intror (list_elem_of_further _ _ _ Hy))))). nia.
Qed.

(** * Claims *)

(** C6: a balancing round always returns, without failing an invariant.  Every
    migration takes a movable chunk from the shard that has it to another shard
    that may receive it, for a reason: the shard drains, the chunk is outside
    its zone, or the zone is out of balance by the threshold.  No shard takes
    part in two migrations or in one when it was already in use, and exactly
    the shards of the migrations are marked as used. *)
Theorem balance_sound stats d aggressive used :
  dist_ok stats d ->
  exists migrations used', balance stats d aggressive used = Ret (migrations, used') /\
    Forall (sound_move stats d (threshold_of d aggressive)) migrations /\
    NoDup (shards_of migrations) /\
    (forall s, s ∈ shards_of migrations -> s ∉ used) /\
    (forall s, s ∈ used' <-> s ∈ used \/ s ∈ shards_of migrations).
Proof.
  intros Hok. destruct (balance_ok stats d aggressive used Hok) as ([ms used'] & Hb & [Hs Hn Hf Hu] & _).
  by exists ms, used'.
Qed.

(** C30: a round leaves no work that it could do: a chunk of a draining shard or a
    chunk outside its zone stays where it is only if it is jumbo, its shard
    takes part in a migration, or no unused shard may receive it. *)
Theorem balance_complete stats d aggressive used :
  dist_ok stats d -> (forall k r, (k, r) ∈ ds_zoneRanges d -> zr_zone r ∈ tags d) ->
  exists migrations used', balance stats d aggressive used = Ret (migrations, used') /\
    forall from c, from ∈ stats -> (ss_shardId from ∉ used') -> c ∈ chunks_on d (ss_shardId from) ->
      getJumbo c = false -> drained from c \/ misplaced d from c ->
      forall to, to ∈ stats -> (ss_shardId to ∉ used') -> isShardSuitableReceiver to (tag_of d c) <> Ret ().
Proof.
  intros Hok Hz. destruct (balance_ok stats d aggressive used Hok) as ([ms used'] & Hb & _ & Hdr & Hmis & _).
  exists ms, used'. split; [done|]. intros from c Hin Hn Hc Hj Hm to Hto Hnto Hs. destruct Hm as [Hm|Hm].
  - by apply (Hdr from Hin Hn c Hc Hj Hm to).
  - assert (tags d <> []) by (intros E; destruct Hm as [Hne _]; by apply Hne, untagged).
    by apply (Hmis H from Hin Hn c Hc Hj Hm to).
Qed.

(** A collection without zones, whose chunks can all move and whose shards
    may all receive, is balanced when a round proposes nothing: no shard is
    above the rounded mean by the threshold. *)
Lemma balance_settles stats d aggressive used' :
  dist_ok stats d -> ds_zoneRanges d = [] ->
  (forall stat, stat ∈ stats -> isShardSuitableReceiver stat "" = Ret ()) ->
  (forall stat c, stat ∈ stats -> c ∈ chunks_on d (ss_shardId stat) -> getJumbo c = false) ->
  balance stats d aggressive ∅ = Ret ([], used') ->
  forall stat, stat ∈ stats ->
    Z.of_nat (List.length (chunks_on d (ss_shardId stat))) < ideal_of stats d "" + threshold_of d aggressive.
Proof.
  intros Hok Hz Hsu Hj Hb stat Hin.
  destruct (balance_ok stats d aggressive ∅ Hok) as (st & Hb' & Hr & _ & _ & Hset).
  rewrite Hb in Hb'. injection Hb' as <-. simpl in Hset. assert (Hu : forall s, s ∉ used').
  { intros s Hs. apply (rk_used _ _ _ _ _ Hr) in Hs as [?|?%not_elem_of_nil]; set_solver. }
  assert (Hth : 1 <= threshold_of d aggressive) by (unfold threshold_of; by destruct (_ || _)).
  assert (Hcnt : forall s, count_on d "" s = Z.of_nat (List.length (chunks_on d (ss_shardId s)))).
  { intros s. unfold count_on, count_tag. f_equal. induction (chunks_on d (ss_shardId s)) as [|c cs IH]; [done|].
    cbn [List.filter]. rewrite no_zone_tag, String.eqb_refl by done. cbn [List.length]. by rewrite IH. }
  rewrite <- Hcnt. pose proof (ideal_nonneg stats d Hok "") as Hi. destruct Hset as [Hset|E]; [|by subst stats; apply not_elem_of_nil in Hin].
  destruct Hset as [Hd|Hno|to Hto Hfull Hleast|from Hfrom _ Hall Hmost].
  - destruct (Hd stat Hin (Hu _)); lia.
  - exfalso. apply (Hno stat). split_and!; try done. by apply Hsu.
  - enough (count_on d "" stat <= ideal_of stats d "") by lia. rewrite Hcnt in *.
    pose proof (total_bounds stats d Hok) as Ht.
    pose proof (sum_at_least (fun s => List.length (chunks_on d s)) (Z.to_nat (ideal_of stats d ""))
      (ss_shardId <$> stats) (ss_shardId stat)) as Hsum.
    rewrite length_fmap in Hsum. specialize (Hsum ltac:(apply list_elem_of_fmap; by exists stat)).
    assert (Hall : forall y, y ∈ ss_shardId <$> stats -> (Z.to_nat (ideal_of stats d "") <= List.length (chunks_on d y))%nat).
    { intros y (s & -> & Hs)%list_elem_of_fmap. pose proof (Hleast s ltac:(split_and!; [done|apply Hu|by apply Hsu])). lia. }
    specialize (Hsum Hall).
    assert (Hid : totalChunks d <= ideal_of stats d "" * Z.of_nat (List.length stats)).
    { unfold ideal_of. replace (List.filter (has_tag "") stats) with stats
        by (symmetry; apply List.forallb_filter_id, List.forallb_forall; done). cbn [String.eqb].
      set (n := Z.of_nat (List.length stats)). assert (0 < n) by (destruct stats; [by apply not_elem_of_nil in Hin|subst n; simpl; lia]).
      pose proof (Z.div_mod (totalChunks d) n ltac:(lia)). pose proof (Z.mod_pos_bound (totalChunks d) n ltac:(lia)).
      destruct (Z.eqb_spec (totalChunks d mod n) 0); nia. }
    assert (0 < List.length stats)%nat by (destruct stats; [by apply not_elem_of_nil in Hin|simpl; lia]). nia.
  - pose proof (Hmost stat Hin (Hu _)) as Hle. enough (count_on d "" from = 0) by lia. rewrite Hcnt.
    destruct (chunks_on d (ss_shardId from)) as [|c cs] eqn:E; [done|]. exfalso.
    pose proof (Hall c ltac:(left) (no_zone_tag d c Hz)). pose proof (Hj from c Hfrom) as Hjc. rewrite E in Hjc.
    specialize (Hjc ltac:(left)). congruence.
Qed.

(** * Examples *)

Definition dist_okb (stats : list ShardStatistics) (d : DistributionStatus) : bool :=
  forallb (fun sc => forallb (fun c => is_Ret (validate c) && bool_decide (_shard c = Some sc.1) &&
                        bool_decide (is_Some (_ns c))) sc.2 &&
                     (Z.of_nat (List.length sc.2) <? 2 ^ 32 - 1)) (ds_shardChunks d) &&
  forallb (fun stat => bool_decide (is_Some (map_get (ss_shardId stat) (ds_shardChunks d))) &&
                       ShardId_isValid (ss_shardId stat)) stats &&
  bool_decide (NoDup (ss_shardId <$> stats)).

Lemma dist_okb_spec stats d : ksorted (ds_shardChunks d) -> dist_okb stats d = true -> dist_ok stats d.
Proof.
  intros Hs [[H1 H2]%andb_true_iff H3%bool_decide_eq_true]%andb_true_iff.
  rewrite List.forallb_forall in H1, H2.
  assert (H1' : forall s l, (s, l) ∈ ds_shardChunks d -> forallb (fun c => is_Ret (validate c) &&
    bool_decide (_shard c = Some s) && bool_decide (is_Some (_ns c))) l = true /\ Z.of_nat (List.length l) < 2 ^ 32 - 1).
  { intros s l Hin%list_elem_of_In. apply H1, andb_true_iff in Hin as [? ?%Z.ltb_lt]. done. }
  split; [done| | | | |done].
  - intros s l c [Hf _]%H1' Hc. rewrite List.forallb_forall in Hf. apply list_elem_of_In, Hf in Hc.
    apply andb_true_iff in Hc as [[Hv ?%bool_decide_eq_true]%andb_true_iff ?%bool_decide_eq_true].
    by destruct (validate c) as [[]| | |].
  - by intros s l [_ ?]%H1'.
  - intros stat Hin%list_elem_of_In%H2. by apply andb_true_iff in Hin as [?%bool_decide_eq_true _].
  - intros stat Hin%list_elem_of_In%H2. by apply andb_true_iff in Hin as [_ ?].
Qed.

Definition ex_key (n : Z) : BSONObj :=
  match decide (in_i32 n = true) with left H => [("x", VInt (mkInt32 n H))] | right _ => [] end.
Definition ex_chunk (s : ShardId) (n : Z) : ChunkType :=
  mkChunkType (Some "t.c") (Some (ex_key n)) (Some (ex_key (n + 1)))
    (Some (newVersion (n + 1) 0 (mkOID "abcdefghijkl" eq_refl))) (Some s) None.
Definition ex_stat (s : ShardId) (draining : bool) (zones : list string) : ShardStatistics :=
  mkStat s 0 0 draining (list_to_set zones) "3.6".

(** Two chunks on a draining shard, one of them in a zone. *)
Definition ex_round : list ShardStatistics := [ex_stat "A" true []; ex_stat "B" false ["z"]; ex_stat "C" false []].
Definition ex_round_dist : DistributionStatus :=
  mkDist "t.c" [("A", [ex_chunk "A" 0; ex_chunk "A" 1]); ("B", []); ("C", [ex_chunk "C" 2])]
    [(ex_key 1, mkZone (ex_key 0) (ex_key 1) "z")] [("z", ())].

Lemma ex_round_ok : dist_ok ex_round ex_round_dist.
Proof. apply dist_okb_spec; [repeat constructor|by vm_compute]. Qed.

Lemma balance_sound_witness :
  exists migrations used', balance ex_round ex_round_dist false ∅ = Ret (migrations, used') /\
    Forall (sound_move ex_round ex_round_dist (threshold_of ex_round_dist false)) migrations /\
    NoDup (shards_of migrations) /\
    (forall s, s ∈ shards_of migrations -> s ∉ (∅ : gset ShardId)) /\
    (forall s, s ∈ used' <-> s ∈ (∅ : gset ShardId) \/ s ∈ shards_of migrations).
Proof. exact (balance_sound ex_round ex_round_dist false ∅ ex_round_ok). Defined.

Lemma balance_complete_witness :
  exists migrations used', balance ex_round ex_round_dist false ∅ = Ret (migrations, used') /\
    forall from c, from ∈ ex_round -> (ss_shardId from ∉ used') -> c ∈ chunks_on ex_round_dist (ss_shardId from) ->
      getJumbo c = false -> drained from c \/ misplaced ex_round_dist from c ->
      forall to, to ∈ ex_round -> (ss_shardId to ∉ used') -> isShardSuitableReceiver to (tag_of ex_round_dist c) <> Ret ().
Proof.
  apply (balance_complete ex_round ex_round_dist false ∅ ex_round_ok).
  intros k r [[= -> ->]|H%not_elem_of_nil]%elem_of_cons; [apply list_elem_of_singleton; reflexivity|done].
Defined.

(** The chunk of the zone moves to the shard of the zone. *)
Example ex_round_moves :
  match balance ex_round ex_round_dist false ∅ with
  | Ret (ms, _) => (fun m => (mi_from m, mi_to m, mi_minKey m)) <$> ms = [("A", "B", ex_key 0)]
  | _ => False
  end.
Proof. by vm_compute. Qed.

Definition ex_even : list ShardStatistics := [ex_stat "A" false []; ex_stat "B" false []].
Definition ex_even_dist : DistributionStatus :=
  mkDist "t.c" [("A", [ex_chunk "A" 0; ex_chunk "A" 1]); ("B", [ex_chunk "B" 2])] [] [].

Lemma balance_settles_witness : Z.of_nat (List.length (chunks_on ex_even_dist "A")) < 3.
Proof.
  refine (balance_settles ex_even ex_even_dist false ∅ _ eq_refl _ _ _ (ex_stat "A" false []) _).
  - apply dist_okb_spec; [repeat constructor|by vm_compute].
  - intros stat H. repeat (apply elem_of_cons in H as [->|H]); [by vm_compute..|by apply not_elem_of_nil in H].
  - intros stat c H Hc. repeat (apply elem_of_cons in H as [->|H]); [| |by apply not_elem_of_nil in H];
      vm_compute in Hc; repeat (apply elem_of_cons in Hc as [->|Hc]); try done; by apply not_elem_of_nil in Hc.
  - by vm_compute.
  - left.
Defined.

(** Zone z on three shards, its chunks unevenly spread; the shard without one
    holds chunks outside the zone. *)
Definition ex_zoned : list ShardStatistics := (fun s => ex_stat s false ["z"]) <$> ["A"; "B"; "C"].
Definition ex_zoned_dist : DistributionStatus :=
  mkDist "t.c" [("A", ex_chunk "A" <$> [0; 1; 2; 3]); ("B", ex_chunk "B" <$> [4; 5]); ("C", ex_chunk "C" <$> [6; 7; 8; 9])]
    [(ex_key 6, mkZone (ex_key 0) (ex_key 6) "z")] [("z", ())].

(** A zone can stay out of balance for ever.  The receiver is the shard
    with the fewest chunks of the whole collection, not of the zone: with four,
    two and no chunks of the zone on its three shards, where two is ideal, a
    round proposes nothing, because the shard without a chunk of the zone has
    chunks outside the zone. *)
Lemma zone_balance_stuck :
  dist_ok ex_zoned ex_zoned_dist /\
  (forall stat, stat ∈ ex_zoned -> isShardSuitableReceiver stat "z" = Ret ()) /\
  numberOfChunksInShardWithTag ex_zoned_dist "A" "z" = Ret 4 /\
  numberOfChunksInShardWithTag ex_zoned_dist "C" "z" = Ret 0 /\
  ideal_of ex_zoned ex_zoned_dist "z" = 2 /\
  balance ex_zoned ex_zoned_dist true ∅ = Ret ([], ∅).
Proof.
  split_and!; [|..|by vm_compute].
  - apply dist_okb_spec; [repeat constructor|by vm_compute].
  - intros stat H. repeat (apply elem_of_cons in H as [->|H]); [by vm_compute..|by apply not_elem_of_nil in H].
  - by vm_compute.
  - by vm_compute.
  - by vm_compute.
Qed.
