(* ===== verification/BalancerSelection.v ===== *)
(** The balancer's selection of work (balancer_chunk_selection_policy_impl.cpp):
    the distribution of a collection from its routing table and zones, the
    chunks to split because a zone border falls inside them, and the chunks to
    move, collection by collection.

    The cluster's statistics, the collections, their routing tables and their
    zones are read from the config servers and are arguments. *)

From stdpp Require Import base list strings gmap sorting.
From Stdlib Require Import ZArith Lia String.
From S2P Require Import Prelude OrdMap Tiling Bson ChunkVersion ChunkType ShardKey.
From S2P Require Import Chunk ChunkManager ConfigChunks ConfigCatalog Balancer BalancerRound.
Local Open Scope string_scope.
Local Open Scope Z_scope.
Local Open Scope list_scope.
Local Open Scope outcome_scope.

(** * The distribution of a collection *)

Record TagsType := mkTags { tg_min : BSONObj; tg_max : BSONObj; tg_tag : string }.

Definition chunk_of_entry (ns : string) (e : Chunk) : Outcome ChunkType :=
  let* c := setNS emptyChunkType ns in
  let* c := setMin c (getMin e) in
  let* c := setMax c (getMax e) in
  let c := setJumbo c (c_jumbo e) in
  let* c := setShard c (c_shardId e) in
  setVersion c (getLastmod e).

Definition push_chunk (ns : string) (m : list (ShardId * list ChunkType)) (entry : BSONObj * Chunk)
    : Outcome (list (ShardId * list ChunkType)) :=
  let* chunk := chunk_of_entry ns entry.2 in
  let s := c_shardId entry.2 in
  Ret (map_assign s (default [] (map_get s m) ++ [chunk]) m).

Fixpoint add_zones (keyPattern : KeyPattern) (collectionTags : list TagsType) (d : DistributionStatus)
    : Outcome (StatusWith DistributionStatus) :=
  match collectionTags with
  | [] => Ret (OK d)
  | tag :: collectionTags =>
      let* mn := extendRangeBound keyPattern (tg_min tag) false in
      let* mx := extendRangeBound keyPattern (tg_max tag) false in
      let* status := as_status (addRangeToZone d (mkZone mn mx (tg_tag tag))) in
      if_ok status (add_zones keyPattern collectionTags)
  end.

Definition createCollectionDistributionStatus (allShards : list ShardStatistics) (chunkMgr : ChunkManager)
    (getTagsForCollection : string -> StatusWith (list TagsType)) : Outcome (StatusWith DistributionStatus) :=
  let m := foldl (fun m stat => map_insert (ss_shardId stat) [] m) [] allShards in
  let* m := ofold (push_chunk (cm_nss chunkMgr)) m (cm_chunkMap chunkMgr) in
  if_ok (getTagsForCollection (cm_nss chunkMgr)) (fun collectionTags =>
    add_zones (skp_pattern (cm_shardKeyPattern chunkMgr)) collectionTags
      (newDistributionStatus (cm_nss chunkMgr) m)).

(** * Chunks to split *)

Record SplitInfo := mkSplitInfo {
  si_shardId : ShardId;
  si_nss : string;
  si_collectionVersion : ChunkVersion;
  si_chunkVersion : ChunkVersion;
  si_minKey : BSONObj;
  si_maxKey : BSONObj;
  si_splitKeys : list BSONObj
}.

Definition SplitCandidatesBuffer : Type := list (BSONObj * SplitInfo).

Definition push_split_key (si : SplitInfo) (k : BSONObj) : SplitInfo :=
  mkSplitInfo (si_shardId si) (si_nss si) (si_collectionVersion si) (si_chunkVersion si) (si_minKey si)
    (si_maxKey si) (si_splitKeys si ++ [k]).

Definition addSplitPoint (nss : string) (collectionVersion : ChunkVersion) (b : SplitCandidatesBuffer)
    (chunk : Chunk) (splitPoint : BSONObj) : Outcome SplitCandidatesBuffer :=
  match map_get (getMin chunk) b with
  | None =>
      Ret (map_insert (getMin chunk)
             (mkSplitInfo (c_shardId chunk) nss collectionVersion (getLastmod chunk) (getMin chunk)
                (getMax chunk) [splitPoint]) b)
  | Some si =>
      match last (si_splitKeys si) with
      | None => Undef
      | Some back =>
          if 0 <? woCompare splitPoint back then Ret (map_assign (getMin chunk) (push_split_key si splitPoint) b)
          else invariant (woCompare splitPoint back =? 0) ;* Ret b
      end
  end.

Definition done (b : SplitCandidatesBuffer) : list SplitInfo := b.*2.

(** The body of the loop over the zones. *)
Definition split_zone (nss : string) (cm : ChunkManager) (b : SplitCandidatesBuffer) (entry : BSONObj * ZoneRange)
    : Outcome SplitCandidatesBuffer :=
  let tagRange := entry.2 in
  let add := addSplitPoint nss (cm_collectionVersion cm) in
  let* chunkAtZoneMin := findIntersectingChunkWithSimpleCollation cm (zr_min tagRange) in
  invariant (0 <? woCompare (getMax chunkAtZoneMin) (zr_min tagRange)) ;*
  let* b :=
    if negb (woCompare (getMin chunkAtZoneMin) (zr_min tagRange) =? 0) then add b chunkAtZoneMin (zr_min tagRange)
    else Ret b in
  if woCompare (zr_max tagRange) (globalMax (skp_pattern (cm_shardKeyPattern cm))) =? 0 then Ret b
  else
    let* chunkAtZoneMax := findIntersectingChunkWithSimpleCollation cm (zr_max tagRange) in
    if negb (woCompare (getMin chunkAtZoneMax) (zr_max tagRange) =? 0) &&
       negb (woCompare (getMax chunkAtZoneMax) (zr_max tagRange) =? 0)
    then add b chunkAtZoneMax (zr_max tagRange)
    else Ret b.

Definition _getSplitCandidatesForCollection (nss : string) (shardStats : list ShardStatistics)
    (routingInfoStatus : StatusWith ChunkManager) (getTagsForCollection : string -> StatusWith (list TagsType))
    : Outcome (StatusWith (list SplitInfo)) :=
  if_ok routingInfoStatus (fun cm =>
    let* collInfoStatus := createCollectionDistributionStatus shardStats cm getTagsForCollection in
    if_ok collInfoStatus (fun distribution =>
      let* b := ofold (split_zone nss cm) [] (ds_zoneRanges distribution) in
      Ret (OK (done b)))).

(** * Chunks to move *)

(** Whether a border of the zone falls in the middle of a chunk. *)
Definition zone_inside_chunk (cm : ChunkManager) (tagRange : ZoneRange) : Outcome bool :=
  let* chunkAtZoneMin := findIntersectingChunkWithSimpleCollation cm (zr_min tagRange) in
  if negb (woCompare (getMin chunkAtZoneMin) (zr_min tagRange) =? 0) then Ret true
  else if woCompare (zr_max tagRange) (globalMax (skp_pattern (cm_shardKeyPattern cm))) =? 0 then Ret false
  else
    let* chunkAtZoneMax := findIntersectingChunkWithSimpleCollation cm (zr_max tagRange) in
    Ret (negb (woCompare (getMin chunkAtZoneMax) (zr_max tagRange) =? 0) &&
         negb (woCompare (getMax chunkAtZoneMax) (zr_max tagRange) =? 0)).

Fixpoint check_zones (cm : ChunkManager) (tagRanges : list (BSONObj * ZoneRange)) : Outcome (StatusWith unit) :=
  match tagRanges with
  | [] => Ret (OK ())
  | (_, tagRange) :: tagRanges =>
      let* inside := zone_inside_chunk cm tagRange in
      if inside then Ret (NotOK IllegalOperation) else check_zones cm tagRanges
  end.

Definition _getMigrateCandidatesForCollection (shardStats : list ShardStatistics)
    (routingInfoStatus : StatusWith ChunkManager) (getTagsForCollection : string -> StatusWith (list TagsType))
    (aggressiveBalanceHint : bool) (usedShards : gset ShardId) : Outcome (StatusWith Round) :=
  if_ok routingInfoStatus (fun cm =>
    let* collInfoStatus := createCollectionDistributionStatus shardStats cm getTagsForCollection in
    if_ok collInfoStatus (fun distribution =>
      let* checked := check_zones cm (ds_zoneRanges distribution) in
      if_ok checked (fun _ =>
        let* round := balance shardStats distribution aggressiveBalanceHint usedShards in
        Ret (OK round)))).

(** * All collections *)

(** The fields of a config.collections entry that the selection uses. *)
Record BalancedCollection := mkBalanced { bc_ns : string; bc_dropped : bool; bc_allowBalance : bool }.

Section select.
Context (shuffle : list BalancedCollection -> list BalancedCollection).
Context (routing : string -> StatusWith ChunkManager) (getTagsForCollection : string -> StatusWith (list TagsType)).

(** One collection; a failure of its status skips it. *)
Definition split_collection (shardStats : list ShardStatistics) (splitCandidates : list SplitInfo)
    (coll : BalancedCollection) : Outcome (list SplitInfo) :=
  if bc_dropped coll then Ret splitCandidates
  else
    let nss := bc_ns coll in
    let* candidatesStatus := _getSplitCandidatesForCollection nss shardStats (routing nss) getTagsForCollection in
    match candidatesStatus with
    | NotOK _ => Ret splitCandidates
    | OK candidates => Ret (splitCandidates ++ candidates)
    end.

Definition selectChunksToSplit (shardStatsStatus : StatusWith (list ShardStatistics))
    (collsStatus : StatusWith (list BalancedCollection)) : Outcome (StatusWith (list SplitInfo)) :=
  if_ok shardStatsStatus (fun shardStats =>
    if_ok collsStatus (fun collections =>
      match collections with
      | [] => Ret (OK [])
      | _ => let* splitCandidates := ofold (split_collection shardStats) [] (shuffle collections) in
             Ret (OK splitCandidates)
      end)).



Definition selectSpecificChunkToMove (shardStatsStatus : StatusWith (list ShardStatistics)) (chunk : ChunkType)
    : Outcome (StatusWith (option MigrateInfo)) :=
  if_ok shardStatsStatus (fun shardStats =>
    match _ns chunk with
    | None => Undef
    | Some ns =>
        if_ok (routing ns) (fun cm =>
          let* collInfoStatus := createCollectionDistributionStatus shardStats cm getTagsForCollection in
          if_ok collInfoStatus (fun distribution =>
            let* m := balanceSingleChunk chunk shardStats distribution in Ret (OK m)))
    end).

Definition checkMoveAllowed (shardStatsStatus : StatusWith (list ShardStatistics)) (chunk : ChunkType)
    (newShardId : ShardId) : Outcome (StatusWith unit) :=
  if_ok shardStatsStatus (fun shardStats =>
    match _ns chunk with
    | None => Undef
    | Some ns =>
        if_ok (routing ns) (fun cm =>
          let* collInfoStatus := createCollectionDistributionStatus shardStats cm getTagsForCollection in
          if_ok collInfoStatus (fun distribution =>
            match List.find (fun stat => String.eqb (ss_shardId stat) newShardId) shardStats with
            | None => Ret (NotOK ShardNotFound)
            | Some stat =>
                let* tag := getTagForChunk distribution chunk in
                as_status (isShardSuitableReceiver stat tag)
            end))
    end).
End select.

(** * The distribution is faithful *)

(** A routing table whose chunks are valid and whose shards have statistics. *)
Record table_ok (stats : list ShardStatistics) (cm : ChunkManager) : Prop := {
  to_chunk k c : (k, c) ∈ cm_chunkMap cm -> exists t, chunk_of_entry (cm_nss cm) c = Ret t /\ validate t = Ret ();
  to_size : Z.of_nat (List.length (cm_chunkMap cm)) < 2 ^ 32 - 1;
  to_valid stat : stat ∈ stats -> ShardId_isValid (ss_shardId stat) = true;
  to_nodup : NoDup (ss_shardId <$> stats)
}.

(** The chunks of a shard, in the order of the table. *)
Definition entries_on (s : ShardId) (m : ChunkMap) : list Chunk :=
  List.filter (fun c => String.eqb (c_shardId c) s) m.*2.

Lemma chunk_of_entry_inv ns c t :
  chunk_of_entry ns c = Ret t ->
  t = mkChunkType (Some ns) (Some (getMin c)) (Some (getMax c)) (Some (getLastmod c)) (Some (c_shardId c)) (Some (c_jumbo c)).
Proof.
  unfold chunk_of_entry. intros H. unfold setNS, setMin, setMax, setShard, setVersion in H.
  repeat (apply obind_Ret_inv in H as (? & H0 & H); inv_ret).
  repeat match goal with H : obind _ _ = Ret _ |- _ => apply obind_Ret_inv in H as (? & ? & H) end. by simplify_eq/=.
Qed.

Section distribution.
Context (stats : list ShardStatistics) (cm : ChunkManager) (Hok : table_ok stats cm).

Record built (pre : ChunkMap) (m : list (ShardId * list ChunkType)) : Prop := {
  bt_sorted : ksorted m;
  bt_list s l : (s, l) ∈ m -> Forall2 (fun c t => chunk_of_entry (cm_nss cm) c = Ret t) (entries_on s pre) l;
  bt_stat stat : stat ∈ stats -> is_Some (map_get (ss_shardId stat) m);
  bt_chunk k c : (k, c) ∈ pre -> is_Some (map_get (c_shardId c) m)
}.

Lemma built_start : built [] (foldl (fun m stat => map_insert (ss_shardId stat) [] m) [] stats).
Proof.
  assert (H : forall l m, ksorted m -> (forall s x, (s, x) ∈ m -> x = []) ->
    let m' := foldl (fun m stat => map_insert (ss_shardId stat) ([] : list ChunkType) m) m l in
    ksorted m' /\ (forall s x, (s, x) ∈ m' -> x = []) /\
    (forall s, is_Some (map_get s m) -> is_Some (map_get s m')) /\
    forall stat, stat ∈ l -> is_Some (map_get (ss_shardId stat) m')).
  { induction l as [|stat l IH]; intros m Hs Hm; cbn [foldl]; [split_and!; try done; by intros ? ?%not_elem_of_nil|].
    destruct (map_insert_any (ss_shardId stat) ([] : list ChunkType) m Hs) as (Hs1 & Hg & Hin & Hkeep).
    destruct (IH (map_insert (ss_shardId stat) [] m)) as (H1 & H2 & H3 & H4); [done| |].
    { intros s x [?|[-> ->]]%Hin; [by eapply Hm|done]. }
    split_and!; try done; [by intros s ?; apply H3, Hkeep|]. intros st [->|?]%elem_of_cons; [by apply H3|by apply H4]. }
  destruct (H stats [] ksorted_nil) as (H1 & H2 & _ & H4); [by intros ? ? ?%not_elem_of_nil|].
  split; [done| |done|by intros ? ? ?%not_elem_of_nil]. intros s l Hin. by rewrite (H2 _ _ Hin).
Qed.

Lemma built_step pre m k c :
  (k, c) ∈ cm_chunkMap cm -> built pre m ->
  exists m', push_chunk (cm_nss cm) m (k, c) = Ret m' /\ built (pre ++ [(k, c)]) m'.
Proof.
  intros Hin [Hs Hl Hst Hc]. destruct (to_chunk _ _ Hok k c Hin) as (t & Ht & _). unfold push_chunk. cbn [snd].
  rewrite Ht. cbn [obind]. eexists. split; [reflexivity|]. set (s := c_shardId c).
  destruct (map_assign_spec s (default [] (map_get s m) ++ [t]) m Hs) as (Hs' & (s' & Hk & Hin') & Hiff).
  apply string_keq in Hk as <-. assert (Heo : forall s', entries_on s' (pre ++ [(k, c)]) =
    entries_on s' pre ++ (if String.eqb s s' then [c] else [])).
  { intros s'. unfold entries_on. rewrite fmap_app, List.filter_app. by simpl. }
  split; [done| | |].
  - intros s' l Hs'l. rewrite Heo. destruct (String.eqb_spec s s') as [<-|Hne].
    + assert (l = default [] (map_get s m) ++ [t]) as ->.
      { assert (E : (s, l) = (s, default [] (map_get s m) ++ [t])); [|by injection E].
        apply (ksorted_unique (map_assign s (default [] (map_get s m) ++ [t]) m)); [done..|by apply string_keq]. }
      apply Forall2_app; [|by constructor]. destruct (map_get s m) as [l0|] eqn:E; simpl.
      * apply map_get_Some in E as (s1 & Hin1 & <-%string_keq); [|done]. by apply Hl.
      * destruct (entries_on s pre) as [|c0 l0] eqn:Ee; [done|]. exfalso.
        assert (Hc0 : List.In c0 (entries_on s pre)) by (rewrite Ee; by left).
        apply List.filter_In in Hc0 as [Hc0 Es%String.eqb_eq]. apply list_elem_of_In, list_elem_of_fmap in Hc0 as ([k0 c1] & -> & Hp).
        destruct (Hc k0 c1 Hp) as [x Hx]. simpl in Es. rewrite Es in Hx. congruence.
    + rewrite app_nil_r. apply Hl, Hiff; [by rewrite string_keq|done].
  - intros stat Hstat. by apply map_get_assign_some, Hst.
  - intros k' c' [Hp|E%list_elem_of_singleton]%elem_of_app; [by eapply map_get_assign_some, Hc|].
    injection E as -> ->. rewrite map_get_assign by done. done.
Qed.

Lemma built_all :
  exists m, ofold (push_chunk (cm_nss cm)) (foldl (fun m stat => map_insert (ss_shardId stat) [] m) [] stats)
    (cm_chunkMap cm) = Ret m /\ built (cm_chunkMap cm) m.
Proof.
  apply (ofold_prefix built); [apply built_start|]. intros pre [k c] m Hin Hb. by apply built_step.
Qed.
End distribution.

(** * Zones *)

Definition tagged (d : DistributionStatus) : Prop := forall k r, (k, r) ∈ ds_zoneRanges d -> zr_zone r ∈ tags d.
Definition zones_within (lo hi : BSONObj) (d : DistributionStatus) : Prop :=
  forall k r, (k, r) ∈ ds_zoneRanges d -> lo ≼ zr_min r /\ zr_max r ≼ hi.

(** The zones of the collection, completed to full shard keys, are ranges of
    the key space. *)
Definition tags_ok (kp : KeyPattern) (lo hi : BSONObj) (l : list TagsType) : Prop :=
  forall t, t ∈ l -> exists mn mx, extendRangeBound kp (tg_min t) false = Ret mn /\
    extendRangeBound kp (tg_max t) false = Ret mx /\ mn ≺ mx /\ lo ≼ mn /\ mx ≼ hi.

Lemma zones_ok_nil : zones_ok [].
Proof. split; [apply ksorted_nil|by intros ? ? ?%not_elem_of_nil|by intros ? ? ? ? ?%not_elem_of_nil]. Qed.

Lemma addRange_rest d range d' :
  ksorted (ds_allTags d) -> addRangeToZone d range = Ret d' ->
  ds_shardChunks d' = ds_shardChunks d /\ ksorted (ds_allTags d') /\
  (d' = d \/ zr_zone range ∈ tags d') /\ (forall t, t ∈ tags d -> t ∈ tags d').
Proof.
  intros Hs Ha. assert (H : d' = d \/ d' = mkDist (ds_nss d) (ds_shardChunks d)
    (map_insert (zr_max range) range (ds_zoneRanges d)) (map_insert (zr_zone range) () (ds_allTags d))).
  { revert Ha. unfold addRangeToZone. destruct (negb _).
    - destruct (_ !! _) as [[k r]|]; [|done]. intros (x & _ & Hx)%obind_Ret_inv. destruct (_ && _ && _); [|done].
      injection Hx as <-. by left.
    - destruct (_ !! _) as [[k r]|]; [|intros [= <-]; by right]. destruct (0 <? _).
      + by destruct (_ <? 0).
      + intros [= <-]. by right. }
  destruct H as [->| ->]; [by auto|]. cbn [ds_shardChunks ds_allTags].
  destruct (map_insert_any (zr_zone range) () (ds_allTags d) Hs) as (Hs' & [[] Hg] & Hin & Hkeep).
  assert (Hget : forall t, is_Some (map_get t (map_insert (zr_zone range) () (ds_allTags d))) ->
    t ∈ (map_insert (zr_zone range) () (ds_allTags d)).*1).
  { intros t [u (t' & Ht & <-%string_keq)%map_get_Some]; [|done]. apply list_elem_of_fmap. by exists (t, u). }
  split_and!; [done|done| |].
  - right. apply Hget. by exists ().
  - intros t ([t' u] & -> & Ht)%list_elem_of_fmap. apply Hget, Hkeep. exists u. apply map_get_Some; [done|].
    exists t'. split; [done|by apply string_keq].
Qed.

Lemma add_zones_ok kp lo hi l d :
  tags_ok kp lo hi l -> zones_ok (ds_zoneRanges d) -> ksorted (ds_allTags d) -> tagged d -> zones_within lo hi d ->
  match add_zones kp l d with
  | Ret (OK d') => ds_shardChunks d' = ds_shardChunks d /\ zones_ok (ds_zoneRanges d') /\ tagged d' /\ zones_within lo hi d'
  | Ret (NotOK e) => e = RangeOverlapConflict
  | _ => False
  end.
Proof.
  revert d. induction l as [|t l IH]; intros d Hl Hz Ht Htag Hw; cbn [add_zones]; [done|].
  destruct (Hl t ltac:(left)) as (mn & mx & -> & -> & Hlt & Hlo & Hhi). cbn [obind].
  set (range := mkZone mn mx (tg_tag t)).
  pose proof (addRangeToZone_spec d range Hz Hlt) as Hs. unfold add_zone_spec in Hs.
  destruct (addRangeToZone d range) as [d'|e| |] eqn:Ha; cbn [as_status obind if_ok]; try done; [|by apply Hs].
  destruct (addRange_rest d range d' Ht Ha) as (Hc & Hk & Hin & Hkeep). destruct Hs as [Hz' Hcase].
  assert (Hnew : forall k r, (k, r) ∈ ds_zoneRanges d' -> (k, r) ∈ ds_zoneRanges d \/ r = range /\ d' <> d).
  { intros k r Hkr. destruct Hcase as [[-> _]|[Hno Hm]]; [by left|]. apply Hm in Hkr as [[= -> ->]|?]; [|by left]. right.
    split; [done|]. intros ->. apply (Hno mx range); [apply Hm; by left|]. by split. }
  specialize (IH d'). rewrite Hc in IH. apply IH; try done.
  - intros t' Ht'. apply Hl. by right.
  - intros k r [Hkr|[-> Hne]]%Hnew; [by eapply Hkeep, Htag|]. by destruct Hin.
  - intros k r [Hkr|[-> _]]%Hnew; [by eapply Hw|done].
Qed.

(** * The distribution *)

Definition tags_fine (cm : ChunkManager) (lo hi : BSONObj) (sw : StatusWith (list TagsType)) : Prop :=
  match sw with OK l => tags_ok (skp_pattern (cm_shardKeyPattern cm)) lo hi l | NotOK _ => True end.

Lemma distribution_spec stats cm lo hi getTags :
  table_ok stats cm -> tags_fine cm lo hi (getTags (cm_nss cm)) ->
  match createCollectionDistributionStatus stats cm getTags with
  | Ret (OK d) =>
      dist_ok stats d /\ zones_ok (ds_zoneRanges d) /\ tagged d /\ zones_within lo hi d /\
      forall s, Forall2 (fun c t => chunk_of_entry (cm_nss cm) c = Ret t) (entries_on s (cm_chunkMap cm)) (chunks_on d s)
  | Ret (NotOK e) => getTags (cm_nss cm) = NotOK e \/ e = RangeOverlapConflict
  | _ => False
  end.
Proof.
  intros Hok Ht. unfold createCollectionDistributionStatus.
  destruct (built_all stats cm Hok) as (m & -> & [Hs Hl Hst Hc]). cbn [obind].
  destruct (getTags (cm_nss cm)) as [l|e]; cbn [if_ok]; [|by left].
  pose proof (add_zones_ok (skp_pattern (cm_shardKeyPattern cm)) lo hi l (newDistributionStatus (cm_nss cm) m) Ht
    zones_ok_nil ksorted_nil ltac:(by intros ? ? ?%not_elem_of_nil) ltac:(by intros ? ? ?%not_elem_of_nil)) as Ha.
  destruct (add_zones _ _ _) as [[d|e]|e| |]; [|by right|done..]. destruct Ha as (Hsc & Hz & Htag & Hw).
  cbn [newDistributionStatus ds_shardChunks] in Hsc. split_and!; try done.
  - split; rewrite ?Hsc; try done; try apply Hok.
    + intros s cs t Hin Ht'. pose proof (Hl s cs Hin) as H2. apply list_elem_of_lookup in Ht' as [i Hi].
      destruct (Forall2_lookup_r _ _ _ _ _ H2 Hi) as (c & Hci & Hct). apply list_elem_of_lookup_2 in Hci.
      apply list_elem_of_In, List.filter_In in Hci as [Hci Es%String.eqb_eq].
      apply list_elem_of_In, list_elem_of_fmap in Hci as ([k c'] & -> & Hkc). simpl in *.
      destruct (to_chunk _ _ Hok k c' Hkc) as (t' & Ht1 & Hv). rewrite Hct in Ht1. injection Ht1 as <-.
      apply chunk_of_entry_inv in Hct. subst t. split; [done|]. simpl. rewrite Es. split; [done|by eexists].
    + intros s cs Hin. rewrite <- (Forall2_length _ _ _ (Hl s cs Hin)). pose proof (to_size _ _ Hok).
      unfold entries_on. pose proof (List.filter_length_le (fun c => String.eqb (c_shardId c) s) (cm_chunkMap cm).*2) as Hle.
      rewrite length_fmap in Hle. lia.
  - intros s. unfold chunks_on. rewrite Hsc. destruct (map_get s m) as [cs|] eqn:E; simpl.
    + apply map_get_Some in E as (s' & Hin & <-%string_keq); [|done]. by apply Hl.
    + destruct (entries_on s (cm_chunkMap cm)) as [|c cs] eqn:Ee; [done|]. exfalso.
      assert (Hc0 : List.In c (entries_on s (cm_chunkMap cm))) by (rewrite Ee; by left).
      apply List.filter_In in Hc0 as [Hc0 Es%String.eqb_eq].
      apply list_elem_of_In, list_elem_of_fmap in Hc0 as ([k c1] & -> & Hp). simpl in Es.
      destruct (Hc k c1 Hp) as [x Hx]. rewrite Es in Hx. congruence.
Qed.

(** * Zone borders inside chunks *)

Lemma zones_ok_cons k r z :
  zones_ok ((k, r) :: z) -> zones_ok z /\ forall k' r', (k', r') ∈ z -> zr_max r ≼ zr_min r'.
Proof.
  intros [Hs He Hd]. destruct (He k r ltac:(left)) as [-> _]. apply ksorted_cons in Hs as [Hs Hlt]. split.
  - split; [done| |].
    + intros k' r' Hin. apply He. by right.
    + intros k1 r1 k2 r2 H1 H2. apply (Hd k1 r1 k2 r2); by right.
  - intros k' r' Hin. apply (Hd (zr_max r) r k' r'); [left|by right|by eapply Hlt].
Qed.

Section borders.
Context (nss : string) (cm : ChunkManager) (lo hi : BSONObj).
Context (Hwf : chunk_map_wf (cm_chunkMap cm)) (Ht : tiling getMin lo (cm_chunkMap cm) hi).
Context (Hhi : globalMax (skp_pattern (cm_shardKeyPattern cm)) ≅k hi).

Definition chunk_in (c : Chunk) : Prop := (getMax c, c) ∈ cm_chunkMap cm.
Definition inside (b : BSONObj) (c : Chunk) : Prop := chunk_in c /\ getMin c ≺ b /\ b ≺ getMax c.

Lemma find_in k :
  lo ≼ k -> k ≺ hi ->
  exists c, findIntersectingChunkWithSimpleCollation cm k = Ret c /\ chunk_in c /\ getMin c ≼ k /\ k ≺ getMax c.
Proof.
  intros Hlo Hk. destruct (tiling_lookup getMin lo _ hi k Ht Hlo Hk) as (mx & c & Hl & Hin & H1 & H2).
  destruct (proj2 Hwf mx c Hin) as [-> _]. exists c. rewrite find_simple.
  destruct (cm_chunkMap cm !! _) as [[mx' c']|] eqn:E; pose proof (eq_trans (eq_sym E) Hl) as E'; [|done].
  injection E' as -> ->.
  assert (Hc : chunk_containsKey c k = true) by (by apply chunk_containsKey_spec). rewrite Hc. by split_and!.
Qed.

Lemma chunk_unique c1 c2 k :
  chunk_in c1 -> chunk_in c2 -> getMin c1 ≼ k -> k ≺ getMax c1 -> getMin c2 ≼ k -> k ≺ getMax c2 -> c1 = c2.
Proof.
  intros H1 H2 Ha Hb Hc Hd.
  assert (E : (getMax c1, c1) = (getMax c2, c2)) by (by eapply (tiling_unique getMin lo _ hi)). by injection E.
Qed.

(** A split entry for a chunk: its data, and ascending points inside it. *)
Record split_of (bs : list BSONObj) (c : Chunk) (si : SplitInfo) : Prop := {
  so_shard : si_shardId si = c_shardId c;
  so_nss : si_nss si = nss;
  so_version : si_collectionVersion si = cm_collectionVersion cm /\ si_chunkVersion si = getLastmod c;
  so_bounds : si_minKey si = getMin c /\ si_maxKey si = getMax c;
  so_points : points_ascend (getMin c) (si_splitKeys si ++ [getMax c]);
  so_border k : k ∈ si_splitKeys si -> k ∈ bs;
  so_some : si_splitKeys si <> []
}.

(** The buffer after the borders [bs]. *)
Record buffer_ok (bs : list BSONObj) (b : SplitCandidatesBuffer) : Prop := {
  bo_sorted : ksorted b;
  bo_entry k si : (k, si) ∈ b -> exists c, chunk_in c /\ k ≅k getMin c /\ split_of bs c si;
  bo_complete x c : x ∈ bs -> inside x c -> exists k si y, (k, si) ∈ b /\ k ≅k getMin c /\ y ∈ si_splitKeys si /\ x ≅k y
}.

Lemma split_of_more bs x c si : split_of bs c si -> split_of (bs ++ [x]) c si.
Proof. intros [? ? ? ? ? Hb ?]. split; try done. intros k Hk. apply elem_of_app. left. by apply Hb. Qed.

Lemma buffer_skip bs b x : buffer_ok bs b -> (forall c, ~ inside x c) -> buffer_ok (bs ++ [x]) b.
Proof.
  intros [Hs He Hc] Hno. split; [done| |].
  - intros k si (c & ? & ? & ?)%He. exists c. split_and!; try done. by apply split_of_more.
  - intros y c [Hy| ->%list_elem_of_singleton]%elem_of_app Hin; [by apply Hc|by destruct (Hno c)].
Qed.

Lemma ascend_snoc s pts p x e :
  points_ascend s ((pts ++ [p]) ++ [e]) -> p ≺ x -> x ≺ e -> points_ascend s (((pts ++ [p]) ++ [x]) ++ [e]).
Proof.
  revert s. induction pts as [|q pts IH]; intros s; simpl; [intros (? & ? & _) ? ?; by split_and!|].
  intros [H1 H2] ? ?. split; [done|by apply IH].
Qed.

(** The next point of a chunk that has some. *)
Lemma buffer_push bs b c x si k pts back :
  buffer_ok bs b -> inside x c -> (k, si) ∈ b -> getMin c ≅k k -> split_of bs c si ->
  si_splitKeys si = pts ++ [back] -> back ≺ x ->
  buffer_ok (bs ++ [x]) (map_assign (getMin c) (push_split_key si x) b).
Proof.
  intros [Hs He Hc] (Hin & H1 & H2) Hk Ek [G1 G2 G3 G4 G5 G6 G7] Eb Hback.
  destruct (map_assign_spec (getMin c) (push_split_key si x) b Hs) as (Hs' & (k' & Hk' & Hin') & Hiff).
  assert (Hnew : split_of (bs ++ [x]) c (push_split_key si x)).
  { split; try done; simpl.
    - rewrite Eb in *. by apply ascend_snoc.
    - intros y [Hy| ->%list_elem_of_singleton]%elem_of_app; apply elem_of_app; [left; by apply G6|right; by left].
    - by intros []%app_eq_nil. }
  split; [done| |].
  - intros k1 v1 Hkv. destruct (keqb (getMin c) k1) eqn:E.
    + assert (Eq : (k1, v1) = (k', push_split_key si x)) by (apply (ksorted_unique _ _ _ _ _ Hs' Hkv Hin'); korder).
      injection Eq as -> ->. exists c. split_and!; [done|korder|done].
    + apply Hiff in Hkv; [|korder]. destruct (He k1 v1 Hkv) as (c' & ? & ? & ?). exists c'. split_and!; try done.
      by apply split_of_more.
  - intros y c' Hy Hy'. destruct (keqb (getMin c) (getMin c')) eqn:E.
    + exists k', (push_split_key si x). apply elem_of_app in Hy as [Hy| ->%list_elem_of_singleton].
      * destruct (Hc y c' Hy Hy') as (k1 & si1 & z & Hz1 & Hz2 & Hz3 & Hz4). exists z. split_and!; [done|korder| |done].
        assert (Eq : (k1, si1) = (k, si)) by (apply (ksorted_unique _ _ _ _ _ Hs Hz1 Hk); korder).
        injection Eq as -> ->. apply elem_of_app. by left.
      * exists x. split_and!; [done|korder|apply elem_of_app; right; by left|korder].
    + apply elem_of_app in Hy as [Hy| ->%list_elem_of_singleton].
      * destruct (Hc y c' Hy Hy') as (k1 & si1 & z & Hz1 & Hz2 & Hz3 & Hz4). exists k1, si1, z. split_and!; try done.
        apply Hiff; [korder|done].
      * destruct Hy' as (? & ? & ?). assert (c' = c) as -> by (apply (chunk_unique c' c x); done || korder). korder.
Qed.

Lemma add_point bs b c x :
  buffer_ok bs b -> inside x c -> (forall y, y ∈ bs -> y ≼ x) ->
  exists b', addSplitPoint nss (cm_collectionVersion cm) b c x = Ret b' /\ buffer_ok (bs ++ [x]) b'.
Proof.
  intros [Hs He Hc] (Hin & H1 & H2) Hle. unfold addSplitPoint.
  assert (Hsame : forall c', chunk_in c' -> getMin c' ≅k getMin c -> c' = c).
  { intros c' Hc' E. destruct (proj2 Hwf _ _ Hc') as [_ ?], (proj2 Hwf _ _ Hin) as [_ ?].
    destruct (kltb (getMin c) (getMin c')) eqn:?; apply (chunk_unique c' c (getMin c)); try done; korder. }
  destruct (map_get (getMin c) b) as [si|] eqn:Eg.
  - apply map_get_Some in Eg as (k & Hk & Ek); [|done]. destruct (He k si Hk) as (c' & Hc' & Ek' & Hsi).
    assert (c' = c) as -> by (apply Hsame; [done|korder]). clear Hc' Ek'.
    pose proof Hsi as [G1 G2 G3 G4 G5 G6 G7].
    destruct (List.exists_last G7) as (pts & back & Eb). rewrite Eb, last_snoc. rewrite Eb in G5, G6.
    assert (Hback : back ≼ x) by (apply Hle, G6, elem_of_app; right; by left). rewrite wo_gt.
    destruct (kltb back x) eqn:Ex.
    + eexists. split; [reflexivity|]. apply (buffer_push bs b c x si k pts back); try done. korder.
    + rewrite wo_eq. assert (Ee : keqb x back = true) by korder. rewrite Ee. exists b. split; [done|].
      split; [done| |].
      * intros k' v (c' & ? & ? & ?)%He. exists c'. split_and!; try done. by apply split_of_more.
      * intros y c' [Hy| ->%list_elem_of_singleton]%elem_of_app Hy'; [by apply Hc|].
        destruct Hy' as (? & ? & ?). assert (c' = c) as -> by (apply (chunk_unique c' c x); done || korder).
        exists k, si, back. split_and!; [done|korder|rewrite Eb; apply elem_of_app; right; by left|korder].
  - pose proof (map_get_None _ _ Hs Eg) as Hf. eexists. split; [reflexivity|].
    set (si := mkSplitInfo _ _ _ _ _ _ _).
    pose proof (fun e => elem_of_map_insert (getMin c) si b e Hs Hf) as Hm. split; [by apply map_insert_sorted| |].
    + intros k v [[= -> ->]|(c' & ? & ? & ?)%He]%Hm.
      * exists c. split_and!; [done|korder|]. split; try done; simpl; try (by split_and!).
        intros k ->%list_elem_of_singleton. apply elem_of_app. right. by left.
      * exists c'. split_and!; try done. by apply split_of_more.
    + intros y c' [Hy| ->%list_elem_of_singleton]%elem_of_app Hy'.
      * destruct (Hc y c' Hy Hy') as (k & si' & z & ? & ? & ? & ?). exists k, si', z. split_and!; try done. apply Hm. by right.
      * destruct Hy' as (? & ? & ?). assert (c' = c) as -> by (apply (chunk_unique c' c x); done || korder).
        exists (getMin c), si, x. split_and!; [apply Hm; by left|korder|by left|korder].
Qed.

(** One zone: both borders are dealt with. *)
Lemma split_zone_ok bs b k r :
  buffer_ok bs b -> (forall y, y ∈ bs -> y ≼ zr_min r) -> lo ≼ zr_min r -> zr_min r ≺ zr_max r -> zr_max r ≼ hi ->
  exists b', split_zone nss cm b (k, r) = Ret b' /\ buffer_ok (bs ++ [zr_min r; zr_max r]) b'.
Proof.
  intros Hb Hle Hlo Hlt Hr. unfold split_zone. cbn [snd].
  destruct (find_in (zr_min r)) as (c & -> & Hc & H1 & H2); [done|korder|]. cbn [obind].
  rewrite wo_gt, (proj2 (kltb_spec _ _) H2), wo_eq. cbn [invariant obind].
  assert (Hmin : exists b1, (if negb (keqb (getMin c) (zr_min r))
      then addSplitPoint nss (cm_collectionVersion cm) b c (zr_min r) else Ret b) = Ret b1 /\
    buffer_ok (bs ++ [zr_min r]) b1).
  { destruct (keqb (getMin c) (zr_min r)) eqn:E; cbn [negb].
    - exists b. split; [done|]. apply buffer_skip; [done|]. intros c' (? & ? & ?).
      assert (c' = c) as -> by (apply (chunk_unique c' c (zr_min r)); done || korder). korder.
    - apply add_point; [done| |done]. split_and!; [done|korder|done]. }
  destruct Hmin as (b1 & -> & Hb1). cbn [obind]. rewrite wo_eq.
  replace (bs ++ [zr_min r; zr_max r]) with ((bs ++ [zr_min r]) ++ [zr_max r]) by (by rewrite <- app_assoc).
  assert (Hall : forall y, y ∈ bs ++ [zr_min r] -> y ≼ zr_max r).
  { intros y [Hy| ->%list_elem_of_singleton]%elem_of_app; [pose proof (Hle y Hy)|]; korder. }
  destruct (keqb (zr_max r) (globalMax _)) eqn:Eg.
  - exists b1. split; [done|]. apply buffer_skip; [done|]. intros c' (Hc' & ? & ?).
    destruct (tiling_in getMin lo _ hi _ _ Ht Hc') as (? & ? & ?). korder.
  - destruct (find_in (zr_max r)) as (c2 & -> & Hc2 & H3 & H4); [korder..|]. cbn [obind]. rewrite !wo_eq.
    assert (Hne : keqb (getMax c2) (zr_max r) = false) by korder. rewrite Hne, andb_true_r.
    destruct (keqb (getMin c2) (zr_max r)) eqn:E; cbn [negb].
    + exists b1. split; [done|]. apply buffer_skip; [done|]. intros c' (? & ? & ?).
      assert (c' = c2) as -> by (apply (chunk_unique c' c2 (zr_max r)); done || korder). korder.
    + apply add_point; [done| |done]. split_and!; [done|korder|done].
Qed.

Definition borders (z : list (BSONObj * ZoneRange)) : list BSONObj := z ≫= (fun e => [zr_min e.2; zr_max e.2]).

Lemma border_of z x : x ∈ borders z <-> exists k r, (k, r) ∈ z /\ (x = zr_min r \/ x = zr_max r).
Proof.
  unfold borders. rewrite list_elem_of_bind. split.
  - intros ([k r] & Hx & Hin). exists k, r. split; [done|]. simpl in Hx. set_solver.
  - intros (k & r & Hin & Hx). exists (k, r). split; [simpl; set_solver|done].
Qed.

Lemma split_zones_ok zs bs b :
  zones_ok zs -> (forall k r, (k, r) ∈ zs -> lo ≼ zr_min r /\ zr_max r ≼ hi) ->
  (forall y k r, y ∈ bs -> (k, r) ∈ zs -> y ≼ zr_min r) -> buffer_ok bs b ->
  exists b', ofold (split_zone nss cm) b zs = Ret b' /\ buffer_ok (bs ++ borders zs) b'.
Proof.
  revert bs b. induction zs as [|[k r] zs IH]; intros bs b Hz Hw Hle Hb.
  { exists b. by rewrite app_nil_r. }
  destruct (zo_entry _ Hz k r ltac:(left)) as [-> Hlt]. destruct (Hw _ r ltac:(left)) as [Hlo Hr].
  destruct (split_zone_ok bs b (zr_max r) r) as (b1 & H1 & Hb1); try done; [intros y Hy; apply (Hle y (zr_max r)); [done|left]|].
  cbn [ofold]. rewrite H1. cbn [obind]. apply zones_ok_cons in Hz as [Hz Hnext].
  destruct (IH (bs ++ [zr_min r; zr_max r]) b1) as (b2 & H2 & Hb2); try done.
  - intros k' r' Hin. apply (Hw k' r'). by right.
  - intros y k' r' [Hy|Hy]%elem_of_app Hin; [apply (Hle y k'); [done|by right]|].
    pose proof (Hnext k' r' Hin). apply elem_of_cons in Hy as [->|Hy]; [korder|]. by apply list_elem_of_singleton in Hy as ->.
  - exists b2. split; [done|]. by rewrite <- app_assoc in Hb2.
Qed.

(** The check before balancing finds a border inside a chunk. *)
Lemma zone_inside_ok r :
  lo ≼ zr_min r -> zr_min r ≺ zr_max r -> zr_max r ≼ hi ->
  exists v, zone_inside_chunk cm r = Ret v /\
    (v = true <-> exists x c, (x = zr_min r \/ x = zr_max r) /\ inside x c).
Proof.
  intros Hlo Hlt Hr. unfold zone_inside_chunk.
  destruct (find_in (zr_min r)) as (c & -> & Hc & H1 & H2); [done|korder|]. cbn [obind]. rewrite wo_eq.
  destruct (keqb (getMin c) (zr_min r)) eqn:E; cbn [negb].
  2:{ exists true. split; [done|]. split; [|done]. intros _. exists (zr_min r), c. split; [by left|]. split_and!; [done|korder|done]. }
  assert (Hmin : forall c', ~ inside (zr_min r) c').
  { intros c' (? & ? & ?). assert (c' = c) as -> by (apply (chunk_unique c' c (zr_min r)); done || korder). korder. }
  rewrite wo_eq. destruct (keqb (zr_max r) (globalMax _)) eqn:Eg.
  { exists false. split; [done|]. split; [done|]. intros (x & c' & [->| ->] & Hin); [by apply Hmin in Hin|].
    destruct Hin as (Hc' & ? & ?). destruct (tiling_in getMin lo _ hi _ _ Ht Hc') as (? & ? & ?). korder. }
  destruct (find_in (zr_max r)) as (c2 & -> & Hc2 & H3 & H4); [korder..|]. cbn [obind]. rewrite !wo_eq.
  assert (Hne : keqb (getMax c2) (zr_max r) = false) by korder. rewrite Hne, andb_true_r.
  eexists. split; [reflexivity|]. destruct (keqb (getMin c2) (zr_max r)) eqn:E2; cbn [negb]; (split; [|]); try done.
  - intros (x & c' & [->| ->] & Hin); [by apply Hmin in Hin|]. destruct Hin as (? & ? & ?).
    assert (c' = c2) as -> by (apply (chunk_unique c' c2 (zr_max r)); done || korder). korder.
  - intros _. exists (zr_max r), c2. split; [by right|]. split_and!; [done|korder|done].
Qed.

Lemma check_zones_ok zs :
  zones_ok zs -> (forall k r, (k, r) ∈ zs -> lo ≼ zr_min r /\ zr_max r ≼ hi) ->
  exists v, check_zones cm zs = Ret v /\
    (v = OK () /\ (forall x c, x ∈ borders zs -> ~ inside x c) \/
     v = NotOK IllegalOperation /\ exists x c, x ∈ borders zs /\ inside x c).
Proof.
  induction zs as [|[k r] zs IH]; intros Hz Hw; cbn [check_zones].
  { eexists. split; [done|]. left. split; [done|]. by intros x c ?%not_elem_of_nil. }
  destruct (zo_entry _ Hz k r ltac:(left)) as [-> Hlt]. destruct (Hw _ r ltac:(left)) as [Hlo Hr].
  destruct (zone_inside_ok r Hlo Hlt Hr) as (v & -> & Hv). cbn [obind]. apply zones_ok_cons in Hz as [Hz _].
  assert (Hb : forall x, x ∈ borders ((zr_max r, r) :: zs) <-> (x = zr_min r \/ x = zr_max r) \/ x ∈ borders zs).
  { intros x. unfold borders. rewrite bind_cons, elem_of_app. simpl. set_solver. }
  destruct v.
  - eexists. split; [done|]. right. split; [done|]. destruct Hv as [Hv _]. destruct (Hv eq_refl) as (x & c & Hx & Hin).
    exists x, c. split; [apply Hb; by left|done].
  - destruct IH as (v' & -> & Hv'); [done|intros k' r' Hin; apply (Hw k' r'); by right|]. eexists. split; [done|].
    destruct Hv' as [[-> Hno]|[-> (x & c & Hx & Hin)]]; [left|right]; (split; [done|]).
    + intros x c [Hx|Hx]%Hb Hin; [|by apply (Hno x c)]. destruct Hv as [_ Hv]. by discriminate (Hv (ex_intro _ x (ex_intro _ c (conj Hx Hin)))).
    + exists x, c. split; [apply Hb; by right|done].
Qed.

Lemma buffer_done_sorted bs b : buffer_ok bs b -> StronglySorted klt (si_minKey <$> done b).
Proof.
  intros [Hs He _]. unfold done. induction b as [|[k si] b IH]; [constructor|]. cbn [fmap list_fmap snd].
  apply ksorted_cons in Hs as [Hs Hlt]. constructor; [apply IH; [done|]; intros k' si' Hin; apply He; by right|].
  destruct (He k si ltac:(left)) as (c & _ & Hk & Hsi). destruct (so_bounds _ _ _ Hsi) as [-> _].
  apply Forall_forall. intros y (si' & -> & ([k' si''] & -> & Hin)%list_elem_of_fmap)%list_elem_of_fmap.
  destruct (He k' si'' ltac:(by right)) as (c' & _ & Hk' & Hsi'). simpl. destruct (so_bounds _ _ _ Hsi') as [-> _].
  pose proof (Hlt _ _ Hin). korder.
Qed.
End borders.

(** * Claims *)

(** A routing table that covers the key space and zones that lie in it. *)
Record collection_ok (stats : list ShardStatistics) (getTags : string -> StatusWith (list TagsType))
    (cm : ChunkManager) (lo hi : BSONObj) : Prop := {
  co_table : table_ok stats cm;
  co_wf : chunk_map_wf (cm_chunkMap cm);
  co_tiling : tiling getMin lo (cm_chunkMap cm) hi;
  co_max : globalMax (skp_pattern (cm_shardKeyPattern cm)) ≅k hi;
  co_tags : tags_fine cm lo hi (getTags (cm_nss cm))
}.

(** The distribution the balancer works on is that of the routing table:
    under each shard, in order, exactly the chunks the table gives it, an entry
    for every shard with statistics, and disjoint zones within the key space.
    It fails only when the zones cannot be read or overlap. *)
Lemma distribution_correct stats cm lo hi getTags :
  collection_ok stats getTags cm lo hi ->
  match createCollectionDistributionStatus stats cm getTags with
  | Ret (OK d) =>
      dist_ok stats d /\ zones_ok (ds_zoneRanges d) /\ tagged d /\ zones_within lo hi d /\
      forall s, Forall2 (fun c t => chunk_of_entry (cm_nss cm) c = Ret t) (entries_on s (cm_chunkMap cm)) (chunks_on d s)
  | Ret (NotOK e) => getTags (cm_nss cm) = NotOK e \/ e = RangeOverlapConflict
  | _ => False
  end.
Proof. intros [Hok _ _ _ Ht]. by apply (distribution_spec stats cm lo hi). Qed.

Lemma split_candidates_spec nss stats cm lo hi getTags d :
  collection_ok stats getTags cm lo hi -> createCollectionDistributionStatus stats cm getTags = Ret (OK d) ->
  exists b, _getSplitCandidatesForCollection nss stats (OK cm) getTags = Ret (OK (done b)) /\
    buffer_ok nss cm (borders (ds_zoneRanges d)) b.
Proof.
  intros [Hok Hwf Htl Hmax Ht] Hd. pose proof (distribution_spec stats cm lo hi getTags Hok Ht) as Hs. rewrite Hd in Hs.
  destruct Hs as (_ & Hz & _ & Hw & _).
  destruct (split_zones_ok nss cm lo hi Hwf Htl Hmax (ds_zoneRanges d) [] []) as (b & Hb & Hbo); try done.
  - by intros y k r ?%not_elem_of_nil.
  - split; [apply ksorted_nil|by intros ? ? ?%not_elem_of_nil..].
  - exists b. split; [|done]. unfold _getSplitCandidatesForCollection. cbn [if_ok]. rewrite Hd. cbn [obind if_ok]. by rewrite Hb.
Qed.

(** The chunks to split are exactly those with a zone border inside.  Each
    is listed once, with its shard, version and bounds, and with split points
    that strictly ascend inside the chunk and are all the borders in it. *)
Lemma split_candidates_exact nss stats cm lo hi getTags d :
  collection_ok stats getTags cm lo hi -> createCollectionDistributionStatus stats cm getTags = Ret (OK d) ->
  exists splits, _getSplitCandidatesForCollection nss stats (OK cm) getTags = Ret (OK splits) /\
    StronglySorted klt (si_minKey <$> splits) /\
    (forall si, si ∈ splits -> exists c, chunk_in cm c /\ split_of nss cm (borders (ds_zoneRanges d)) c si) /\
    (forall x c, x ∈ borders (ds_zoneRanges d) -> inside cm x c ->
       exists si y, si ∈ splits /\ si_minKey si = getMin c /\ y ∈ si_splitKeys si /\ x ≅k y).
Proof.
  intros Hco Hd. destruct (split_candidates_spec nss stats cm lo hi getTags d Hco Hd) as (b & Hb & Hbo).
  destruct Hco as [_ Hwf Htl Hmax _]. exists (done b). split; [done|]. split; [exact (buffer_done_sorted nss cm hi Hmax _ b Hbo)|].
  destruct Hbo as [Hs He Hc]. split.
  - intros si ([k si'] & -> & (c & Hc1 & _ & Hsi)%He)%list_elem_of_fmap. by exists c.
  - intros x c Hx Hin. destruct (Hc x c Hx Hin) as (k & si & y & Hk & Ek & Hy & Hxy). exists si, y.
    split; [apply list_elem_of_fmap; by exists (k, si)|]. split; [|done].
    destruct (He k si Hk) as (c' & Hc' & Ek' & Hsi). destruct (so_bounds _ _ _ _ _ Hsi) as [-> _].
    destruct Hin as (Hc1 & _). destruct (proj2 Hwf _ _ Hc') as [_ ?], (proj2 Hwf _ _ Hc1) as [_ ?].
    by rewrite (chunk_unique cm lo hi Htl c' c (getMin c)) by (done || korder).
Qed.

(** Balancing waits for the splits of the same zones: the migrations of a
    collection are computed exactly when it has no chunk to split, and are
    refused with IllegalOperation otherwise. *)
Lemma migrations_wait_for_splits nss stats cm lo hi getTags d aggressive used :
  collection_ok stats getTags cm lo hi -> createCollectionDistributionStatus stats cm getTags = Ret (OK d) ->
  exists splits, _getSplitCandidatesForCollection nss stats (OK cm) getTags = Ret (OK splits) /\
    match splits with
    | [] => exists round, balance stats d aggressive used = Ret round /\
              _getMigrateCandidatesForCollection stats (OK cm) getTags aggressive used = Ret (OK round)
    | _ => _getMigrateCandidatesForCollection stats (OK cm) getTags aggressive used = Ret (NotOK IllegalOperation)
    end.
Proof.
  intros Hco Hd. destruct (split_candidates_spec nss stats cm lo hi getTags d Hco Hd) as (b & Hb & [Hs He Hc]).
  pose proof Hco as [Hok Hwf Htl Hmax Ht]. pose proof (distribution_spec stats cm lo hi getTags Hok Ht) as Hds.
  rewrite Hd in Hds. destruct Hds as (Hdist & Hz & _ & Hw & _).
  destruct (check_zones_ok cm lo hi Hwf Htl Hmax (ds_zoneRanges d) Hz Hw) as (v & Hv & Hcase).
  exists (done b). split; [done|]. unfold _getMigrateCandidatesForCollection. cbn [if_ok]. rewrite Hd.
  cbn [obind if_ok]. rewrite Hv. cbn [obind].
  destruct Hcase as [[-> Hno]|[-> (x & c & Hx & Hin)]]; cbn [if_ok].
  - assert (b = []) as ->.
    { destruct b as [|[k si] b]; [done|]. exfalso. destruct (He k si ltac:(left)) as (c & Hc1 & _ & Hsi).
      destruct (si_splitKeys si) as [|y ks] eqn:Ey; [by apply (so_some _ _ _ _ _ Hsi)|].
      pose proof (so_points _ _ _ _ _ Hsi) as Hp. rewrite Ey in Hp.
      apply (Hno y c); [apply (so_border _ _ _ _ _ Hsi); rewrite Ey; left|]. split; [done|].
      split; [apply Hp|by apply (ascending_below (getMin c) (y :: ks) (getMax c)); [|left]]. }
    destruct (balance_ok stats d aggressive used Hdist) as (round & Hr & _). exists round. by rewrite Hr.
  - destruct (Hc x c Hx Hin) as (k & si & y & Hk & _). by destruct b as [|e b]; [apply not_elem_of_nil in Hk|].
Qed.

(** ** All collections *)

Section all_collections.
Context (shuffle : list BalancedCollection -> list BalancedCollection).
Context (routing : string -> StatusWith ChunkManager) (getTags : string -> StatusWith (list TagsType)).
Context (stats : list ShardStatistics) (aggressive : bool).










End all_collections.

(** * Examples *)

Definition table_okb (cm : ChunkManager) : bool :=
  forallb (fun e => match chunk_of_entry (cm_nss cm) e.2 with Ret t => is_Ret (validate t) | _ => false end) (cm_chunkMap cm).

Lemma table_okb_spec cm k c :
  table_okb cm = true -> (k, c) ∈ cm_chunkMap cm -> exists t, chunk_of_entry (cm_nss cm) c = Ret t /\ validate t = Ret ().
Proof.
  intros H Hin. unfold table_okb in H. rewrite List.forallb_forall in H. apply list_elem_of_In, H in Hin. simpl in Hin.
  destruct (chunk_of_entry (cm_nss cm) c) as [t| | |]; try done. exists t. split; [done|]. by destruct (validate t) as [[]| | |].
Qed.

(** Two shards, and a zone that starts inside the second chunk. *)
Definition sel_stats : list ShardStatistics := [ex_stat "s0" false ["z"]; ex_stat "s1" false []].
Definition sel_tags (_ : string) : StatusWith (list TagsType) := OK [mkTags (sample_key "k") sample_hi "z"].

Lemma sel_table : table_ok sel_stats sample_cm.
Proof.
  split.
  - intros k c. by apply table_okb_spec; vm_compute.
  - by vm_compute.
  - intros stat H. by repeat (apply elem_of_cons in H as [->|H]); [..|apply not_elem_of_nil in H].
  - apply (bool_decide_unpack _). by vm_compute.
Qed.

Lemma sel_ok : collection_ok sel_stats sel_tags sample_cm sample_lo sample_hi.
Proof.
  split; [exact sel_table|apply ok_map, (proj1 (reachable_ok _ sample_reachable))|exact sample_tiling|by vm_compute|].
  intros t ->%list_elem_of_singleton. exists (sample_key "k"), sample_hi. split_and!; by vm_compute.
Qed.


Definition sel_dist : DistributionStatus :=
  match createCollectionDistributionStatus sel_stats sample_cm sel_tags with
  | Ret (OK d) => d
  | _ => newDistributionStatus "" []
  end.
Lemma sel_dist_ok : createCollectionDistributionStatus sel_stats sample_cm sel_tags = Ret (OK sel_dist).
Proof. vm_compute. reflexivity. Qed.

Lemma distribution_correct_witness : dist_ok sel_stats sel_dist /\ List.length (chunks_on sel_dist "s0") = 2%nat.
Proof.
  pose proof (distribution_correct sel_stats sample_cm sample_lo sample_hi sel_tags sel_ok) as H.
  rewrite sel_dist_ok in H. split; [exact (proj1 H)|by vm_compute].
Defined.

Lemma split_candidates_exact_witness :
  exists splits, _getSplitCandidatesForCollection "db.c" sel_stats (OK sample_cm) sel_tags = Ret (OK splits) /\
    si_splitKeys <$> splits = [[sample_key "k"]].
Proof.
  destruct (split_candidates_exact "db.c" sel_stats sample_cm sample_lo sample_hi sel_tags sel_dist sel_ok sel_dist_ok)
    as (splits & Hs & _). exists splits. split; [exact Hs|]. vm_compute in Hs. by injection Hs as <-.
Defined.

Lemma migrations_wait_for_splits_witness :
  _getMigrateCandidatesForCollection sel_stats (OK sample_cm) sel_tags false ∅ = Ret (NotOK IllegalOperation).
Proof.
  destruct (migrations_wait_for_splits "db.c" sel_stats sample_cm sample_lo sample_hi sel_tags sel_dist false ∅ sel_ok sel_dist_ok)
    as (splits & Hs & Hm). destruct splits as [|si splits]; [vm_compute in Hs; discriminate Hs|exact Hm].
Defined.

