(* ===== verification/WriteOps.v ===== *)
(** Writes on the router (s/write_ops): a write operation with the shards it is
    sent to (write_op.cpp) and a batch of them (batch_write_op.cpp), which is
    cut into one batch per shard and collects the answers.

    Error messages are not modelled: an error is its code, index and info.  The
    set of outstanding batches, which only reports read, is left out. *)

From stdpp Require Import base list strings gmap sorting.
From Stdlib Require Import ZArith Lia Ascii String.
From S2P Require Import Prelude Bson ChunkVersion ChunkType ConfigChunks.
Local Open Scope string_scope.
Local Open Scope Z_scope.
Local Open Scope list_scope.
Local Open Scope outcome_scope.

(** * Data *)

Record ShardEndpoint := mkEndpoint { shardName : ShardId; shardVersion : ChunkVersion }.

Inductive WriteOpState :=
  | WriteOpState_Ready
  | WriteOpState_Pending
  | WriteOpState_Completed
  | WriteOpState_Error
  | WriteOpState_Cancelled
  | WriteOpState_Unknown.
#[global] Instance WriteOpState_eq_dec : EqDecision WriteOpState.
Proof. solve_decision. Defined.

(** [state < WriteOpState_Completed] *)
Definition before_completed (s : WriteOpState) : bool :=
  match s with WriteOpState_Ready | WriteOpState_Pending => true | _ => false end.

(** The info of an error of several shards is the array of their errors, kept
    apart from the info document of a single error. *)
Inductive WriteErrorDetail :=
  mkWriteError (index : Z) (code : ErrorCode) (info : option BSONObj) (causedBy : list WriteErrorDetail).

Definition we_index (e : WriteErrorDetail) : Z := let '(mkWriteError i _ _ _) := e in i.
Definition we_code (e : WriteErrorDetail) : ErrorCode := let '(mkWriteError _ c _ _) := e in c.
Definition we_info (e : WriteErrorDetail) : option BSONObj := let '(mkWriteError _ _ o _) := e in o.
Definition we_causedBy (e : WriteErrorDetail) : list WriteErrorDetail := let '(mkWriteError _ _ _ l) := e in l.

Definition set_index (e : WriteErrorDetail) (i : Z) : WriteErrorDetail :=
  mkWriteError i (we_code e) (we_info e) (we_causedBy e).

(** Where the write is sent, and its item and child operation. *)
Record TargetedWrite := mkTargeted { tw_endpoint : ShardEndpoint; tw_ref : nat * nat }.

Record ChildWriteOp := mkChild {
  ch_state : WriteOpState;
  ch_pendingWrite : option TargetedWrite;
  ch_endpoint : option ShardEndpoint;
  ch_error : option WriteErrorDetail
}.

Record WriteOp := mkWriteOp {
  wo_state : WriteOpState;
  wo_childOps : list ChildWriteOp;
  wo_error : option WriteErrorDetail
}.

Definition newWriteOp : WriteOp := mkWriteOp WriteOpState_Ready [] None.

Record UpdateOpEntry := mkUpdateOp {
  upd_q : BSONObj;
  upd_u : BSONObj;
  upd_multi : bool;
  upd_upsert : bool;
  upd_collation : option BSONObj
}.
Record DeleteOpEntry := mkDeleteOp { del_q : BSONObj; del_multi : bool; del_collation : option BSONObj }.

Inductive BatchOps :=
  | Inserts (documents : list BSONObj)
  | Updates (updates : list UpdateOpEntry)
  | Deletes (deletes : list DeleteOpEntry).

Inductive BatchItem :=
  | InsertItem (document : BSONObj)
  | UpdateItem (update : UpdateOpEntry)
  | DeleteItem (delete : DeleteOpEntry).

Record BatchedCommandRequest := mkRequest {
  rq_ns : string;
  rq_ops : BatchOps;
  rq_ordered : bool;
  rq_bypassDocumentValidation : bool;
  rq_stmtIds : option (list Z);
  rq_shardVersion : option ChunkVersion;
  rq_writeConcern : option BSONObj
}.

Definition sizeWriteOps (rq : BatchedCommandRequest) : nat :=
  match rq_ops rq with
  | Inserts l => List.length l
  | Updates l => List.length l
  | Deletes l => List.length l
  end.

(** [BatchItemRef]; an index past the end makes [std::vector::at] throw. *)
Definition item_at (rq : BatchedCommandRequest) (i : nat) : Outcome BatchItem :=
  let at_ {A} (l : list A) (f : A -> BatchItem) :=
    match l !! i with Some x => Ret (f x) | None => Throw StdOutOfRange end in
  match rq_ops rq with
  | Inserts l => at_ l InsertItem
  | Updates l => at_ l UpdateItem
  | Deletes l => at_ l DeleteItem
  end.

(** [NamespaceString::coll] *)
Fixpoint after_dot (s : string) : string :=
  match s with
  | EmptyString => EmptyString
  | String c s => if Ascii.eqb c "."%char then s else after_dot s
  end.
Definition isSystemDotIndexes (ns : string) : bool := String.eqb (after_dot ns) "system.indexes".

Definition isInsertIndexRequest (rq : BatchedCommandRequest) : bool :=
  match rq_ops rq with Inserts _ => isSystemDotIndexes (rq_ns rq) | _ => false end.

(** The database that the requests go to is that of the indexed collection; an
    element that is not a string has an empty [str()]. *)
Definition getTargetingNS (rq : BatchedCommandRequest) : Outcome string :=
  match rq_ops rq with
  | Inserts documents =>
      if negb (isSystemDotIndexes (rq_ns rq)) then Ret (rq_ns rq)
      else
        invariant (List.length documents =? 1)%nat ;*
        match documents with
        | [] => Throw StdOutOfRange
        | doc :: _ => Ret (match getField doc "ns" with Some (VString ns) => ns | _ => "" end)
        end
  | _ => Ret (rq_ns rq)
  end.

Definition isVerboseWC (rq : BatchedCommandRequest) : bool :=
  match rq_writeConcern rq with
  | None => true
  | Some wc =>
      match w ← getField wc "w"; num_of w with
      | Some d => negb (d_eqb d (DFin 0 0))
      | None => true
      end
  end.

Definition kMaxWriteBatchSize : Z := 100000.

(** The parser of the write commands refuses an empty batch, one that is too
    long, and statement ids that do not match it. *)
Definition checkOpCountForCommand (rq : BatchedCommandRequest) : Outcome unit :=
  let numOps := Z.of_nat (sizeWriteOps rq) in
  uassert InvalidLength (negb (numOps =? 0) && (numOps <=? kMaxWriteBatchSize)) ;*
  uassert InvalidLength
    (match rq_stmtIds rq with None => true | Some stmtIds => Z.of_nat (List.length stmtIds) =? numOps end).

(** * The targeter *)

(** [NSTargeter]: where the writes of a collection go, from the state [T].  The
    functions return a status or throw. *)
Class NSTargeter (T : Type) := {
  targetInsert : BSONObj -> T -> Outcome (T * StatusWith ShardEndpoint);
  targetUpdate : UpdateOpEntry -> T -> Outcome (T * StatusWith (list ShardEndpoint));
  targetDelete : DeleteOpEntry -> T -> Outcome (T * StatusWith (list ShardEndpoint));
  targetCollection : T -> Outcome (T * StatusWith (list ShardEndpoint));
  targetAllShards : T -> Outcome (T * StatusWith (list ShardEndpoint));
  noteCouldNotTarget : T -> T;
  noteStaleResponse : ShardEndpoint -> BSONObj -> T -> Outcome T
}.

(** * One write *)

Section write_op.
Context {T : Type} `{NSTargeter T}.

Definition target_item (item : BatchItem) (isIndexInsert : bool) (t : T)
    : Outcome (T * StatusWith (list ShardEndpoint)) :=
  match item with
  | InsertItem doc =>
      if isIndexInsert then targetCollection t
      else
        let* (t, swEndpoint) := targetInsert doc t in
        Ret (t, match swEndpoint with OK e => OK [e] | NotOK c => NotOK c end)
  | UpdateItem u => targetUpdate u t
  | DeleteItem d => targetDelete d t
  end.

(** [i] is the index of the item. *)
Definition targetWrites (item : BatchItem) (isIndexInsert : bool) (i : nat) (op : WriteOp) (t : T)
    : Outcome (T * WriteOp * StatusWith (list TargetedWrite)) :=
  let* (t, swEndpoints) := target_item item isIndexInsert t in
  let* (t, swEndpoints) :=
    match swEndpoints with
    | OK endpoints =>
        if (1 <? List.length endpoints)%nat && negb isIndexInsert then targetAllShards t else Ret (t, swEndpoints)
    | NotOK _ => Ret (t, swEndpoints)
    end in
  match swEndpoints with
  | NotOK e => Ret (t, op, NotOK e)
  | OK endpoints =>
      let version ep :=
        if (1 <? List.length endpoints)%nat then mkEndpoint (shardName ep) IGNORED else ep in
      let writes :=
        imap (fun k ep => mkTargeted (version ep) (i, (List.length (wo_childOps op) + k)%nat)) endpoints in
      let children := (fun w => mkChild WriteOpState_Pending (Some w) None None) <$> writes in
      Ret (t, mkWriteOp WriteOpState_Pending (wo_childOps op ++ children) (wo_error op), OK writes)
  end.
End write_op.

Definition isRetryErrCode (e : ErrorCode) : bool := bool_decide (e = StaleShardVersion).

Definition combineOpErrors (errOps : list WriteErrorDetail) : Outcome WriteErrorDetail :=
  match errOps with
  | [] => Undef
  | [e] => Ret e
  | e :: _ => Ret (mkWriteError (we_index e) MultipleErrorsOccurred None errOps)
  end.

(** The errors of the children in error. *)
Definition child_errors (children : list ChildWriteOp) : Outcome (list WriteErrorDetail) :=
  ofold (fun errs child =>
           if bool_decide (ch_state child = WriteOpState_Error)
           then match ch_error child with Some e => Ret (errs ++ [e]) | None => Undef end
           else Ret errs) [] children.

Definition answered_child (child : ChildWriteOp) : bool :=
  bool_decide (ch_state child = WriteOpState_Completed) || bool_decide (ch_state child = WriteOpState_Error).

Definition _updateOpState (op : WriteOp) : Outcome WriteOp :=
  if negb (forallb answered_child (wo_childOps op)) then Ret op
  else
    let* childErrors := child_errors (wo_childOps op) in
    let isRetryError := forallb (fun e => isRetryErrCode (we_code e)) childErrors in
    match childErrors with
    | [] => Ret (mkWriteOp WriteOpState_Completed [] (wo_error op))
    | _ =>
        if isRetryError
        then invariant (List.length childErrors =? 1)%nat ;* Ret (mkWriteOp WriteOpState_Ready [] (wo_error op))
        else let* e := combineOpErrors childErrors in Ret (mkWriteOp WriteOpState_Error [] (Some e))
    end.

(** The children are cleared, with what is noted in them. *)
Definition cancelWrites (op : WriteOp) : Outcome WriteOp :=
  invariant (before_completed (wo_state op)) ;* Ret (mkWriteOp WriteOpState_Ready [] (wo_error op)).

Definition set_child (op : WriteOp) (c : nat) (child : ChildWriteOp) : WriteOp :=
  mkWriteOp (wo_state op) (<[c := child]> (wo_childOps op)) (wo_error op).

Definition noteWriteComplete (op : WriteOp) (w : TargetedWrite) : Outcome WriteOp :=
  match wo_childOps op !! (tw_ref w).2 with
  | None => Undef
  | Some child =>
      _updateOpState (set_child op (tw_ref w).2
        (mkChild WriteOpState_Completed None (Some (tw_endpoint w)) (ch_error child)))
  end.

Definition noteWriteError (i : nat) (op : WriteOp) (w : TargetedWrite) (error : WriteErrorDetail)
    : Outcome WriteOp :=
  match wo_childOps op !! (tw_ref w).2 with
  | None => Undef
  | Some child =>
      _updateOpState (set_child op (tw_ref w).2
        (mkChild WriteOpState_Error None (Some (tw_endpoint w)) (Some (set_index error (Z.of_nat i)))))
  end.

Definition setOpError (i : nat) (op : WriteOp) (error : WriteErrorDetail) : WriteOp :=
  mkWriteOp WriteOpState_Error (wo_childOps op) (Some (set_index error (Z.of_nat i))).

(** * Batches for shards *)

(** [EndpointComp] *)
Definition EndpointComp (a b : ShardEndpoint) : bool :=
  let shardNameDiff := StringData_compare (shardName a) (shardName b) in
  if negb (shardNameDiff =? 0) then shardNameDiff <? 0
  else
    let shardVersionDiff := s64 (toLong (shardVersion a) - toLong (shardVersion b)) in
    if negb (shardVersionDiff =? 0) then shardVersionDiff <? 0
    else memcmp (oid_bytes (_epoch (shardVersion a))) (oid_bytes (_epoch (shardVersion b))) OID_kOIDSize <? 0.

Definition same_endpoint (a b : ShardEndpoint) : bool := negb (EndpointComp a b) && negb (EndpointComp b a).

Record TargetedWriteBatch := mkBatch {
  tb_endpoint : ShardEndpoint;
  tb_writes : list TargetedWrite;
  tb_estimatedSizeBytes : Z
}.

(** A map from the endpoint of a batch to the batch; the order is not used. *)
Definition TargetedBatchMap : Type := list TargetedWriteBatch.

Definition find_batch (e : ShardEndpoint) (m : TargetedBatchMap) : option TargetedWriteBatch :=
  List.find (fun b => same_endpoint (tb_endpoint b) e) m.

Definition BSONObjMaxUserSize : Z := 16 * 1024 * 1024.
Definition BSONObjMaxInternalSize : Z := BSONObjMaxUserSize + 16 * 1024.
Definition kBSONArrayPerElementOverheadBytes : Z := 7.
Definition kEstUpdateOverheadBytes : Z := (BSONObjMaxInternalSize - BSONObjMaxUserSize) / 100.
Definition kEstDeleteOverheadBytes : Z := (BSONObjMaxInternalSize - BSONObjMaxUserSize) / 100.

Definition isNewBatchRequiredOrdered (writes : list TargetedWrite) (batchMap : TargetedBatchMap) : bool :=
  existsb (fun w => negb (bool_decide (is_Some (find_batch (tw_endpoint w) batchMap)))) writes.

Definition isNewBatchRequiredUnordered (writes : list TargetedWrite) (batchMap : TargetedBatchMap)
    (targetedShards : gset ShardId) : bool :=
  existsb (fun w => negb (bool_decide (is_Some (find_batch (tw_endpoint w) batchMap))) &&
                    bool_decide (shardName (tw_endpoint w) ∈ targetedShards)) writes.

Definition wouldMakeBatchesTooBig (writes : list TargetedWrite) (writeSizeBytes : Z) (batchMap : TargetedBatchMap)
    : bool :=
  existsb (fun w =>
             match find_batch (tw_endpoint w) batchMap with
             | None => false
             | Some batch =>
                 (kMaxWriteBatchSize <=? Z.of_nat (List.length (tb_writes batch))) ||
                 (BSONObjMaxUserSize <? s32 (tb_estimatedSizeBytes batch + writeSizeBytes))
             end) writes.

Definition collation_size (c : option BSONObj) : Z := match c with Some o => objsize o | None => 0 end.

Definition getWriteSizeBytes (item : BatchItem) : Z :=
  match item with
  | InsertItem doc => objsize doc
  | UpdateItem u =>
      s32 (objsize (upd_q u) + objsize (upd_u u) + collation_size (upd_collation u) + kEstUpdateOverheadBytes)
  | DeleteItem d => s32 (objsize (del_q d) + collation_size (del_collation d) + kEstDeleteOverheadBytes)
  end.

Definition addWrite (w : TargetedWrite) (estWriteSize : Z) (b : TargetedWriteBatch) : TargetedWriteBatch :=
  mkBatch (tb_endpoint b) (tb_writes b ++ [w]) (s32 (tb_estimatedSizeBytes b + estWriteSize)).

Fixpoint update_batch (f : TargetedWriteBatch -> TargetedWriteBatch) (e : ShardEndpoint) (m : TargetedBatchMap)
    : TargetedBatchMap :=
  match m with
  | [] => []
  | b :: m => if same_endpoint (tb_endpoint b) e then f b :: m else b :: update_batch f e m
  end.

(** One write of an operation to its batch, which is created if there is none. *)
Definition add_to_batch (writeSizeBytes : Z) (st : TargetedBatchMap * gset ShardId) (w : TargetedWrite)
    : TargetedBatchMap * gset ShardId :=
  let '(batchMap, targetedShards) := st in
  match find_batch (tw_endpoint w) batchMap with
  | Some _ => (update_batch (addWrite w writeSizeBytes) (tw_endpoint w) batchMap, targetedShards)
  | None =>
      (batchMap ++ [addWrite w writeSizeBytes (mkBatch (tw_endpoint w) [] 0)],
       targetedShards ∪ {[shardName (tw_endpoint w)]})
  end.

(** * A batch *)

Record WriteConcernErrorDetail := mkWCError { wc_code : ErrorCode; wc_info : option BSONObj }.

Record BatchWriteOp := mkBatchOp {
  bw_writeOps : list WriteOp;
  bw_wcErrors : list (ShardEndpoint * WriteConcernErrorDetail);
  bw_upsertedIds : list (Z * BSONObj);
  bw_numInserted : Z;
  bw_numUpserted : Z;
  bw_numMatched : Z;
  bw_numModified : Z;
  bw_numDeleted : Z
}.

Definition newBatchWriteOp (rq : BatchedCommandRequest) : BatchWriteOp :=
  mkBatchOp (replicate (sizeWriteOps rq) newWriteOp) [] [] 0 0 0 0 0.

Definition set_writeOps (b : BatchWriteOp) (ops : list WriteOp) : BatchWriteOp :=
  mkBatchOp ops (bw_wcErrors b) (bw_upsertedIds b) (bw_numInserted b) (bw_numUpserted b) (bw_numMatched b)
    (bw_numModified b) (bw_numDeleted b).

(** [txnNumber] is that of the operation, if it has one. *)
Section batch.
Context {T : Type} `{NSTargeter T} (rq : BatchedCommandRequest) (txnNumber : option Z).

Definition targetError (e : ErrorCode) : WriteErrorDetail := mkWriteError 0 e None [].

Definition _cancelBatches (ops : list WriteOp) (batchMap : TargetedBatchMap) : Outcome (list WriteOp) :=
  ofold (fun ops w =>
           match ops !! (tw_ref w).1 with
           | None => Undef
           | Some op => let* op := cancelWrites op in Ret (<[(tw_ref w).1 := op]> ops)
           end) ops (batchMap ≫= tb_writes).

(** The state of the loop over the operations, and how an iteration ends. *)
Record Targeting := mkTargeting {
  tg_targeter : T;
  tg_ops : list WriteOp;
  tg_batchMap : TargetedBatchMap;
  tg_targetedShards : gset ShardId
}.
Inductive Iteration := Continue (st : Targeting) | Break (st : Targeting)
  | Return (st : Targeting) (status : StatusWith unit).

Definition target_one (recordTargetErrors : bool) (i : nat) (st : Targeting) : Outcome Iteration :=
  let ordered := rq_ordered rq in
  let batchMap := tg_batchMap st in
  match tg_ops st !! i with
  | None => Undef
  | Some writeOp =>
      if negb (bool_decide (wo_state writeOp = WriteOpState_Ready)) then Ret (Continue st)
      else
        let* item := item_at rq i in
        let* (tw, targetStatus) := targetWrites item (isInsertIndexRequest rq) i writeOp (tg_targeter st) in
        let '(t, writeOp) := tw in
        let with_op op := mkTargeting t (<[i := op]> (tg_ops st)) batchMap (tg_targetedShards st) in
        let cancelled := let* op := cancelWrites writeOp in Ret (Break (with_op op)) in
        match targetStatus with
        | NotOK e =>
            if negb recordTargetErrors then
              let* ops := _cancelBatches (tg_ops (with_op writeOp)) batchMap in
              Ret (Return (mkTargeting t ops batchMap (tg_targetedShards st)) (NotOK e))
            else if negb ordered || bool_decide (batchMap = []) then
              let st := with_op (setOpError i writeOp (targetError e)) in
              if ordered then Ret (Return st (OK ())) else Ret (Continue st)
            else cancelled
        | OK writes =>
            if ordered && negb (bool_decide (batchMap = [])) && isNewBatchRequiredOrdered writes batchMap
            then cancelled
            else
              let writeSizeBytes :=
                s32 (getWriteSizeBytes item + kBSONArrayPerElementOverheadBytes +
                     (if txnNumber then kBSONArrayPerElementOverheadBytes + 4 else 0)) in
              if wouldMakeBatchesTooBig writes writeSizeBytes batchMap then
                invariant (negb (bool_decide (batchMap = []))) ;* cancelled
              else if negb ordered && negb (bool_decide (batchMap = [])) &&
                      isNewBatchRequiredUnordered writes batchMap (tg_targetedShards st)
              then cancelled
              else
                let '(batchMap, targetedShards) :=
                  foldl (add_to_batch writeSizeBytes) (batchMap, tg_targetedShards st) writes in
                let st := mkTargeting t (<[i := writeOp]> (tg_ops st)) batchMap targetedShards in
                if ordered && (1 <? List.length batchMap)%nat then Ret (Break st) else Ret (Continue st)
        end
  end.

(** The loop; the result is the state and, for an early return, its status. *)
Fixpoint target_loop (recordTargetErrors : bool) (idxs : list nat) (st : Targeting)
    : Outcome (Targeting * option (StatusWith unit)) :=
  match idxs with
  | [] => Ret (st, None)
  | i :: idxs =>
      let* it := target_one recordTargetErrors i st in
      match it with
      | Continue st => target_loop recordTargetErrors idxs st
      | Break st => Ret (st, None)
      | Return st status => Ret (st, Some status)
      end
  end.

Definition hand_over (batchMap : TargetedBatchMap) : Outcome (gmap ShardId TargetedWriteBatch) :=
  ofold (fun targetedBatches batch =>
           match tb_writes batch with
           | [] => Ret targetedBatches
           | _ =>
               let s := shardName (tb_endpoint batch) in
               invariant (negb (bool_decide (is_Some (targetedBatches !! s)))) ;*
               Ret (<[s := batch]> targetedBatches)
           end) ∅ batchMap.

Definition targetBatch (b : BatchWriteOp) (t : T) (recordTargetErrors : bool)
    : Outcome (T * BatchWriteOp * StatusWith (gmap ShardId TargetedWriteBatch)) :=
  let* (st, returned) :=
    target_loop recordTargetErrors (seq 0 (sizeWriteOps rq)) (mkTargeting t (bw_writeOps b) [] ∅) in
  let b := set_writeOps b (tg_ops st) in
  match returned with
  | Some (NotOK e) => Ret (tg_targeter st, b, NotOK e)
  | Some (OK _) => Ret (tg_targeter st, b, OK ∅)
  | None => let* targetedBatches := hand_over (tg_batchMap st) in Ret (tg_targeter st, b, OK targetedBatches)
  end.

(** ** The request for a shard *)

Definition upgradeWriteConcern (origWriteConcern : BSONObj) : BSONObj :=
  (fun el : BSONElement => if String.eqb el.1 "w" then ("w", VInt (mkInt32 1 eq_refl)) else el) <$> origWriteConcern.

Definition getStmtIdForWriteAt (writePos : nat) : Outcome Z :=
  match rq_stmtIds rq with
  | Some stmtIds => match stmtIds !! writePos with Some i => Ret i | None => Throw StdOutOfRange end
  | None => Ret (s32 (Z.of_nat writePos))
  end.

(** The items of the writes, one by one; the list must have the batch's type. *)
Definition at_refs {A} (l : list A) (writes : list TargetedWrite) : Outcome (list A) :=
  ofold (fun acc w => match l !! (tw_ref w).1 with Some x => Ret (acc ++ [x]) | None => Throw StdOutOfRange end)
    [] writes.

(** The list of operations is only set once the batch has a write. *)
Definition buildBatchRequest (targetedBatch : TargetedWriteBatch) : Outcome BatchedCommandRequest :=
  let writes := tb_writes targetedBatch in
  (if (List.length writes =? 0)%nat then Undef else Ret ()) ;*
  let* ops :=
    match rq_ops rq with
    | Inserts l => let* docs := at_refs l writes in Ret (Inserts docs)
    | Updates l => let* us := at_refs l writes in Ret (Updates us)
    | Deletes l => let* ds := at_refs l writes in Ret (Deletes ds)
    end in
  let* stmtIdsForOp :=
    if txnNumber then
      let* ids := ofold (fun acc w => let* i := getStmtIdForWriteAt (tw_ref w).1 in Ret (acc ++ [i])) [] writes in
      Ret (Some ids)
    else Ret None in
  let wc :=
    match rq_writeConcern rq with
    | None => None
    | Some wc => Some (if isVerboseWC rq then wc else upgradeWriteConcern wc)
    end in
  Ret (mkRequest (rq_ns rq) ops (rq_ordered rq) (rq_bypassDocumentValidation rq) stmtIdsForOp
         (Some (shardVersion (tb_endpoint targetedBatch))) wc).
End batch.

(** ** Answers of shards *)

Record BatchedCommandResponse := mkResponse {
  rs_ok : bool;
  rs_errCode : ErrorCode;
  rs_n : Z;
  rs_nModified : Z;
  rs_upsertDetails : option (list (Z * BSONObj));
  rs_writeConcernError : option WriteConcernErrorDetail;
  rs_errDetails : option (list WriteErrorDetail)
}.

(** [TrackedErrors]: the errors with the codes that are tracked. *)
Definition TrackedErrors : Type := list (ErrorCode * list (ShardEndpoint * WriteErrorDetail)).

Definition startTracking (errCode : ErrorCode) (t : TrackedErrors) : TrackedErrors := (errCode, []) :: t.
Definition isTracking (errCode : ErrorCode) (t : TrackedErrors) : bool :=
  existsb (fun e => bool_decide (e.1 = errCode)) t.
Definition addError (error : ShardEndpoint * WriteErrorDetail) (t : TrackedErrors) : TrackedErrors :=
  (fun e => if bool_decide (e.1 = we_code error.2) then (e.1, e.2 ++ [error]) else e) <$> t.
Definition getErrors (errCode : ErrorCode) (t : TrackedErrors) : list (ShardEndpoint * WriteErrorDetail) :=
  match List.find (fun e => bool_decide (e.1 = errCode)) t with Some e => e.2 | None => [] end.

Definition trackErrors (endpoint : ShardEndpoint) (itemErrors : list WriteErrorDetail) (t : TrackedErrors)
    : TrackedErrors :=
  foldl (fun t error => if isTracking (we_code error) t then addError (endpoint, error) t else t) t itemErrors.

Definition by_index (a b : WriteErrorDetail) : Prop := we_index a <= we_index b.
#[global] Instance by_index_dec : RelDecision by_index.
Proof. intros a b. apply Z_le_dec. Defined.

Section answers.
Context (rq : BatchedCommandRequest).

(** The writes of the batch in order, with the sorted errors. *)
Fixpoint note_writes (writes : list TargetedWrite) (index : Z) (itemErrors : list WriteErrorDetail)
    (lastError : bool) (ops : list WriteOp) : Outcome (list WriteOp) :=
  match writes with
  | [] => Ret ops
  | w :: writes =>
      let i := (tw_ref w).1 in
      match ops !! i with
      | None => Undef
      | Some writeOp =>
          let ok :=
            let* op := if negb (rq_ordered rq) || negb lastError then noteWriteComplete writeOp w
                       else cancelWrites writeOp in
            note_writes writes (index + 1) itemErrors lastError (<[i := op]> ops) in
          match itemErrors with
          | writeError :: rest =>
              if we_index writeError =? index then
                let* op := noteWriteError i writeOp w writeError in
                note_writes writes (index + 1) rest true (<[i := op]> ops)
              else ok
          | [] => ok
          end
      end
  end.

Definition _incBatchStats (b : BatchWriteOp) (response : BatchedCommandResponse) : BatchWriteOp :=
  match rq_ops rq with
  | Inserts _ =>
      mkBatchOp (bw_writeOps b) (bw_wcErrors b) (bw_upsertedIds b) (s32 (bw_numInserted b + rs_n response))
        (bw_numUpserted b) (bw_numMatched b) (bw_numModified b) (bw_numDeleted b)
  | Updates _ =>
      let numUpserted := match rs_upsertDetails response with Some l => Z.of_nat (List.length l) | None => 0 end in
      mkBatchOp (bw_writeOps b) (bw_wcErrors b) (bw_upsertedIds b) (bw_numInserted b)
        (s32 (bw_numUpserted b + numUpserted)) (s32 (bw_numMatched b + (rs_n response - numUpserted)))
        (if 0 <=? rs_nModified response then s32 (bw_numModified b + rs_nModified response) else -1)
        (bw_numDeleted b)
  | Deletes _ =>
      mkBatchOp (bw_writeOps b) (bw_wcErrors b) (bw_upsertedIds b) (bw_numInserted b) (bw_numUpserted b)
        (bw_numMatched b) (bw_numModified b) (s32 (bw_numDeleted b + rs_n response))
  end.

Definition add_wcError (b : BatchWriteOp) (e : ShardEndpoint * WriteConcernErrorDetail) : BatchWriteOp :=
  mkBatchOp (bw_writeOps b) (bw_wcErrors b ++ [e]) (bw_upsertedIds b) (bw_numInserted b) (bw_numUpserted b)
    (bw_numMatched b) (bw_numModified b) (bw_numDeleted b).
Definition add_upserted (b : BatchWriteOp) (u : Z * BSONObj) : BatchWriteOp :=
  mkBatchOp (bw_writeOps b) (bw_wcErrors b) (bw_upsertedIds b ++ [u]) (bw_numInserted b) (bw_numUpserted b)
    (bw_numMatched b) (bw_numModified b) (bw_numDeleted b).

(** The upserted ids with the index of their item in the client's batch. *)
Definition note_upserted (writes : list TargetedWrite) (b : BatchWriteOp) (upserted : Z * BSONObj)
    : Outcome BatchWriteOp :=
  if upserted.1 <? 0 then Undef
  else match writes !! Z.to_nat upserted.1 with
       | None => Undef
       | Some w => Ret (add_upserted b (Z.of_nat (tw_ref w).1, upserted.2))
       end.

(** The part of [noteBatchResponse] for a command that succeeded. *)
Definition note_ok_response (targetedBatch : TargetedWriteBatch) (response : BatchedCommandResponse)
    (trackedErrors : option TrackedErrors) (b : BatchWriteOp) : Outcome (BatchWriteOp * option TrackedErrors) :=
  let b := _incBatchStats b response in
  let b := match rs_writeConcernError response with
           | Some e => add_wcError b (tb_endpoint targetedBatch, e)
           | None => b
           end in
  let itemErrors := merge_sort by_index (default [] (rs_errDetails response)) in
  let* ops := note_writes (tb_writes targetedBatch) 0 itemErrors false (bw_writeOps b) in
  let b := set_writeOps b ops in
  let trackedErrors := trackErrors (tb_endpoint targetedBatch) itemErrors <$> trackedErrors in
  let* b := ofold (note_upserted (tb_writes targetedBatch)) b (default [] (rs_upsertDetails response)) in
  Ret (b, trackedErrors).

Definition noteBatchError (targetedBatch : TargetedWriteBatch) (error : WriteErrorDetail) (b : BatchWriteOp)
    : Outcome BatchWriteOp :=
  let numErrors := if rq_ordered rq then 1%nat else List.length (tb_writes targetedBatch) in
  let emulatedResponse :=
    mkResponse true InternalError 0 0 None None
      (match numErrors with
       | O => None
       | _ => Some ((fun i => set_index error (Z.of_nat i)) <$> seq 0 numErrors)
       end) in
  let* (b, _) := note_ok_response targetedBatch emulatedResponse None b in
  Ret b.

Definition noteBatchResponse (targetedBatch : TargetedWriteBatch) (response : BatchedCommandResponse)
    (trackedErrors : option TrackedErrors) (b : BatchWriteOp) : Outcome (BatchWriteOp * option TrackedErrors) :=
  if negb (rs_ok response) then
    let* b := noteBatchError targetedBatch (mkWriteError 0 (rs_errCode response) None []) b in
    Ret (b, trackedErrors)
  else note_ok_response targetedBatch response trackedErrors b.

(** ** The end of a batch *)

Fixpoint abort_ops (error : WriteErrorDetail) (i : nat) (ops : list WriteOp) : list WriteOp :=
  match ops with
  | [] => []
  | op :: ops =>
      if before_completed (wo_state op)
      then setOpError i op error :: (if rq_ordered rq then ops else abort_ops error (S i) ops)
      else op :: abort_ops error (S i) ops
  end.
Definition abortBatch (error : WriteErrorDetail) (b : BatchWriteOp) : BatchWriteOp :=
  set_writeOps b (abort_ops error 0 (bw_writeOps b)).

Fixpoint ops_finished (ops : list WriteOp) : bool :=
  match ops with
  | [] => true
  | op :: ops =>
      if before_completed (wo_state op) then false
      else if rq_ordered rq && bool_decide (wo_state op = WriteOpState_Error) then true
      else ops_finished ops
  end.
Definition isFinished (b : BatchWriteOp) : bool := ops_finished (bw_writeOps b).

Definition numWriteOpsIn (s : WriteOpState) (b : BatchWriteOp) : Z :=
  Z.of_nat (List.length (List.filter (fun op => bool_decide (wo_state op = s)) (bw_writeOps b))).

(** [getOpError] of every operation in error. *)
Definition op_errors (ops : list WriteOp) : Outcome (list WriteErrorDetail) :=
  ofold (fun acc op =>
           if bool_decide (wo_state op = WriteOpState_Error)
           then match wo_error op with Some e => Ret (acc ++ [e]) | None => Undef end
           else Ret acc) [] ops.

Definition buildClientResponse (b : BatchWriteOp) : Outcome BatchedCommandResponse :=
  if negb (isVerboseWC rq) then Ret (mkResponse true InternalError 0 0 None None None)
  else
    let* errs := op_errors (bw_writeOps b) in
    let reportWCError :=
      bool_decide (errs = []) || (negb (rq_ordered rq) && (List.length errs <? sizeWriteOps rq)%nat) in
    let wcError :=
      match bw_wcErrors b with
      | [] => None
      | e :: rest =>
          if reportWCError
          then Some (match rest with [] => mkWCError (wc_code e.2) None | _ => mkWCError WriteConcernFailed None end)
          else None
      end in
    let nModified :=
      match rq_ops rq with Updates _ => if 0 <=? bw_numModified b then bw_numModified b else 0 | _ => 0 end in
    Ret (mkResponse true InternalError
           (s32 (bw_numInserted b + bw_numUpserted b + bw_numMatched b + bw_numDeleted b)) nModified
           (match bw_upsertedIds b with [] => None | l => Some l end) wcError
           (match errs with [] => None | l => Some l end)).
End answers.
