(* ===== verification/BatchSafe.v ===== *)
(** Batches of writes are safe: how one write operation answers to the answers
    of its shards, the batches that targeting builds, and what remains of them
    as answers arrive. *)

From stdpp Require Import base list strings gmap sorting.
From Stdlib Require Import ZArith Lia String.
From S2P Require Import Prelude Bson ChunkVersion ChunkType ConfigChunks WriteOps.
Local Open Scope string_scope.
Local Open Scope Z_scope.
Local Open Scope list_scope.
Local Open Scope outcome_scope.

(** * Endpoints *)

Lemma slex_neither a b : slex a b <> Lt -> slex b a <> Lt -> a = b.
Proof. rewrite (slex_opp a b). intros H1 H2. apply slex_eq. by destruct (slex a b). Qed.

Lemma s64_diff (x y : UInt64) : s64 (ui64 x - ui64 y) = 0 <-> ui64 x = ui64 y.
Proof.
  pose proof (ui64_range x). pose proof (ui64_range y). unfold s64. split; [|intros ->; by rewrite Z.sub_diag].
  Z.to_euclidean_division_equations. lia.
Qed.

Lemma not_lt z : (z <? 0) = false -> sgc z <> Lt.
Proof. rewrite sgc_lt, Z.ltb_ge. lia. Qed.

(** The equivalence of the map's comparator is equality. *)
Lemma same_endpoint_eq a b : same_endpoint a b = true <-> a = b.
Proof.
  unfold same_endpoint, EndpointComp. split.
  2:{ intros ->. assert (E : StringData_compare (shardName b) (shardName b) = 0).
      { apply sgc_eq. by rewrite StringData_compare_spec, slex_refl. }
      rewrite E, Z.sub_diag. cbn [negb Z.eqb]. change (s64 0 =? 0) with true. cbn [negb].
      assert (M : memcmp (oid_bytes (_epoch (shardVersion b))) (oid_bytes (_epoch (shardVersion b))) OID_kOIDSize = 0).
      { apply sgc_eq. rewrite <- (oid_length (_epoch (shardVersion b))). by rewrite memcmp_same_length, slex_refl. }
      by rewrite M. }
  intros [H1%negb_true_iff H2%negb_true_iff]%andb_true_iff. destruct a as [sa va], b as [sb vb].
  cbn [shardName shardVersion] in *.
  assert (sa = sb) as <-.
  { apply slex_neither; rewrite <- StringData_compare_spec; intros E.
    - pose proof E as E0. rewrite sgc_lt in E. destruct (Z.eqb_spec (StringData_compare sa sb) 0); [lia|]. by apply not_lt in H1.
    - pose proof E as E0. rewrite sgc_lt in E. destruct (Z.eqb_spec (StringData_compare sb sa) 0); [lia|]. by apply not_lt in H2. }
  assert (E : StringData_compare sa sa = 0) by (apply sgc_eq; by rewrite StringData_compare_spec, slex_refl).
  rewrite E in H1, H2. cbn [negb Z.eqb] in H1, H2.
  assert (Hv : toLong va = toLong vb).
  { unfold toLong in *. pose proof (s64_diff (_combined va) (_combined vb)) as D.
    pose proof (s64_diff (_combined vb) (_combined va)) as D'. pose proof (ui64_range (_combined va)). pose proof (ui64_range (_combined vb)).
    destruct (Z.eqb_spec (s64 (ui64 (_combined va) - ui64 (_combined vb))) 0) as [Z1|Z1]; [by apply D|].
    destruct (Z.eqb_spec (s64 (ui64 (_combined vb) - ui64 (_combined va))) 0) as [Z2|Z2]; [by symmetry; apply D'|].
    cbn [negb] in *. apply Z.ltb_ge in H1, H2. unfold s64 in *. exfalso. Z.to_euclidean_division_equations. lia. }
  rewrite Hv, Z.sub_diag in H1, H2. change (s64 0 =? 0) with true in H1, H2. cbn [negb] in H1, H2.
  f_equal. apply version_eq; [done|]. apply oid_eqb_eq. unfold oid_eqb. apply String.eqb_eq.
  assert (Hm : forall x y : OID, sgc (memcmp (oid_bytes x) (oid_bytes y) OID_kOIDSize) = slex (oid_bytes x) (oid_bytes y)).
  { intros x y. rewrite <- (oid_length x). apply memcmp_same_length. by rewrite !oid_length. }
  apply not_lt in H1, H2. rewrite Hm in H1, H2.
  by apply slex_neither.
Qed.

(** * One operation *)

(** An operation with no write in flight. *)
Definition quiet (op : WriteOp) : Prop :=
  wo_childOps op = [] /\
  (wo_state op = WriteOpState_Ready \/ wo_state op = WriteOpState_Completed \/
   wo_state op = WriteOpState_Error /\ is_Some (wo_error op)).

(** A child in flight has a write among [ws]; another has its answer. *)
Definition child_ok (ws : list TargetedWrite) (i c : nat) (child : ChildWriteOp) : Prop :=
  ch_state child = WriteOpState_Pending /\ (exists w, w ∈ ws /\ tw_ref w = (i, c)) \/
  ch_state child = WriteOpState_Completed \/
  ch_state child = WriteOpState_Error /\ is_Some (ch_error child).

(** A write to several shards has no version to be stale. *)
Definition unversioned (op : WriteOp) : Prop :=
  (1 < List.length (wo_childOps op))%nat ->
  forall child e, child ∈ wo_childOps op -> ch_state child = WriteOpState_Error -> ch_error child = Some e ->
    we_code e <> StaleShardVersion.

Definition in_flight (ws : list TargetedWrite) (i : nat) (op : WriteOp) : Prop :=
  wo_state op = WriteOpState_Pending /\ (exists w, w ∈ ws /\ (tw_ref w).1 = i) /\
  (forall c child, wo_childOps op !! c = Some child -> child_ok ws i c child) /\ unversioned op.

(** The operations while the writes [ws] are unanswered. *)
Record flying (ops : list WriteOp) (ws : list TargetedWrite) : Prop := {
  fl_nodup : NoDup (tw_ref <$> ws);
  fl_write w : w ∈ ws -> exists op child, ops !! (tw_ref w).1 = Some op /\ wo_state op = WriteOpState_Pending /\
    wo_childOps op !! (tw_ref w).2 = Some child /\ ch_state child = WriteOpState_Pending;
  fl_op i op : ops !! i = Some op -> quiet op \/ in_flight ws i op
}.

Definition errors_of (children : list ChildWriteOp) : list WriteErrorDetail :=
  omap (fun ch => if bool_decide (ch_state ch = WriteOpState_Error) then ch_error ch else None) children.

Lemma child_errors_Ret children :
  (forall ch, ch ∈ children -> ch_state ch = WriteOpState_Error -> is_Some (ch_error ch)) ->
  child_errors children = Ret (errors_of children).
Proof.
  intros Hs. unfold child_errors. assert (H : forall errs, ofold (fun errs child =>
      if bool_decide (ch_state child = WriteOpState_Error)
      then match ch_error child with Some e => Ret (errs ++ [e]) | None => Undef end else Ret errs) errs children =
    Ret (errs ++ errors_of children)); [|apply H].
  induction children as [|ch children IH]; intros errs; cbn [ofold].
  { unfold errors_of. cbn. by rewrite app_nil_r. }
  specialize (IH (fun x Hx => Hs x (list_elem_of_further _ _ _ Hx))).
  unfold errors_of in *. cbn [omap list_omap]. destruct (bool_decide_reflect (ch_state ch = WriteOpState_Error)) as [E|E]; cbn [obind].
  - destruct (Hs ch ltac:(left) E) as [e ->]. cbn [obind]. by rewrite IH, <- app_assoc.
  - apply IH.
Qed.

Lemma elem_errors_of children e :
  e ∈ errors_of children <-> exists ch, ch ∈ children /\ ch_state ch = WriteOpState_Error /\ ch_error ch = Some e.
Proof.
  unfold errors_of. rewrite list_elem_of_omap. split.
  - intros (ch & Hin & H). case_bool_decide; [|done]. by exists ch.
  - intros (ch & Hin & H1 & H2). exists ch. split; [done|]. by rewrite bool_decide_eq_true_2.
Qed.

(** Errors name the operation by its index. *)
Definition idx_ok (i : nat) (op : WriteOp) : Prop :=
  (wo_state op = WriteOpState_Error -> forall e, wo_error op = Some e -> we_index e = Z.of_nat i) /\
  (forall ch e, ch ∈ wo_childOps op -> ch_error ch = Some e -> we_index e = Z.of_nat i).

Lemma idx_ok_done i s err : s <> WriteOpState_Error -> idx_ok i (mkWriteOp s [] err).
Proof. intros Hs. split; [done|]. by intros ch e ?%not_elem_of_nil. Qed.

(** The result when every child has its answer: an operation goes back to the
    queue only for a stale version, and only if it has one child. *)
Lemma update_done op :
  (forall ch, ch ∈ wo_childOps op -> ch_state ch = WriteOpState_Completed \/
     ch_state ch = WriteOpState_Error /\ is_Some (ch_error ch)) ->
  unversioned op ->
  exists op', _updateOpState op = Ret op' /\ quiet op' /\
    (wo_state op' = WriteOpState_Ready ->
       exists ch e, wo_childOps op = [ch] /\ ch_state ch = WriteOpState_Error /\ ch_error ch = Some e /\
         we_code e = StaleShardVersion) /\
    (wo_state op' = WriteOpState_Completed <-> forall ch, ch ∈ wo_childOps op -> ch_state ch = WriteOpState_Completed) /\
    (forall i, idx_ok i op -> idx_ok i op').
Proof.
  intros Hall Hun. unfold _updateOpState.
  assert (Hf : forallb answered_child (wo_childOps op) = true).
  { apply List.forallb_forall. intros ch Hin%list_elem_of_In. unfold answered_child. apply orb_true_iff.
    destruct (Hall ch Hin) as [->|[-> _]]; [left|right]; by apply bool_decide_eq_true_2. }
  rewrite Hf. cbn [negb]. rewrite child_errors_Ret by (intros ch Hin E; destruct (Hall ch Hin) as [?|[_ ?]]; [congruence|done]).
  cbn [obind]. destruct (errors_of (wo_childOps op)) as [|e es] eqn:Ee.
  - eexists. split; [reflexivity|]. split; [split; [done|by right; left]|]. split; [done|]. split; [|by intros; apply idx_ok_done].
    split; [|done]. intros _ ch Hin. destruct (Hall ch Hin) as [?|[E [x Hx]]]; [done|]. exfalso.
    assert (Hx' : x ∈ errors_of (wo_childOps op)) by (apply elem_errors_of; by exists ch).
    rewrite Ee in Hx'. by apply not_elem_of_nil in Hx'.
  - assert (He : e ∈ errors_of (wo_childOps op)) by (rewrite Ee; left).
    apply elem_errors_of in He as (ch0 & Hin0 & Hst0 & Her0).
    assert (Hnc : ~ forall ch, ch ∈ wo_childOps op -> ch_state ch = WriteOpState_Completed)
      by (intros Hc; specialize (Hc ch0 Hin0); congruence).
    destruct (forallb _ (e :: es)) eqn:Er.
    + cbn [forallb] in Er. apply andb_true_iff in Er as [Er%bool_decide_eq_true _].
      destruct (wo_childOps op) as [|ch [|ch' children]] eqn:Ech; [by apply not_elem_of_nil in Hin0| |].
      * apply list_elem_of_singleton in Hin0 as ->. assert (es = []) as ->.
        { unfold errors_of in Ee. cbn in Ee. rewrite bool_decide_eq_true_2, Her0 in Ee by done. congruence. }
        cbn [List.length Nat.eqb invariant obind]. eexists. split; [reflexivity|]. split; [split; [done|by left]|].
        split; [intros _; by exists ch, e|]. split; [|by intros; apply idx_ok_done]. split; [done|]. intros Hc. by destruct (Hnc Hc).
      * exfalso. apply (Hun ltac:(rewrite Ech; simpl; lia) ch0 e); rewrite ?Ech; done.
    + assert (Hc : exists x, combineOpErrors (e :: es) = Ret x /\ we_index x = we_index e) by (destruct es; by eexists).
      destruct Hc as (x & -> & Hix). cbn [obind]. eexists. split; [reflexivity|]. split; [split; [done|right; right; by split; [|exists x]]|].
      split; [done|]. split; [split; [done|]; intros Hc; by destruct (Hnc Hc)|].
      intros i [_ Hi]. split; [|by intros ch y ?%not_elem_of_nil]. intros _ y [= <-]. rewrite Hix. by apply (Hi ch0).
Qed.

Definition child_answer (op : WriteOp) (nc : ChildWriteOp) : Prop :=
  ch_state nc = WriteOpState_Completed \/
  ch_state nc = WriteOpState_Error /\
    exists e, ch_error nc = Some e /\ ((1 < List.length (wo_childOps op))%nat -> we_code e <> StaleShardVersion).

Lemma flying_write ops w ws :
  flying ops (w :: ws) -> exists op child, ops !! (tw_ref w).1 = Some op /\ in_flight (w :: ws) (tw_ref w).1 op /\
    wo_childOps op !! (tw_ref w).2 = Some child /\ ch_state child = WriteOpState_Pending.
Proof.
  intros Hf. destruct (fl_write _ _ Hf w ltac:(left)) as (op & child & H1 & H2 & H3 & H4). exists op, child.
  split_and!; try done. destruct (fl_op _ _ Hf _ _ H1) as [[_ Hq]|?]; [|done].
  exfalso. rewrite H2 in Hq. by destruct Hq as [|[|[]]].
Qed.

(** Operations other than that of [w] do not notice its answer. *)
Lemma flying_others ops w ws op' :
  flying ops (w :: ws) ->
  (quiet op' \/ in_flight ws (tw_ref w).1 op') ->
  (forall w', w' ∈ ws -> (tw_ref w').1 = (tw_ref w).1 -> wo_state op' = WriteOpState_Pending /\
     exists child, wo_childOps op' !! (tw_ref w').2 = Some child /\ ch_state child = WriteOpState_Pending) ->
  flying (<[(tw_ref w).1 := op']> ops) ws.
Proof.
  intros [Hn Hw Ho] Hop' Hsame. apply NoDup_cons in Hn as [Hnin Hn]. split; [done| |].
  - intros w' Hin. destruct (Hw w' ltac:(by right)) as (op & child & H1 & H2 & H3 & H4).
    destruct (decide ((tw_ref w').1 = (tw_ref w).1)) as [E|Hne].
    + destruct (Hsame w' Hin E) as (Hp & ch & Hch & Hchp). exists op', ch. split_and!; try done.
      rewrite E. apply list_lookup_insert_eq. rewrite E in H1. by eapply lookup_lt_Some.
    + exists op, child. split_and!; try done. by rewrite list_lookup_insert_ne.
  - intros i op Hi. destruct (decide (i = (tw_ref w).1)) as [->|Hne].
    + apply list_lookup_insert_Some in Hi as [(_ & <- & _)|[? _]]; [done|congruence].
    + rewrite list_lookup_insert_ne in Hi by done. destruct (Ho i op Hi) as [|(Hp & (w' & Hw' & E) & Hc & Hu)]; [by left|right].
      split; [done|]. split; [|split; [|done]].
      * exists w'. split; [|done]. apply elem_of_cons in Hw' as [->|]; [congruence|done].
      * intros c child Hcc. destruct (Hc c child Hcc) as [[? (w2 & Hw2 & E2)]|?]; [left|by right]. split; [done|].
        exists w2. split; [|done]. apply elem_of_cons in Hw2 as [->|]; [|done]. by rewrite E2 in Hne.
Qed.

(** A write that some shard has acknowledged. *)
Definition kept (op : WriteOp) : Prop :=
  wo_state op = WriteOpState_Completed \/ wo_state op = WriteOpState_Error \/
  wo_state op = WriteOpState_Pending /\ exists ch, ch ∈ wo_childOps op /\ ch_state ch = WriteOpState_Completed.

(** A write that some shard has not acknowledged. *)
Definition spoiled (op : WriteOp) : Prop :=
  wo_state op = WriteOpState_Ready \/ wo_state op = WriteOpState_Error \/
  wo_state op = WriteOpState_Pending /\ exists ch, ch ∈ wo_childOps op /\ ch_state ch = WriteOpState_Error.

Lemma set_child_other op c child nc (ch : ChildWriteOp) :
  wo_childOps op !! c = Some child -> ch ∈ wo_childOps op -> ch <> child -> ch ∈ wo_childOps (set_child op c nc).
Proof.
  intros Hc Hin Hne. apply list_elem_of_lookup in Hin as [k Hk]. apply list_elem_of_lookup. exists k. cbn.
  rewrite list_lookup_insert_ne; [done|]. intros E. rewrite E, Hk in Hc. congruence.
Qed.

Lemma set_child_new op c child nc : wo_childOps op !! c = Some child -> nc ∈ wo_childOps (set_child op c nc).
Proof.
  intros Hc. apply list_elem_of_lookup. exists c. cbn. apply list_lookup_insert_eq. by eapply lookup_lt_Some.
Qed.

Record noted (ops : list WriteOp) (w : TargetedWrite) (ws : list TargetedWrite) (op : WriteOp) (nc : ChildWriteOp)
    (op' : WriteOp) : Prop := {
  nt_flying : flying (<[(tw_ref w).1 := op']> ops) ws;
  nt_ready : wo_state op' = WriteOpState_Ready -> List.length (wo_childOps op) = 1%nat /\ ch_state nc = WriteOpState_Error;
  nt_single : List.length (wo_childOps op) = 1%nat ->
    (ch_state nc = WriteOpState_Completed -> wo_state op' = WriteOpState_Completed) /\
    (ch_state nc = WriteOpState_Error -> wo_state op' = WriteOpState_Ready \/ wo_state op' = WriteOpState_Error);
  nt_kept : kept op \/ ch_state nc = WriteOpState_Completed -> kept op';
  nt_spoiled : spoiled op \/ ch_state nc = WriteOpState_Error -> spoiled op';
  nt_children : wo_childOps op' = [] \/ List.length (wo_childOps op') = List.length (wo_childOps op);
  nt_index : (forall e, ch_error nc = Some e -> we_index e = Z.of_nat (tw_ref w).1) ->
    idx_ok (tw_ref w).1 op -> idx_ok (tw_ref w).1 op'
}.

Section note_child.
Context (ops : list WriteOp) (w : TargetedWrite) (ws : list TargetedWrite) (op : WriteOp) (nc child : ChildWriteOp).
Context (Hf : flying ops (w :: ws)) (Hop : ops !! (tw_ref w).1 = Some op) (Hnc : child_answer op nc).
Context (Hfl : in_flight (w :: ws) (tw_ref w).1 op) (Hch : wo_childOps op !! (tw_ref w).2 = Some child)
  (Hpend : ch_state child = WriteOpState_Pending).

Lemma set_child_unversioned : unversioned (set_child op (tw_ref w).2 nc).
Proof.
  destruct Hfl as (_ & _ & _ & Hun). unfold unversioned, set_child in *. cbn [wo_childOps]. rewrite length_insert.
  intros Hl ch e Hin Hs He. apply list_elem_of_lookup in Hin as [k Hk].
  apply list_lookup_insert_Some in Hk as [(_ & -> & _)|[_ Hk]].
  - destruct Hnc as [|[_ (e' & He' & Hx)]]; [congruence|]. rewrite He in He'. injection He' as ->. by apply Hx.
  - apply (Hun Hl ch e); [by eapply list_elem_of_lookup_2|done|done].
Qed.

Lemma set_child_index : (forall e, ch_error nc = Some e -> we_index e = Z.of_nat (tw_ref w).1) ->
  idx_ok (tw_ref w).1 op -> idx_ok (tw_ref w).1 (set_child op (tw_ref w).2 nc).
Proof.
  intros He [H1 H2]. split; [done|]. cbn. intros ch e Hin Hce. apply list_elem_of_lookup in Hin as [k Hk].
  apply list_lookup_insert_Some in Hk as [(_ & -> & _)|[_ Hk]]; [by apply He|].
  apply (H2 ch e); [by eapply list_elem_of_lookup_2|done].
Qed.

Lemma other_ref w' : w' ∈ ws -> tw_ref w' <> tw_ref w.
Proof.
  intros Hin E. pose proof (fl_nodup _ _ Hf) as Hn. apply NoDup_cons in Hn as [Hn _]. apply Hn. rewrite <- E.
  by apply list_elem_of_fmap_2.
Qed.

Lemma other_child w' : w' ∈ ws -> (tw_ref w').1 = (tw_ref w).1 ->
  (tw_ref w').2 <> (tw_ref w).2 /\
  exists ch, wo_childOps op !! (tw_ref w').2 = Some ch /\ ch_state ch = WriteOpState_Pending.
Proof.
  intros Hin E. split.
  - intros E'. apply (other_ref w' Hin). destruct (tw_ref w'), (tw_ref w). simpl in *. by subst.
  - destruct (fl_write _ _ Hf w' ltac:(by right)) as (op2 & ch2 & Ho2 & _ & Hc2 & Hp2). rewrite E, Hop in Ho2.
    injection Ho2 as <-. by exists ch2.
Qed.

(** Another shard has not answered: the operation waits. *)
Lemma note_waits w2 :
  w2 ∈ ws -> (tw_ref w2).1 = (tw_ref w).1 ->
  _updateOpState (set_child op (tw_ref w).2 nc) = Ret (set_child op (tw_ref w).2 nc) /\
  noted ops w ws op nc (set_child op (tw_ref w).2 nc).
Proof.
  intros Hw2 E2. destruct (other_child w2 Hw2 E2) as (Hne & ch2 & Hc2 & Hp2). destruct Hfl as (Hst & _ & Hcs & _). split.
  { unfold _updateOpState. assert (Hnf : forallb answered_child (wo_childOps (set_child op (tw_ref w).2 nc)) = false).
    { apply not_true_iff_false. intros Hall. rewrite List.forallb_forall in Hall. specialize (Hall ch2).
      assert (Hin : List.In ch2 (wo_childOps (set_child op (tw_ref w).2 nc))).
      { apply list_elem_of_In, list_elem_of_lookup. exists (tw_ref w2).2. cbn. by rewrite list_lookup_insert_ne. }
      specialize (Hall Hin). unfold answered_child in Hall. by rewrite Hp2 in Hall. }
    by rewrite Hnf. }
  assert (Hl : List.length (wo_childOps op) <> 1%nat).
  { intros Hl. apply lookup_lt_Some in Hc2, Hch. lia. }
  split; [|cbn; congruence|done| | |right; apply length_insert|apply set_child_index].
  - apply flying_others; [done| |].
    + right. split; [done|]. split; [by exists w2|]. split; [|apply set_child_unversioned]. intros c' ch' Hc'. cbn in Hc'.
      apply list_lookup_insert_Some in Hc' as [(<- & -> & _)|[Hcne Hc']].
      * destruct Hnc as [?|[? (e & He & _)]]; [by right; left|right; right]. split; [done|by exists e].
      * destruct (Hcs c' ch' Hc') as [[? (w3 & Hw3 & E3)]|?]; [left|by right]. split; [done|]. exists w3. split; [|done].
        apply elem_of_cons in Hw3 as [->|]; [|done]. exfalso. apply Hcne. by rewrite E3.
    + intros w' Hin E. split; [done|]. destruct (other_child w' Hin E) as (Hne' & ch3 & Hc3 & Hp3). exists ch3.
      split; [|done]. cbn. by rewrite list_lookup_insert_ne.
  - intros Hk. right. right. split; [done|]. destruct Hk as [Hk|Hk].
    + destruct Hk as [?|[?|[_ (ch & Hin & Hs)]]]; [congruence..|]. exists ch. split; [|done].
      eapply set_child_other; [exact Hch|done|]. intros ->. congruence.
    + exists nc. split; [|done]. by eapply set_child_new.
  - intros Hk. right. right. split; [done|]. destruct Hk as [Hk|Hk].
    + destruct Hk as [?|[?|[_ (ch & Hin & Hs)]]]; [congruence..|]. exists ch. split; [|done].
      eapply set_child_other; [exact Hch|done|]. intros ->. congruence.
    + exists nc. split; [|done]. by eapply set_child_new.
Qed.

(** The last answer decides. *)
Lemma note_decides :
  (forall w', w' ∈ ws -> (tw_ref w').1 <> (tw_ref w).1) ->
  exists op', _updateOpState (set_child op (tw_ref w).2 nc) = Ret op' /\ noted ops w ws op nc op'.
Proof.
  intros Hno. destruct Hfl as (Hst & _ & Hcs & _). set (c := (tw_ref w).2) in *.
  assert (Hlen : (c < List.length (wo_childOps op))%nat) by (by eapply lookup_lt_Some).
  assert (Hall : forall ch, ch ∈ wo_childOps (set_child op c nc) ->
    ch_state ch = WriteOpState_Completed \/ ch_state ch = WriteOpState_Error /\ is_Some (ch_error ch)).
  { intros ch [k Hk]%list_elem_of_lookup. cbn in Hk. apply list_lookup_insert_Some in Hk as [(_ & -> & _)|[Hcne Hk]].
    - destruct Hnc as [?|[? (e & He & _)]]; [by left|right]. split; [done|by exists e].
    - destruct (Hcs k ch Hk) as [[_ (w3 & Hw3 & E3)]|[?|?]]; [|by left|by right]. exfalso.
      apply elem_of_cons in Hw3 as [->|Hw3]; [apply Hcne; unfold c; by rewrite E3|].
      apply (Hno w3 Hw3). by rewrite E3. }
  destruct (update_done _ Hall set_child_unversioned) as (op' & Hup & Hq & Hready & Hcomp & Hidx).
  assert (Hone : List.length (wo_childOps op) = 1%nat -> wo_childOps (set_child op c nc) = [nc]).
  { intros Hl. cbn. destruct (wo_childOps op) as [|x [|? ?]]; try done. by assert (c = 0%nat) as -> by (simpl in Hlen; lia). }
  assert (Hrd : wo_state op' = WriteOpState_Ready -> List.length (wo_childOps op) = 1%nat /\ ch_state nc = WriteOpState_Error).
  { intros Hr. destruct (Hready Hr) as (ch & e & Ech & Hs & _). assert (Hl : List.length (wo_childOps op) = 1%nat).
    { rewrite <- (length_insert (wo_childOps op) c nc). cbn in Ech. by rewrite Ech. }
    split; [done|]. rewrite (Hone Hl) in Ech. by injection Ech as ->. }
  exists op'. split; [done|]. split; [|done| | | |left; apply Hq|intros He Hi; by apply Hidx, set_child_index].
  - apply flying_others; [done|by left|]. intros w' Hin E. by destruct (Hno w' Hin).
  - intros Hl. rewrite (Hone Hl) in Hcomp. split.
    + intros Hs. apply Hcomp. by intros ch ->%list_elem_of_singleton.
    + intros Hs. destruct Hq as (_ & [?|[Hc|[? _]]]); [by left| |by right]. exfalso.
      rewrite Hcomp in Hc. specialize (Hc nc ltac:(left)). congruence.
  - intros Hk. destruct Hq as (_ & [Hr|[?|[? _]]]); [|by left|by right; left]. exfalso. destruct (Hrd Hr) as [Hl He].
    destruct Hk as [[?|[?|[_ (ch & Hin & Hs)]]]|?]; [congruence..| |congruence].
    destruct (wo_childOps op) as [|x [|? ?]]; try done. apply list_elem_of_singleton in Hin as ->.
    assert (c = 0%nat) as E0 by (simpl in Hlen; lia). pose proof Hch as Hch'. rewrite E0 in Hch'. injection Hch' as <-. congruence.
  - intros Hk. destruct Hq as (_ & [?|[Hc|[? _]]]); [by left| |by right; left]. exfalso. rewrite Hcomp in Hc.
    destruct Hk as [[?|[?|[_ (ch & Hin & Hs)]]]|Hs]; [congruence..| |].
    + specialize (Hc ch). rewrite Hc in Hs; [done|]. eapply set_child_other; [exact Hch|done|]. intros ->. congruence.
    + specialize (Hc nc). rewrite Hc in Hs; [done|]. by eapply set_child_new.
Qed.
End note_child.

Lemma note_child ops w ws op nc :
  flying ops (w :: ws) -> ops !! (tw_ref w).1 = Some op -> child_answer op nc ->
  exists op', _updateOpState (set_child op (tw_ref w).2 nc) = Ret op' /\ noted ops w ws op nc op'.
Proof.
  intros Hf Hop Hnc. destruct (flying_write _ _ _ Hf) as (op0 & child & Hop0 & Hfl & Hch & Hpend).
  rewrite Hop in Hop0. injection Hop0 as <-.
  destruct (decide (Exists (fun w' => (tw_ref w').1 = (tw_ref w).1) ws)) as [Hex|Hno].
  - apply Exists_exists in Hex as (w2 & Hw2 & E2). eexists. by eapply note_waits.
  - eapply note_decides; try done. intros w' Hin E. apply Hno, Exists_exists. by exists w'.
Qed.

(** * The answer to a batch *)

(** Operations without a write in flight stay as they are, and an acknowledged
    write is never forgotten. *)
Definition evolves (ops ops' : list WriteOp) : Prop :=
  List.length ops' = List.length ops /\
  forall i op, ops !! i = Some op -> exists op', ops' !! i = Some op' /\ (quiet op -> op' = op) /\ (kept op -> kept op') /\
    (spoiled op -> spoiled op') /\
    (wo_childOps op' = [] \/ List.length (wo_childOps op') = List.length (wo_childOps op)) /\
    (idx_ok i op -> idx_ok i op').

Lemma evolves_refl ops : evolves ops ops.
Proof. split; [done|]. intros i op Hi. exists op. auto 10. Qed.

Lemma evolves_trans ops1 ops2 ops3 : evolves ops1 ops2 -> evolves ops2 ops3 -> evolves ops1 ops3.
Proof.
  intros [L1 H1] [L2 H2]. split; [congruence|]. intros i op Hi. destruct (H1 i op Hi) as (op2 & Hi2 & Hq2 & Hk2 & Hp2 & Hc2 & Hx2).
  destruct (H2 i op2 Hi2) as (op3 & Hi3 & Hq3 & Hk3 & Hp3 & Hc3 & Hx3). exists op3. split; [done|]. split; [|split; [auto|split; [auto|split; [|auto]]]].
  - intros Hq. rewrite <- (Hq2 Hq) in Hq |- *. by apply Hq3.
  - destruct Hc3 as [|E3]; [by left|]. destruct Hc2 as [E2|]; [|right; congruence]. left. rewrite E2 in E3.
    by destruct (wo_childOps op3).
Qed.

Lemma evolves_insert ops i op op' :
  ops !! i = Some op -> ~ quiet op -> (kept op -> kept op') -> (spoiled op -> spoiled op') ->
  wo_childOps op' = [] \/ List.length (wo_childOps op') = List.length (wo_childOps op) ->
  (idx_ok i op -> idx_ok i op') -> evolves ops (<[i := op']> ops).
Proof.
  intros Hi Hq Hk Hp Hc Hx. split; [apply length_insert|]. intros j op1 Hj. destruct (decide (j = i)) as [->|Hne].
  - exists op'. rewrite list_lookup_insert_eq by (by eapply lookup_lt_Some). rewrite Hi in Hj. by injection Hj as <-.
  - exists op1. rewrite list_lookup_insert_ne by done. auto 10.
Qed.

Definition item_of (w : TargetedWrite) : nat := (tw_ref w).1.

Definition single (ops : list WriteOp) (w : TargetedWrite) : Prop :=
  forall op, ops !! (tw_ref w).1 = Some op -> List.length (wo_childOps op) = 1%nat.

Definition fresh_errors (errs : list WriteErrorDetail) : Prop := Forall (fun e => we_code e <> StaleShardVersion) errs.

Lemma single_distinct ops w ws w' :
  flying ops (w :: ws) -> single ops w -> w' ∈ ws -> (tw_ref w').1 <> (tw_ref w).1.
Proof.
  intros Hf Hs Hin E. destruct (fl_write _ _ Hf w ltac:(left)) as (op & ch & Ho & _ & Hc & _).
  destruct (fl_write _ _ Hf w' ltac:(by right)) as (op' & ch' & Ho' & _ & Hc' & _). rewrite E, Ho in Ho'. injection Ho' as <-.
  specialize (Hs op Ho). apply lookup_lt_Some in Hc, Hc'.
  apply (other_ref ops w ws Hf w' Hin). destruct (tw_ref w), (tw_ref w'). simpl in *. subst. f_equal. lia.
Qed.

Lemma single_insert ops w ws op' : 
  flying ops (w :: ws) -> single ops w ->
  forall w', w' ∈ ws -> single ops w' -> single (<[(tw_ref w).1 := op']> ops) w'.
Proof.
  intros Hf Hs w' Hin Hs' op Hop. rewrite list_lookup_insert_ne in Hop; [by apply Hs'|].
  intros E. by apply (single_distinct ops w ws w' Hf Hs Hin).
Qed.

Lemma pending_not_quiet op : wo_state op = WriteOpState_Pending -> ~ quiet op.
Proof. intros E [_ [?|[?|[? _]]]]; congruence. Qed.

(** The writes that the answer acknowledges. *)
Fixpoint acks (ordered : bool) (writes : list TargetedWrite) (index : Z) (itemErrors : list WriteErrorDetail)
    (lastError : bool) : list TargetedWrite :=
  match writes with
  | [] => []
  | w :: writes =>
      let ok := (if negb ordered || negb lastError then [w] else []) ++ acks ordered writes (index + 1) itemErrors lastError in
      match itemErrors with
      | e :: rest => if we_index e =? index then acks ordered writes (index + 1) rest true else ok
      | [] => ok
      end
  end.

(** And those it does not. *)
Fixpoint nacks (ordered : bool) (writes : list TargetedWrite) (index : Z) (itemErrors : list WriteErrorDetail)
    (lastError : bool) : list TargetedWrite :=
  match writes with
  | [] => []
  | w :: writes =>
      let ok := (if negb ordered || negb lastError then [] else [w]) ++ nacks ordered writes (index + 1) itemErrors lastError in
      match itemErrors with
      | e :: rest => if we_index e =? index then w :: nacks ordered writes (index + 1) rest true else ok
      | [] => ok
      end
  end.

Lemma acks_or_nacks ordered writes w : forall index errs last,
  w ∈ writes -> w ∈ acks ordered writes index errs last \/ w ∈ nacks ordered writes index errs last.
Proof.
  induction writes as [|x writes IH]; intros index errs last; [by intros ?%not_elem_of_nil|]. cbn [acks nacks].
  assert (Hok : forall errs, w ∈ x :: writes ->
    w ∈ (if negb ordered || negb last then [x] else []) ++ acks ordered writes (index + 1) errs last \/
    w ∈ (if negb ordered || negb last then [] else [x]) ++ nacks ordered writes (index + 1) errs last).
  { intros errs' [->|Hin]%elem_of_cons; rewrite !elem_of_app; [destruct (_ || _); [left|right]; left; left|].
    destruct (IH (index + 1) errs' last Hin); auto. }
  destruct errs as [|e errs]; [by apply Hok|]. destruct (_ =? _); [|by apply Hok].
  intros [->|Hin]%elem_of_cons; [right; left|]. destruct (IH (index + 1) errs true Hin); [by left|right; by right].
Qed.

Section note_writes.
Context (rq : BatchedCommandRequest).

Definition may_note (ws : list TargetedWrite) (errs : list WriteErrorDetail) (last : bool) (ops : list WriteOp) : Prop :=
  (fresh_errors errs \/ forall w, w ∈ ws -> single ops w) /\
  (rq_ordered rq = true -> (forall w, w ∈ ws -> single ops w) \/ last = false /\ (List.length ws <= 1)%nat).

Definition notes (ops : list WriteOp) (rest acked nacked : list TargetedWrite) (m : Outcome (list WriteOp)) : Prop :=
  exists ops', m = Ret ops' /\ flying ops' rest /\ evolves ops ops' /\
    (forall w, w ∈ acked -> exists op', ops' !! (tw_ref w).1 = Some op' /\ kept op') /\
    (forall w, w ∈ nacked -> exists op', ops' !! (tw_ref w).1 = Some op' /\ spoiled op').

Lemma may_note_tail w ws rest errs errs' last last' ops op' :
  flying ops (w :: ws ++ rest) -> may_note (w :: ws) errs last ops -> (fresh_errors errs -> fresh_errors errs') ->
  may_note ws errs' last' (<[(tw_ref w).1 := op']> ops).
Proof.
  intros Hf [H1 H2] Hfe.
  assert (Hs : (forall w', w' ∈ w :: ws -> single ops w') -> forall w', w' ∈ ws -> single (<[(tw_ref w).1 := op']> ops) w').
  { intros Hall w' Hin. apply (single_insert ops w (ws ++ rest)); [done|apply Hall; left|apply elem_of_app; by left|].
    apply Hall. by right. }
  split; [destruct H1; [left|right]; auto|]. intros Ho. destruct (H2 Ho) as [?|[_ Hl]]; [left; auto|].
  destruct ws; [|simpl in Hl; lia]. left. by intros w' ?%not_elem_of_nil.
Qed.

(** One more write, then the rest. *)
Lemma notes_cons w ws rest errs last ops op op' acked nacked k nk :
  flying ops (w :: ws ++ rest) -> ops !! (tw_ref w).1 = Some op -> ~ quiet op -> (kept op -> kept op') ->
  (spoiled op -> spoiled op') -> wo_childOps op' = [] \/ List.length (wo_childOps op') = List.length (wo_childOps op) ->
  (idx_ok (tw_ref w).1 op -> idx_ok (tw_ref w).1 op') ->
  notes (<[(tw_ref w).1 := op']> ops) rest k nk (note_writes rq ws errs.1 errs.2 last (<[(tw_ref w).1 := op']> ops)) ->
  (forall x, x ∈ acked -> x = w /\ kept op' \/ x ∈ k) -> (forall x, x ∈ nacked -> x = w /\ spoiled op' \/ x ∈ nk) ->
  notes ops rest acked nacked (note_writes rq ws errs.1 errs.2 last (<[(tw_ref w).1 := op']> ops)).
Proof.
  intros Hf Hop Hq Hk Hp Hc Hx (ops' & Hn & Hfl & Hev & Hac & Hna) Hsub Hnsub. exists ops'. split; [done|]. split; [done|].
  split; [eapply evolves_trans; [by eapply evolves_insert|done]|].
  destruct Hev as [_ Hev]. destruct (Hev (tw_ref w).1 op') as (op2 & Ho2 & _ & Hk2 & Hp2 & _);
    [apply list_lookup_insert_eq; by eapply lookup_lt_Some|].
  split; intros y Hy; [destruct (Hsub y Hy) as [[-> Hw]|Hy']|destruct (Hnsub y Hy) as [[-> Hw]|Hy']]; eauto.
Qed.

Lemma note_writes_ok ws : forall rest index errs last ops,
  flying ops (ws ++ rest) -> may_note ws errs last ops ->
  notes ops rest (acks (rq_ordered rq) ws index errs last) (nacks (rq_ordered rq) ws index errs last)
    (note_writes rq ws index errs last ops).
Proof.
  induction ws as [|w ws IH]; intros rest index errs last ops Hf Hm.
  { exists ops. split_and!; [done|done|apply evolves_refl|by intros w ?%not_elem_of_nil..]. }
  cbn [note_writes acks nacks app] in *. destruct (flying_write _ _ _ Hf) as (op & child & Hop & Hfl & Hch & Hp). rewrite Hop.
  assert (Hq : ~ quiet op) by (apply pending_not_quiet, Hfl).
  assert (Hok : notes ops rest ((if negb (rq_ordered rq) || negb last then [w] else []) ++
      acks (rq_ordered rq) ws (index + 1) errs last)
    ((if negb (rq_ordered rq) || negb last then [] else [w]) ++ nacks (rq_ordered rq) ws (index + 1) errs last)
    (let* op := if negb (rq_ordered rq) || negb last then noteWriteComplete op w else cancelWrites op in
     note_writes rq ws (index + 1) errs last (<[(tw_ref w).1 := op]> ops))).
  { destruct (negb (rq_ordered rq) || negb last) eqn:Eo.
    - unfold noteWriteComplete. rewrite Hch.
      destruct (note_child ops w (ws ++ rest) op (mkChild WriteOpState_Completed None (Some (tw_endpoint w)) (ch_error child)))
        as (op' & -> & [Hfl' _ _ Hk Hsp Hcs Hix]); [done|done|by left|]. cbn [obind].
      apply (notes_cons w ws rest (index + 1, errs) last ops op op' _ _ (acks (rq_ordered rq) ws (index + 1) errs last)
        (nacks (rq_ordered rq) ws (index + 1) errs last)); try done; [auto|auto| | | |auto].
      + intros Hx. apply Hix; [|done]. cbn. intros e. apply (proj2 Hx). by eapply list_elem_of_lookup_2.
      + apply IH; [done|]. by eapply may_note_tail.
      + intros x [->|Hx]%elem_of_cons; auto.
    - apply orb_false_iff in Eo as [Ho%negb_false_iff Hl%negb_false_iff]. subst last. cbn [app].
      assert (Hs : single ops w).
      { destruct Hm as [_ Hm]. destruct (Hm Ho) as [Hs|[? _]]; [apply Hs; left|done]. }
      unfold cancelWrites. rewrite (proj1 Hfl). cbn [before_completed invariant obind].
      apply (notes_cons w ws rest (index + 1, errs) true ops op _ _ _ (acks (rq_ordered rq) ws (index + 1) errs true)
        (nacks (rq_ordered rq) ws (index + 1) errs true)); try done; [|by left|by left|by intros; apply idx_ok_done| |by auto|].
      + intros [?|[?|[_ (ch & Hin & Hc)]]]; destruct Hfl as (E & _); [congruence..|]. exfalso.
        specialize (Hs op Hop). destruct (wo_childOps op) as [|x [|? ?]]; try done. apply list_elem_of_singleton in Hin as ->.
        apply lookup_lt_Some in Hch as Hlt. simpl in Hlt. replace (tw_ref w).2 with 0%nat in Hch by lia. injection Hch as <-. congruence.
      + apply IH; [|by eapply may_note_tail]. apply flying_others; [done|by left; split; [|left]|].
        intros w' Hin E. by destruct (single_distinct ops w (ws ++ rest) w' Hf Hs Hin).
      + intros x [->|Hx]%elem_of_cons; [left; split; [done|by left]|by right]. }
  destruct errs as [|e errs]; [exact Hok|]. destruct (we_index e =? index); [|exact Hok].
  unfold noteWriteError. rewrite Hch.
  destruct (note_child ops w (ws ++ rest) op (mkChild WriteOpState_Error None (Some (tw_endpoint w))
    (Some (set_index e (Z.of_nat (tw_ref w).1))))) as (op' & -> & [Hfl' _ _ Hk Hsp Hcs Hix]); [done|done| |].
  { right. split; [done|]. eexists. split; [reflexivity|]. intros Hl. cbn. destruct Hm as [[Hfr|Hs] _].
    - by apply Forall_cons in Hfr as [? _].
    - specialize (Hs w ltac:(left) op Hop). lia. }
  cbn [obind]. apply (notes_cons w ws rest (index + 1, errs) true ops op op' _ _ (acks (rq_ordered rq) ws (index + 1) errs true)
    (nacks (rq_ordered rq) ws (index + 1) errs true)); try done; [auto|auto|apply Hix; by intros ? [= <-]| |auto|].
  2:{ intros x [->|Hx]%elem_of_cons; auto. }
  apply IH; [done|]. eapply may_note_tail; [done|done|]. by intros [_ ?]%Forall_cons.
Qed.
End note_writes.

(** ** Ordered batches *)

Section ordered.
Context (rq : BatchedCommandRequest) (Hord : rq_ordered rq = true).

(** The operation of the first write, once it is answered, stays. *)
Lemma first_stays ops op1 w ws index errs last ops' :
  flying (<[item_of w := op1]> ops) ws -> (item_of w < List.length ops)%nat ->
  (forall x, x ∈ ws -> single (<[item_of w := op1]> ops) x) -> (item_of w ∉ (item_of <$> ws)) ->
  note_writes rq ws index errs last (<[item_of w := op1]> ops) = Ret ops' ->
  ops' !! item_of w = Some op1.
Proof.
  intros Hf Hlt Hs Hn Hw. destruct (note_writes_ok rq ws [] index errs last (<[item_of w := op1]> ops)) as (ops2 & E & _ & Hev & _).
  - by rewrite app_nil_r.
  - split; auto.
  - rewrite Hw in E. injection E as <-. assert (H1 : <[item_of w := op1]> ops !! item_of w = Some op1)
      by (by apply list_lookup_insert_eq).
    destruct (proj2 Hev _ _ H1) as (op2 & Hop2 & Hq & _). rewrite Hop2. f_equal. apply Hq.
    destruct (fl_op _ _ Hf _ _ H1) as [?|(_ & (x & Hx & E) & _)]; [done|]. exfalso. apply Hn. rewrite <- E.
    by apply (list_elem_of_fmap_2 item_of).
Qed.

Lemma seq_head w ws a : item_of <$> w :: ws = seq a (List.length (w :: ws)) ->
  item_of w = a /\ item_of <$> ws = seq (S a) (List.length ws) /\ (item_of w ∉ (item_of <$> ws)).
Proof.
  cbn. intros [= -> E]. split; [done|]. split; [done|]. rewrite E. rewrite elem_of_seq. lia.
Qed.

(** After an error the rest of an ordered batch is taken back. *)
Lemma note_writes_cancels ws : forall a index ops ops',
  flying ops ws -> (forall w, w ∈ ws -> single ops w) -> item_of <$> ws = seq a (List.length ws) ->
  note_writes rq ws index [] true ops = Ret ops' ->
  forall j op, (j < List.length ws)%nat -> ops' !! (a + j)%nat = Some op -> wo_state op = WriteOpState_Ready.
Proof.
  induction ws as [|w ws IH]; intros a index ops ops' Hf Hs Hseq Hn j op' Hj Hop'; [simpl in Hj; lia|].
  destruct (seq_head _ _ _ Hseq) as (Ea & Hseq' & Hnin). destruct (flying_write _ _ _ Hf) as (op & ch & Hop & Hfl & _).
  cbn [note_writes] in Hn. rewrite Hop, Hord in Hn. cbn [negb orb] in Hn. unfold cancelWrites in Hn.
  rewrite (proj1 Hfl) in Hn. cbn [before_completed invariant obind] in Hn.
  assert (Hf' : flying (<[(tw_ref w).1 := mkWriteOp WriteOpState_Ready [] (wo_error op)]> ops) ws).
  { apply flying_others; [done|by left; split; [|left]|]. intros w' Hin E.
    by destruct (single_distinct ops w ws w' Hf (Hs w ltac:(left)) Hin). }
  assert (Hs' : forall x, x ∈ ws -> single (<[(tw_ref w).1 := mkWriteOp WriteOpState_Ready [] (wo_error op)]> ops) x).
  { intros x Hx. eapply single_insert; [done|apply Hs; left|done|apply Hs; by right]. }
  destruct j as [|j].
  - rewrite Nat.add_0_r, <- Ea in Hop'. assert (Hlt := lookup_lt_Some _ _ _ Hop).
    rewrite (first_stays ops _ w ws _ _ _ ops' Hf' Hlt Hs' Hnin Hn) in Hop'. by injection Hop' as <-.
  - eapply (IH (S a) _ _ ops' Hf' Hs' Hseq' Hn j); [simpl in Hj; lia|]. by replace (S a + j)%nat with (a + S j)%nat by lia.
Qed.

(** An ordered batch with at most one error: writes complete up to one, and the
    ones after it are taken back. *)
Lemma note_writes_prefix ws : forall a index errs ops ops',
  flying ops ws -> (forall w, w ∈ ws -> single ops w) -> item_of <$> ws = seq a (List.length ws) ->
  (List.length errs <= 1)%nat -> note_writes rq ws index errs false ops = Ret ops' ->
  exists m, forall j op, (j < List.length ws)%nat -> ops' !! (a + j)%nat = Some op ->
    ((j < m)%nat -> wo_state op = WriteOpState_Completed) /\ ((m < j)%nat -> wo_state op = WriteOpState_Ready).
Proof.
  induction ws as [|w ws IH]; intros a index errs ops ops' Hf Hs Hseq He Hn; [exists 0%nat; simpl; lia|].
  destruct (seq_head _ _ _ Hseq) as (Ea & Hseq' & Hnin). destruct (flying_write _ _ _ Hf) as (op & ch & Hop & Hfl & Hch & _).
  assert (Hlt := lookup_lt_Some _ _ _ Hop). assert (H1 := Hs w ltac:(left) op Hop).
  assert (Hs' : forall op1 x, x ∈ ws -> single (<[(tw_ref w).1 := op1]> ops) x).
  { intros op1 x Hx. eapply single_insert; [done|apply Hs; left|done|apply Hs; by right]. }
  cbn [note_writes] in Hn. rewrite Hop, Hord in Hn. cbn [negb orb] in Hn. 
  assert (Hok : forall errs, (List.length errs <= 1)%nat ->
    (let* op := noteWriteComplete op w in note_writes rq ws (index + 1) errs false (<[(tw_ref w).1 := op]> ops)) = Ret ops' ->
    exists m, forall j op, (j < List.length (w :: ws))%nat -> ops' !! (a + j)%nat = Some op ->
    ((j < m)%nat -> wo_state op = WriteOpState_Completed) /\ ((m < j)%nat -> wo_state op = WriteOpState_Ready)).
  { intros errs' He' Hn'. unfold noteWriteComplete in Hn'. rewrite Hch in Hn'.
    destruct (note_child ops w ws op (mkChild WriteOpState_Completed None (Some (tw_endpoint w)) (ch_error ch)))
      as (op1 & Hup & Hno); [done|done|by left|]. rewrite Hup in Hn'. cbn [obind] in Hn'.
    destruct (IH (S a) (index + 1) errs' _ ops' (nt_flying _ _ _ _ _ _ Hno) (Hs' op1) Hseq' He' Hn') as [m Hm].
    exists (S m). intros [|j] op' Hj Hop'.
    - rewrite Nat.add_0_r, <- Ea in Hop'. split; [|lia]. intros _.
      rewrite (first_stays ops _ w ws _ _ _ ops' (nt_flying _ _ _ _ _ _ Hno) Hlt (Hs' op1) Hnin Hn') in Hop'.
      injection Hop' as <-.
      by apply (nt_single _ _ _ _ _ _ Hno H1).
    - destruct (Hm j op') as [Hm1 Hm2]; [simpl in Hj; lia|by replace (S a + j)%nat with (a + S j)%nat by lia|].
      split; intros ?; [apply Hm1|apply Hm2]; lia. }
  destruct errs as [|e errs]; [by apply (Hok [])|]. destruct (we_index e =? index); [|by apply (Hok (e :: errs))].
  destruct errs; [|simpl in He; lia]. clear Hok IH. exists 0%nat. intros [|j] op' Hj Hop'; [lia|]. split; [lia|]. intros _.
  unfold noteWriteError in Hn. rewrite Hch in Hn.
  destruct (note_child ops w ws op (mkChild WriteOpState_Error None (Some (tw_endpoint w))
    (Some (set_index e (Z.of_nat (tw_ref w).1))))) as (op1 & Hup & Hno); [done|done| |].
  { right. split; [done|]. eexists. split; [reflexivity|]. lia. }
  rewrite Hup in Hn. cbn [obind] in Hn.
  eapply (note_writes_cancels ws (S a) _ _ ops' (nt_flying _ _ _ _ _ _ Hno) (Hs' op1) Hseq' Hn j);
    [simpl in Hj; lia|]. by replace (S a + j)%nat with (a + S j)%nat by lia.
Qed.
End ordered.

(** * Batches in flight *)

(** A batch as targeting builds it: its writes go to its endpoint; a batch with
    a version, and an ordered batch of several writes, has no write of an
    operation that other shards take part in. *)
Record batch_ok (rq : BatchedCommandRequest) (ops : list WriteOp) (b : TargetedWriteBatch) : Prop := {
  bo_writes : tb_writes b <> [];
  bo_endpoint w : w ∈ tb_writes b -> tw_endpoint w = tb_endpoint b;
  bo_version : shardVersion (tb_endpoint b) = IGNORED \/ forall w, w ∈ tb_writes b -> single ops w;
  bo_ordered : rq_ordered rq = true -> (forall w, w ∈ tb_writes b -> single ops w) \/ List.length (tb_writes b) = 1%nat
}.

Lemma flying_perm ops ws ws' : ws ≡ₚ ws' -> flying ops ws -> flying ops ws'.
Proof.
  intros Hp [Hn Hw Ho]. split.
  - by rewrite <- Hp.
  - intros w Hin. apply Hw. by rewrite Hp.
  - intros i op Hi. destruct (Ho i op Hi) as [?|(H1 & (w & Hin & E) & H2 & H3)]; [by left|right].
    split; [done|]. split; [exists w; by rewrite <- Hp|]. split; [|done].
    intros c ch Hc. destruct (H2 c ch Hc) as [[? (w2 & Hin2 & E2)]|?]; [left|by right].
    split; [done|]. exists w2. by rewrite <- Hp.
Qed.

Lemma single_evolves ops ops' ws w :
  evolves ops ops' -> flying ops' ws -> w ∈ ws -> single ops w -> single ops' w.
Proof.
  intros [Hl Hev] Hf Hin Hs op' Hop'. destruct (lookup_lt_is_Some_2 ops (tw_ref w).1) as [op Hop].
  { rewrite <- Hl. by eapply lookup_lt_Some. }
  destruct (Hev _ _ Hop) as (op2 & Hop2 & _ & _ & _ & Hc & _). rewrite Hop' in Hop2. injection Hop2 as <-.
  destruct (fl_write _ _ Hf w Hin) as (op3 & ch & Hop3 & _ & Hch & _). rewrite Hop' in Hop3. injection Hop3 as <-.
  destruct Hc as [Hc|Hc]; [by rewrite Hc in Hch|]. rewrite Hc. by apply Hs.
Qed.

Lemma batch_ok_evolves rq ops ops' ws b :
  evolves ops ops' -> flying ops' ws -> (forall w, w ∈ tb_writes b -> w ∈ ws) -> batch_ok rq ops b -> batch_ok rq ops' b.
Proof.
  intros Hev Hf Hin [H1 H2 H3 H4].
  assert (Hs : (forall w, w ∈ tb_writes b -> single ops w) -> forall w, w ∈ tb_writes b -> single ops' w)
    by (intros Hall w Hw; eapply single_evolves; eauto).
  split; [done|done|destruct H3; auto|]. intros Ho. destruct (H4 Ho); auto.
Qed.

(** What a router relies on in the answer to a batch of [n] writes: a shard does
    not find an ignored version stale, and names its upserts by their place. *)
Record good_response (version : ChunkVersion) (n : nat) (r : BatchedCommandResponse) : Prop := {
  gr_code : version = IGNORED -> rs_ok r = false -> rs_errCode r <> StaleShardVersion;
  gr_errors : version = IGNORED -> fresh_errors (default [] (rs_errDetails r));
  gr_upserts : Forall (fun u => 0 <= u.1 < Z.of_nat n) (default [] (rs_upsertDetails r))
}.

Lemma fresh_errors_perm l l' : l ≡ₚ l' -> fresh_errors l -> fresh_errors l'.
Proof. intros Hp. unfold fresh_errors. by rewrite Hp. Qed.

Lemma note_upserted_ok writes us : forall b,
  Forall (fun u => 0 <= u.1 < Z.of_nat (List.length writes)) us ->
  exists b', ofold (note_upserted writes) b us = Ret b' /\ bw_writeOps b' = bw_writeOps b.
Proof.
  induction us as [|u us IH]; intros b Hr; cbn [ofold]; [by exists b|]. apply Forall_cons in Hr as [Hu Hr].
  unfold note_upserted at 1. destruct (Z.ltb_spec u.1 0); [lia|].
  destruct (lookup_lt_is_Some_2 writes (Z.to_nat u.1)) as [w ->]; [lia|]. cbn [obind].
  destruct (IH (add_upserted b (Z.of_nat (tw_ref w).1, u.2)) Hr) as (b' & -> & E). by exists b'.
Qed.

(** The writes of a batch that an answer to it acknowledges. *)
Definition response_acks (rq : BatchedCommandRequest) (b : TargetedWriteBatch) (r : BatchedCommandResponse)
    : list TargetedWrite :=
  acks (rq_ordered rq) (tb_writes b) 0 (merge_sort by_index (default [] (rs_errDetails r))) false.

(** The answer to [writes] is in [bw']; [acked] are acknowledged, the others not. *)
Definition batch_noted (bw : BatchWriteOp) (writes rest acked : list TargetedWrite) (bw' : BatchWriteOp) : Prop :=
  flying (bw_writeOps bw') rest /\ evolves (bw_writeOps bw) (bw_writeOps bw') /\
  (forall w, w ∈ acked -> exists op', bw_writeOps bw' !! (tw_ref w).1 = Some op' /\ kept op') /\
  forall w, w ∈ writes -> w ∈ acked \/ exists op', bw_writeOps bw' !! (tw_ref w).1 = Some op' /\ spoiled op'.

Lemma note_ok_response_ok rq b r tracked bw rest :
  flying (bw_writeOps bw) (tb_writes b ++ rest) -> batch_ok rq (bw_writeOps bw) b ->
  (shardVersion (tb_endpoint b) = IGNORED -> fresh_errors (default [] (rs_errDetails r))) ->
  Forall (fun u => 0 <= u.1 < Z.of_nat (List.length (tb_writes b))) (default [] (rs_upsertDetails r)) ->
  exists bw', note_ok_response rq b r tracked bw =
    Ret (bw', trackErrors (tb_endpoint b) (merge_sort by_index (default [] (rs_errDetails r))) <$> tracked) /\
    batch_noted bw (tb_writes b) rest (response_acks rq b r) bw'.
Proof.
  intros Hf Hb Hfr Hus. unfold note_ok_response.
  set (bw1 := match rs_writeConcernError r with Some e => _ | None => _ end).
  assert (E1 : bw_writeOps bw1 = bw_writeOps bw).
  { unfold bw1, _incBatchStats. by destruct (rs_writeConcernError r), (rq_ops rq). }
  rewrite E1. destruct (note_writes_ok rq (tb_writes b) rest 0 (merge_sort by_index (default [] (rs_errDetails r))) false
    (bw_writeOps bw)) as (ops' & -> & Hf' & Hev & Hac & Hna); [done| |].
  { split.
    - destruct (bo_version _ _ _ Hb) as [Hv|Hs]; [left|by right]. eapply fresh_errors_perm; [|by apply Hfr].
      by rewrite merge_sort_Permutation.
    - intros Ho. destruct (bo_ordered _ _ _ Hb Ho) as [?|Hl]; [by left|right]. split; [done|lia]. }
  cbn [obind]. destruct (note_upserted_ok (tb_writes b) (default [] (rs_upsertDetails r)) (set_writeOps bw1 ops') Hus)
    as (bw' & -> & E'). cbn [obind]. exists bw'. split; [done|]. unfold batch_noted. rewrite E'. cbn.
  split; [done|]. split; [done|]. split; [done|]. intros w Hw.
  destruct (acks_or_nacks (rq_ordered rq) (tb_writes b) w 0 (merge_sort by_index (default [] (rs_errDetails r))) false Hw); auto.
Qed.

(** Sorted already. *)
Lemma sort_indexed e k n :
  merge_sort by_index ((fun i => set_index e (Z.of_nat i)) <$> seq k n) = (fun i => set_index e (Z.of_nat i)) <$> seq k n.
Proof.
  set (l := (fun i => set_index e (Z.of_nat i)) <$> seq k n).
  assert (Hg : forall m : list WriteErrorDetail, (forall x, x ∈ m -> x ∈ l) -> m = set_index e <$> (we_index <$> m)).
  { induction m as [|x m IH]; intros Hm; [done|]. cbn. rewrite <- IH by (intros y Hy; apply Hm; by right). f_equal.
    destruct (proj1 (list_elem_of_fmap _ _ _) (Hm x ltac:(left))) as (i & -> & _). done. }
  rewrite (Hg (merge_sort by_index l)) by (intros x Hx; by rewrite merge_sort_Permutation in Hx). rewrite (Hg l) at 2 by done.
  f_equal. apply (Sorted_unique Z.le).
  - assert (Ht : Total by_index) by (intros x y; unfold by_index; lia).
    pose proof (Sorted_merge_sort by_index l) as Hs. induction Hs as [|x m Hm IH Hd]; [constructor|]. cbn. constructor; [done|].
    destruct Hd; constructor. done.
  - unfold l. rewrite <- list_fmap_compose. clear. revert k. induction n as [|n IH]; intros k; cbn; constructor; [apply IH|].
    destruct n; cbn; constructor. cbn. lia.
  - by rewrite merge_sort_Permutation.
Qed.

Lemma acks_stopped ws : forall i, acks true ws i [] true = [].
Proof. induction ws as [|w ws IH]; intros i; [done|]. cbn. apply IH. Qed.

Lemma acks_all_errors e ws : forall k n last, (List.length ws <= n)%nat ->
  acks false ws (Z.of_nat k) ((fun i => set_index e (Z.of_nat i)) <$> seq k n) last = [].
Proof.
  induction ws as [|w ws IH]; intros k n last Hn; [done|]. destruct n as [|n]; [simpl in Hn; lia|].
  cbn [seq fmap list_fmap acks]. cbn [we_index set_index]. rewrite Z.eqb_refl.
  replace (Z.of_nat k + 1) with (Z.of_nat (S k)) by lia. apply IH. simpl in Hn. lia.
Qed.

(** No answer: no write of the batch counts as acknowledged. *)
Lemma noteBatchError_ok rq b e bw rest :
  flying (bw_writeOps bw) (tb_writes b ++ rest) -> batch_ok rq (bw_writeOps bw) b ->
  (shardVersion (tb_endpoint b) = IGNORED -> we_code e <> StaleShardVersion) ->
  exists bw', noteBatchError rq b e bw = Ret bw' /\ batch_noted bw (tb_writes b) rest [] bw'.
Proof.
  intros Hf Hb Hfr. unfold noteBatchError.
  set (n := if rq_ordered rq then 1%nat else List.length (tb_writes b)). set (r := mkResponse _ _ _ _ _ _ _).
  assert (Er : default [] (rs_errDetails r) = (fun i => set_index e (Z.of_nat i)) <$> seq 0 n) by (unfold r; by destruct n).
  assert (Ea : response_acks rq b r = []).
  { unfold response_acks. rewrite Er, sort_indexed. unfold n. destruct (rq_ordered rq); [|by apply (acks_all_errors e _ 0)].
    destruct (tb_writes b) as [|w ws]; [done|]. cbn. apply acks_stopped. }
  destruct (note_ok_response_ok rq b r None bw rest) as (bw' & -> & Hn); [done|done| |by apply Forall_nil|].
  - intros Hv. specialize (Hfr Hv). apply Forall_forall. rewrite Er. by intros x (i & -> & _)%list_elem_of_fmap.
  - cbn [obind]. exists bw'. split; [done|]. by rewrite Ea in Hn.
Qed.

Lemma noteBatchResponse_ok rq b r tracked bw rest :
  flying (bw_writeOps bw) (tb_writes b ++ rest) -> batch_ok rq (bw_writeOps bw) b ->
  good_response (shardVersion (tb_endpoint b)) (List.length (tb_writes b)) r ->
  exists bw' tracked', noteBatchResponse rq b r tracked bw = Ret (bw', tracked') /\
    batch_noted bw (tb_writes b) rest (if rs_ok r then response_acks rq b r else []) bw'.
Proof.
  intros Hf Hb [G1 G2 G3]. unfold noteBatchResponse. destruct (rs_ok r); cbn [negb].
  - destruct (note_ok_response_ok rq b r tracked bw rest) as (bw' & -> & H); try done. eauto.
  - destruct (noteBatchError_ok rq b (mkWriteError 0 (rs_errCode r) None []) bw rest) as (bw' & -> & H); [done|done|auto|].
    cbn [obind]. eauto.
Qed.

(** What an ordered batch makes of an answer, when it has one error at most. *)
Section ordered_answers.
Context (rq : BatchedCommandRequest) (Hord : rq_ordered rq = true).

Definition noted_once (b : TargetedWriteBatch) (bw bw' : BatchWriteOp) : Prop :=
  exists errs, (List.length errs <= 1)%nat /\
    note_writes rq (tb_writes b) 0 errs false (bw_writeOps bw) = Ret (bw_writeOps bw').

Lemma note_upserted_ops writes us : forall b b', ofold (note_upserted writes) b us = Ret b' -> bw_writeOps b' = bw_writeOps b.
Proof.
  induction us as [|u us IH]; intros b b'; cbn [ofold]; [by intros [= <-]|].
  unfold note_upserted at 1. destruct (u.1 <? 0); [done|]. destruct (writes !! _); [|done]. cbn [obind]. by intros ->%IH.
Qed.

Lemma note_ok_response_once b r tracked bw bw' tracked' :
  (List.length (default [] (rs_errDetails r)) <= 1)%nat ->
  note_ok_response rq b r tracked bw = Ret (bw', tracked') -> noted_once b bw bw'.
Proof.
  intros Hl. unfold note_ok_response. set (bw1 := match rs_writeConcernError r with Some e => _ | None => _ end).
  assert (E1 : bw_writeOps bw1 = bw_writeOps bw).
  { unfold bw1, _incBatchStats. by destruct (rs_writeConcernError r), (rq_ops rq). }
  rewrite E1. intros (ops & Hw & (bw2 & Hu & [= <- _])%obind_Ret_inv)%obind_Ret_inv.
  eexists. split; [|by rewrite (note_upserted_ops _ _ _ _ Hu)]. by rewrite merge_sort_Permutation.
Qed.

Lemma noteBatchError_once b e bw bw' : noteBatchError rq b e bw = Ret bw' -> noted_once b bw bw'.
Proof.
  unfold noteBatchError. rewrite Hord. cbv zeta. intros ([bw2 tr] & Hn & [= <-])%obind_Ret_inv.
  eapply note_ok_response_once; [|exact Hn]. simpl. lia.
Qed.

Lemma noteBatchResponse_once b r tracked bw bw' tracked' :
  (List.length (default [] (rs_errDetails r)) <= 1)%nat ->
  noteBatchResponse rq b r tracked bw = Ret (bw', tracked') -> noted_once b bw bw'.
Proof.
  intros Hl. unfold noteBatchResponse. destruct (negb (rs_ok r)); [|by apply note_ok_response_once].
  intros (bw2 & Hn & [= <- _])%obind_Ret_inv. by eapply noteBatchError_once.
Qed.
End ordered_answers.
