(* ===== verification/BatchTarget.v ===== *)
(** Cutting a batch into batches for shards: what [targetBatch] builds, for any
    targeter that keeps its promises, and that a targeting that fails leaves the
    batch as it was. *)

From stdpp Require Import base list strings gmap sorting.
From Stdlib Require Import ZArith Lia String.
From S2P Require Import Prelude Bson ChunkVersion ChunkType ConfigChunks WriteOps BatchSafe.
Local Open Scope string_scope.
Local Open Scope Z_scope.
Local Open Scope list_scope.
Local Open Scope outcome_scope.

(** * The targeter's promises *)

(** The endpoints of a write: at least one, and each shard once. *)
Definition good_endpoints (r : StatusWith (list ShardEndpoint)) : Prop :=
  match r with OK eps => eps <> [] /\ NoDup (shardName <$> eps) | NotOK _ => True end.

(** [docs] are the documents that the batch may insert. *)
Class NSTargeterLaws (T : Type) `{NSTargeter T} (docs : BSONObj -> Prop) := {
  targeter_ok : T -> Prop;
  targetInsert_ok doc t : docs doc -> targeter_ok t -> exists t' r, targetInsert doc t = Ret (t', r) /\ targeter_ok t';
  targetUpdate_ok u t : targeter_ok t ->
    exists t' r, targetUpdate u t = Ret (t', r) /\ targeter_ok t' /\ good_endpoints r;
  targetDelete_ok d t : targeter_ok t ->
    exists t' r, targetDelete d t = Ret (t', r) /\ targeter_ok t' /\ good_endpoints r;
  targetCollection_ok t : targeter_ok t ->
    exists t' r, targetCollection t = Ret (t', r) /\ targeter_ok t' /\ good_endpoints r;
  targetAllShards_ok t : targeter_ok t ->
    exists t' r, targetAllShards t = Ret (t', r) /\ targeter_ok t' /\ good_endpoints r;
  noteCouldNotTarget_ok t : targeter_ok t -> targeter_ok (noteCouldNotTarget t);
  noteStaleResponse_ok e info t : targeter_ok t -> exists t', noteStaleResponse e info t = Ret t' /\ targeter_ok t'
}.

Definition docs_ok (docs : BSONObj -> Prop) (rq : BatchedCommandRequest) : Prop :=
  match rq_ops rq with Inserts l => Forall docs l | _ => True end.
Definition item_ok (docs : BSONObj -> Prop) (item : BatchItem) : Prop :=
  match item with InsertItem doc => docs doc | _ => True end.

Lemma docs_ok_item docs rq i item : docs_ok docs rq -> item_at rq i = Ret item -> item_ok docs item.
Proof.
  unfold docs_ok, item_at. destruct (rq_ops rq) as [l|l|l]; [|intros _..]; [|by destruct (l !! i); [intros [= <-]|]..].
  intros Hl. destruct (l !! i) as [doc|] eqn:E; [|done]. intros [= <-]. cbn. rewrite Forall_forall in Hl.
  by eapply Hl, list_elem_of_lookup_2.
Qed.

(** * The writes of one operation *)

Definition pending_child (w : TargetedWrite) : ChildWriteOp := mkChild WriteOpState_Pending (Some w) None None.

Record writes_of (i : nat) (op op' : WriteOp) (writes : list TargetedWrite) : Prop := {
  wr_op : op' = mkWriteOp WriteOpState_Pending (pending_child <$> writes) (wo_error op);
  wr_some : writes <> [];
  wr_shards : NoDup ((fun w => shardName (tw_endpoint w)) <$> writes);
  wr_ref k w : writes !! k = Some w -> tw_ref w = (i, k);
  wr_version w : w ∈ writes -> (1 < List.length writes)%nat -> shardVersion (tw_endpoint w) = IGNORED
}.

Section targeting.
Context {T : Type} {docs : BSONObj -> Prop} `{L : NSTargeterLaws T docs} (rq : BatchedCommandRequest) (txnNumber : option Z).

Lemma target_item_ok item ii t :
  item_ok docs item -> targeter_ok t -> exists t' r, target_item item ii t = Ret (t', r) /\ targeter_ok t' /\ good_endpoints r.
Proof.
  intros Hi Ht. destruct item as [doc|u|d]; cbn [target_item]; [|by apply targetUpdate_ok|by apply targetDelete_ok].
  destruct ii; [by apply targetCollection_ok|]. destruct (targetInsert_ok doc t Hi Ht) as (t' & r & -> & Ht').
  cbn [obind]. eexists _, _. split; [reflexivity|]. split; [done|]. destruct r; [|done]. split; [done|]. apply NoDup_singleton.
Qed.

Lemma targetWrites_ok item ii i op t :
  item_ok docs item -> targeter_ok t -> wo_childOps op = [] ->
  exists t' op' r, targetWrites item ii i op t = Ret (t', op', r) /\ targeter_ok t' /\
    match r with NotOK _ => op' = op | OK writes => writes_of i op op' writes end.
Proof.
  intros Hit Ht Hop. unfold targetWrites. destruct (target_item_ok item ii t Hit Ht) as (t1 & r1 & -> & Ht1 & Hg1). cbn [obind].
  assert (H2 : exists t2 r2, match r1 with
      | OK endpoints => if (1 <? List.length endpoints)%nat && negb ii then targetAllShards t1 else Ret (t1, r1)
      | NotOK _ => Ret (t1, r1) end = Ret (t2, r2) /\ targeter_ok t2 /\ good_endpoints r2).
  { destruct r1 as [eps|]; [|eauto]. destruct (_ && _); [by apply targetAllShards_ok|eauto]. }
  destruct H2 as (t2 & r2 & -> & Ht2 & Hg2). cbn [obind]. destruct r2 as [eps|e]; [|eauto 10].
  eexists _, _, _. split; [reflexivity|]. split; [done|]. destruct Hg2 as [Hne Hnd]. rewrite Hop. cbn [List.length app].
  split.
  - done.
  - by destruct eps.
  - rewrite fmap_imap. rewrite (imap_ext _ (const shardName)); [by rewrite imap_const|].
    intros k ep _. cbn. by case_match.
  - intros k w Hk. apply list_lookup_imap_Some in Hk as (ep & _ & ->). done.
  - intros w Hin Hl. rewrite length_imap in Hl. apply list_elem_of_lookup in Hin as [k Hk].
    apply list_lookup_imap_Some in Hk as (ep & _ & ->). cbn [tw_endpoint]. apply Nat.ltb_lt in Hl. by rewrite Hl.
Qed.
End targeting.

(** * The map of batches *)

Definition writes_in (m : TargetedBatchMap) : list TargetedWrite := m ≫= tb_writes.
Definition batch_shard (b : TargetedWriteBatch) : ShardId := shardName (tb_endpoint b).

Record batches_ok (m : TargetedBatchMap) (shards : gset ShardId) : Prop := {
  bm_shards : NoDup (batch_shard <$> m);
  bm_set s : s ∈ shards <-> s ∈ batch_shard <$> m;
  bm_batch b : b ∈ m -> tb_writes b <> [] /\ forall w, w ∈ tb_writes b -> tw_endpoint w = tb_endpoint b
}.

Lemma find_batch_Some e m b : find_batch e m = Some b -> b ∈ m /\ tb_endpoint b = e.
Proof.
  intros Hf. apply List.find_some in Hf as [Hin E]. split; [by apply list_elem_of_In|]. by apply same_endpoint_eq.
Qed.

Lemma find_batch_None e m b : find_batch e m = None -> b ∈ m -> tb_endpoint b <> e.
Proof.
  intros Hf Hin E. apply list_elem_of_In in Hin. apply (List.find_none _ _ Hf) in Hin. cbn in Hin.
  by rewrite (proj2 (same_endpoint_eq _ _) E) in Hin.
Qed.

Lemma update_batch_spec f e m b :
  find_batch e m = Some b -> exists m1 m2, m = m1 ++ b :: m2 /\ update_batch f e m = m1 ++ f b :: m2.
Proof.
  induction m as [|x m IH]; [done|]. cbn [find_batch List.find update_batch]. destruct (same_endpoint (tb_endpoint x) e).
  - intros [= ->]. by exists [], m.
  - intros Hf. destruct (IH Hf) as (m1 & m2 & -> & ->). by exists (x :: m1), m2.
Qed.

(** A write can be added: its endpoint has a batch, or its shard has none. *)
Definition admits (m : TargetedBatchMap) (shards : gset ShardId) (w : TargetedWrite) : Prop :=
  is_Some (find_batch (tw_endpoint w) m) \/ (shardName (tw_endpoint w) ∉ shards).

Lemma add_to_batch_ok sz m shards w m' shards' :
  batches_ok m shards -> admits m shards w -> add_to_batch sz (m, shards) w = (m', shards') ->
  batches_ok m' shards' /\ writes_in m' ≡ₚ writes_in m ++ [w] /\
  (forall w', shardName (tw_endpoint w') <> shardName (tw_endpoint w) -> admits m shards w' -> admits m' shards' w').
Proof.
  intros [Hs Hset Hb] Ha. cbn [add_to_batch]. destruct (find_batch (tw_endpoint w) m) as [b|] eqn:Ef.
  - intros [= <- <-]. destruct (find_batch_Some _ _ _ Ef) as [_ Ee].
    destruct (update_batch_spec (addWrite w sz) _ _ _ Ef) as (m1 & m2 & -> & ->).
    assert (Esh : batch_shard <$> m1 ++ addWrite w sz b :: m2 = batch_shard <$> m1 ++ b :: m2) by by rewrite !fmap_app.
    split; [split|split].
    + by rewrite Esh.
    + by rewrite Esh.
    + intros x [Hx|[->|Hx]%elem_of_cons]%elem_of_app; [apply Hb; set_solver| |apply Hb; set_solver].
      destruct (Hb b ltac:(set_solver)) as [_ He]. cbn [tb_writes addWrite tb_endpoint]. split; [by destruct (tb_writes b)|].
      intros w' [Hw'| ->%list_elem_of_singleton]%elem_of_app; [by apply He|done].
    + unfold writes_in. rewrite !bind_app, !bind_cons. cbn [tb_writes addWrite]. rewrite <- !app_assoc.
      do 2 apply Permutation_app_head. apply Permutation_app_comm.
    + intros w' _ [[b' Hb']|Hn]; [left|by right].
      destruct (find_batch (tw_endpoint w') (m1 ++ addWrite w sz b :: m2)) eqn:E; [done|]. exfalso.
      destruct (find_batch_Some _ _ _ Hb') as [Hin He].
      apply elem_of_app in Hin as [Hin|[->|Hin]%elem_of_cons].
      * apply (find_batch_None _ _ b' E); [set_solver|done].
      * apply (find_batch_None _ _ (addWrite w sz b) E); [set_solver|done].
      * apply (find_batch_None _ _ b' E); [set_solver|done].
  - intros [= <- <-]. destruct Ha as [[? ?]|Hn]; [by rewrite Ef in H|]. split; [split|split].
    + rewrite fmap_app. apply NoDup_app. split; [done|]. split; [|apply NoDup_singleton].
      intros x Hx ->%list_elem_of_singleton. by apply Hn, Hset.
    + intros s. rewrite fmap_app, elem_of_union, elem_of_app, elem_of_singleton, Hset. cbn [fmap list_fmap].
      by rewrite list_elem_of_singleton.
    + intros x [Hx| ->%list_elem_of_singleton]%elem_of_app; [by apply Hb|]. split; [done|]. cbn.
      by intros w' ->%list_elem_of_singleton.
    + unfold writes_in. rewrite bind_app. reflexivity.
    + intros w' Hne [[b' Hb']|Hn']; [left|right; set_solver]. destruct (find_batch_Some _ _ _ Hb') as [Hin He].
      destruct (find_batch (tw_endpoint w') (m ++ [addWrite w sz (mkBatch (tw_endpoint w) [] 0)])) eqn:E; [done|]. exfalso. apply (find_batch_None _ _ b' E); [set_solver|done].
Qed.

Lemma add_all_ok sz ws : forall m shards m' shards',
  batches_ok m shards -> NoDup ((fun w => shardName (tw_endpoint w)) <$> ws) -> (forall w, w ∈ ws -> admits m shards w) ->
  foldl (add_to_batch sz) (m, shards) ws = (m', shards') ->
  batches_ok m' shards' /\ writes_in m' ≡ₚ writes_in m ++ ws.
Proof.
  induction ws as [|w ws IH]; intros m shards m' shards' Hm Hn Ha Hf; cbn [foldl] in Hf.
  { injection Hf as <- <-. by rewrite app_nil_r. }
  destruct (add_to_batch sz (m, shards) w) as [m1 s1] eqn:E1. cbn in Hn. apply NoDup_cons in Hn as [Hnin Hn].
  destruct (add_to_batch_ok _ _ _ _ _ _ Hm (Ha w ltac:(left)) E1) as (Hm1 & Hp1 & Ha1).
  destruct (IH m1 s1 m' shards' Hm1 Hn) as (Hm' & Hp'); [|done|].
  - intros w' Hin. apply Ha1; [|apply Ha; by right]. intros E. apply Hnin. rewrite <- E.
    apply (list_elem_of_fmap_2 (fun w => shardName (tw_endpoint w)) ws w' Hin).
  - split; [done|]. by rewrite Hp', Hp1, <- app_assoc.
Qed.

(** Batches have distinct shards, so they can be handed over. *)
Lemma hand_over_ok m shards :
  batches_ok m shards ->
  exists batches, hand_over m = Ret batches /\ map_to_list batches ≡ₚ (fun b => (batch_shard b, b)) <$> m.
Proof.
  intros [Hs _ Hb]. unfold hand_over.
  assert (H : forall acc : gmap ShardId TargetedWriteBatch, (forall b, b ∈ m -> acc !! batch_shard b = None) ->
    exists batches, ofold (fun targetedBatches batch =>
      match tb_writes batch with
      | [] => Ret targetedBatches
      | _ => invariant (negb (bool_decide (is_Some (targetedBatches !! shardName (tb_endpoint batch))))) ;*
             Ret (<[shardName (tb_endpoint batch) := batch]> targetedBatches)
      end) acc m = Ret batches /\ map_to_list batches ≡ₚ ((fun b => (batch_shard b, b)) <$> m) ++ map_to_list acc).
  { induction m as [|b m IH]; intros acc Hacc; cbn [ofold]; [by exists acc|].
    cbn in Hs. apply NoDup_cons in Hs as [Hnin Hs]. destruct (Hb b ltac:(left)) as [Hw _].
    pose proof (Hacc b ltac:(left)) as Hnone. unfold batch_shard in Hnone.
    destruct (tb_writes b) as [|w ws] eqn:Ew; [done|]. rewrite Hnone. rewrite bool_decide_eq_false_2 by (by intros [? ?]).
    cbn [negb invariant obind]. destruct (IH Hs (fun x Hx => Hb x ltac:(by right)) (<[shardName (tb_endpoint b) := b]> acc))
      as (batches & -> & Hp).
    - intros x Hx. rewrite lookup_insert_ne; [apply Hacc; by right|]. intros E. apply Hnin.
      unfold batch_shard at 1. rewrite E. by apply list_elem_of_fmap_2.
    - exists batches. split; [done|]. rewrite Hp, map_to_list_insert by done. cbn. by rewrite Permutation_middle. }
  destruct (H ∅) as (batches & E & Hp); [done|]. exists batches. split; [exact E|].
  rewrite Hp, map_to_list_empty. by rewrite app_nil_r.
Qed.

(** * Operations while they are targeted *)

Lemma quiet_ready_eq op : quiet op -> wo_state op = WriteOpState_Ready -> op = mkWriteOp WriteOpState_Ready [] (wo_error op).
Proof. intros [Hc _] Hs. destruct op as [s ch e]. cbn in *. by subst. Qed.

Lemma quiet_not_in ops ws i op w : flying ops ws -> ops !! i = Some op -> quiet op -> w ∈ ws -> (tw_ref w).1 <> i.
Proof.
  intros Hf Hi Hq Hw E. destruct (fl_write _ _ Hf w Hw) as (op' & ch & Hop & Hp & _). rewrite E, Hi in Hop.
  injection Hop as <-. by apply pending_not_quiet in Hp.
Qed.

Lemma flying_quiet ops ws i op op' :
  flying ops ws -> ops !! i = Some op -> quiet op -> quiet op' -> flying (<[i := op']> ops) ws.
Proof.
  intros Hf Hi Hq Hq'. split; [by apply Hf| |].
  - intros w Hw. rewrite list_lookup_insert_ne; [by apply Hf|]. intros E. by apply (quiet_not_in ops ws i op w Hf Hi Hq Hw).
  - intros j x [(<- & <- & _)|[_ Hj]]%list_lookup_insert_Some; [by left|by apply Hf].
Qed.

Lemma NoDup_refs i writes :
  (forall k w, writes !! k = Some w -> tw_ref w = (i, k)) -> NoDup (tw_ref <$> writes).
Proof.
  intros Hr. apply NoDup_alt. intros a b x Ha Hb. rewrite list_lookup_fmap in Ha, Hb.
  destruct (writes !! a) as [wa|] eqn:Ea, (writes !! b) as [wb|] eqn:Eb; try done. cbn in Ha, Hb.
  rewrite (Hr _ _ Ea) in Ha. rewrite (Hr _ _ Eb) in Hb. congruence.
Qed.

Lemma flying_add ops ws i op op' writes :
  flying ops ws -> ops !! i = Some op -> quiet op -> writes_of i op op' writes -> flying (<[i := op']> ops) (ws ++ writes).
Proof.
  intros Hf Hi Hq [-> Hne Hsh Href Hv]. assert (Hlt := lookup_lt_Some _ _ _ Hi). split.
  - rewrite fmap_app. apply NoDup_app. split; [by apply Hf|]. split; [|by eapply NoDup_refs].
    intros x (w & -> & Hw)%list_elem_of_fmap (w' & E & Hw')%list_elem_of_fmap.
    apply list_elem_of_lookup in Hw' as [k Hk]. apply Href in Hk. apply (quiet_not_in ops ws i op w Hf Hi Hq Hw).
    by rewrite E, Hk.
  - intros w [Hw|Hw]%elem_of_app.
    + rewrite list_lookup_insert_ne; [by apply Hf|]. intros E. by apply (quiet_not_in ops ws i op w Hf Hi Hq Hw).
    + apply list_elem_of_lookup in Hw as [k Hk]. rewrite (Href k w Hk). cbn [fst snd].
      eexists _, (pending_child w). rewrite list_lookup_insert_eq by done. split; [done|]. split; [done|]. cbn.
      by rewrite list_lookup_fmap, Hk.
  - intros j x [(<- & <- & _)|[Hne' Hj]]%list_lookup_insert_Some.
    + right. split; [done|]. split; [|split].
      * destruct writes as [|w writes]; [done|]. exists w. split; [set_solver|]. by rewrite (Href 0%nat w eq_refl).
      * intros c ch Hc. cbn in Hc. rewrite list_lookup_fmap in Hc. destruct (writes !! c) as [w|] eqn:E; [|done].
        injection Hc as <-. left. split; [done|]. exists w. split; [|by apply Href].
        apply elem_of_app. right. by eapply list_elem_of_lookup_2.
      * intros _ ch e (w & -> & _)%list_elem_of_fmap. done.
    + destruct (fl_op _ _ Hf j x Hj) as [?|(Hp & (w & Hw & E) & Hc & Hu)]; [by left|right]. split; [done|].
      split; [exists w; set_solver|]. split; [|done]. intros c ch Hch.
      destruct (Hc c ch Hch) as [[? (w2 & Hw2 & E2)]|?]; [left|by right]. split; [done|]. exists w2. set_solver.
Qed.

Lemma setOpError_index i op e : wo_childOps op = [] -> idx_ok i (setOpError i op e).
Proof. intros Hc. split; [by intros _ ? [= <-]|]. cbn. rewrite Hc. by intros ch x ?%not_elem_of_nil. Qed.

(** What targeting makes of operation [i]. *)
Definition track (recordTargetErrors : bool) (i : nat) (op0 op : WriteOp) : Prop :=
  op = op0 \/ wo_state op0 = WriteOpState_Ready /\ idx_ok i op /\
    (wo_state op = WriteOpState_Pending /\ wo_error op = wo_error op0 \/
     recordTargetErrors = true /\ wo_state op = WriteOpState_Error).

Definition tracks (recordTargetErrors : bool) (ops0 ops : list WriteOp) : Prop :=
  List.length ops = List.length ops0 /\
  forall i op0 op, ops0 !! i = Some op0 -> ops !! i = Some op -> track recordTargetErrors i op0 op.

Lemma tracks_refl r ops : tracks r ops ops.
Proof. split; [done|]. intros i op0 op H1 H2. left. congruence. Qed.

Lemma tracks_l r ops0 ops i op0 :
  tracks r ops0 ops -> ops0 !! i = Some op0 -> exists op, ops !! i = Some op /\ track r i op0 op.
Proof.
  intros [Hl Ht] H0. destruct (lookup_lt_is_Some_2 ops i) as [op Hop]; [rewrite Hl; by eapply lookup_lt_Some|]. eauto.
Qed.

Lemma tracks_r r ops0 ops i op :
  tracks r ops0 ops -> ops !! i = Some op -> exists op0, ops0 !! i = Some op0 /\ track r i op0 op.
Proof.
  intros [Hl Ht] H0. destruct (lookup_lt_is_Some_2 ops0 i) as [op0 Hop]; [rewrite <- Hl; by eapply lookup_lt_Some|]. eauto.
Qed.

Lemma tracks_insert r ops0 ops i op0 op :
  tracks r ops0 ops -> ops0 !! i = Some op0 -> track r i op0 op -> tracks r ops0 (<[i := op]> ops).
Proof.
  intros [Hl Ht] Hi Htr. split; [by rewrite length_insert|]. intros j x y Hx [(<- & <- & _)|[_ Hy]]%list_lookup_insert_Some.
  - by assert (x = op0) as -> by congruence.
  - by apply Ht.
Qed.

(** Cancelling the batches undoes the targeting. *)
Lemma cancel_writes_undo ops0 ws : forall ops,
  (forall i op, ops0 !! i = Some op -> quiet op) ->
  tracks false ops0 ops ->
  (forall i op, ops !! i = Some op -> ops0 !! i = Some op \/ exists w, w ∈ ws /\ (tw_ref w).1 = i) ->
  (forall w, w ∈ ws -> exists op0, ops0 !! (tw_ref w).1 = Some op0 /\ wo_state op0 = WriteOpState_Ready) ->
  ofold (fun ops w =>
           match ops !! (tw_ref w).1 with
           | None => Undef
           | Some op => let* op := cancelWrites op in Ret (<[(tw_ref w).1 := op]> ops)
           end) ops ws = Ret ops0.
Proof.
  induction ws as [|w ws IH]; intros ops Hq Ht Hor Hw; cbn [ofold].
  { f_equal. apply list_eq_same_length with (List.length ops0); [done|apply Ht|].
    intros i x y _ Hx Hy. destruct (Hor i x Hx) as [E|(w & ?%not_elem_of_nil & _)]; [congruence|done]. }
  destruct (Hw w ltac:(left)) as (op0 & Hop0 & Hr). destruct (tracks_l _ _ _ _ _ Ht Hop0) as (op & Hop & Htr).
  rewrite Hop. unfold cancelWrites.
  assert (E : before_completed (wo_state op) = true /\ mkWriteOp WriteOpState_Ready [] (wo_error op) = op0).
  { rewrite (quiet_ready_eq op0 (Hq _ _ Hop0) Hr). destruct Htr as [->|(_ & _ & [[-> ->]|[? _]])]; [by rewrite Hr|done|done]. }
  destruct E as [-> ->]. cbn [invariant obind]. apply IH; [done| | |].
  - apply (tracks_insert false ops0 ops _ op0); [done|done|by left].
  - intros i x [(<- & <- & _)|[Hne Hi]]%list_lookup_insert_Some; [by left|].
    destruct (Hor i x Hi) as [?|(w' & [->|Hw']%elem_of_cons & E)]; [by left|done|right; by exists w'].
  - intros w' Hin. apply Hw. by right.
Qed.

(** * The loop *)

Lemma NoDup_const {A} (l : list A) x : NoDup l -> (forall y, y ∈ l -> y = x) -> (List.length l <= 1)%nat.
Proof.
  destruct l as [|a [|b l]]; simpl; [lia|lia|]. intros [Hn _]%NoDup_cons Ha. exfalso. apply Hn.
  rewrite (Ha a), (Ha b) by set_solver. left.
Qed.

Lemma writes_in_elem m b w : b ∈ m -> w ∈ tb_writes b -> w ∈ writes_in m.
Proof. intros Hb Hw. apply list_elem_of_bind. by exists b. Qed.

(** Batches made of the writes of one operation have one write each. *)
Lemma one_write_each m shards writes b :
  batches_ok m shards -> writes_in m ≡ₚ writes -> NoDup ((fun w => shardName (tw_endpoint w)) <$> writes) -> b ∈ m ->
  List.length (tb_writes b) = 1%nat.
Proof.
  intros Hm Hp Hn Hb. destruct (bm_batch _ _ Hm b Hb) as [Hne He].
  rewrite <- Hp in Hn. apply list_elem_of_split in Hb as (m1 & m2 & ->). unfold writes_in in Hn.
  rewrite bind_app, bind_cons, !fmap_app in Hn. apply NoDup_app in Hn as (_ & _ & Hn). apply NoDup_app in Hn as (Hn & _ & _).
  assert (Hl : (List.length (tb_writes b) <= 1)%nat).
  { rewrite <- (length_fmap (fun w => shardName (tw_endpoint w))). apply (NoDup_const _ (batch_shard b)); [done|].
    intros y (w & -> & Hw)%list_elem_of_fmap. by rewrite (He w Hw). }
  destruct (tb_writes b); [done|simpl in *; lia].
Qed.

(** An ordered batch with a single target takes the writes in order. *)
Lemma add_one_order sz m shards w m' shards' :
  (List.length m <= 1)%nat -> m = [] \/ is_Some (find_batch (tw_endpoint w) m) ->
  foldl (add_to_batch sz) (m, shards) [w] = (m', shards') ->
  List.length m' = 1%nat /\ writes_in m' = writes_in m ++ [w].
Proof.
  intros Hl Hf. cbn [foldl add_to_batch]. destruct Hf as [->|[b Hb]].
  - cbn [find_batch List.find]. by intros [= <- <-].
  - rewrite Hb. intros [= <- _]. destruct m as [|x [|? ?]]; [done| |simpl in Hl; lia].
    unfold find_batch in Hb. cbn [List.find] in Hb. cbn [update_batch].
    destruct (same_endpoint (tb_endpoint x) (tw_endpoint w)); [|done]. split; [done|].
    unfold writes_in. cbn. by rewrite !app_nil_r.
Qed.

Section loop.
Context {T : Type} {docs : BSONObj -> Prop} `{L : NSTargeterLaws T docs} (rq : BatchedCommandRequest) (txnNumber : option Z).
Context (recordTargetErrors : bool) (ops0 : list WriteOp).

Definition prefix_at (a : nat) : Prop :=
  forall j op, ops0 !! j = Some op -> (j < a)%nat /\ wo_state op <> WriteOpState_Ready \/
    (a <= j)%nat /\ wo_state op = WriteOpState_Ready.

(** Writes in order for one shard, or the writes of one operation. *)
Definition in_order (a : nat) (m : TargetedBatchMap) (ops : list WriteOp) : Prop :=
  (List.length m <= 1)%nat /\ (forall w, w ∈ writes_in m -> single ops w) /\
    (exists p, item_of <$> writes_in m = seq a p) \/
  (forall w, w ∈ writes_in m -> item_of w = a) /\ forall b, b ∈ m -> List.length (tb_writes b) = 1%nat.

(** The operations without a write are as they were. *)
Definition untouched (ops : list WriteOp) : Prop :=
  forall j op, ops !! j = Some op -> ops0 !! j = Some op \/ wo_state op = WriteOpState_Pending.

Lemma untouched_insert ops i op :
  untouched ops -> (i < List.length ops)%nat -> ops0 !! i = Some op \/ wo_state op = WriteOpState_Pending ->
  untouched (<[i := op]> ops).
Proof. intros Hu Hi Hop j x [(<- & <- & _)|[_ Hx]]%list_lookup_insert_Some; [done|by apply Hu]. Qed.

Record targeted (st : Targeting) : Prop := {
  ta_targeter : targeter_ok (tg_targeter st);
  ta_flying : flying (tg_ops st) (writes_in (tg_batchMap st));
  ta_batches : batches_ok (tg_batchMap st) (tg_targetedShards st);
  ta_version w : w ∈ writes_in (tg_batchMap st) -> shardVersion (tw_endpoint w) = IGNORED \/ single (tg_ops st) w;
  ta_ordered : rq_ordered rq = true ->
    (forall w, w ∈ writes_in (tg_batchMap st) -> single (tg_ops st) w) \/
    forall b, b ∈ tg_batchMap st -> List.length (tb_writes b) = 1%nat;
  ta_order a : rq_ordered rq = true -> prefix_at a -> in_order a (tg_batchMap st) (tg_ops st);
  ta_untouched : rq_ordered rq = true -> untouched (tg_ops st);
  ta_tracks : tracks recordTargetErrors ops0 (tg_ops st)
}.

(** The loop goes on at [i]. *)
Record open (i : nat) (st : Targeting (T:=T)) : Prop := {
  op_next j : (i <= j)%nat -> tg_ops st !! j = ops0 !! j;
  op_ordered : rq_ordered rq = true -> (List.length (tg_batchMap st) <= 1)%nat /\
    forall w, w ∈ writes_in (tg_batchMap st) -> single (tg_ops st) w;
  op_order a : rq_ordered rq = true -> prefix_at a -> item_of <$> writes_in (tg_batchMap st) = seq a (i - a);
  op_none : rq_ordered rq = true -> tg_batchMap st = [] -> tg_ops st = ops0
}.

Lemma single_insert_other ops ws i op op' w :
  flying ops ws -> ops !! i = Some op -> quiet op -> w ∈ ws -> single ops w -> single (<[i := op']> ops) w.
Proof.
  intros Hf Hi Hq Hw Hs x Hx. rewrite list_lookup_insert_ne in Hx; [by apply Hs|].
  intros E. by apply (quiet_not_in ops ws i op w Hf Hi Hq Hw).
Qed.

(** A targeting state after an operation without writes changed. *)
Lemma targeted_insert st i op op0 op' t :
  targeted st -> targeter_ok t -> tg_ops st !! i = Some op -> ops0 !! i = Some op0 -> quiet op -> quiet op' ->
  track recordTargetErrors i op0 op' -> (rq_ordered rq = true -> op' = op0) ->
  targeted (mkTargeting t (<[i := op']> (tg_ops st)) (tg_batchMap st) (tg_targetedShards st)).
Proof.
  intros [H1 H2 H3 H4 H5 H6 H8 H7] Ht Hi Hi0 Hq Hq' Htr Ho'.
  assert (Hs : forall w, w ∈ writes_in (tg_batchMap st) -> single (tg_ops st) w -> single (<[i := op']> (tg_ops st)) w)
    by (intros w Hw; by eapply single_insert_other).
  split; cbn [tg_targeter tg_ops tg_batchMap tg_targetedShards]; [done| |done| | | | |].
  - by eapply flying_quiet.
  - intros w Hw. destruct (H4 w Hw); auto.
  - intros Ho. destruct (H5 Ho); auto.
  - intros a Ho Ha. destruct (H6 a Ho Ha) as [(? & ? & ?)|?]; [left|by right]. split; [done|]. split; auto.
  - intros Ho. apply untouched_insert; [auto|by eapply lookup_lt_Some|left]. by rewrite (Ho' Ho).
  - by eapply tracks_insert.
Qed.

(** Fresh writes of operation [i] are single targets, or without a version. *)
Lemma writes_single ops i op op' writes w :
  (i < List.length ops)%nat -> writes_of i op op' writes -> w ∈ writes ->
  (List.length writes = 1%nat -> single (<[i := op']> ops) w) /\
  (shardVersion (tw_endpoint w) = IGNORED \/ single (<[i := op']> ops) w).
Proof.
  intros Hi Hw Hin. assert (Hs : List.length writes = 1%nat -> single (<[i := op']> ops) w).
  { intros Hl x Hx. apply list_elem_of_lookup in Hin as [k Hk]. rewrite (wr_ref _ _ _ _ Hw k w Hk) in Hx. cbn in Hx.
    rewrite list_lookup_insert_eq in Hx by done. injection Hx as <-. rewrite (wr_op _ _ _ _ Hw). cbn.
    by rewrite length_fmap. }
  split; [done|]. destruct (decide (1 < List.length writes)%nat); [left; by apply (wr_version _ _ _ _ Hw)|right].
  apply Hs. pose proof (wr_some _ _ _ _ Hw). destruct writes; [done|simpl in *; lia].
Qed.

Section step.
Context (Hq0 : forall i op, ops0 !! i = Some op -> quiet op).
Context (st : Targeting (T:=T)) (i : nat) (op op' : WriteOp) (t' : T) (writes : list TargetedWrite) (sz : Z).
Context (m' : TargetedBatchMap) (shards' : gset ShardId).
Context (Hta : targeted st) (Hopen : open i st) (Hi : ops0 !! i = Some op) (Hready : wo_state op = WriteOpState_Ready).
Context (Ht' : targeter_ok t') (Hwr : writes_of i op op' writes).
Context (Hadm : forall w, w ∈ writes -> admits (tg_batchMap st) (tg_targetedShards st) w).
Context (Hord : rq_ordered rq = true ->
  tg_batchMap st = [] \/ forall w, w ∈ writes -> is_Some (find_batch (tw_endpoint w) (tg_batchMap st))).
Context (Hfold : foldl (add_to_batch sz) (tg_batchMap st, tg_targetedShards st) writes = (m', shards')).

Let st' : Targeting (T:=T) := mkTargeting t' (<[i := op']> (tg_ops st)) m' shards'.

Lemma step_op : tg_ops st !! i = Some op.
Proof. rewrite (op_next _ _ Hopen i) by lia. done. Qed.

Lemma step_batches : batches_ok m' shards' /\ writes_in m' ≡ₚ writes_in (tg_batchMap st) ++ writes.
Proof. eapply add_all_ok; [apply Hta|apply Hwr|done|done]. Qed.

Lemma step_single w : w ∈ writes_in (tg_batchMap st) -> single (tg_ops st) w -> single (tg_ops st') w.
Proof. intros Hw. eapply single_insert_other; [apply Hta|apply step_op|by eapply Hq0|done]. Qed.

Lemma step_fresh w : w ∈ writes ->
  (List.length writes = 1%nat -> single (tg_ops st') w) /\ (shardVersion (tw_endpoint w) = IGNORED \/ single (tg_ops st') w).
Proof. apply (writes_single (tg_ops st) i op op'); [|done]. eapply lookup_lt_Some, step_op. Qed.

(** In an ordered batch: the first of the round, or one more for its shard. *)
Lemma step_ordered : rq_ordered rq = true ->
  List.length writes = 1%nat /\ List.length m' = 1%nat /\ writes_in m' = writes_in (tg_batchMap st) ++ writes \/
  tg_batchMap st = [] /\ (1 < List.length m')%nat /\ forall b, b ∈ m' -> List.length (tb_writes b) = 1%nat.
Proof.
  intros Ho. destruct step_batches as [Hm' Hp]. pose proof (wr_some _ _ _ _ Hwr) as Hne.
  destruct (op_ordered _ _ Hopen Ho) as [Hl _].
  destruct writes as [|w [|w2 ws]] eqn:Ew; [done| |].
  - left. split; [done|]. eapply add_one_order; [done| |done]. destruct (Hord Ho) as [?|Hf]; [by left|right]. apply Hf. left.
  - right. assert (E : tg_batchMap st = []).
    { destruct (Hord Ho) as [?|Hf]; [done|]. exfalso. destruct (Hf w ltac:(set_solver)) as [b1 [Hb1 E1]%find_batch_Some].
      destruct (Hf w2 ltac:(set_solver)) as [b2 [Hb2 E2]%find_batch_Some].
      destruct (tg_batchMap st) as [|b [|? ?]]; [by apply not_elem_of_nil in Hb1| |simpl in Hl; lia].
      apply list_elem_of_singleton in Hb1 as ->. apply list_elem_of_singleton in Hb2 as ->.
      pose proof (wr_shards _ _ _ _ Hwr) as Hn. cbn in Hn. rewrite <- E1, <- E2 in Hn. apply NoDup_cons in Hn as [Hn _]. set_solver. }
    rewrite E in Hp. assert (Hone : forall b, b ∈ m' -> List.length (tb_writes b) = 1%nat)
      by (intros b; eapply one_write_each; [done|exact Hp|apply Hwr]).
    split; [done|]. split; [|done]. apply Permutation_length in Hp.
    destruct m' as [|b [|? ?]]; [simpl in Hp; lia| |simpl; lia]. unfold writes_in in Hp. cbn in Hp. rewrite app_nil_r in Hp.
    rewrite (Hone b ltac:(left)) in Hp. lia.
Qed.

Lemma step_items : forall w, w ∈ writes -> item_of w = i.
Proof. intros w [k Hk]%list_elem_of_lookup. unfold item_of. by rewrite (wr_ref _ _ _ _ Hwr k w Hk). Qed.

Lemma step_order a : rq_ordered rq = true -> prefix_at a -> (a <= i)%nat.
Proof. intros Ho Ha. destruct (Ha i op Hi) as [[_ ?]|[? _]]; [done|lia]. Qed.

(** The writes of the single shard, in order. *)
Lemma step_seq a : rq_ordered rq = true -> prefix_at a -> List.length writes = 1%nat ->
  writes_in m' = writes_in (tg_batchMap st) ++ writes -> item_of <$> writes_in m' = seq a (S i - a).
Proof.
  intros Ho Ha Hl E. pose proof (step_order a Ho Ha). rewrite E, fmap_app, (op_order _ _ Hopen a Ho Ha).
  pose proof step_items as Hit. destruct writes as [|w [|? ?]]; try done. cbn. rewrite (Hit w ltac:(left)).
  replace (S i - a)%nat with (S (i - a))%nat by lia. rewrite seq_S. by replace (a + (i - a))%nat with i by lia.
Qed.

Lemma step_targeted : targeted st'.
Proof.
  destruct step_batches as [Hm' Hp].
  assert (Hin : forall w, w ∈ writes_in m' -> w ∈ writes_in (tg_batchMap st) \/ w ∈ writes).
  { intros w Hw. rewrite Hp in Hw. by apply elem_of_app. }
  split; unfold st'; cbn [tg_targeter tg_ops tg_batchMap tg_targetedShards]; [done| |done| | | | |].
  - eapply flying_perm; [symmetry; exact Hp|]. eapply flying_add; [apply Hta|apply step_op|by eapply Hq0|done].
  - intros w [Hw|Hw]%Hin; [|by apply step_fresh]. destruct (ta_version _ Hta w Hw); [by left|right]. by apply step_single.
  - intros Ho. destruct (step_ordered Ho) as [(Hl & _ & _)|(_ & _ & Hone)]; [left|by right].
    intros w [Hw|Hw]%Hin; [apply step_single, Hopen; done|by apply step_fresh].
  - intros a Ho Ha. destruct (step_ordered Ho) as [(Hl & Hl' & E)|(E & _ & Hone)]; [left|right].
    + split; [lia|]. split; [|by exists (S i - a)%nat; apply step_seq].
      intros w [Hw|Hw]%Hin; [apply step_single, Hopen; done|by apply step_fresh].
    + split; [|done]. intros w [Hw|Hw]%Hin; [rewrite E in Hw; by apply not_elem_of_nil in Hw|]. rewrite (step_items w Hw).
      pose proof (step_order a Ho Ha). pose proof (op_order _ _ Hopen a Ho Ha) as Hs. rewrite E in Hs.
      destruct (i - a)%nat eqn:?; [lia|done].
  - intros Ho. apply untouched_insert; [by apply Hta|eapply lookup_lt_Some, step_op|right]. by rewrite (wr_op _ _ _ _ Hwr).
  - eapply tracks_insert; [apply Hta|done|]. right. rewrite (wr_op _ _ _ _ Hwr). split; [done|].
    split; [|by left]. split; [done|]. by intros ch e (w & -> & _)%list_elem_of_fmap.
Qed.

Lemma step_open : (rq_ordered rq = true -> (List.length m' <= 1)%nat) -> open (S i) st'.
Proof.
  intros Hle. split; unfold st'; cbn [tg_ops tg_batchMap].
  - intros j Hj. rewrite list_lookup_insert_ne by lia. apply Hopen. lia.
  - intros Ho. specialize (Hle Ho). split; [done|]. destruct (step_ordered Ho) as [(Hl & _ & E)|(_ & ? & _)]; [|lia].
    rewrite E. intros w [Hw|Hw]%elem_of_app; [apply step_single, Hopen; done|by apply step_fresh].
  - intros a Ho Ha. specialize (Hle Ho). destruct (step_ordered Ho) as [(Hl & _ & E)|(_ & ? & _)]; [|lia].
    by apply step_seq.
  - intros Ho E%(f_equal List.length). simpl in E. destruct (step_ordered Ho) as [(_ & ? & _)|(_ & ? & _)]; lia.
Qed.
End step.

(** How an iteration at [i] ends. *)
Definition ordered_error (i : nat) (ops : list WriteOp) : Prop :=
  rq_ordered rq = true /\ recordTargetErrors = true /\ (forall a, prefix_at a -> i = a) /\
  exists op e, ops0 !! i = Some op /\ wo_state op = WriteOpState_Ready /\ ops = <[i := setOpError i op (targetError e)]> ops0.

Definition iteration_ok (i : nat) (it : Iteration) : Prop :=
  match it with
  | Continue st => targeted st /\ open (S i) st
  | Break st => targeted st
  | Return st (NotOK _) => targeter_ok (tg_targeter st) /\ tg_ops st = ops0 /\ recordTargetErrors = false
  | Return st (OK _) => targeter_ok (tg_targeter st) /\ ordered_error i (tg_ops st)
  end.

Context (Hq0 : forall i op, ops0 !! i = Some op -> quiet op) (Hsize : sizeWriteOps rq = List.length ops0)
  (Hdocs : docs_ok docs rq).

Lemma item_at_Ret i : (i < List.length ops0)%nat -> exists item, item_at rq i = Ret item.
Proof.
  rewrite <- Hsize. unfold sizeWriteOps, item_at. destruct (rq_ops rq) as [l|l|l];
    intros [x ->]%lookup_lt_is_Some_2; by eexists.
Qed.

Lemma existsb_false_all {A} (f : A -> bool) l : existsb f l = false -> forall x, x ∈ l -> f x = false.
Proof.
  intros He x Hx%list_elem_of_In. destruct (f x) eqn:E; [|done].
  assert (existsb f l = true) by (apply List.existsb_exists; by exists x). congruence.
Qed.

(** An operation that is not taken goes back as it was. *)
Lemma cancelled_ok st i op opw t :
  targeted st -> tg_ops st !! i = Some op -> ops0 !! i = Some op -> wo_state op = WriteOpState_Ready -> targeter_ok t ->
  (wo_state opw = WriteOpState_Pending \/ wo_state opw = WriteOpState_Ready) -> wo_error opw = wo_error op ->
  exists it, (let* op := cancelWrites opw in
    Ret (Break (mkTargeting t (<[i := op]> (tg_ops st)) (tg_batchMap st) (tg_targetedShards st)))) = Ret it /\
    iteration_ok i it.
Proof.
  intros Hta Hop Hop0 Hr Ht Hs He. unfold cancelWrites.
  assert (before_completed (wo_state opw) = true) as -> by (by destruct Hs as [->| ->]).
  cbn [invariant obind]. eexists. split; [reflexivity|]. cbn [iteration_ok]. rewrite He.
  rewrite <- (quiet_ready_eq op (Hq0 _ _ Hop0) Hr).
  eapply targeted_insert; [done|done|done|done|by eapply Hq0|by eapply Hq0|by left|done].
Qed.

(** The operation could not be targeted. *)
Lemma target_fails_ok st i op t e :
  targeted st -> open i st -> ops0 !! i = Some op -> wo_state op = WriteOpState_Ready -> targeter_ok t ->
  exists it,
    (let with_op op := mkTargeting t (<[i := op]> (tg_ops st)) (tg_batchMap st) (tg_targetedShards st) in
     if negb recordTargetErrors then
       let* ops := _cancelBatches (tg_ops (with_op op)) (tg_batchMap st) in
       Ret (Return (mkTargeting t ops (tg_batchMap st) (tg_targetedShards st)) (NotOK e))
     else if negb (rq_ordered rq) || bool_decide (tg_batchMap st = []) then
       let st := with_op (setOpError i op (targetError e)) in
       if rq_ordered rq then Ret (Return st (OK ())) else Ret (Continue st)
     else let* op := cancelWrites op in Ret (Break (with_op op))) = Ret it /\ iteration_ok i it.
Proof.
  intros Hta Hop Hi Hr Ht. cbv zeta. cbn [tg_ops]. pose proof (op_next _ _ Hop i ltac:(lia)) as Hst. rewrite Hi in Hst.
  rewrite (list_insert_id (tg_ops st) i op Hst). destruct recordTargetErrors eqn:Er; cbn [negb].
  2:{ unfold _cancelBatches. rewrite (cancel_writes_undo ops0); [|done|rewrite <- Er; apply Hta| |].
      - cbn [obind]. eexists. split; [reflexivity|]. done.
      - intros j x Hj. destruct (fl_op _ _ (ta_flying _ Hta) j x Hj) as [Hqx|(_ & Hex & _)]; [left|by right].
        destruct (tracks_r _ _ _ _ _ (ta_tracks _ Hta) Hj) as (x0 & Hx0 & [->|(_ & _ & [[Hp _]|[E _]])]); [done| |congruence].
        by apply pending_not_quiet in Hp.
      - intros w Hw. destruct (fl_write _ _ (ta_flying _ Hta) w Hw) as (x & ch & Hx & Hp & _).
        destruct (tracks_r _ _ _ _ _ (ta_tracks _ Hta) Hx) as (x0 & Hx0 & [->|[? _]]); [|by exists x0].
        exfalso. apply (pending_not_quiet x0 Hp). by eapply Hq0. }
  destruct (negb (rq_ordered rq) || _) eqn:Eb.
  2:{ eapply cancelled_ok; try done. by right. }
  destruct (rq_ordered rq) eqn:Eo; cbn [negb orb] in Eb.
  - apply bool_decide_eq_true in Eb. eexists. split; [reflexivity|]. split; [done|]. split; [done|]. split; [done|].
    split; [|exists op, e; by rewrite <- (op_none _ _ Hop Eo Eb)]. intros a Ha.
    pose proof (op_order _ _ Hop a Eo Ha) as Hs. rewrite Eb in Hs. destruct (Ha i op Hi) as [[_ ?]|[? _]]; [done|].
    destruct (i - a)%nat eqn:?; [lia|done].
  - eexists. split; [reflexivity|]. split.
    + eapply targeted_insert; [done|done|done|done|by eapply Hq0| | |by rewrite Eo].
      * split; [by apply (Hq0 i op)|]. right. right. split; [done|]. by eexists.
      * right. split; [done|]. split; [by apply setOpError_index, (Hq0 i op)|]. right. by rewrite Er.
    + split; [|by rewrite Eo..]. intros j Hj. cbn. rewrite list_lookup_insert_ne by lia. apply Hop. lia.
Qed.

Lemma target_one_ok st i :
  targeted st -> open i st -> (i < List.length ops0)%nat ->
  exists it, target_one rq txnNumber recordTargetErrors i st = Ret it /\ iteration_ok i it.
Proof.
  intros Hta Hop Hlt. destruct (lookup_lt_is_Some_2 _ _ Hlt) as [op Hi].
  pose proof (op_next _ _ Hop i ltac:(lia)) as Hst. rewrite Hi in Hst. unfold target_one. rewrite Hst.
  destruct (bool_decide_reflect (wo_state op = WriteOpState_Ready)) as [Hr|Hr]; cbn [negb].
  2:{ eexists. split; [reflexivity|]. split; [done|]. split; [intros j Hj; apply Hop; lia|apply Hop| |apply Hop].
      intros a Ho Ha. rewrite (op_order _ _ Hop a Ho Ha). destruct (Ha i op Hi) as [[? _]|[_ ?]]; [|done].
      by replace (i - a)%nat with 0%nat by lia; replace (S i - a)%nat with 0%nat by lia. }
  destruct (item_at_Ret i Hlt) as [item Hitem]. rewrite Hitem. cbn [obind].
  destruct (targetWrites_ok item (isInsertIndexRequest rq) i op (tg_targeter st)) as (t' & op' & r & -> & Ht' & Hr');
    [by eapply docs_ok_item|apply Hta|by apply (Hq0 i op)|]. cbn [obind]. destruct r as [writes|e].
  2:{ subst op'. by apply target_fails_ok. }
  assert (Hc : exists it, (let* op := cancelWrites op' in
      Ret (Break (mkTargeting t' (<[i := op]> (tg_ops st)) (tg_batchMap st) (tg_targetedShards st)))) = Ret it /\ iteration_ok i it).
  { eapply cancelled_ok; try done; rewrite (wr_op _ _ _ _ Hr'); [by left|done]. }
  destruct (rq_ordered rq && _ && isNewBatchRequiredOrdered _ _) eqn:E1; [exact Hc|].
  destruct (wouldMakeBatchesTooBig _ _ _) eqn:E2.
  { assert (tg_batchMap st <> []).
    { intros E. rewrite E in E2. apply List.existsb_exists in E2 as (w & _ & E2). done. }
    rewrite bool_decide_eq_false_2 by done. exact Hc. }
  destruct (negb (rq_ordered rq) && _ && isNewBatchRequiredUnordered _ _ _) eqn:E3; [exact Hc|]. clear Hc E2.
  destruct (foldl _ _ writes) as [m' shards'] eqn:Ef.
  assert (Hord : rq_ordered rq = true -> tg_batchMap st = [] \/
    forall w, w ∈ writes -> is_Some (find_batch (tw_endpoint w) (tg_batchMap st))).
  { intros Ho. rewrite Ho in E1. cbn [andb] in E1. apply andb_false_iff in E1 as [E1|E1].
    - left. by apply negb_false_iff, bool_decide_eq_true in E1.
    - right. intros w Hw. apply (existsb_false_all _ _ E1) in Hw. by apply negb_false_iff, bool_decide_eq_true in Hw. }
  assert (Hadm : forall w, w ∈ writes -> admits (tg_batchMap st) (tg_targetedShards st) w).
  { intros w Hw. destruct (decide (tg_batchMap st = [])) as [E|Hne].
    { right. intros Hs. apply (bm_set _ _ (ta_batches _ Hta)) in Hs. rewrite E in Hs. by apply not_elem_of_nil in Hs. }
    destruct (rq_ordered rq) eqn:Eo; [left; destruct (Hord eq_refl); [done|auto]|].
    rewrite bool_decide_eq_false_2 in E3 by done. apply (existsb_false_all _ _ E3) in Hw. unfold admits.
    apply andb_false_iff in Hw as [Hw%negb_false_iff%bool_decide_eq_true|Hw%bool_decide_eq_false]; auto. }
  pose proof (step_targeted Hq0 st i op op' t' writes _ m' shards' Hta Hop Hi Hr Ht' Hr' Hadm Hord Ef) as Hst'.
  pose proof (step_open Hq0 st i op op' t' writes _ m' shards' Hta Hop Hi Hr Ht' Hr' Hadm Hord Ef) as Hop'.
  destruct (rq_ordered rq && (1 <? List.length m')%nat) eqn:E4; (eexists; split; [reflexivity|]); [done|]. split; [done|]. apply Hop'.
  intros Ho. rewrite Ho in E4. by apply Nat.ltb_ge in E4.
Qed.

Lemma target_loop_ok n : forall i st,
  targeted st -> open i st -> (i + n = List.length ops0)%nat ->
  exists st' ret, target_loop rq txnNumber recordTargetErrors (seq i n) st = Ret (st', ret) /\
    match ret with
    | None => targeted st'
    | Some (NotOK _) => targeter_ok (tg_targeter st') /\ tg_ops st' = ops0 /\ recordTargetErrors = false
    | Some (OK _) => targeter_ok (tg_targeter st') /\ exists k, ordered_error k (tg_ops st')
    end.
Proof.
  induction n as [|n IH]; intros i st Hta Hop Hn; cbn [seq target_loop]; [by exists st, None|].
  destruct (target_one_ok st i Hta Hop ltac:(lia)) as (it & -> & Hit). cbn [obind].
  destruct it as [st'|st'|st' [u|e]]; cbn [iteration_ok] in Hit.
  - destruct Hit as [Hta' Hop']. apply IH; [done|done|lia].
  - by exists st', None.
  - exists st', (Some (OK u)). split; [done|]. destruct Hit. eauto.
  - by exists st', (Some (NotOK e)).
Qed.
End loop.

(** * The batches of a round *)

Section batches.
Context {T : Type} {docs : BSONObj -> Prop} `{L : NSTargeterLaws T docs} (rq : BatchedCommandRequest) (txnNumber : option Z).

Definition round_writes (batches : gmap ShardId TargetedWriteBatch) : list TargetedWrite :=
  writes_in (map_to_list batches).*2.

Record sendable (recordTargetErrors : bool) (ops0 : list WriteOp) (batches : gmap ShardId TargetedWriteBatch)
    (ops : list WriteOp) : Prop := {
  sn_flying : flying ops (round_writes batches);
  sn_batch s b : batches !! s = Some b -> shardName (tb_endpoint b) = s /\ batch_ok rq ops b;
  sn_order a : rq_ordered rq = true -> prefix_at ops0 a ->
    (exists m, m ≡ₚ (map_to_list batches).*2 /\ in_order a m ops /\ untouched ops0 ops) \/ batches = ∅ /\ ordered_error rq recordTargetErrors ops0 a ops;
  sn_tracks : tracks recordTargetErrors ops0 ops
}.

Lemma new_targeting_ok r ops0 t :
  targeter_ok t -> (forall i op, ops0 !! i = Some op -> quiet op) ->
  targeted rq r ops0 (mkTargeting t ops0 [] ∅) /\ open rq ops0 0 (mkTargeting t ops0 [] ∅).
Proof.
  intros Ht Hq. split; split; cbn [tg_targeter tg_ops tg_batchMap tg_targetedShards writes_in]; try done.
  - split; [apply NoDup_nil_2|by intros w ?%not_elem_of_nil|]. intros i op Hi. left. by eapply Hq.
  - split; [apply NoDup_nil_2| |by intros b ?%not_elem_of_nil]. intros s. set_solver.
  - by intros w ?%not_elem_of_nil.
  - intros _. left. by intros w ?%not_elem_of_nil.
  - intros a _ _. left. split; [simpl; lia|]. split; [by intros w ?%not_elem_of_nil|]. by exists 0%nat.
  - intros _ j op Hj. by left.
  - apply tracks_refl.
  - intros _. split; [simpl; lia|]. by intros w ?%not_elem_of_nil.
Qed.

Lemma targeted_batch_ok r ops0 (st : Targeting (T:=T)) b :
  targeted rq r ops0 st -> b ∈ tg_batchMap st -> batch_ok rq (tg_ops st) b.
Proof.
  intros Hta Hb. destruct (bm_batch _ _ (ta_batches _ _ _ _ Hta) b Hb) as [Hne He].
  assert (Hin : forall w, w ∈ tb_writes b -> w ∈ writes_in (tg_batchMap st)) by (intros w; by eapply writes_in_elem).
  split; [done|done| |].
  - destruct (same_endpoint (tb_endpoint b) (mkEndpoint (batch_shard b) IGNORED)) eqn:E.
    + left. apply same_endpoint_eq in E. by rewrite E.
    + right. intros w Hw. destruct (ta_version _ _ _ _ Hta w (Hin w Hw)) as [Hv|?]; [|done]. exfalso.
      rewrite (He w Hw) in Hv. assert (same_endpoint (tb_endpoint b) (mkEndpoint (batch_shard b) IGNORED) = true); [|congruence].
      apply same_endpoint_eq. unfold batch_shard. rewrite <- Hv. by destruct (tb_endpoint b).
  - intros Ho. destruct (ta_ordered _ _ _ _ Hta Ho) as [Hs|Hl]; [left; auto|right; auto].
Qed.

(** [targetBatch] ends, and what it leaves is ready to be sent; a failure leaves
    the batch as it was. *)
Lemma targetBatch_ok b t r :
  docs_ok docs rq -> targeter_ok t -> (forall i op, bw_writeOps b !! i = Some op -> quiet op) -> sizeWriteOps rq = List.length (bw_writeOps b) ->
  exists t' b' status, targetBatch rq txnNumber b t r = Ret (t', b', status) /\ targeter_ok t' /\
    match status with
    | NotOK _ => b' = b /\ r = false
    | OK batches => b' = set_writeOps b (bw_writeOps b') /\ sendable r (bw_writeOps b) batches (bw_writeOps b')
    end.
Proof.
  intros Hdocs Ht Hq Hs. unfold targetBatch. destruct (new_targeting_ok r (bw_writeOps b) t Ht Hq) as [Hta Hop].
  destruct (target_loop_ok rq txnNumber r (bw_writeOps b) Hq Hs Hdocs (sizeWriteOps rq) 0 _ Hta Hop) as (st & ret & -> & Hret);
    [done|]. cbn [obind]. destruct ret as [[u|e]|].
  - destruct Hret as [Ht' (k & Hk)]. eexists _, _, _. split; [reflexivity|]. split; [done|]. split; [by destruct b|].
    cbn [bw_writeOps set_writeOps]. pose proof Hk as (Ho & Hr & Hpre & op & e & Hop' & Hst & E).
    split.
    + unfold round_writes. rewrite map_to_list_empty, E. eapply flying_quiet; [|done|by eapply Hq|].
      * split; [apply NoDup_nil_2|by intros w ?%not_elem_of_nil|]. intros i x Hi. left. by eapply Hq.
      * split; [by apply (Hq k op)|]. right. right. split; [done|]. by eexists.
    + intros s x Hx. by rewrite lookup_empty in Hx.
    + intros a _ Ha. right. split; [done|]. by rewrite <- (Hpre a Ha).
    + rewrite E. eapply tracks_insert; [apply tracks_refl|done|]. right. split; [done|].
      split; [by apply setOpError_index, (Hq k op)|]. by right.
  - destruct Hret as (Ht' & E & Hr). eexists _, _, _. split; [reflexivity|]. split; [done|]. split; [|done].
    rewrite E. by destruct b.
  - destruct (hand_over_ok _ _ (ta_batches _ _ _ _ Hret)) as (batches & -> & Hp). cbn [obind]. eexists _, _, _.
    split; [reflexivity|]. split; [apply Hret|]. split; [by destruct b|]. cbn [bw_writeOps set_writeOps].
    assert (Hp2 : (map_to_list batches).*2 ≡ₚ tg_batchMap st).
    { rewrite Hp, <- list_fmap_compose. by rewrite <- (list_fmap_id (tg_batchMap st)) at 2. }
    split.
    + eapply flying_perm; [|apply Hret]. unfold round_writes, writes_in. by rewrite Hp2.
    + intros s x Hx. assert (Hin : (s, x) ∈ map_to_list batches) by (by apply elem_of_map_to_list).
      rewrite Hp in Hin. apply list_elem_of_fmap in Hin as (y & [= -> ->] & Hy). split; [done|]. by eapply targeted_batch_ok.
    + intros a Ho Ha. left. exists (tg_batchMap st). split; [by symmetry|]. split; [by eapply ta_order|by eapply ta_untouched].
    + apply Hret.
Qed.
End batches.
