(* ===== verification/BatchExec.v ===== *)
(** The execution of a batch of writes (s/write_ops/batch_write_exec.cpp): rounds
    of targeting, sending and collecting answers until the batch is finished or
    makes no progress.

    What the network, the shards and the config server do in a round is an
    argument: the answer of each shard to its request, the order of arrival and
    the outcome of refreshing the targeter.  The op times of the hosts, which
    other commands use, are left out. *)

From stdpp Require Import base list strings gmap sorting.
From Stdlib Require Import ZArith Lia String.
From S2P Require Import Prelude Bson ChunkVersion ChunkType ConfigChunks WriteOps BatchSafe BatchTarget.
Local Open Scope string_scope.
Local Open Scope Z_scope.
Local Open Scope list_scope.
Local Open Scope outcome_scope.

Definition kMaxRoundsWithoutProgress : Z := 5.

(** The answer of a shard: no host was found, no usable response came back, or
    a response that parses. *)
Inductive ShardAnswer :=
  | NoHost (e : ErrorCode)
  | NoResults (e : ErrorCode)
  | Results (r : BatchedCommandResponse).

Record BatchWriteExecStats := mkExecStats { st_numRounds : Z; st_numTargetErrors : Z; st_numStaleBatches : Z }.

Definition errorFromStatus (e : ErrorCode) : WriteErrorDetail := mkWriteError 0 e None [].

Section exec.
Context {T : Type} `{NSTargeter T} (rq : BatchedCommandRequest) (txnNumber : option Z).

(** What happens outside the router in one round. *)
Record RoundEnv := mkEnv {
  answer : ShardId -> BatchedCommandRequest -> ShardAnswer;
  arrival : list ShardId -> list ShardId;
  refreshIfNeeded : T -> Outcome (T * StatusWith unit * bool)
}.

(** Helper to note several stale errors from a response *)
Definition noteStaleResponses (staleErrors : list (ShardEndpoint * WriteErrorDetail)) (t : T) : Outcome T :=
  ofold (fun t e => noteStaleResponse e.1 (default [] (we_info e.2)) t) t staleErrors.

(** The requests of one pass; a batch is marked as sent by [None]. *)
Record Sending := mkSending {
  sd_children : list (ShardId * option TargetedWriteBatch);
  sd_pending : gmap ShardId TargetedWriteBatch;
  sd_requests : list (ShardId * BatchedCommandRequest)
}.

Definition collect_one (sd : Sending) (child : ShardId * option TargetedWriteBatch) : Outcome Sending :=
  let keep c := mkSending (sd_children sd ++ [c]) (sd_pending sd) (sd_requests sd) in
  match child.2 with
  | None => Ret (keep child)
  | Some nextBatch =>
      let targetShardId := shardName (tb_endpoint nextBatch) in
      if bool_decide (is_Some (sd_pending sd !! targetShardId)) then Ret (keep child)
      else
        let* request := buildBatchRequest rq txnNumber nextBatch in
        Ret (mkSending (sd_children sd ++ [(child.1, None)]) (<[targetShardId := nextBatch]> (sd_pending sd))
               (sd_requests sd ++ [(targetShardId, request)]))
  end.
Definition collect (children : list (ShardId * option TargetedWriteBatch)) : Outcome Sending :=
  ofold collect_one (mkSending [] ∅ []) children.

(** The batch, the targeter and the number of stale batches as answers arrive. *)
Definition Received : Type := BatchWriteOp * T * Z.

Definition receive_one (env : RoundEnv) (sd : Sending) (st : Received) (s : ShardId) : Outcome Received :=
  let '(b, t, numStaleBatches) := st in
  match sd_pending sd !! s, List.find (fun r => String.eqb r.1 s) (sd_requests sd) with
  | Some batch, Some (_, request) =>
      match answer env s request with
      | NoHost e | NoResults e =>
          let* b := noteBatchError rq batch (errorFromStatus e) b in Ret (b, t, numStaleBatches)
      | Results response =>
          let* (b, trackedErrors) :=
            noteBatchResponse rq batch response (Some (startTracking StaleShardVersion [])) b in
          match getErrors StaleShardVersion (default [] trackedErrors) with
          | [] => Ret (b, t, numStaleBatches)
          | staleErrors => let* t := noteStaleResponses staleErrors t in Ret (b, t, numStaleBatches + 1)
          end
      end
  | _, _ => Undef
  end.

(** [while (numSent != numToSend)] *)
Fixpoint send_loop (fuel : nat) (env : RoundEnv) (children : list (ShardId * option TargetedWriteBatch))
    (numSent numToSend : nat) (st : Received) : Outcome Received :=
  if (numSent =? numToSend)%nat then Ret st
  else
    match fuel with
    | O => Undef
    | S fuel =>
        let* sd := collect children in
        let* _ := getTargetingNS rq in
        let* st := ofold (receive_one env sd) st (arrival env (sd_requests sd).*1) in
        send_loop fuel env (sd_children sd) (numSent + size (sd_pending sd))%nat numToSend st
    end.

Record ExecState := mkExec {
  ex_batch : BatchWriteOp;
  ex_targeter : T;
  ex_refreshedTargeter : bool;
  ex_rounds : nat;
  ex_numCompletedOps : Z;
  ex_numRoundsWithoutProgress : Z;
  ex_stats : BatchWriteExecStats
}.

(** The part of a turn up to the last answer: the batch, the targeter,
    [refreshedTargeter] and the statistics. *)
Definition round_sends (env : RoundEnv) (st : ExecState) : Outcome (BatchWriteOp * T * bool * BatchWriteExecStats) :=
  let stats := ex_stats st in
  let* (tb, targetStatus) := targetBatch rq txnNumber (ex_batch st) (ex_targeter st) (ex_refreshedTargeter st) in
  let '(t, b) := tb in
  let '(t, refreshedTargeter, numTargetErrors, childBatches) :=
    match targetStatus with
    | NotOK _ => (noteCouldNotTarget t, true, st_numTargetErrors stats + 1, ∅)
    | OK batches => (t, ex_refreshedTargeter st, st_numTargetErrors stats, batches)
    end in
  let children := (fun sb : ShardId * TargetedWriteBatch => (sb.1, Some sb.2)) <$> map_to_list childBatches in
  let* (bt, numStaleBatches) :=
    send_loop (List.length children) env children 0 (List.length children) (b, t, st_numStaleBatches stats) in
  Ret (bt, refreshedTargeter, mkExecStats (st_numRounds stats + 1) numTargetErrors numStaleBatches).

(** One turn of the loop; [true] when it ends the loop. *)
Definition exec_round (env : RoundEnv) (st : ExecState) : Outcome (ExecState * bool) :=
  let* (sent, stats) := round_sends env st in
  let '(b, t, refreshedTargeter) := sent in
  let rounds := S (ex_rounds st) in
  if isFinished rq b then
    Ret (mkExec b t refreshedTargeter rounds (ex_numCompletedOps st) (ex_numRoundsWithoutProgress st) stats, true)
  else
    let* (ts, targeterChanged) := refreshIfNeeded env t in
    let t := ts.1 in
    let currCompletedOps := numWriteOpsIn WriteOpState_Completed b in
    let numRoundsWithoutProgress :=
      if (currCompletedOps =? ex_numCompletedOps st) && negb targeterChanged
      then ex_numRoundsWithoutProgress st + 1 else 0 in
    if kMaxRoundsWithoutProgress <? numRoundsWithoutProgress then
      Ret (mkExec (abortBatch rq (errorFromStatus NoProgressMade) b) t refreshedTargeter rounds currCompletedOps
             numRoundsWithoutProgress stats, true)
    else
      Ret (mkExec b t refreshedTargeter rounds currCompletedOps numRoundsWithoutProgress stats, false).

(** [env r] is what happens in round [r]; the fuel bounds the rounds. *)
Fixpoint exec_loop (fuel : nat) (env : nat -> RoundEnv) (st : ExecState) : Outcome ExecState :=
  if isFinished rq (ex_batch st) then Ret st
  else
    match fuel with
    | O => Undef
    | S fuel =>
        let* (st, stop) := exec_round (env (ex_rounds st)) st in
        if stop then Ret st else exec_loop fuel env st
    end.

Definition executeBatch (fuel : nat) (env : nat -> RoundEnv) (t : T) (stats : BatchWriteExecStats)
    : Outcome (BatchedCommandResponse * ExecState) :=
  let* st := exec_loop fuel env (mkExec (newBatchWriteOp rq) t false 0 0 0 stats) in
  let* clientResponse := buildClientResponse rq (ex_batch st) in
  Ret (clientResponse, st).
End exec.

(** * The requests of a round *)

Section requests.
Context (rq : BatchedCommandRequest) (txnNumber : option Z).

(** What the parser of the command has checked: the number of operations and of
    statement ids, and that an insert into [system.indexes] has one document. *)
Definition parsed_ok : Prop :=
  checkOpCountForCommand rq = Ret () /\ (isInsertIndexRequest rq = true -> sizeWriteOps rq = 1%nat).

Lemma parsed_stmt_ids ids : parsed_ok -> rq_stmtIds rq = Some ids -> List.length ids = sizeWriteOps rq.
Proof.
  intros [H _] E. unfold checkOpCountForCommand in H. apply obind_Ret_inv in H as (? & _ & H). rewrite E in H.
  destruct (Z.eqb_spec (Z.of_nat (List.length ids)) (Z.of_nat (sizeWriteOps rq))); [lia|discriminate].
Qed.

Lemma getTargetingNS_ok : parsed_ok -> exists ns, getTargetingNS rq = Ret ns.
Proof.
  intros [_ H]. unfold getTargetingNS, isInsertIndexRequest, sizeWriteOps in *.
  destruct (rq_ops rq) as [docs| |]; [|by eexists|by eexists].
  destruct (isSystemDotIndexes (rq_ns rq)); cbn [negb]; [|by eexists].
  destruct docs as [|doc [|]]; specialize (H eq_refl); cbn in H |- *; [lia|by eexists|lia].
Qed.

Lemma at_refs_ok {A} (l : list A) ws :
  (forall w, w ∈ ws -> (item_of w < List.length l)%nat) ->
  exists xs, at_refs l ws = Ret xs /\ List.length xs = List.length ws /\
    forall k w, ws !! k = Some w -> xs !! k = l !! item_of w.
Proof.
  intros Hw. unfold at_refs.
  assert (H : forall acc, exists xs, ofold (fun acc w => match l !! (tw_ref w).1 with
      | Some x => Ret (acc ++ [x]) | None => Throw StdOutOfRange end) acc ws = Ret (acc ++ xs) /\
      List.length xs = List.length ws /\ forall k w, ws !! k = Some w -> xs !! k = l !! item_of w); [|apply (H [])].
  induction ws as [|w ws IH]; intros acc; cbn [ofold].
  - exists []. by rewrite app_nil_r.
  - destruct (lookup_lt_is_Some_2 l (item_of w)) as [x Hx]; [apply Hw; left|]. unfold item_of in Hx at 1. rewrite Hx. cbn [obind].
    destruct (IH (fun y Hy => Hw y (list_elem_of_further _ _ _ Hy)) (acc ++ [x])) as (xs & -> & Hl & Hk).
    exists (x :: xs). rewrite <- app_assoc. split; [done|]. split; [simpl; lia|].
    intros [|k] y Hy; [injection Hy as <-; by symmetry|by apply Hk].
Qed.

Lemma stmt_ids_Ret ws : parsed_ok -> (forall w, w ∈ ws -> (item_of w < sizeWriteOps rq)%nat) ->
  exists ids, ofold (fun acc w => let* i := getStmtIdForWriteAt rq (tw_ref w).1 in Ret (acc ++ [i])) [] ws = Ret ids.
Proof.
  intros Hs Hw.
  assert (H : forall acc, exists ids,
    ofold (fun acc w => let* i := getStmtIdForWriteAt rq (tw_ref w).1 in Ret (acc ++ [i])) acc ws = Ret ids); [|apply H].
  induction ws as [|w ws IH]; intros acc; cbn [ofold]; [by eexists|].
  assert (Hi : exists i, getStmtIdForWriteAt rq (tw_ref w).1 = Ret i).
  { unfold getStmtIdForWriteAt. destruct (rq_stmtIds rq) as [ids|] eqn:E; [|by eexists].
    destruct (lookup_lt_is_Some_2 ids (tw_ref w).1) as [x ->]; [|by eexists].
    pose proof (parsed_stmt_ids ids Hs E). specialize (Hw w ltac:(left)). unfold item_of in Hw. lia. }
  destruct Hi as [i ->]. cbn [obind]. apply IH. intros y Hy. apply Hw. by right.
Qed.

(** The request for a shard has the items of the batch, in its order. *)
Lemma buildBatchRequest_ok b :
  parsed_ok -> tb_writes b <> [] -> (forall w, w ∈ tb_writes b -> (item_of w < sizeWriteOps rq)%nat) ->
  exists req, buildBatchRequest rq txnNumber b = Ret req /\
    sizeWriteOps req = List.length (tb_writes b) /\ rq_ordered req = rq_ordered rq /\
    rq_shardVersion req = Some (shardVersion (tb_endpoint b)) /\
    forall k w, tb_writes b !! k = Some w -> item_at req k = item_at rq (item_of w).
Proof.
  intros Hs Hne Hw. unfold buildBatchRequest.
  destruct (Nat.eqb_spec (List.length (tb_writes b)) 0) as [E%nil_length_inv|_]; [done|]. cbn [obind].
  assert (Hids : exists ids, (if txnNumber then
      let* ids := ofold (fun acc w => let* i := getStmtIdForWriteAt rq (tw_ref w).1 in Ret (acc ++ [i])) [] (tb_writes b) in
      Ret (Some ids) else Ret None) = Ret ids).
  { destruct txnNumber eqn:Et; [|by eexists]. destruct (stmt_ids_Ret (tb_writes b) Hs Hw) as [ids ->]. by eexists. }
  destruct Hids as [ids Hids]. unfold sizeWriteOps, item_at in *.
  destruct (rq_ops rq) as [l|l|l]; destruct (at_refs_ok l (tb_writes b) Hw) as (xs & -> & Hl & Hk); cbn [obind]; rewrite Hids;
    cbn [obind]; eexists; (split; [reflexivity|]); cbn [rq_ops rq_ordered rq_shardVersion]; split_and!; try done;
    intros k w Hkw; by rewrite (Hk k w Hkw).
Qed.
End requests.

(** * One round *)

(** What the router relies on in an answer to a request. *)
Definition good_answer (req : BatchedCommandRequest) (a : ShardAnswer) : Prop :=
  forall v, rq_shardVersion req = Some v ->
  match a with
  | NoHost e | NoResults e => v = IGNORED -> e <> StaleShardVersion
  | Results r => good_response v (sizeWriteOps req) r
  end.

(** A shard stops an ordered batch at its first error. *)
Definition stops_at_error (req : BatchedCommandRequest) (a : ShardAnswer) : Prop :=
  rq_ordered req = true ->
  match a with Results r => (List.length (default [] (rs_errDetails r)) <= 1)%nat | _ => True end.

(** The writes that an answer acknowledges. *)
Definition answer_acks (rq : BatchedCommandRequest) (b : TargetedWriteBatch) (a : ShardAnswer) : list TargetedWrite :=
  match a with Results r => if rs_ok r then response_acks rq b r else [] | _ => [] end.

Section rounds.
Context {T : Type} {docs : BSONObj -> Prop} `{L : NSTargeterLaws T docs} (rq : BatchedCommandRequest) (txnNumber : option Z).

Record good_env (env : RoundEnv (T:=T)) : Prop := {
  ge_answer s req : good_answer req (answer env s req);
  ge_arrival l : arrival env l ≡ₚ l;
  ge_refresh t : targeter_ok t -> exists t' status changed, refreshIfNeeded env t = Ret (t', status, changed) /\ targeter_ok t'
}.

Definition unsent (sb : ShardId * TargetedWriteBatch) : ShardId * option TargetedWriteBatch := (sb.1, Some sb.2).

Lemma collect_ok (l : list (ShardId * TargetedWriteBatch)) : forall sd,
  NoDup l.*1 ->
  (forall s b, (s, b) ∈ l -> shardName (tb_endpoint b) = s /\ exists req, buildBatchRequest rq txnNumber b = Ret req) ->
  (forall s, s ∈ l.*1 -> sd_pending sd !! s = None) ->
  exists reqs, ofold (collect_one rq txnNumber) sd (unsent <$> l) =
      Ret (mkSending (sd_children sd ++ ((fun s => (s, None)) <$> l.*1)) (list_to_map l ∪ sd_pending sd)
             (sd_requests sd ++ reqs)) /\
    reqs.*1 = l.*1 /\ forall s req, (s, req) ∈ reqs -> exists b, (s, b) ∈ l /\ buildBatchRequest rq txnNumber b = Ret req.
Proof.
  induction l as [|[s b] l IH]; intros sd Hn Hl Hp; cbn [fmap list_fmap ofold].
  { exists []. rewrite !app_nil_r. split; [|split; [done|by intros s req ?%not_elem_of_nil]].
    cbn. rewrite (left_id_L ∅ (∪)). by destruct sd. }
  destruct (Hl s b ltac:(left)) as [Hs [req Hreq]]. cbn in Hn. apply NoDup_cons in Hn as [Hnin Hn].
  unfold collect_one at 1. cbn [unsent snd fst]. rewrite Hs, (Hp s) by (cbn; left).
  rewrite bool_decide_eq_false_2 by (by intros [? ?]). rewrite Hreq. cbn [obind].
  destruct (IH (mkSending (sd_children sd ++ [(s, None)]) (<[s := b]> (sd_pending sd)) (sd_requests sd ++ [(s, req)])))
    as (reqs & -> & Hk & Hr); [done|intros; apply Hl; by right| |].
  { intros s' Hs'. cbn. rewrite lookup_insert_ne; [apply Hp; by right|]. by intros ->. }
  exists ((s, req) :: reqs). cbn [sd_children sd_pending sd_requests]. rewrite <- !app_assoc. split; [|split].
  - cbn. do 2 f_equal. rewrite <- insert_union_r, <- insert_union_l; [done|]. by apply not_elem_of_list_to_map_1.
  - cbn. by rewrite Hk.
  - intros s' req' [[= -> ->]|Hin]%elem_of_cons; [exists b; split; [left|done]|].
    destruct (Hr s' req' Hin) as (b' & Hb' & ?). exists b'. split; [by right|done].
Qed.

Lemma noteStaleResponses_ok errs : forall t, targeter_ok t -> exists t', noteStaleResponses errs t = Ret t' /\ targeter_ok t'.
Proof.
  induction errs as [|e errs IH]; intros t Ht; unfold noteStaleResponses in *; cbn [ofold]; [by exists t|].
  destruct (noteStaleResponse_ok e.1 (default [] (we_info e.2)) t Ht) as (t' & -> & Ht'). by apply IH.
Qed.

Lemma receive_one_ok env sd bw t n (s : ShardId) batch req rest :
  good_env env -> sd_pending sd !! s = Some batch -> List.find (fun r => String.eqb r.1 s) (sd_requests sd) = Some (s, req) ->
  sizeWriteOps req = List.length (tb_writes batch) -> rq_shardVersion req = Some (shardVersion (tb_endpoint batch)) ->
  targeter_ok t -> flying (bw_writeOps bw) (tb_writes batch ++ rest) -> batch_ok rq (bw_writeOps bw) batch ->
  exists bw' t' n', receive_one rq env sd (bw, t, n) s = Ret (bw', t', n') /\ targeter_ok t' /\
    batch_noted bw (tb_writes batch) rest (answer_acks rq batch (answer env s req)) bw' /\
    (rq_ordered rq = true -> rq_ordered req = true -> stops_at_error req (answer env s req) -> noted_once rq batch bw bw').
Proof.
  intros [Hans _ _] Hp Hf Hsz Hv Ht Hfl Hb. unfold receive_one. rewrite Hp, Hf. specialize (Hans s req _ Hv).
  destruct (answer env s req) as [e|e|r]; cbn [answer_acks stops_at_error].
  1,2: destruct (noteBatchError_ok rq batch (errorFromStatus e) bw rest Hfl Hb Hans) as (bw' & E & Hn); rewrite E; cbn [obind];
    exists bw', t, n; do 3 (split; [done|]); intros Ho _ _; by eapply noteBatchError_once.
  rewrite Hsz in Hans.
  destruct (noteBatchResponse_ok rq batch r (Some (startTracking StaleShardVersion [])) bw rest Hfl Hb Hans)
    as (bw' & tr & E & Hn). rewrite E. cbn [obind].
  assert (Ho : rq_ordered rq = true -> rq_ordered req = true ->
    stops_at_error req (Results r) -> noted_once rq batch bw bw').
  { intros Ho Ho' Hst. eapply noteBatchResponse_once; [done| |exact E]. by apply Hst. }
  destruct (getErrors StaleShardVersion (default [] tr)) as [|x errs]; [by exists bw', t, n|].
  destruct (noteStaleResponses_ok (x :: errs) t Ht) as (t' & -> & Ht'). cbn [obind]. by exists bw', t', (n + 1).
Qed.

(** Batch [batch] went to shard [s] as the request [req]. *)
Record sent (sd : Sending) (s : ShardId) (batch : TargetedWriteBatch) (req : BatchedCommandRequest) : Prop := {
  se_pending : sd_pending sd !! s = Some batch;
  se_request : List.find (fun r => String.eqb r.1 s) (sd_requests sd) = Some (s, req);
  se_size : sizeWriteOps req = List.length (tb_writes batch);
  se_ordered : rq_ordered req = rq_ordered rq;
  se_version : rq_shardVersion req = Some (shardVersion (tb_endpoint batch))
}.

Lemma sent_fun sd s b r b' r' : sent sd s b r -> sent sd s b' r' -> b' = b /\ r' = r.
Proof. intros [] []. split; congruence. Qed.

Definition writes_to (sd : Sending) (s : ShardId) : list TargetedWrite :=
  match sd_pending sd !! s with Some batch => tb_writes batch | None => [] end.

Lemma receive_all_ok env sd ss : forall bw t n,
  good_env env -> (forall s, s ∈ ss -> exists batch req, sent sd s batch req) -> targeter_ok t ->
  flying (bw_writeOps bw) (ss ≫= writes_to sd) ->
  (forall s batch, s ∈ ss -> sd_pending sd !! s = Some batch -> batch_ok rq (bw_writeOps bw) batch) ->
  exists bw' t' n', ofold (receive_one rq env sd) (bw, t, n) ss = Ret (bw', t', n') /\ targeter_ok t' /\
    flying (bw_writeOps bw') [] /\ evolves (bw_writeOps bw) (bw_writeOps bw') /\
    (forall s batch req w, s ∈ ss -> sent sd s batch req -> w ∈ answer_acks rq batch (answer env s req) ->
       exists op, bw_writeOps bw' !! item_of w = Some op /\ kept op) /\
    (forall s batch req w, s ∈ ss -> sent sd s batch req -> w ∈ tb_writes batch ->
       w ∈ answer_acks rq batch (answer env s req) \/ exists op, bw_writeOps bw' !! item_of w = Some op /\ spoiled op) /\
    (forall s batch req, ss = [s] -> sent sd s batch req -> rq_ordered rq = true -> stops_at_error req (answer env s req) ->
       noted_once rq batch bw bw').
Proof.
  induction ss as [|s ss IH]; intros bw t n Henv Hss Ht Hf Hb; cbn [ofold].
  { exists bw, t, n. split_and!; try done; [apply evolves_refl|by intros s batch req w ?%not_elem_of_nil..]. }
  destruct (Hss s ltac:(left)) as (batch & req & Hse). cbn in Hf. unfold writes_to in Hf at 1.
  rewrite (se_pending _ _ _ _ Hse) in Hf.
  destruct (receive_one_ok env sd bw t n s batch req (ss ≫= writes_to sd)) as (bw1 & t1 & n1 & -> & Ht1 & (Hf1 & Hev1 & Hac1 & Hna1) & Ho1);
    [done|apply Hse..|done|done|by apply (Hb s); [left|apply Hse]|]. cbn [obind].
  destruct (IH bw1 t1 n1) as (bw' & t' & n' & E2 & Ht' & Hf' & Hev' & Hac' & Hna' & _);
    [done|intros; apply Hss; by right|done|done| |].
  { intros s' b' Hs' Hb'. eapply batch_ok_evolves; [exact Hev1|exact Hf1| |by eapply Hb; [right|]].
    intros w Hw. apply list_elem_of_bind. exists s'. split; [|done]. unfold writes_to. by rewrite Hb'. }
  rewrite E2. exists bw', t', n'. split; [done|]. split; [done|]. split; [done|]. split; [by eapply evolves_trans|]. split_and!.
  - intros s' b' r' w [->|Hs']%elem_of_cons Hse' Hw; [|by eapply Hac'].
    destruct (sent_fun _ _ _ _ _ _ Hse Hse') as [-> ->].
    destruct (Hac1 w Hw) as (op & Hop & Hk). destruct (proj2 Hev' _ _ Hop) as (op' & Hop' & _ & Hk' & _). eauto.
  - intros s' b' r' w [->|Hs']%elem_of_cons Hse' Hw; [|by eapply Hna'].
    destruct (sent_fun _ _ _ _ _ _ Hse Hse') as [-> ->]. destruct (Hna1 w Hw) as [?|(op & Hop & Hk)]; [by left|right].
    destruct (proj2 Hev' _ _ Hop) as (op' & Hop' & _ & _ & Hk' & _). eauto.
  - intros s' b' r' E Hse' Ho Hst. injection E as <- ->.
    destruct (sent_fun _ _ _ _ _ _ Hse Hse') as [-> ->]. injection E2 as <- _ _.
    apply Ho1; [done|by rewrite (se_ordered _ _ _ _ Hse)|done].
Qed.

Lemma bind_writes_to sd (l : list (ShardId * TargetedWriteBatch)) :
  (forall s b, (s, b) ∈ l -> sd_pending sd !! s = Some b) -> l.*1 ≫= writes_to sd = writes_in l.*2.
Proof.
  induction l as [|[s b] l IH]; intros Hl; [done|]. unfold writes_in in *. cbn. unfold writes_to at 1.
  rewrite (Hl s b) by left. f_equal. apply IH. intros. apply Hl. by right.
Qed.

Lemma find_request (reqs : list (ShardId * BatchedCommandRequest)) s :
  s ∈ reqs.*1 -> exists req, List.find (fun r => String.eqb r.1 s) reqs = Some (s, req) /\ (s, req) ∈ reqs.
Proof.
  induction reqs as [|[s' req] reqs IH]; cbn; [by intros ?%not_elem_of_nil|]. intros [->|Hin]%elem_of_cons.
  - rewrite String.eqb_refl. exists req. split; [done|left].
  - destruct (String.eqb_spec s' s) as [->|]; [exists req; split; [done|left]|].
    destruct (IH Hin) as (req' & -> & ?). exists req'. split; [done|by right].
Qed.

Lemma send_done fuel env children n st : send_loop rq txnNumber fuel env children n n st = Ret st.
Proof. destruct fuel; cbn [send_loop]; by rewrite Nat.eqb_refl. Qed.

Section sending.
Context (Hids : parsed_ok rq) (r : bool) (ops0 ops : list WriteOp) (batches : gmap ShardId TargetedWriteBatch).
Context (Hsize : sizeWriteOps rq = List.length ops) (Hs : sendable rq r ops0 batches ops).

Lemma build_sendable s b : batches !! s = Some b ->
  exists req, buildBatchRequest rq txnNumber b = Ret req /\
    sizeWriteOps req = List.length (tb_writes b) /\ rq_ordered req = rq_ordered rq /\
    rq_shardVersion req = Some (shardVersion (tb_endpoint b)).
Proof.
  intros Hb. destruct (sn_batch _ _ _ _ _ Hs s b Hb) as [_ Hbo].
  destruct (buildBatchRequest_ok rq txnNumber b Hids (bo_writes _ _ _ Hbo)) as (req & ? & ? & ? & ? & _); [|eauto 10].
  intros w Hw. rewrite Hsize. assert (Hin : w ∈ round_writes batches).
  { apply (writes_in_elem _ b); [|done]. apply list_elem_of_fmap. exists (s, b). split; [done|]. by apply elem_of_map_to_list. }
  destruct (fl_write _ _ (sn_flying _ _ _ _ _ Hs) w Hin) as (op & ch & Hop & _). by eapply lookup_lt_Some.
Qed.

(** Every batch of the round is sent in the first pass. *)
Lemma collect_all : exists sd, collect rq txnNumber (unsent <$> map_to_list batches) = Ret sd /\
  sd_pending sd = batches /\ (sd_requests sd).*1 = (map_to_list batches).*1 /\
  (forall s b req, batches !! s = Some b -> buildBatchRequest rq txnNumber b = Ret req -> sent sd s b req).
Proof.
  destruct (collect_ok (map_to_list batches) (mkSending [] ∅ [])) as (reqs & Hc & Hk & Hr).
  - apply NoDup_fst_map_to_list.
  - intros s b Hin%elem_of_map_to_list. split; [by apply (sn_batch _ _ _ _ _ Hs)|].
    destruct (build_sendable s b Hin) as (req & ? & _). eauto.
  - done.
  - unfold collect. rewrite Hc. eexists. split; [reflexivity|]. cbn [sd_pending sd_requests sd_children app].
    rewrite list_to_map_to_list, (right_id_L ∅ (∪)). split; [done|]. split; [done|]. intros s b req Hb Hreq.
    destruct (build_sendable s b Hb) as (req0 & E & H1 & H2 & H3). rewrite Hreq in E. injection E as <-.
    split; cbn [sd_pending sd_requests]; [done| |done|done|done].
    destruct (find_request reqs s) as (req' & -> & Hin).
    { rewrite Hk. apply list_elem_of_fmap. exists (s, b). split; [done|]. by apply elem_of_map_to_list. }
    destruct (Hr s req' Hin) as (b' & Hb'%elem_of_map_to_list & E'). rewrite Hb in Hb'. injection Hb' as <-. rewrite Hreq in E'. by injection E' as ->.
Qed.

Record round_done (env : RoundEnv (T:=T)) (bw bw' : BatchWriteOp) : Prop := {
  rd_flying : flying (bw_writeOps bw') [];
  rd_evolves : evolves (bw_writeOps bw) (bw_writeOps bw');
  rd_acked s batch req w : batches !! s = Some batch -> buildBatchRequest rq txnNumber batch = Ret req ->
    w ∈ answer_acks rq batch (answer env s req) -> exists op, bw_writeOps bw' !! item_of w = Some op /\ kept op;
  rd_others s batch req w : batches !! s = Some batch -> buildBatchRequest rq txnNumber batch = Ret req ->
    w ∈ tb_writes batch ->
    w ∈ answer_acks rq batch (answer env s req) \/ exists op, bw_writeOps bw' !! item_of w = Some op /\ spoiled op;
  rd_once s batch req : batches = {[s := batch]} -> buildBatchRequest rq txnNumber batch = Ret req ->
    rq_ordered rq = true -> stops_at_error req (answer env s req) -> noted_once rq batch bw bw';
  rd_none : batches = ∅ -> bw' = bw
}.

Lemma send_ok env bw t n :
  good_env env -> targeter_ok t -> bw_writeOps bw = ops ->
  exists bw' t' n', send_loop rq txnNumber (List.length (unsent <$> map_to_list batches)) env (unsent <$> map_to_list batches) 0
      (List.length (unsent <$> map_to_list batches)) (bw, t, n) = Ret (bw', t', n') /\ targeter_ok t' /\ round_done env bw bw'.
Proof.
  intros Henv Ht Ebw. pose proof (sn_flying _ _ _ _ _ Hs) as Hfl. rewrite <- Ebw in Hfl.
  destruct (decide (batches = ∅)) as [E|Hne].
  { unfold round_writes in Hfl. rewrite E, map_to_list_empty in Hfl |- *. cbn. exists bw, t, n. split; [done|]. split; [done|].
    split; [exact Hfl|apply evolves_refl| | | |done].
    - intros s batch req w Hb. by rewrite E, lookup_empty in Hb.
    - intros s batch req w Hb. by rewrite E, lookup_empty in Hb.
    - intros s batch req Hb. rewrite E in Hb. apply (f_equal (lookup s)) in Hb. by rewrite lookup_singleton_eq in Hb. }
  destruct collect_all as (sd & Hc & Hp & Hk & Hsent). rewrite length_fmap, length_map_to_list.
  destruct (size batches) as [|k] eqn:Esz; [by apply map_size_empty_inv in Esz|]. cbn [send_loop Nat.eqb]. rewrite Hc. cbn [obind].
  destruct (getTargetingNS_ok rq Hids) as [ns ->]. cbn [obind].
  assert (Harr : arrival env (sd_requests sd).*1 ≡ₚ (map_to_list batches).*1) by (by rewrite (ge_arrival _ Henv), Hk).
  assert (Hin : forall s, s ∈ arrival env (sd_requests sd).*1 -> exists b, batches !! s = Some b).
  { intros s Hx. rewrite Harr in Hx. apply list_elem_of_fmap in Hx as ([s' b] & -> & Hx%elem_of_map_to_list). eauto. }
  destruct (receive_all_ok env sd (arrival env (sd_requests sd).*1) bw t n) as (bw' & t' & n' & E & Ht' & Hf' & Hev & Hac & Hna & Honce);
    [done| |done| | |].
  - intros s Hx. destruct (Hin s Hx) as [b Hb]. destruct (build_sendable s b Hb) as (req & ? & _). eauto.
  - eapply flying_perm; [|exact Hfl]. rewrite Harr, bind_writes_to; [done|]. intros s b Hb%elem_of_map_to_list. by rewrite Hp.
  - intros s b _ Hb. rewrite Hp in Hb. rewrite Ebw. by apply (sn_batch _ _ _ _ _ Hs s).
  - rewrite E. cbn [obind]. rewrite Hp, Esz. cbn [Nat.add]. rewrite send_done. exists bw', t', n'. split; [done|]. split; [done|].
    assert (Harr' : forall s b, batches !! s = Some b -> s ∈ arrival env (sd_requests sd).*1).
    { intros s b Hb. rewrite Harr. apply list_elem_of_fmap. exists (s, b). split; [done|]. by apply elem_of_map_to_list. }
    split; [done|done| | | |done].
    + intros s b req w Hb Hreq Hw. eapply Hac; [by eapply Harr'|by apply Hsent|done].
    + intros s b req w Hb Hreq Hw. eapply Hna; [by eapply Harr'|by apply Hsent|done].
    + intros s b req Hb Hreq Ho Hst. eapply Honce; [|apply Hsent; [|done]|done|done].
      * rewrite Hb, map_to_list_singleton in Harr. by apply Permutation_singleton_r.
      * rewrite Hb. apply lookup_singleton_eq.
Qed.
End sending.
End rounds.
