(* ===== verification/BatchRounds.v ===== *)
(** The outcome of a batch of writes: every operation ends, in order if the
    batch is ordered, its errors are reported under its index, and a write that
    a shard acknowledged is not sent again. *)

From stdpp Require Import base list strings gmap sorting.
From Stdlib Require Import ZArith Lia String.
From S2P Require Import Prelude Bson ChunkVersion ChunkType ConfigChunks WriteOps BatchSafe BatchTarget BatchExec.
Local Open Scope string_scope.
Local Open Scope Z_scope.
Local Open Scope list_scope.
Local Open Scope outcome_scope.

(** * Operations between rounds *)

Definition final (op : WriteOp) : Prop := wo_state op = WriteOpState_Completed \/ wo_state op = WriteOpState_Error.

(** An operation that has its result keeps it. *)
Definition keeps_final (ops ops' : list WriteOp) : Prop :=
  List.length ops' = List.length ops /\ forall i op, ops !! i = Some op -> final op -> ops' !! i = Some op.

Lemma keeps_final_trans a b c : keeps_final a b -> keeps_final b c -> keeps_final a c.
Proof. intros [L1 H1] [L2 H2]. split; [congruence|]. auto. Qed.

Lemma quiet_cases op : quiet op -> final op \/ wo_state op = WriteOpState_Ready.
Proof. intros [_ [?|[?|[? _]]]]; unfold final; auto. Qed.

Lemma before_completed_quiet op : quiet op -> before_completed (wo_state op) = bool_decide (wo_state op = WriteOpState_Ready).
Proof. intros [_ [->|[->|[-> _]]]]; done. Qed.

(** An ordered batch: complete up to one, which is in error or not done, and
    nothing after it. *)
Definition ordered_shape (ops : list WriteOp) : Prop :=
  exists a, forall j op, ops !! j = Some op ->
    (j < a)%nat /\ wo_state op = WriteOpState_Completed \/
    j = a /\ (wo_state op = WriteOpState_Ready \/ wo_state op = WriteOpState_Error) \/
    (a < j)%nat /\ wo_state op = WriteOpState_Ready.

Definition done_to (a : nat) (ops : list WriteOp) : Prop :=
  forall j op, ops !! j = Some op ->
    (j < a)%nat /\ wo_state op = WriteOpState_Completed \/ (a <= j)%nat /\ wo_state op = WriteOpState_Ready.

Lemma shape_from c ops :
  (forall j op, ops !! j = Some op -> quiet op) ->
  (forall j op, ops !! j = Some op -> ((j < c)%nat -> wo_state op = WriteOpState_Completed) /\
     ((c < j)%nat -> wo_state op = WriteOpState_Ready)) ->
  ordered_shape ops.
Proof.
  intros Hq Hc. assert (Hcase : (exists op, ops !! c = Some op /\ wo_state op = WriteOpState_Completed) \/
      forall op, ops !! c = Some op -> wo_state op = WriteOpState_Ready \/ wo_state op = WriteOpState_Error).
  { destruct (ops !! c) as [op|] eqn:E; [|by right]. destruct (Hq c op E) as [_ [Hs|[Hs|[Hs _]]]];
      [right; intros ? [= <-]; auto|left; eauto|right; intros ? [= <-]; auto]. }
  destruct Hcase as [(opc & Hopc & Hs)|Hs]; [exists (S c)|exists c]; intros j op Hop; destruct (Hc j op Hop) as [H1 H2];
    destruct (decide (j < c)%nat); [left; auto with lia| |left; auto with lia|].
  - destruct (decide (j = c)) as [->|]; [left; split; [lia|congruence]|]. destruct (decide (j = S c)); right; [left|right]; auto with lia.
  - destruct (decide (j = c)) as [->|]; [right; left; auto|right; right; auto with lia].
Qed.

Section ends.
Context (rq : BatchedCommandRequest).

Lemma finished_at_error ops : forall a op,
  rq_ordered rq = true -> (forall j op, ops !! j = Some op -> (j < a)%nat -> wo_state op = WriteOpState_Completed) ->
  ops !! a = Some op -> wo_state op = WriteOpState_Error -> ops_finished rq ops = true.
Proof.
  induction ops as [|x ops IH]; intros a op Ho Hc Ha He; [done|]. cbn [ops_finished]. destruct a as [|a].
  - injection Ha as ->. rewrite He, Ho. done.
  - rewrite (Hc 0%nat x eq_refl ltac:(lia)). cbn. rewrite andb_false_r. apply (IH a op); try done.
    intros j y Hj Hlt. apply (Hc (S j) y Hj). lia.
Qed.

Lemma shape_running ops : rq_ordered rq = true -> ordered_shape ops -> ops_finished rq ops = false -> exists a, done_to a ops.
Proof.
  intros Ho [a Ha] Hf. exists a. intros j op Hop. destruct (Ha j op Hop) as [?|[[-> [?|He]]|[? ?]]]; [by left|by right| |right; split; [lia|done]].
  exfalso. rewrite (finished_at_error ops a op) in Hf; try done. intros k x Hx Hk.
  destruct (Ha k x Hx) as [[_ ?]|[[-> _]|[? _]]]; [done|lia|lia].
Qed.

Lemma finished_final ops : rq_ordered rq = false -> (forall j op, ops !! j = Some op -> quiet op) ->
  ops_finished rq ops = true -> forall j op, ops !! j = Some op -> final op.
Proof.
  intros Ho. induction ops as [|x ops IH]; intros Hq Hf j op Hop; [done|]. cbn [ops_finished] in Hf.
  rewrite (before_completed_quiet x (Hq 0%nat x eq_refl)), Ho in Hf. cbn [andb] in Hf.
  case_bool_decide as Hr; [done|]. destruct j as [|j].
  - injection Hop as <-. by destruct (quiet_cases x (Hq 0%nat x eq_refl)).
  - apply (IH (fun k y Hy => Hq (S k) y Hy) Hf j op Hop).
Qed.

(** ** Giving up *)

Lemma abort_length error ops : forall i, List.length (abort_ops rq error i ops) = List.length ops.
Proof.
  induction ops as [|op ops IH]; intros i; cbn [abort_ops]; [done|]. destruct (before_completed _); cbn; [|by rewrite IH].
  by destruct (rq_ordered rq); [|rewrite IH].
Qed.

Lemma abort_lookup error ops : forall i j op', abort_ops rq error i ops !! j = Some op' ->
  exists op, ops !! j = Some op /\ (op' = op \/ before_completed (wo_state op) = true /\ op' = setOpError (i + j) op error).
Proof.
  induction ops as [|op ops IH]; intros i j op'; cbn [abort_ops]; [done|].
  assert (Hrec : forall k, abort_ops rq error (S i) ops !! k = Some op' -> exists op0, ops !! k = Some op0 /\
    (op' = op0 \/ before_completed (wo_state op0) = true /\ op' = setOpError (i + S k) op0 error)).
  { intros k (op0 & H0 & H1)%IH. exists op0. by rewrite Nat.add_succ_r. }
  destruct (before_completed (wo_state op)) eqn:Eb; destruct j as [|j]; cbn.
  - intros [= <-]. exists op. rewrite Nat.add_0_r. auto.
  - destruct (rq_ordered rq); [|apply Hrec]. intros Hj. eauto.
  - intros [= <-]. eauto.
  - apply Hrec.
Qed.

(** Giving up on an unordered batch ends every operation. *)
Lemma abort_finishes error ops : forall i, (forall j op, ops !! j = Some op -> quiet op) ->
  ops_finished rq (abort_ops rq error i ops) = true.
Proof.
  induction ops as [|op ops IH]; intros i Hq; cbn [abort_ops]; [done|].
  pose proof (Hq 0%nat op eq_refl) as Hq0. specialize (IH (S i) (fun k y Hy => Hq (S k) y Hy)).
  destruct (before_completed (wo_state op)) eqn:Eb; cbn [ops_finished setOpError wo_state before_completed].
  - destruct (rq_ordered rq); [done|]. by cbn.
  - rewrite Eb. destruct (rq_ordered rq && _); [done|]. done.
Qed.

(** An ordered batch is given up at its first operation that is not done. *)
Lemma abort_ordered error a ops : rq_ordered rq = true -> done_to a ops -> forall i,
  abort_ops rq error i ops = match ops !! a with Some op => <[a := setOpError (i + a) op error]> ops | None => ops end.
Proof.
  intros Ho. revert a. induction ops as [|op ops IH]; intros a Ha i; cbn [abort_ops]; [done|].
  destruct (Ha 0%nat op eq_refl) as [[Hlt ->]|[Hlt Hr]].
  - destruct a as [|a]; [lia|]. cbn [before_completed]. rewrite (IH a).
    + cbn. rewrite <- Nat.add_succ_comm. by destruct (ops !! a).
    + intros j x Hx. destruct (Ha (S j) x Hx) as [[? ?]|[? ?]]; [left|right]; (split; [lia|done]).
  - assert (a = 0)%nat as -> by lia. rewrite Hr, Ho. cbn. by rewrite Nat.add_0_r.
Qed.
End ends.

(** * The operations over a round *)

Lemma flying_nil_quiet ops : flying ops [] -> forall i op, ops !! i = Some op -> quiet op.
Proof. intros Hf i op Hi. destruct (fl_op _ _ Hf i op Hi) as [?|(_ & (w & ?%not_elem_of_nil & _) & _)]; [done|done]. Qed.

Section round.
Context {T : Type} {docs : BSONObj -> Prop} `{L : NSTargeterLaws T docs} (rq : BatchedCommandRequest) (txnNumber : option Z).

Record tidy (ops : list WriteOp) : Prop := {
  td_size : sizeWriteOps rq = List.length ops;
  td_quiet i op : ops !! i = Some op -> quiet op;
  td_index i op : ops !! i = Some op -> idx_ok i op
}.

Section over.
Context (r : bool) (ops0 : list WriteOp) (batches : gmap ShardId TargetedWriteBatch) (env : RoundEnv (T:=T)) (bw bw' : BatchWriteOp).
Context (Htidy : tidy ops0) (Hs : sendable rq r ops0 batches (bw_writeOps bw)).
Context (Hd : round_done rq txnNumber batches env bw bw').

Lemma round_tidy : tidy (bw_writeOps bw').
Proof.
  destruct Htidy as [H1 H2 H3]. pose proof (rd_evolves _ _ _ _ _ _ Hd) as [Hl Hev]. destruct (sn_tracks _ _ _ _ _ Hs) as [Hl0 Htr].
  split; [congruence|by apply flying_nil_quiet, Hd|]. intros i op2 Hi2.
  destruct (lookup_lt_is_Some_2 (bw_writeOps bw) i) as [op1 Hi1]; [rewrite <- Hl; by eapply lookup_lt_Some|].
  destruct (lookup_lt_is_Some_2 ops0 i) as [op0 Hi0]; [rewrite <- Hl0; by eapply lookup_lt_Some|].
  destruct (Hev i op1 Hi1) as (op & Hi & _ & _ & _ & Hx). rewrite Hi2 in Hi. injection Hi as <-. apply Hx.
  destruct (Htr i op0 op1 Hi0 Hi1) as [->|(_ & ? & _)]; [by apply H3|done].
Qed.

Lemma round_keeps : keeps_final ops0 (bw_writeOps bw').
Proof.
  pose proof (rd_evolves _ _ _ _ _ _ Hd) as [Hl Hev]. pose proof (sn_tracks _ _ _ _ _ Hs) as Htr.
  split; [rewrite Hl; apply Htr|]. intros i op Hi Hfin. destruct (tracks_l _ _ _ _ _ Htr Hi) as (op1 & Hi1 & Ht).
  assert (op1 = op) as ->. { destruct Ht as [?|(Hr & _)]; [done|]. destruct Hfin; congruence. }
  destruct (Hev i op Hi1) as (op2 & Hi2 & Hq & _). rewrite Hi2. f_equal. apply Hq. by apply (td_quiet _ Htidy i).
Qed.

(** A write is sent only for an operation that waits. *)
Lemma sent_ready s b w : batches !! s = Some b -> w ∈ tb_writes b ->
  exists op, ops0 !! item_of w = Some op /\ wo_state op = WriteOpState_Ready.
Proof.
  intros Hb Hw. assert (Hin : w ∈ round_writes batches).
  { apply (writes_in_elem _ b); [|done]. apply list_elem_of_fmap. exists (s, b). split; [done|]. by apply elem_of_map_to_list. }
  destruct (fl_write _ _ (sn_flying _ _ _ _ _ Hs) w Hin) as (op & ch & Hop & Hp & _).
  destruct (tracks_r _ _ _ _ _ (sn_tracks _ _ _ _ _ Hs) Hop) as (op0 & Hop0 & [->|[? _]]); [|eauto].
  exfalso. by apply (pending_not_quiet op0 Hp), (td_quiet _ Htidy (item_of w)).
Qed.

Lemma acked_final s b req w : batches !! s = Some b -> buildBatchRequest rq txnNumber b = Ret req ->
  w ∈ answer_acks rq b (answer env s req) -> exists op, bw_writeOps bw' !! item_of w = Some op /\ final op.
Proof.
  intros Hb Hreq Hw. destruct (rd_acked _ _ _ _ _ _ Hd s b req w Hb Hreq Hw) as (op & Hop & Hk). exists op. split; [done|].
  pose proof (td_quiet _ round_tidy _ _ Hop) as Hq. destruct Hk as [?|[?|[Hp _]]]; [by left|by right|].
  by apply pending_not_quiet in Hp.
Qed.

(** An operation completes only when every shard acknowledged its write. *)
Lemma completed_acked i op0 op :
  sizeWriteOps rq = List.length (bw_writeOps bw) -> parsed_ok rq ->
  ops0 !! i = Some op0 -> bw_writeOps bw' !! i = Some op -> wo_state op = WriteOpState_Completed ->
  wo_state op0 = WriteOpState_Completed \/
  (exists s b w, batches !! s = Some b /\ w ∈ tb_writes b /\ item_of w = i) /\
  forall s b req w, batches !! s = Some b -> buildBatchRequest rq txnNumber b = Ret req -> w ∈ tb_writes b ->
    item_of w = i -> w ∈ answer_acks rq b (answer env s req).
Proof.
  intros Hsz Hids H0 Hop Hc. destruct (decide (wo_state op0 = WriteOpState_Completed)) as [|Hn]; [by left|right].
  pose proof (rd_evolves _ _ _ _ _ _ Hd) as [Hl Hev]. destruct (tracks_l _ _ _ _ _ (sn_tracks _ _ _ _ _ Hs) H0) as (op1 & Hop1 & Htr).
  assert (Hsame : quiet op1 -> op1 = op).
  { intros Hq. destruct (Hev i op1 Hop1) as (op2 & Hop2 & Hq2 & _). rewrite Hop in Hop2. injection Hop2 as ->. symmetry. auto. }
  split.
  - destruct (fl_op _ _ (sn_flying _ _ _ _ _ Hs) i op1 Hop1) as [Hq|(_ & (w & Hw & Ew) & _)].
    + exfalso. rewrite (Hsame Hq) in Htr. destruct Htr as [->|(_ & _ & [[? _]|[_ ?]])]; congruence.
    + unfold round_writes, writes_in in Hw. apply list_elem_of_bind in Hw as (b & Hw & Hb).
      apply list_elem_of_fmap in Hb as ([s b'] & -> & Hb%elem_of_map_to_list). by exists s, b', w.
  - intros s b req w Hb Hreq Hw Ew. destruct (rd_others _ _ _ _ _ _ Hd s b req w Hb Hreq Hw) as [?|(op2 & Hop2 & Hsp)]; [done|].
    exfalso. rewrite Ew, Hop in Hop2. injection Hop2 as <-. destruct Hsp as [?|[?|[? _]]]; congruence.
Qed.

(** ** Ordered batches *)

Context (Hids : parsed_ok rq) (Hord : rq_ordered rq = true) (a : nat) (Hdone : done_to a ops0).
Context (Hstop : forall s b req, batches !! s = Some b -> buildBatchRequest rq txnNumber b = Ret req ->
  stops_at_error req (answer env s req)).

Lemma done_prefix : prefix_at ops0 a.
Proof. intros j op Hop. destruct (Hdone j op Hop) as [[? Hc]|?]; [left; by rewrite Hc|by right]. Qed.

(** An operation without a write in the round is as it was. *)
Lemma round_other j op : untouched ops0 (bw_writeOps bw) -> bw_writeOps bw' !! j = Some op ->
  (forall w, w ∈ round_writes batches -> item_of w <> j) -> ops0 !! j = Some op.
Proof.
  intros Hu Hj Hno. pose proof (rd_evolves _ _ _ _ _ _ Hd) as [Hl Hev].
  destruct (lookup_lt_is_Some_2 (bw_writeOps bw) j) as [op1 Hi1]; [rewrite <- Hl; by eapply lookup_lt_Some|].
  destruct (fl_op _ _ (sn_flying _ _ _ _ _ Hs) j op1 Hi1) as [Hq|(_ & (w & Hw & E) & _)]; [|by destruct (Hno w Hw)].
  destruct (Hev j op1 Hi1) as (op2 & Hi2 & Hq2 & _). rewrite Hj in Hi2. injection Hi2 as <-. rewrite (Hq2 Hq).
  destruct (Hu j op1 Hi1) as [?|Hp]; [done|]. by apply pending_not_quiet in Hp.
Qed.

(** One shard has all the writes of the round. *)
Lemma round_one_shard s b p :
  batches = {[s := b]} -> (forall w, w ∈ tb_writes b -> single (bw_writeOps bw) w) -> item_of <$> tb_writes b = seq a p ->
  exists c, (c <= p)%nat /\ forall j op, (a <= j < a + p)%nat -> bw_writeOps bw' !! j = Some op ->
    ((j < a + c)%nat -> wo_state op = WriteOpState_Completed) /\ ((a + c < j)%nat -> wo_state op = WriteOpState_Ready).
Proof.
  intros Hb Hsg Hp. assert (Hbs : batches !! s = Some b) by (rewrite Hb; apply lookup_singleton_eq).
  assert (Hsz : sizeWriteOps rq = List.length (bw_writeOps bw)).
  { rewrite (td_size _ Htidy). symmetry. apply (sn_tracks _ _ _ _ _ Hs). }
  destruct (build_sendable rq txnNumber Hids r ops0 _ batches Hsz Hs s b Hbs) as (req & Hreq & _).
  destruct (rd_once _ _ _ _ _ _ Hd s b req Hb Hreq Hord (Hstop s b req Hbs Hreq)) as (errs & He & Hn).
  assert (Hf : flying (bw_writeOps bw) (tb_writes b)).
  { eapply flying_perm; [|apply Hs]. unfold round_writes, writes_in. rewrite Hb, map_to_list_singleton. cbn. by rewrite app_nil_r. }
  assert (p = List.length (tb_writes b)) as ->.
  { apply (f_equal List.length) in Hp. rewrite length_fmap, length_seq in Hp. done. }
  destruct (note_writes_prefix rq Hord (tb_writes b) a 0 errs (bw_writeOps bw) (bw_writeOps bw') Hf Hsg Hp He Hn) as [m Hm].
  exists (Nat.min m (List.length (tb_writes b))). split; [lia|]. intros j op Hj Hop.
  destruct (Hm (j - a)%nat op) as [Hm1 Hm2]; [lia|by replace (a + (j - a))%nat with j by lia|].
  split; intros Hlt; [apply Hm1|apply Hm2]; lia.
Qed.

Lemma round_ordered : ordered_shape (bw_writeOps bw').
Proof.
  pose proof (td_quiet _ round_tidy) as Hq. destruct (sn_order _ _ _ _ _ Hs a Hord done_prefix) as [(m & Hm & Hin & Hu)|[Hb He]].
  2:{ rewrite (rd_none _ _ _ _ _ _ Hd Hb) in *. destruct He as (_ & _ & _ & op & e & Hop & _ & E).
      apply (shape_from a); [done|]. rewrite E. intros j x [(<- & <- & _)|[Hne Hx]]%list_lookup_insert_Some; [lia|].
      destruct (Hdone j x Hx) as [[? ?]|[? ?]]; split; try done; lia. }
  assert (Hrw : forall w, w ∈ round_writes batches <-> w ∈ writes_in m)
    by (intros w; unfold round_writes, writes_in; by rewrite Hm).
  assert (Hother : forall j op, bw_writeOps bw' !! j = Some op -> (forall w, w ∈ writes_in m -> item_of w <> j) ->
    ((j < a)%nat -> wo_state op = WriteOpState_Completed) /\ ((a <= j)%nat -> wo_state op = WriteOpState_Ready)).
  { intros j op Hj Hno. destruct (Hdone j op) as [[? ?]|[? ?]]; [|split; [done|lia]|split; [lia|done]].
    apply (round_other j op Hu Hj). intros w Hw. apply Hno. by apply Hrw. }
  destruct Hin as [(Hl & Hsg & p & Hp)|[Hsame _]].
  2:{ apply (shape_from a); [done|]. intros j op Hj. split; intros Hlt; apply (Hother j op Hj); try lia; intros w Hw E;
      rewrite (Hsame w Hw) in E; lia. }
  destruct m as [|b [|? ?]]; [| |simpl in Hl; lia].
  { apply (shape_from a); [done|]. intros j op Hj. destruct (Hother j op Hj) as [H1 H2]; [by intros w ?%not_elem_of_nil|].
    split; [done|]. intros ?. apply H2. lia. }
  assert (Ew : writes_in [b] = tb_writes b) by (unfold writes_in; cbn; by rewrite app_nil_r). rewrite Ew in *.
  assert (Hb : exists s, batches = {[s := b]}).
  { apply Permutation_sym, Permutation_singleton_r in Hm. destruct (map_to_list batches) as [|[s b'] [|? ?]] eqn:El; try done.
    injection Hm as ->. exists s. rewrite <- (list_to_map_to_list batches), El. cbn. by rewrite insert_empty. }
  destruct Hb as [s Hb]. destruct (round_one_shard s b p Hb Hsg Hp) as (c & Hcp & Hc).
  apply (shape_from (a + c)); [done|]. intros j op Hj. destruct (decide (a <= j < a + p)%nat) as [Hjp|Hjp]; [by apply Hc|].
  destruct (Hother j op Hj) as [H1 H2]; [|split; intros; [apply H1|apply H2]; lia].
  intros w Hw%(list_elem_of_fmap_2 item_of) E. rewrite Hp, E, elem_of_seq in Hw. lia.
Qed.
End over.

Lemma sendable_none r ops : tidy ops -> sendable rq r ops ∅ ops.
Proof.
  intros Ht. split.
  - unfold round_writes. rewrite map_to_list_empty. split; [apply NoDup_nil_2|by intros w ?%not_elem_of_nil|].
    intros i op Hi. left. by apply (td_quiet _ Ht i).
  - intros s b Hb. by rewrite lookup_empty in Hb.
  - intros a _ _. left. exists []. rewrite map_to_list_empty. split; [done|]. split.
    + left. split; [simpl; lia|]. split; [by intros w ?%not_elem_of_nil|]. by exists 0%nat.
    + intros j op Hj. by left.
  - apply tracks_refl.
Qed.

(** What a batch write has at any time between two rounds. *)
Record ended (st : ExecState (T:=T)) : Prop := {
  en_targeter : targeter_ok (ex_targeter st);
  en_tidy : tidy (bw_writeOps (ex_batch st));
  en_shape : rq_ordered rq = true -> ordered_shape (bw_writeOps (ex_batch st))
}.

(** The batches that a round sends. *)
Definition round_batches (st : ExecState (T:=T)) : gmap ShardId TargetedWriteBatch :=
  match targetBatch rq txnNumber (ex_batch st) (ex_targeter st) (ex_refreshedTargeter st) with
  | Ret (_, _, OK batches) => batches
  | _ => ∅
  end.

Definition shards_stop (env : RoundEnv (T:=T)) : Prop :=
  forall s req, stops_at_error req (answer env s req).

Lemma keeps_completed ops : forall ops', keeps_final ops ops' ->
  (List.length (List.filter (fun op => bool_decide (wo_state op = WriteOpState_Completed)) ops) <=
   List.length (List.filter (fun op => bool_decide (wo_state op = WriteOpState_Completed)) ops'))%nat.
Proof.
  induction ops as [|op ops IH]; intros [|op' ops'] [Hl Hk]; [simpl; lia|done|done|].
  assert (IH' := IH ops' (conj (eq_add_S _ _ Hl) (fun i x Hi Hx => Hk (S i) x Hi Hx))). cbn [List.filter].
  destruct (bool_decide_reflect (wo_state op = WriteOpState_Completed)) as [E|E].
  - specialize (Hk 0%nat op eq_refl (or_introl E)). injection Hk as ->. rewrite bool_decide_eq_true_2 by done. simpl. lia.
  - destruct (bool_decide _); simpl; lia.
Qed.

Definition completed (st : ExecState (T:=T)) : Z := numWriteOpsIn WriteOpState_Completed (ex_batch st).

(** The refresh at the end of a round reports that the metadata changed. *)
Definition reports_change (env : RoundEnv (T:=T)) (st : ExecState (T:=T)) : Prop :=
  exists b t refreshed stats t' status, round_sends rq txnNumber env st = Ret (b, t, refreshed, stats) /\
    refreshIfNeeded env t = Ret (t', status, true).

(** A round at [st] that leads to [st']. *)
Record round_ok (env : RoundEnv (T:=T)) (st st' : ExecState (T:=T)) (stop : bool) : Prop := {
  ro_ended : ended st';
  ro_keeps : keeps_final (bw_writeOps (ex_batch st)) (bw_writeOps (ex_batch st'));
  ro_rounds : ex_rounds st' = S (ex_rounds st);
  ro_sent s b w : round_batches st !! s = Some b -> w ∈ tb_writes b ->
    exists op, bw_writeOps (ex_batch st) !! item_of w = Some op /\ wo_state op = WriteOpState_Ready;
  ro_acked s b req w : round_batches st !! s = Some b -> buildBatchRequest rq txnNumber b = Ret req ->
    w ∈ answer_acks rq b (answer env s req) ->
    exists op, bw_writeOps (ex_batch st') !! item_of w = Some op /\ final op;
  ro_completed i op op' : bw_writeOps (ex_batch st) !! i = Some op -> bw_writeOps (ex_batch st') !! i = Some op' ->
    wo_state op' = WriteOpState_Completed ->
    wo_state op = WriteOpState_Completed \/
    (exists s b w, round_batches st !! s = Some b /\ w ∈ tb_writes b /\ item_of w = i) /\
    forall s b req w, round_batches st !! s = Some b -> buildBatchRequest rq txnNumber b = Ret req -> w ∈ tb_writes b ->
      item_of w = i -> w ∈ answer_acks rq b (answer env s req);
  ro_stop : stop = true -> isFinished rq (ex_batch st') = true;
  ro_go : stop = false -> ex_numCompletedOps st' = completed st' /\ ex_numRoundsWithoutProgress st' <= kMaxRoundsWithoutProgress /\
    (ex_numRoundsWithoutProgress st' = ex_numRoundsWithoutProgress st + 1 \/
     ex_numRoundsWithoutProgress st' = 0 /\
       (completed st' <> ex_numCompletedOps st \/ reports_change env st))
}.

(** Targeting of a round. *)
Lemma round_targets st : docs_ok docs rq -> ended st ->
  exists t b batches status, targetBatch rq txnNumber (ex_batch st) (ex_targeter st) (ex_refreshedTargeter st) = Ret (t, b, status) /\
    targeter_ok t /\ sendable rq (ex_refreshedTargeter st) (bw_writeOps (ex_batch st)) batches (bw_writeOps b) /\
    round_batches st = batches /\ batches = match status with OK batches => batches | NotOK _ => ∅ end.
Proof.
  intros Hdocs [Ht Htd _].
  destruct (targetBatch_ok rq txnNumber (ex_batch st) (ex_targeter st) (ex_refreshedTargeter st) Hdocs Ht)
    as (t & b & status & E & Ht' & Hst); [apply Htd|apply Htd|].
  unfold round_batches. rewrite E. destruct status as [batches|e].
  - exists t, b, batches, (OK batches). destruct Hst. auto 10.
  - destruct Hst as [-> _]. exists t, (ex_batch st), ∅, (NotOK e). auto 10 using sendable_none.
Qed.

(** Giving up keeps what is done. *)
Lemma abort_ok b error : tidy (bw_writeOps b) -> (rq_ordered rq = true -> ordered_shape (bw_writeOps b)) ->
  isFinished rq b = false ->
  tidy (bw_writeOps (abortBatch rq error b)) /\ keeps_final (bw_writeOps b) (bw_writeOps (abortBatch rq error b)) /\
  (rq_ordered rq = true -> ordered_shape (bw_writeOps (abortBatch rq error b))) /\
  isFinished rq (abortBatch rq error b) = true.
Proof.
  intros Ht Hsh Hf. unfold abortBatch, isFinished in *. cbn [bw_writeOps set_writeOps]. split_and!.
  - split; [rewrite abort_length; apply Ht| |]; intros i op' (op & Hop & [->|[_ ->]])%abort_lookup;
      pose proof (td_quiet _ Ht i op Hop) as Hq; try done.
    + split; [by apply Hq|]. right. right. split; [done|]. by eexists.
    + by apply (td_index _ Ht).
    + by apply setOpError_index, Hq.
  - split; [apply abort_length|]. intros i op Hop Hfin.
    destruct (lookup_lt_is_Some_2 (abort_ops rq error 0 (bw_writeOps b)) i) as [op' Hop'];
      [rewrite abort_length; by eapply lookup_lt_Some|]. rewrite Hop'.
    destruct (abort_lookup _ _ _ _ _ _ Hop') as (x & Hx & [->|[Hb _]]); rewrite Hop in Hx; injection Hx as <-; [done|].
    by destruct Hfin as [E|E]; rewrite E in Hb.
  - intros Ho. destruct (shape_running rq _ Ho (Hsh Ho) Hf) as [a Ha]. rewrite (abort_ordered rq error a _ Ho Ha).
    exists a. intros j op Hj. destruct (bw_writeOps b !! a) as [x|] eqn:Ex.
    + apply list_lookup_insert_Some in Hj as [(<- & <- & _)|[Hne Hj]]; [right; left; auto|].
      destruct (Ha j op Hj) as [?|[? ?]]; [by left|]. right. right. split; [lia|done].
    + destruct (Ha j op Hj) as [?|[? ?]]; [by left|]. exfalso. apply lookup_ge_None in Ex. apply lookup_lt_Some in Hj. lia.
  - apply abort_finishes. apply Ht.
Qed.

Context (Hids : parsed_ok rq) (Hdocs : docs_ok docs rq).

Lemma exec_round_ok env st :
  ended st -> isFinished rq (ex_batch st) = false -> good_env env -> (rq_ordered rq = true -> shards_stop env) ->
  exists st' stop, exec_round rq txnNumber env st = Ret (st', stop) /\ round_ok env st st' stop.
Proof.
  intros He Hf Henv Hstop. pose proof (en_tidy _ He) as Htd.
  destruct (round_targets st Hdocs He) as (t & b & batches & status & Etb & Ht & Hs & Erb & Ebs). 
  assert (Hm : exists t1 rt nte, targeter_ok t1 /\ match status with
      | OK batches => (t, ex_refreshedTargeter st, st_numTargetErrors (ex_stats st), batches)
      | NotOK _ => (noteCouldNotTarget t, true, st_numTargetErrors (ex_stats st) + 1, ∅) end = (t1, rt, nte, batches)).
  { destruct status; rewrite Ebs; [|pose proof (noteCouldNotTarget_ok t Ht)]; eauto 10. }
  destruct Hm as (t1 & rt & nte & Ht1 & Em). clear Ebs.
  assert (Hsz : sizeWriteOps rq = List.length (bw_writeOps b)).
  { rewrite (td_size _ Htd). symmetry. apply (sn_tracks _ _ _ _ _ Hs). }
  destruct (send_ok rq txnNumber Hids _ _ _ batches Hsz Hs env b t1 (st_numStaleBatches (ex_stats st)) Henv Ht1 eq_refl)
    as (b' & t' & n' & Esend & Ht' & Hd). 
  assert (Esends : exists stats, round_sends rq txnNumber env st = Ret (b', t', rt, stats)).
  { unfold round_sends. rewrite Etb. cbn [obind]. rewrite Em. unfold unsent in Esend. rewrite Esend. cbn [obind]. by eexists. }
  destruct Esends as [stats Esends]. unfold exec_round. rewrite Esends. cbn [obind].
  pose proof (round_tidy _ _ _ _ _ _ Htd Hs Hd) as Htd'. pose proof (round_keeps _ _ _ _ _ _ Htd Hs Hd) as Hk'.
  assert (Hsh' : rq_ordered rq = true -> ordered_shape (bw_writeOps b')).
  { intros Ho. destruct (shape_running rq _ Ho (en_shape _ He Ho) Hf) as [a Ha].
    apply (round_ordered _ _ _ _ _ _ Htd Hs Hd Hids Ho a Ha). intros s x req _ _. by apply Hstop. }
  assert (Hsent := sent_ready _ _ _ _ Htd Hs). assert (Hack := acked_final _ _ _ _ _ _ Htd Hs Hd). 
  assert (Hcomp := completed_acked _ _ _ _ _ _ Hs Hd). rewrite <- Erb in Hsent, Hack, Hcomp.
  destruct (isFinished rq b') eqn:Ef.
  { eexists _, true. split; [reflexivity|]. split; [by split|..]; try done. intros; by eapply Hcomp. }
  destruct (ge_refresh _ Henv t' Ht') as (t2 & rs & changed & Eref & Ht2). rewrite Eref. cbn [obind fst].
  destruct (Z.ltb_spec kMaxRoundsWithoutProgress (if (numWriteOpsIn WriteOpState_Completed b' =? ex_numCompletedOps st) && negb changed
      then ex_numRoundsWithoutProgress st + 1 else 0)) as [Hlt|Hle].
  - destruct (abort_ok b' (errorFromStatus NoProgressMade) Htd' Hsh' Ef) as (H1 & H2 & H3 & H4).
    eexists _, true. split; [reflexivity|]. split; [by split|..]; cbn [ex_batch ex_rounds]; try done.
    + by eapply keeps_final_trans.
    + intros s x req w Hb Hr Hw. destruct (Hack s x req w Hb Hr Hw) as (op & Hop & Hfin). exists op. split; [|done]. by apply H2.
    + intros i op op' Hop Hop' Hc. destruct (abort_lookup _ _ _ _ _ _ Hop') as (x & Hx & [->|[_ ->]]); [by eapply Hcomp|done].
  - eexists _, false. split; [reflexivity|]. split; [by split|..]; cbn [ex_batch ex_rounds]; try done; [intros; by eapply Hcomp|]. intros _.
    unfold completed. cbn [ex_numCompletedOps ex_batch ex_numRoundsWithoutProgress]. split; [done|]. split; [done|].
    destruct (Z.eqb_spec (numWriteOpsIn WriteOpState_Completed b') (ex_numCompletedOps st)) as [E|E]; cbn [andb]; [|auto].
    destruct changed; cbn [negb]; [|by left]. right. split; [done|]. right. unfold reports_change. eauto 10.
Qed.

(** * The whole execution *)

Section loop.
Context (env : nat -> RoundEnv (T:=T)) (Henv : forall k, good_env (env k)).
Context (Hstop : rq_ordered rq = true -> forall k, shards_stop (env k)).

(** The rounds of an execution. *)
Definition round_step (st st' : ExecState (T:=T)) : Prop :=
  isFinished rq (ex_batch st) = false /\ exec_round rq txnNumber (env (ex_rounds st)) st = Ret (st', false).
Definition rounds_after : relation (ExecState (T:=T)) := rtc round_step.

(** From round [K] on, refreshing finds nothing new. *)
Definition settled_after (K : nat) (st0 : ExecState (T:=T)) : Prop :=
  forall st, rounds_after st0 st -> (K <= ex_rounds st)%nat -> ~ reports_change (env (ex_rounds st)) st.

Record running (st : ExecState (T:=T)) : Prop := {
  ru_ended : ended st;
  ru_count : ex_numCompletedOps st = completed st;
  ru_progress : ex_numRoundsWithoutProgress st <= kMaxRoundsWithoutProgress
}.

Definition rounds_left (K : nat) (st : ExecState (T:=T)) : Z :=
  6 * Z.max 0 (Z.of_nat K - Z.of_nat (ex_rounds st)) + 6 * (Z.of_nat (sizeWriteOps rq) - completed st) +
  (kMaxRoundsWithoutProgress - ex_numRoundsWithoutProgress st).

Lemma completed_le st : ended st -> completed st <= Z.of_nat (sizeWriteOps rq).
Proof.
  intros He. rewrite (td_size _ (en_tidy _ He)). unfold completed, numWriteOpsIn.
  generalize (bw_writeOps (ex_batch st)). intros ops. induction ops as [|op ops IH]; [done|]. cbn [List.filter].
  destruct (bool_decide _); simpl; lia.
Qed.

Lemma completed_mono st st' :
  keeps_final (bw_writeOps (ex_batch st)) (bw_writeOps (ex_batch st')) -> completed st <= completed st'.
Proof. intros Hk%keeps_completed. unfold completed, numWriteOpsIn. lia. Qed.

Lemma round_goes_on st st' :
  running st -> round_ok (env (ex_rounds st)) st st' false -> running st' /\
  forall K, ((K <= ex_rounds st)%nat -> ~ reports_change (env (ex_rounds st)) st) -> rounds_left K st' < rounds_left K st.
Proof.
  intros Hr Hro. destruct (ro_go _ _ _ _ Hro eq_refl) as (Hc & Hp & Hcase). split; [split; [apply Hro|done|done]|].
  intros K HK. unfold rounds_left. rewrite (ro_rounds _ _ _ _ Hro).
  pose proof (completed_mono st st' (ro_keeps _ _ _ _ Hro)). pose proof (ru_count _ Hr). pose proof (ru_progress _ Hr).
  unfold kMaxRoundsWithoutProgress in *. destruct Hcase as [?|[? [?|Hch]]]; [lia|lia|].
  destruct (decide (K <= ex_rounds st)%nat) as [Hle|]; [|lia]. by destruct (HK Hle).
Qed.

Lemma exec_loop_ok K st0 fuel : forall st,
  settled_after K st0 -> rounds_after st0 st -> running st -> rounds_left K st < Z.of_nat fuel ->
  exists st', exec_loop rq txnNumber fuel env st = Ret st' /\ ended st' /\ isFinished rq (ex_batch st') = true.
Proof.
  induction fuel as [|fuel IH]; intros st HK Hst Hr Hfu.
  - exfalso. pose proof (completed_le st (ru_ended _ Hr)). pose proof (ru_progress _ Hr). unfold rounds_left in Hfu. lia.
  - cbn [exec_loop]. destruct (isFinished rq (ex_batch st)) eqn:Ef; [exists st; split; [done|]; split; [apply Hr|done]|].
    destruct (exec_round_ok (env (ex_rounds st)) st) as (st' & stop & Er & Hro);
      [apply Hr|done|apply Henv|intros Ho; by apply Hstop|]. rewrite Er. cbn [obind]. destruct stop.
    + exists st'. split; [done|]. split; [apply Hro|by apply (ro_stop _ _ _ _ Hro)].
    + destruct (round_goes_on st st' Hr Hro) as [Hr' Hlt]. apply IH; [done| |done|].
      * eapply rtc_r; [exact Hst|]. by split.
      * specialize (Hlt K (HK st Hst)). lia.
Qed.

Definition initial (t : T) (stats : BatchWriteExecStats) : ExecState (T:=T) := mkExec (newBatchWriteOp rq) t false 0 0 0 stats.

Lemma initial_lookup t stats i op : bw_writeOps (ex_batch (initial t stats)) !! i = Some op -> op = newWriteOp.
Proof. cbn. by intros [-> _]%lookup_replicate. Qed.

Lemma initial_running t stats : targeter_ok t -> running (initial t stats).
Proof.
  intros Ht. split; [split; [done|split|]| |done].
  - cbn. by rewrite length_replicate.
  - intros i op ->%initial_lookup. by split; [|left].
  - intros i op ->%initial_lookup. by apply idx_ok_done.
  - intros _. exists 0%nat. intros j op ->%initial_lookup. destruct j; [right; left; auto|right; right; split; [lia|done]].
  - unfold completed, numWriteOpsIn. cbn. induction (sizeWriteOps rq); [done|]. done.
Qed.

Lemma initial_rounds K t stats : rounds_left K (initial t stats) < 6 * Z.of_nat (K + sizeWriteOps rq + 1).
Proof.
  unfold rounds_left, completed, numWriteOpsIn, kMaxRoundsWithoutProgress, initial.
  cbn [ex_rounds ex_numRoundsWithoutProgress]. lia.
Qed.

(** ** The errors of the answer *)

Fixpoint error_indexes (i : nat) (ops : list WriteOp) : list Z :=
  match ops with
  | [] => []
  | op :: ops => (if bool_decide (wo_state op = WriteOpState_Error) then [Z.of_nat i] else []) ++ error_indexes (S i) ops
  end.

Lemma op_errors_ok ops : (forall i op, ops !! i = Some op -> quiet op) -> forall k,
  (forall i op, ops !! i = Some op -> idx_ok (k + i) op) ->
  exists errs, op_errors ops = Ret errs /\ we_index <$> errs = error_indexes k ops.
Proof.
  intros Hq k Hi. unfold op_errors.
  assert (Hall : forall acc, exists errs, ofold (fun acc op =>
      if bool_decide (wo_state op = WriteOpState_Error)
      then match wo_error op with Some e => Ret (acc ++ [e]) | None => Undef end else Ret acc) acc ops = Ret (acc ++ errs) /\
      we_index <$> errs = error_indexes k ops); [|apply (Hall [])].
  revert k Hi. induction ops as [|op ops IH]; intros k Hi acc; cbn [ofold error_indexes]; [exists []; by rewrite app_nil_r|].
  specialize (IH (fun i x Hx => Hq (S i) x Hx) (S k)). pose proof (Hi 0%nat op eq_refl) as [Hi0 _]. rewrite Nat.add_0_r in Hi0.
  assert (Hi' : forall i x, ops !! i = Some x -> idx_ok (S k + i) x).
  { intros i x Hx. rewrite Nat.add_succ_comm. by apply Hi. }
  destruct (bool_decide_reflect (wo_state op = WriteOpState_Error)) as [E|E]; cbn [obind].
  - destruct (Hq 0%nat op eq_refl) as [_ [?|[?|[_ [e He]]]]]; [congruence..|]. rewrite He. cbn [obind].
    destruct (IH Hi' (acc ++ [e])) as (errs & -> & Hx). exists (e :: errs). rewrite <- app_assoc. split; [done|].
    cbn. by rewrite Hx, (Hi0 E e He).
  - destruct (IH Hi' acc) as (errs & -> & Hx). by exists errs.
Qed.

Lemma response_ok st : ended st ->
  exists resp, buildClientResponse rq (ex_batch st) = Ret resp /\
    (isVerboseWC rq = true -> we_index <$> default [] (rs_errDetails resp) = error_indexes 0 (bw_writeOps (ex_batch st))).
Proof.
  intros He. unfold buildClientResponse. destruct (isVerboseWC rq); cbn [negb]; [|by eexists].
  destruct (op_errors_ok (bw_writeOps (ex_batch st))) with (k := 0%nat) as (errs & -> & Hx); [apply He..|]. cbn [obind].
  eexists. split; [reflexivity|]. intros _. cbn. by destruct errs.
Qed.
End loop.
End round.
