(* ===== verification/Targeter.v ===== *)
(** The targeter of a batch of writes (s/commands/chunk_manager_targeter.cpp):
    the shards that an insert, an update or a delete goes to, what is noted about
    failures to target and stale answers, and the refresh they cause.

    Parsing and planning a query is a parameter ([QueryEngine]), as are the
    shards of the registry and the routing information that the catalog cache
    hands out.  Error messages are not modelled. *)

From stdpp Require Import base list strings gmap sorting.
From Stdlib Require Import ZArith Lia Ascii String.
From S2P Require Import Prelude OrdMap Tiling Bson ChunkVersion ChunkType ShardKey Chunk ChunkManager ConfigChunks.
From S2P Require Import CatalogCache WriteOps BatchTarget BatchExec BatchRounds.
Local Open Scope string_scope.
Local Open Scope Z_scope.
Local Open Scope list_scope.
Local Open Scope outcome_scope.

(** What the targeter asks of the query system: [canonicalize] of a namespace, a
    filter and a collation (empty if not set), with [$expr] allowed or not; the
    equalities of a query on a set of paths, unless they conflict; and the index
    bounds on a key pattern. *)
Record QueryEngine := mkEngine {
  CanonicalQuery : Type;
  canonicalize : string -> BSONObj -> BSONObj -> bool -> StatusWith CanonicalQuery;
  getCollator : CanonicalQuery -> option BSONObj;
  hasGeoNear : CanonicalQuery -> bool;
  extractFullEqualityMatches : CanonicalQuery -> list (list string) -> option (list string -> option BSONValue);
  getIndexBoundsForQuery : KeyPattern -> CanonicalQuery -> IndexBounds;
  collatorsMatch : option BSONObj -> option BSONObj -> bool;
  hash64 : BSONValue -> Int64
}.

Inductive UpdateType := UpdateType_Replacement | UpdateType_OpStyle | UpdateType_Unknown.
Inductive CompareResult := CompareResult_Unknown | CompareResult_GTE | CompareResult_LT.

Definition virtualIdShardKey : ShardKeyPattern := mkSKP [("_id", VInt (mkInt32 1 eq_refl))] [["_id"]].

Definition dollar_field (name : string) : bool :=
  match name with String c _ => Ascii.eqb c "$"%char | EmptyString => false end.

(** The loop of [getUpdateExprType]. *)
Fixpoint update_type_loop (updateType : UpdateType) (fields : BSONObj) : UpdateType :=
  match fields with
  | [] => updateType
  | next :: fields =>
      match dollar_field next.1, updateType with
      | true, UpdateType_Unknown => update_type_loop UpdateType_OpStyle fields
      | true, UpdateType_Replacement => UpdateType_Unknown
      | false, UpdateType_Unknown => update_type_loop UpdateType_Replacement fields
      | false, UpdateType_OpStyle => UpdateType_Unknown
      | _, _ => update_type_loop updateType fields
      end
  end.

Definition getUpdateExprType (updateExpr : BSONObj) : UpdateType :=
  match updateExpr with
  | [] => UpdateType_Replacement
  | _ => update_type_loop UpdateType_Unknown updateExpr
  end.

(** * Comparing versions *)

Definition compareShardVersions (shardVersionA shardVersionB : ChunkVersion) : CompareResult :=
  if negb (hasEqualEpoch shardVersionA shardVersionB) then CompareResult_Unknown
  else if negb (isSet shardVersionA) || negb (isSet shardVersionB) then
    if negb (isSet shardVersionA) && negb (isSet shardVersionB) then CompareResult_GTE else CompareResult_Unknown
  else if version_lt shardVersionA shardVersionB then CompareResult_LT
  else CompareResult_GTE.

Definition getShardVersion (routingInfo : CachedCollectionRoutingInfo) (shardId : ShardId) : ChunkVersion :=
  match cri_cm routingInfo with Some cm => getVersion cm shardId | None => UNSHARDED end.

(** The loop of [compareAllShardVersions]. *)
Fixpoint compare_loop (routingInfo : CachedCollectionRoutingInfo) (finalResult : CompareResult)
    (remoteShardVersions : list (ShardId * ChunkVersion)) : CompareResult :=
  match remoteShardVersions with
  | [] => finalResult
  | (shardId, remoteShardVersion) :: rest =>
      match compareShardVersions (getShardVersion routingInfo shardId) remoteShardVersion with
      | CompareResult_Unknown => CompareResult_Unknown
      | CompareResult_LT => compare_loop routingInfo CompareResult_LT rest
      | CompareResult_GTE => compare_loop routingInfo finalResult rest
      end
  end.
Definition compareAllShardVersions (routingInfo : CachedCollectionRoutingInfo)
    (remoteShardVersions : list (ShardId * ChunkVersion)) : CompareResult :=
  compare_loop routingInfo CompareResult_GTE remoteShardVersions.

(** The routing table and primary of two infos. *)
Definition isMetadataDifferent (a b : CachedCollectionRoutingInfo) : Outcome bool :=
  if xorb (isSome (cri_cm a)) (isSome (cri_cm b)) || xorb (cri_primary a) (cri_primary b) then Ret true
  else
    match cri_cm a, cri_cm b with
    | Some managerA, Some managerB =>
        Ret (negb (isStrictlyEqualTo (cm_collectionVersion managerA) (cm_collectionVersion managerB)))
    | _, _ =>
        if cri_primary a then Ret (negb (String.eqb (cri_primaryId a) (cri_primaryId b))) else Undef
    end.

Definition wasMetadataRefreshed (a b : CachedCollectionRoutingInfo) : Outcome bool :=
  let* different := isMetadataDifferent a b in
  if (different : bool) then Ret true
  else
    match cri_cm a, cri_cm b with
    | Some managerA, Some managerB => Ret (negb (cm_sequenceNumber managerA =? cm_sequenceNumber managerB))
    | Some _, None => Undef
    | None, _ => Ret false
    end.

Module ChunkManagerTargeter.

(** [routingInfo] is empty until [init]; the last two fields are the counters of
    the server status. *)
Record State := mkState {
  _nss : string;
  _needsTargetingRefresh : bool;
  chunkSizeDelta : list (BSONObj * Z);
  _routingInfo : option CachedCollectionRoutingInfo;
  _remoteShardVersions : list (ShardId * ChunkVersion);
  upsertReplacementCannotTargetByQueryCount : Z;
  updateOneOpStyleBroadcastWithExactIDCount : Z
}.

Definition new (nss : string) : State := mkState nss false [] None [] 0 0.

Definition set_delta (m : list (BSONObj * Z)) (t : State) : State :=
  mkState (_nss t) (_needsTargetingRefresh t) m (_routingInfo t) (_remoteShardVersions t)
    (upsertReplacementCannotTargetByQueryCount t) (updateOneOpStyleBroadcastWithExactIDCount t).
Definition set_info (i : CachedCollectionRoutingInfo) (t : State) : State :=
  mkState (_nss t) (_needsTargetingRefresh t) (chunkSizeDelta t) (Some i) (_remoteShardVersions t)
    (upsertReplacementCannotTargetByQueryCount t) (updateOneOpStyleBroadcastWithExactIDCount t).
Definition set_needs (b : bool) (t : State) : State :=
  mkState (_nss t) b (chunkSizeDelta t) (_routingInfo t) (_remoteShardVersions t)
    (upsertReplacementCannotTargetByQueryCount t) (updateOneOpStyleBroadcastWithExactIDCount t).
Definition set_remote (m : list (ShardId * ChunkVersion)) (t : State) : State :=
  mkState (_nss t) (_needsTargetingRefresh t) (chunkSizeDelta t) (_routingInfo t) m
    (upsertReplacementCannotTargetByQueryCount t) (updateOneOpStyleBroadcastWithExactIDCount t).
Definition count_upsert (n : Z) (t : State) : State :=
  mkState (_nss t) (_needsTargetingRefresh t) (chunkSizeDelta t) (_routingInfo t) (_remoteShardVersions t)
    (upsertReplacementCannotTargetByQueryCount t + n) (updateOneOpStyleBroadcastWithExactIDCount t).
Definition count_broadcast (n : Z) (t : State) : State :=
  mkState (_nss t) (_needsTargetingRefresh t) (chunkSizeDelta t) (_routingInfo t) (_remoteShardVersions t)
    (upsertReplacementCannotTargetByQueryCount t) (updateOneOpStyleBroadcastWithExactIDCount t + n).

(** [*_routingInfo] *)
Definition routing (t : State) : Outcome CachedCollectionRoutingInfo :=
  match _routingInfo t with Some i => Ret i | None => Undef end.

(** [init] with the result of the catalog cache. *)
Definition init (routingInfoStatus : StatusWith CachedCollectionRoutingInfo) (t : State) : State * StatusWith unit :=
  match routingInfoStatus with OK i => (set_info i t, OK ()) | NotOK e => (t, NotOK e) end.

Section targeter.
Context (E : QueryEngine) (registryShardIds : list ShardId).

(** * Shard keys of queries *)

(** [ShardKeyPattern::extractShardKeyFromQuery] *)
Fixpoint query_key_loop (p : ShardKeyPattern) (equality : list string -> option BSONValue) (pattern : KeyPattern)
    : option BSONObj :=
  match pattern with
  | [] => Some []
  | (n, _) :: pattern =>
      match equality (FieldRef_parts n) with
      | None => None
      | Some v =>
          if negb (isValidShardKeyElementForStorage v) then None
          else
            rest ← query_key_loop p equality pattern;
            Some ((n, if isHashedPattern p then VLong (hash64 E v) else v) :: rest)
      end
  end.
Definition extractShardKeyFromCanonicalQuery (p : ShardKeyPattern) (cq : CanonicalQuery E) : BSONObj :=
  match extractFullEqualityMatches E cq (skp_paths p) with
  | None => []
  | Some equality => default [] (query_key_loop p equality (skp_pattern p))
  end.
Definition extractShardKeyFromQuery (p : ShardKeyPattern) (basicQuery : BSONObj) : StatusWith BSONObj :=
  match canonicalize E "" basicQuery [] true with
  | NotOK e => NotOK e
  | OK cq => OK (extractShardKeyFromCanonicalQuery p cq)
  end.

Definition isExactIdQuery (collation : BSONObj) (cq : CanonicalQuery E) (manager : ChunkManager) : bool :=
  match getField (extractShardKeyFromCanonicalQuery virtualIdShardKey cq) "_id" with
  | None => false
  | Some idElt =>
      negb (isCollatableType idElt && negb (bool_decide (List.length collation = 0%nat)) &&
            negb (collatorsMatch E (getCollator E cq) (cm_defaultCollator manager)))
  end.

(** [ChunkManager::getShardIdsForQuery] from the text of the query. *)
Definition getShardIdsForQueryText (cm : ChunkManager) (query collation : BSONObj) : Outcome (gset ShardId) :=
  let queryCollation := match collation with [] => default [] (cm_defaultCollator cm) | _ => collation end in
  match canonicalize E (cm_nss cm) query queryCollation true with
  | NotOK e => Throw e
  | OK cq =>
      uassert (Location 13501) (negb (hasGeoNear E cq)) ;*
      getShardIdsForQuery cm (extractShardKeyFromCanonicalQuery (cm_shardKeyPattern cm) cq)
        (getIndexBoundsForQuery E (skp_pattern (cm_shardKeyPattern cm)) cq) collation ∅
  end.

(** * Targeting *)

(** A [std::set] of shards in its order. *)
Definition shard_le (a b : ShardId) : Prop := slex a b <> Gt.
#[local] Instance shard_le_dec : RelDecision shard_le.
Proof. intros a b. unfold shard_le. destruct (slex a b); [by left|by left|right; by intros H; apply H]. Defined.
Definition in_set_order (ids : gset ShardId) : list ShardId := merge_sort shard_le (elements ids).

Definition endpoints_of (info : CachedCollectionRoutingInfo) (shardIds : list ShardId) : list ShardEndpoint :=
  (fun s => mkEndpoint s (getShardVersion info s)) <$> shardIds.

Definition hasMetadata (info : CachedCollectionRoutingInfo) : bool := cri_primary info || isSome (cri_cm info).

Definition _targetQuery (query collation : BSONObj) (t : State) : Outcome (StatusWith (list ShardEndpoint)) :=
  let* info := routing t in
  if negb (hasMetadata info) then Ret (NotOK NamespaceNotFound)
  else
    let* shardIds :=
      match cri_cm info with
      | Some cm => as_status (getShardIdsForQueryText cm query collation)
      | None => Ret (OK {[ cri_primaryId info ]})
      end in
    if_ok shardIds (fun shardIds => Ret (OK (endpoints_of info (in_set_order shardIds)))).

Definition _targetDoc (doc collation : BSONObj) (t : State) : Outcome (StatusWith (list ShardEndpoint)) :=
  _targetQuery doc collation t.

(** [_stats->chunkSizeDelta[min] += estDataSize] *)
Definition add_delta (k : BSONObj) (estDataSize : Z) (t : State) : State :=
  set_delta (map_assign k (s32 (default 0 (map_get k (chunkSizeDelta t)) + estDataSize)) (chunkSizeDelta t)) t.

Definition _targetShardKey (cm : ChunkManager) (shardKey collation : BSONObj) (estDataSize : Z) (t : State)
    : Outcome (State * ShardEndpoint) :=
  let* chunk := findIntersectingChunk cm shardKey collation in
  let t := if 0 <? estDataSize then add_delta (Chunk.getMin chunk) estDataSize t else t in
  Ret (t, mkEndpoint (getShardId chunk) (getVersion cm (getShardId chunk))).

(** The shard key of an insert; empty for a collection that is not sharded. *)
Definition insert_key (info : CachedCollectionRoutingInfo) (doc : BSONObj) : Outcome (StatusWith BSONObj) :=
  match cri_cm info with
  | None => Ret (OK [])
  | Some cm =>
      match extractShardKeyFromDoc (hash64 E) (cm_shardKeyPattern cm) doc with
      | [] => Ret (NotOK ShardKeyNotFound)
      | shardKey =>
          let* status := as_status (checkShardKeySize shardKey) in
          if_ok status (fun _ => Ret (OK shardKey))
      end
  end.

Definition targetInsert (doc : BSONObj) (t : State) : Outcome (State * StatusWith ShardEndpoint) :=
  let* info := routing t in
  let* swKey := insert_key info doc in
  match swKey with
  | NotOK e => Ret (t, NotOK e)
  | OK shardKey =>
      match shardKey, cri_cm info with
      | _ :: _, Some cm =>
          let* (t, endpoint) := _targetShardKey cm shardKey kSimpleSpec (objsize doc) t in Ret (t, OK endpoint)
      | _ :: _, None => Undef
      | [], _ =>
          if negb (cri_primary info) then Ret (t, NotOK NamespaceNotFound)
          else Ret (t, OK (mkEndpoint (cri_primaryId info) UNSHARDED))
      end
  end.

Definition update_key (info : CachedCollectionRoutingInfo) (u : UpdateOpEntry) (updateType : UpdateType)
    : Outcome (StatusWith BSONObj) :=
  match cri_cm info with
  | None => Ret (OK [])
  | Some cm =>
      if_ok (match updateType with
             | UpdateType_OpStyle => extractShardKeyFromQuery (cm_shardKeyPattern cm) (upd_q u)
             | _ => OK (extractShardKeyFromDoc (hash64 E) (cm_shardKeyPattern cm) (upd_u u))
             end)
        (fun shardKey =>
           if upd_upsert u then
             let* status := as_status (checkShardKeySize shardKey) in
             if_ok status (fun _ => Ret (OK shardKey))
           else Ret (OK shardKey))
  end.

Definition collationOf (c : option BSONObj) : BSONObj := default [] c.

(** The part of [targetUpdate] after "We failed to target a single shard". *)
Definition update_by_query (info : CachedCollectionRoutingInfo) (u : UpdateOpEntry) (updateType : UpdateType) (t : State)
    : Outcome (State * StatusWith (list ShardEndpoint)) :=
  let collation := collationOf (upd_collation u) in
  if isSome (cri_cm info) && upd_upsert u then Ret (t, NotOK ShardKeyNotFound)
  else
    match canonicalize E (_nss t) (upd_q u) collation (negb (upd_upsert u)) with
    | NotOK e => Ret (t, NotOK e)
    | OK cq =>
        if match cri_cm info with
           | Some cm => negb (upd_multi u) && negb (isExactIdQuery collation cq cm)
           | None => false
           end
        then Ret (t, NotOK ShardKeyNotFound)
        else
          match updateType with
          | UpdateType_OpStyle =>
              let t := if isSome (cri_cm info) && negb (upd_multi u) then count_broadcast 1 t else t in
              let* r := _targetQuery (upd_q u) collation t in Ret (t, r)
          | _ => let* r := _targetDoc (upd_u u) collation t in Ret (t, r)
          end
    end.

(** By the shard key if there is one, else by the query. *)
Definition update_shards (info : CachedCollectionRoutingInfo) (u : UpdateOpEntry) (updateType : UpdateType) (t : State)
    : Outcome (State * StatusWith (list ShardEndpoint)) :=
  let* swKey := update_key info u updateType in
  match swKey with
  | NotOK e => Ret (t, NotOK e)
  | OK shardKey =>
      match shardKey, cri_cm info with
      | _ :: _, Some cm =>
          match _targetShardKey cm shardKey (collationOf (upd_collation u)) (objsize (upd_q u) + objsize (upd_u u)) t with
          | Ret (t, targetShard) =>
              let t :=
                match updateType, extractShardKeyFromQuery (cm_shardKeyPattern cm) (upd_q u) with
                | UpdateType_Replacement, OK [] => if upd_upsert u then count_upsert 1 t else t
                | _, _ => t
                end in
              Ret (t, OK [targetShard])
          | Throw _ => update_by_query info u updateType t
          | Abort => Abort
          | Undef => Undef
          end
      | _ :: _, None => Undef
      | [], _ => update_by_query info u updateType t
      end
  end.

Definition targetUpdate (u : UpdateOpEntry) (t : State) : Outcome (State * StatusWith (list ShardEndpoint)) :=
  match getUpdateExprType (upd_u u) with
  | UpdateType_Unknown => Ret (t, NotOK UnsupportedFormat)
  | updateType => let* info := routing t in update_shards info u updateType t
  end.

Definition delete_by_query (info : CachedCollectionRoutingInfo) (d : DeleteOpEntry) (t : State)
    : Outcome (State * StatusWith (list ShardEndpoint)) :=
  let collation := collationOf (del_collation d) in
  match canonicalize E (_nss t) (del_q d) collation true with
  | NotOK e => Ret (t, NotOK e)
  | OK cq =>
      if match cri_cm info with
         | Some cm => negb (del_multi d) && negb (isExactIdQuery collation cq cm)
         | None => false
         end
      then Ret (t, NotOK ShardKeyNotFound)
      else let* r := _targetQuery (del_q d) collation t in Ret (t, r)
  end.

Definition targetDelete (d : DeleteOpEntry) (t : State) : Outcome (State * StatusWith (list ShardEndpoint)) :=
  let* info := routing t in
  match (match cri_cm info with
         | None => OK []
         | Some cm => extractShardKeyFromQuery (cm_shardKeyPattern cm) (del_q d)
         end) with
  | NotOK e => Ret (t, NotOK e)
  | OK shardKey =>
      match shardKey, cri_cm info with
      | _ :: _, Some cm =>
          match _targetShardKey cm shardKey (collationOf (del_collation d)) 0 t with
          | Ret (t, targetShard) => Ret (t, OK [targetShard])
          | Throw _ => delete_by_query info d t
          | Abort => Abort
          | Undef => Undef
          end
      | _ :: _, None => Undef
      | [], _ => delete_by_query info d t
      end
  end.

Definition targetCollection (t : State) : Outcome (State * StatusWith (list ShardEndpoint)) :=
  let* info := routing t in
  if negb (hasMetadata info) then Ret (t, NotOK NamespaceNotFound)
  else
    let shardIds := match cri_cm info with Some cm => getAllShardIds cm | None => {[ cri_primaryId info ]} end in
    Ret (t, OK (endpoints_of info (in_set_order shardIds))).

Definition targetAllShards (t : State) : Outcome (State * StatusWith (list ShardEndpoint)) :=
  let* info := routing t in
  if negb (hasMetadata info) then Ret (t, NotOK NamespaceNotFound)
  else Ret (t, OK (endpoints_of info registryShardIds)).
End targeter.

(** * Failures and refreshes *)

Definition noteCouldNotTarget (t : State) : State := set_needs true t.

Definition noteStaleResponse (endpoint : ShardEndpoint) (staleInfo : BSONObj) (t : State) : Outcome State :=
  let* remoteShardVersion :=
    match getField staleInfo "vWanted" with
    | None => let* info := routing t in incMajor (getShardVersion info (shardName endpoint))
    | Some _ => Ret (fromBSON_obj staleInfo "vWanted").1
    end in
  let assign v := set_remote (map_assign (shardName endpoint) v (_remoteShardVersions t)) t in
  Ret match map_get (shardName endpoint) (_remoteShardVersions t) with
      | None => assign remoteShardVersion
      | Some previouslyNotedVersion =>
          if hasEqualEpoch previouslyNotedVersion remoteShardVersion then
            if isOlderThan previouslyNotedVersion remoteShardVersion then assign remoteShardVersion else t
          else assign IGNORED
      end.

(** [_refreshNow]; [reload] is the result of the catalog cache once it is told
    that the given info is stale. *)
Definition _refreshNow (reload : CachedCollectionRoutingInfo -> StatusWith CachedCollectionRoutingInfo) (t : State)
    : Outcome (State * StatusWith unit) :=
  let* info := routing t in Ret (init (reload info) t).

(** [cached] is what the catalog cache has at the call; the boolean of the result
    is [*wasChanged]. *)
Definition refreshIfNeeded (cached : StatusWith CachedCollectionRoutingInfo)
    (reload : CachedCollectionRoutingInfo -> StatusWith CachedCollectionRoutingInfo) (t : State)
    : Outcome (State * StatusWith unit * bool) :=
  if negb (_needsTargetingRefresh t) && bool_decide (List.length (_remoteShardVersions t) = 0%nat) then Ret (t, OK (), false)
  else
    let* last := routing t in
    let '(t, initStatus) := init cached t in
    match initStatus with
    | NotOK e => Ret (t, NotOK e, false)
    | OK _ =>
        let* info := routing t in
        if _needsTargetingRefresh t then
          let t := set_needs false t in
          let* alreadyRefreshed := wasMetadataRefreshed last info in
          if negb alreadyRefreshed then let* (t, status) := _refreshNow reload t in Ret (t, status, false)
          else let* wasChanged := isMetadataDifferent last info in Ret (t, OK (), wasChanged)
        else
          let result := compareAllShardVersions info (_remoteShardVersions t) in
          let t := set_remote [] t in
          match result with
          | CompareResult_Unknown | CompareResult_LT =>
              let* (t, status) := _refreshNow reload t in Ret (t, status, false)
          | CompareResult_GTE => let* wasChanged := isMetadataDifferent last info in Ret (t, OK (), wasChanged)
          end
    end.

Definition targeter (E : QueryEngine) (registryShardIds : list ShardId) : NSTargeter State := {|
  WriteOps.targetInsert := targetInsert E;
  WriteOps.targetUpdate := targetUpdate E;
  WriteOps.targetDelete := targetDelete E;
  WriteOps.targetCollection := targetCollection;
  WriteOps.targetAllShards := targetAllShards registryShardIds;
  WriteOps.noteCouldNotTarget := noteCouldNotTarget;
  WriteOps.noteStaleResponse := noteStaleResponse
|}.

(** * The targeter keeps the promises of its interface *)

(** The planner gives bounds for every field of the key. *)
Definition engine_ok (E : QueryEngine) : Prop :=
  forall kp cq, List.length (getIndexBoundsForQuery E kp cq) = List.length kp.

(** The chunks cover the keys of the documents to insert. *)
Definition covers (E : QueryEngine) (docs : BSONObj -> Prop) (cm : ChunkManager) : Prop :=
  exists lo hi, tiling Chunk.getMin lo (cm_chunkMap cm) hi /\
    forall doc, docs doc -> let k := extractShardKeyFromDoc (hash64 E) (cm_shardKeyPattern cm) doc in k = [] \/ lo ≼ k /\ k ≺ hi.

Definition info_ok (E : QueryEngine) (docs : BSONObj -> Prop) (info : CachedCollectionRoutingInfo) : Prop :=
  match cri_cm info with
  | None => cri_primary info = true
  | Some cm => reachable cm /\ covers E docs cm /\ forall s, majorVersion (getVersion cm s) <> 4294967295
  end.

Definition state_ok (E : QueryEngine) (docs : BSONObj -> Prop) (t : State) : Prop :=
  exists info, _routingInfo t = Some info /\ info_ok E docs info.

Lemma bounds_flatten p bounds :
  List.length bounds = List.length (skp_pattern p) ->
  (exists l, flattenBounds p bounds = Ret l) \/ exists e, flattenBounds p bounds = Throw e.
Proof.
  intros Hl. unfold flattenBounds. rewrite Hl, Nat.eqb_refl. cbn [invariant obind].
  destruct (forallb _ bounds) eqn:Hb; [|eauto]. clear Hl.
  assert (Hf : forall l st, Forall (fun x : string * list Interval => x.2 <> []) l ->
    (exists st', ofold flatten_step st l = Ret st') \/ exists e, ofold flatten_step st l = Throw e).
  { induction l as [|[n ivs] l IH]; intros [bs eq] Hne; cbn [ofold]; [eauto|]. apply Forall_cons in Hne as [Hx Hne].
    cbn in Hx. unfold flatten_step at 1 3. destruct ivs as [|i ivs]; [done|]. destruct eq.
    - destruct (_ && _); cbn [obind]; [by apply IH|]. unfold uassert. destruct (_ <=? _); cbn [obind]; [by apply IH|eauto].
    - cbn [obind]. by apply IH. }
  destruct (Hf (zip (skp_pattern p).*1 bounds) ([([], [])], true)) as [[st ->]|[e ->]]; cbn [obind]; eauto.
  apply Forall_forall. intros [n ivs] Hin%elem_of_zip_r. apply list_elem_of_In in Hin. rewrite List.forallb_forall in Hb.
  specialize (Hb ivs Hin). by destruct ivs.
Qed.

Lemma ranges_loop_total cm ranges : forall ids,
  (exists ids', ranges_loop cm ranges ids = Ret ids') \/ exists e, ranges_loop cm ranges ids = Throw e.
Proof.
  induction ranges as [|[mn mx] ranges IH]; intros ids; cbn [ranges_loop]; [eauto|].
  unfold getShardIdsForRange, uassert. destruct (_ <=? _); cbn [obind]; [|eauto]. destruct (_ =? _)%nat; eauto.
Qed.

Lemma query_total cm key bounds coll :
  reachable cm -> List.length bounds = List.length (skp_pattern (cm_shardKeyPattern cm)) ->
  (exists ids, getShardIdsForQuery cm key bounds coll ∅ = Ret ids /\ ids <> ∅) \/
  exists e, getShardIdsForQuery cm key bounds coll ∅ = Throw e.
Proof.
  intros Hr Hl. destruct (reachable_ok cm Hr) as [Hok Hv].
  assert (Hslow : (exists ids, query_slow_path cm bounds ∅ = Ret ids /\ ids <> ∅) \/
    exists e, query_slow_path cm bounds ∅ = Throw e).
  { unfold query_slow_path. destruct (bounds_flatten _ _ Hl) as [[l ->]|[e ->]]; cbn [obind]; [|eauto].
    destruct (ranges_loop_total cm l ∅) as [[ids ->]|[e ->]]; cbn [obind]; [|eauto].
    case_bool_decide; [|eauto]. destruct (ranges_tiling cm Hok (has_version_ne cm Hv)) as (k0 & r0 & kl & Hh & _).
    destruct (chunkRangeMap (cm_views cm)) as [|[k r] l']; [done|]. left. eexists. split; [done|]. set_solver. }
  unfold getShardIdsForQuery. destruct key as [|el key]; [done|]. pose proof (find_total cm (el :: key) coll) as Ht.
  destruct (findIntersectingChunk cm (el :: key) coll); [|done|done|done]. left. eexists. split; [done|]. set_solver.
Qed.

Lemma in_set_order_good info ids : ids <> ∅ -> good_endpoints (OK (endpoints_of info (in_set_order ids))).
Proof.
  intros Hne. unfold endpoints_of, in_set_order. split.
  - intros Hn%fmap_nil_inv. apply Hne, leibniz_equiv, elements_empty_iff. apply Permutation_nil. rewrite <- Hn. by rewrite merge_sort_Permutation.
  - rewrite <- list_fmap_compose. rewrite (list_fmap_ext _ id) by done. rewrite list_fmap_id, merge_sort_Permutation.
    apply NoDup_elements.
Qed.

Section laws.
Context (E : QueryEngine) (registryShardIds : list ShardId) (docs : BSONObj -> Prop).
Context (HE : engine_ok E) (Hreg : registryShardIds <> [] /\ NoDup registryShardIds).
Abbreviation ok := (state_ok E docs).

Lemma state_ok_info t t' : _routingInfo t' = _routingInfo t -> ok t -> ok t'.
Proof. intros Hi (info & H1 & H2). exists info. by rewrite Hi. Qed.

Lemma targetShardKey_info cm k coll n t t' e : _targetShardKey cm k coll n t = Ret (t', e) -> _routingInfo t' = _routingInfo t.
Proof. unfold _targetShardKey. intros (c & _ & [= <- _])%obind_Ret_inv. by destruct (0 <? n). Qed.

Lemma targetShardKey_total cm k coll n t :
  (exists t' e, _targetShardKey cm k coll n t = Ret (t', e)) \/ _targetShardKey cm k coll n t = Throw ShardKeyNotFound.
Proof.
  unfold _targetShardKey. pose proof (find_total cm k coll) as Ht.
  destruct (findIntersectingChunk cm k coll) as [c|e| |]; cbn [obind]; [eauto|right; by subst|done|done].
Qed.

Lemma targetQuery_ok q coll t : ok t -> exists r, _targetQuery E q coll t = Ret r /\ good_endpoints r.
Proof.
  intros (info & Hi & Hok). unfold _targetQuery, routing. rewrite Hi. cbn [obind].
  destruct (hasMetadata info); cbn [negb]; [|by eexists]. unfold info_ok in Hok. destruct (cri_cm info) as [cm|]; cbn [obind].
  - destruct Hok as (Hr & _ & _). unfold getShardIdsForQueryText. destruct (canonicalize E _ _ _ _) as [cq|e]; [|by eexists].
    unfold uassert. destruct (negb (hasGeoNear E cq)); cbn [obind]; [|by eexists].
    edestruct (query_total cm) as [(ids & -> & Hne)|[e ->]]; [done|apply HE| |]; cbn [as_status obind if_ok]; [|by eexists].
    eexists. split; [done|]. by apply in_set_order_good.
  - eexists. split; [done|]. apply in_set_order_good. set_solver.
Qed.

Lemma checkShardKeySize_status k : as_status (checkShardKeySize k) = Ret (OK ()) \/ as_status (checkShardKeySize k) = Ret (NotOK ShardKeyTooBig).
Proof. unfold checkShardKeySize, uassert. destruct (_ <=? _); auto. Qed.

Lemma insert_ok doc t : docs doc -> ok t -> exists t' r, targetInsert E doc t = Ret (t', r) /\ ok t'.
Proof.
  intros Hd Ht. pose proof Ht as (info & Hi & Hok). unfold targetInsert, routing. rewrite Hi. cbn [obind].
  unfold insert_key, info_ok in *. destruct (cri_cm info) as [cm|] eqn:Ecm; cbn [obind].
  2:{ destruct (negb (cri_primary info)); eauto. }
  destruct Hok as (Hr & (lo & hi & Htl & Hc) & _). specialize (Hc doc Hd). cbv zeta in Hc.
  destruct (extractShardKeyFromDoc _ _ doc) as [|el k]; cbn [obind]; [eauto|]. destruct Hc as [|[Hlo Hhi]]; [done|].
  destruct (checkShardKeySize_status (el :: k)) as [->| ->]; cbn [obind if_ok]; [|eauto].
  destruct (targetShardKey_total cm (el :: k) kSimpleSpec (objsize doc) t) as [(t' & e & Ets)|Ets].
  - rewrite Ets. cbn [obind]. eexists _, _. split; [done|]. eapply state_ok_info; [|exact Ht]. by eapply targetShardKey_info.
  - exfalso. destruct (find_in_range cm lo hi (el :: k)) as [c Hc]; [by apply ok_map, reachable_ok|done..|].
    unfold findIntersectingChunkWithSimpleCollation in Hc. unfold _targetShardKey in Ets. by rewrite Hc in Ets.
Qed.

(** A refusal. *)
Ltac refuse := eexists _, (NotOK _); split; [reflexivity|]; split; [assumption|exact I].

Lemma update_by_query_ok info u ty t :
  ok t -> exists t' r, update_by_query E info u ty t = Ret (t', r) /\ ok t' /\ good_endpoints r.
Proof.
  intros Ht. unfold update_by_query. cbv zeta. destruct (isSome _ && _); [refuse|]. destruct (canonicalize E _ _ _ _) as [cq|e]; [|refuse].
  destruct (match cri_cm info with Some cm => _ | None => _ end); [refuse|]. unfold _targetDoc. cbv zeta.
  assert (Hq : forall q t1, ok t1 -> exists t' r, (let* r := _targetQuery E q (collationOf (upd_collation u)) t1 in Ret (t1, r)) = Ret (t', r) /\
    ok t' /\ good_endpoints r).
  { intros q t1 Ht1. destruct (targetQuery_ok q (collationOf (upd_collation u)) t1 Ht1) as (r & -> & Hg). cbn [obind]. eauto. }
  destruct ty; [by apply Hq| |by apply Hq]. apply Hq. eapply state_ok_info; [|exact Ht]. by destruct (_ && _).
Qed.

Lemma update_key_Ret info u ty : exists sw, update_key E info u ty = Ret sw /\ (cri_cm info = None -> sw = OK []).
Proof.
  unfold update_key. destruct (cri_cm info) as [cm|]; [|by eexists].
  destruct (match ty with UpdateType_OpStyle => _ | _ => _ end) as [k|e]; cbn [if_ok]; [|by eexists].
  destruct (upd_upsert u); [|by eexists]. destruct (checkShardKeySize_status k) as [->| ->]; cbn [obind if_ok]; by eexists.
Qed.

Lemma update_shards_ok info u ty t : ok t -> exists t' r, update_shards E info u ty t = Ret (t', r) /\ ok t' /\ good_endpoints r.
Proof.
  intros Ht. unfold update_shards. destruct (update_key_Ret info u ty) as (sw & -> & Hnone). cbn [obind].
  destruct sw as [[|el k]|e]; [by apply update_by_query_ok| |refuse].
  destruct (cri_cm info) as [cm|]; [|by specialize (Hnone eq_refl)].
  destruct (targetShardKey_total cm (el :: k) (collationOf (upd_collation u)) (objsize (upd_q u) + objsize (upd_u u)) t)
    as [(t' & e & Ets)|Ets]; rewrite Ets; [|by apply update_by_query_ok].
  eexists _, _. split; [done|]. split; [|split; [done|apply NoDup_singleton]].
  eapply state_ok_info; [|exact Ht]. rewrite <- (targetShardKey_info _ _ _ _ _ _ _ Ets).
  destruct ty; [|done..]. destruct (extractShardKeyFromQuery _ _ _) as [[|? ?]|?]; [|done..]. by destruct (upd_upsert u).
Qed.

Lemma update_ok u t : ok t -> exists t' r, targetUpdate E u t = Ret (t', r) /\ ok t' /\ good_endpoints r.
Proof.
  intros Ht. pose proof Ht as (info & Hi & _). unfold targetUpdate, routing. rewrite Hi.
  destruct (getUpdateExprType (upd_u u)); cbn [obind]; [by apply update_shards_ok..|refuse].
Qed.

Lemma delete_by_query_ok info d t : ok t -> exists t' r, delete_by_query E info d t = Ret (t', r) /\ ok t' /\ good_endpoints r.
Proof.
  intros Ht. unfold delete_by_query. cbv zeta. destruct (canonicalize E _ _ _ _) as [cq|e]; [|refuse].
  destruct (match cri_cm info with Some cm => _ | None => _ end); [refuse|].
  destruct (targetQuery_ok (del_q d) (collationOf (del_collation d)) t Ht) as (r & -> & Hg). cbn [obind]. eauto.
Qed.

Lemma delete_ok d t : ok t -> exists t' r, targetDelete E d t = Ret (t', r) /\ ok t' /\ good_endpoints r.
Proof.
  intros Ht. pose proof Ht as (info & Hi & _). unfold targetDelete, routing. rewrite Hi. cbn [obind].
  destruct (cri_cm info) as [cm|]; [|by apply delete_by_query_ok].
  destruct (extractShardKeyFromQuery _ _ _) as [[|el k]|e]; [by apply delete_by_query_ok| |refuse].
  destruct (targetShardKey_total cm (el :: k) (collationOf (del_collation d)) 0 t) as [(t' & e & Ets)|Ets]; rewrite Ets;
    [|by apply delete_by_query_ok]. eexists _, _. split; [done|]. split; [|split; [done|apply NoDup_singleton]].
  eapply state_ok_info; [|exact Ht]. by eapply targetShardKey_info.
Qed.

Lemma collection_ok t : ok t -> exists t' r, targetCollection t = Ret (t', r) /\ ok t' /\ good_endpoints r.
Proof.
  intros Ht. pose proof Ht as (info & Hi & Hok). unfold targetCollection, routing. rewrite Hi. cbn [obind].
  destruct (hasMetadata info); cbn [negb]; [|refuse]. eexists _, _. split; [done|]. split; [done|]. apply in_set_order_good.
  unfold info_ok in Hok. destruct (cri_cm info) as [cm|]; [|set_solver]. destruct Hok as (Hr & _).
  destruct (reachable_ok cm Hr) as [_ (k & c & Hin & _)]. intros Hem.
  assert (Hs : getShardId c ∈ getAllShardIds cm) by (apply (getVersion_max cm (getShardId c) Hr); eauto). set_solver.
Qed.

Lemma all_shards_ok t : ok t -> exists t' r, targetAllShards registryShardIds t = Ret (t', r) /\ ok t' /\ good_endpoints r.
Proof.
  intros Ht. pose proof Ht as (info & Hi & Hok). unfold targetAllShards, routing. rewrite Hi. cbn [obind].
  destruct (hasMetadata info); cbn [negb]; [|refuse]. eexists _, _. split; [done|]. split; [done|].
  unfold endpoints_of. destruct Hreg as [Hne Hnd]. split; [by destruct registryShardIds|].
  rewrite <- list_fmap_compose, (list_fmap_ext _ id), list_fmap_id by done. done.
Qed.

Lemma noteStale_ok e info0 t : ok t -> exists t', noteStaleResponse e info0 t = Ret t' /\ ok t'.
Proof.
  intros Ht. pose proof Ht as (info & Hi & Hok). unfold noteStaleResponse, routing. rewrite Hi.
  assert (Hv : exists v, match getField info0 "vWanted" with
    | None => let* info := Ret info in incMajor (getShardVersion info (shardName e))
    | Some _ => Ret (fromBSON_obj info0 "vWanted").1 end = Ret v).
  { destruct (getField info0 "vWanted"); [by eexists|]. cbn [obind]. unfold incMajor, getShardVersion, uassert, info_ok in *.
    destruct (cri_cm info) as [cm|]; [|by eexists]. destruct Hok as (_ & _ & Hm). specialize (Hm (shardName e)).
    apply Z.eqb_neq in Hm. rewrite Hm. by eexists. }
  destruct Hv as [v ->]. cbn [obind]. eexists. split; [done|]. eapply state_ok_info; [|exact Ht].
  destruct (map_get _ _); [|done]. destruct (hasEqualEpoch _ _); [|done]. by destruct (isOlderThan _ _).
Qed.

Definition targeter_laws : @NSTargeterLaws State (targeter E registryShardIds) docs :=
  @Build_NSTargeterLaws State (targeter E registryShardIds) docs ok insert_ok update_ok delete_ok collection_ok
    all_shards_ok (fun t => state_ok_info t (noteCouldNotTarget t) eq_refl) noteStale_ok.

(** A refresh with good answers of the cache keeps the targeter in order. *)
Lemma different_Ret a b : info_ok E docs a -> info_ok E docs b -> exists d, isMetadataDifferent a b = Ret d.
Proof.
  unfold info_ok, isMetadataDifferent. destruct (cri_cm a), (cri_cm b); intros Ha Hb; destruct (cri_primary a), (cri_primary b);
    try done; by eexists.
Qed.

Lemma refreshed_Ret a b : info_ok E docs a -> info_ok E docs b -> exists d, wasMetadataRefreshed a b = Ret d.
Proof.
  intros Ha Hb. unfold wasMetadataRefreshed. destruct (different_Ret a b Ha Hb) as [d Ed]. rewrite Ed. cbn [obind].
  destruct d; [by eexists|]. unfold isMetadataDifferent in Ed. destruct (cri_cm a), (cri_cm b); [by eexists|done|by eexists|by eexists].
Qed.

Lemma refresh_ok cached reload t :
  ok t -> (forall i, cached = OK i -> info_ok E docs i) -> (forall i j, reload i = OK j -> info_ok E docs j) ->
  exists t' status changed, refreshIfNeeded cached reload t = Ret (t', status, changed) /\ ok t'.
Proof.
  intros Ht Hc Hr. pose proof Ht as (last & Hl & Hlast). unfold refreshIfNeeded. destruct (_ && _); [eauto|].
  unfold routing at 1. rewrite Hl. cbn [obind]. unfold init. destruct cached as [i|e]; [|eauto]. specialize (Hc i eq_refl).
  assert (Hnow : forall t1, _routingInfo t1 = Some i -> exists t' status changed,
    (let* (t2, st) := _refreshNow reload t1 in Ret (t2, st, false)) = Ret (t', status, changed) /\ ok t').
  { intros t1 Hi1. unfold _refreshNow, routing. rewrite Hi1. cbn [obind]. unfold init.
    destruct (reload i) as [j|] eqn:Ej; eexists _, _, _; (split; [reflexivity|]); [|by exists i].
    exists j. split; [done|]. by eapply Hr. }
  cbn [obind routing set_info _routingInfo _needsTargetingRefresh set_needs].
  destruct (different_Ret last i Hlast Hc) as [d Ed]. destruct (refreshed_Ret last i Hlast Hc) as [d' Ed'].
  destruct (_needsTargetingRefresh t).
  - rewrite Ed'. cbn [obind]. destruct d'; cbn [negb]; [|by apply Hnow]. rewrite Ed. cbn [obind].
    eexists _, _, _. split; [reflexivity|]. by exists i.
  - destruct (compareAllShardVersions _ _); [by apply Hnow| |by apply Hnow]. rewrite Ed. cbn [obind].
    eexists _, _, _. split; [reflexivity|]. by exists i.
Qed.

(** The environment of a batch from answers of the shards and the cache. *)
Definition targeter_env (answer : ShardId -> BatchedCommandRequest -> ShardAnswer) (arrival : list ShardId -> list ShardId)
    (cached : StatusWith CachedCollectionRoutingInfo)
    (reload : CachedCollectionRoutingInfo -> StatusWith CachedCollectionRoutingInfo) : RoundEnv (T := State) :=
  mkEnv answer arrival (refreshIfNeeded cached reload).

Lemma targeter_env_ok answer arrival cached reload :
  (forall s req, good_answer req (answer s req)) -> (forall l, arrival l ≡ₚ l) ->
  (forall i, cached = OK i -> info_ok E docs i) -> (forall i j, reload i = OK j -> info_ok E docs j) ->
  @good_env State docs (targeter E registryShardIds) targeter_laws (targeter_env answer arrival cached reload).
Proof. intros Ha Hp Hc Hr. split; [done|done|]. intros t Ht. by apply refresh_ok. Qed.
End laws.

(** * Properties *)

Lemma value_size_nonneg v : 0 <= value_size v.
Proof.
  assert (Hgo : forall o : list (string * BSONValue), Forall (fun x => 0 <= value_size x.2) o ->
    0 <= (fix go (o : list (string * BSONValue)) : Z :=
            match o with [] => 0 | (n, v) :: o => 1 + Z.of_nat (String.length n) + 1 + value_size v + go o end) o).
  { induction 1 as [|[n w] o Hw _ IH]; [lia|]. cbn [snd] in Hw. lia. }
  induction v as [v Hb|o Hall|o Hall|c o Hall] using BSONValue_nested_ind.
  - destruct v; cbn [value_size]; try lia; done.
  - cbn [value_size]. specialize (Hgo o Hall). lia.
  - cbn [value_size]. specialize (Hgo o Hall). lia.
  - cbn [value_size]. specialize (Hgo o Hall). lia.
Qed.

Lemma objsize_pos o : 0 < objsize o.
Proof.
  unfold objsize. cbn [value_size].
  assert (Hgo : 0 <= (fix go (o : list (string * BSONValue)) : Z :=
    match o with [] => 0 | (n, v) :: o => 1 + Z.of_nat (String.length n) + 1 + value_size v + go o end) o); [|lia].
  induction o as [|[n w] o IH]; [lia|]. pose proof (value_size_nonneg w). lia.
Qed.

(** The shard key of a document under the collection's pattern. *)
Definition doc_key (E : QueryEngine) (cm : ChunkManager) (doc : BSONObj) : BSONObj :=
  extractShardKeyFromDoc (hash64 E) (cm_shardKeyPattern cm) doc.

(** C39: On a sharded collection an insert goes to the shard of the one chunk that
    contains the document's shard key, with the newest version among that shard's
    chunks, and its size is added to the chunk's statistics; it is refused with
    nothing changed exactly for a document without a shard key or with one that is
    too large, and throws only for keys outside the chunks. *)
Theorem targetInsert_owner E t info cm lo hi doc :
  _routingInfo t = Some info -> cri_cm info = Some cm -> reachable cm -> tiling Chunk.getMin lo (cm_chunkMap cm) hi ->
  ksorted (chunkSizeDelta t) ->
  match targetInsert E doc t with
  | Ret (t', OK e) =>
      exists c, (exists mx, (mx, c) ∈ cm_chunkMap cm) /\ in_range (c_range c) (doc_key E cm doc) /\
        shardName e = getShardId c /\ shardVersion e = getVersion cm (getShardId c) /\
        (forall mx c', (mx, c') ∈ cm_chunkMap cm -> getShardId c' = shardName e ->
           toLong (getLastmod c') <= toLong (shardVersion e)) /\
        map_get (Chunk.getMin c) (chunkSizeDelta t') =
          Some (s32 (default 0 (map_get (Chunk.getMin c) (chunkSizeDelta t)) + objsize doc))
  | Ret (t', NotOK code) =>
      t' = t /\ (code = ShardKeyNotFound /\ doc_key E cm doc = [] \/
                 code = ShardKeyTooBig /\ kMaxShardKeySizeBytes < objsize (doc_key E cm doc))
  | Throw e => e = ShardKeyNotFound /\ doc_key E cm doc <> [] /\ ~ (lo ≼ doc_key E cm doc /\ doc_key E cm doc ≺ hi)
  | Abort | Undef => False
  end.
Proof.
  intros Hi Hcm Hr Ht Hs. unfold targetInsert, routing, insert_key. rewrite Hi. cbn [obind]. rewrite Hcm.
  fold (doc_key E cm doc). destruct (doc_key E cm doc) as [|el k] eqn:Ek; cbn [obind]; [auto|].
  unfold checkShardKeySize, uassert. destruct (Z.leb_spec (objsize (el :: k)) kMaxShardKeySizeBytes) as [Hle|Hlt];
    cbn [as_status obind if_ok]; [|auto]. unfold _targetShardKey.
  destruct (findIntersectingChunk cm (el :: k) kSimpleSpec) as [c|e| |] eqn:Hf; cbn [obind].
  - destruct (find_sound cm _ _ c Hf) as (mx & Hl & Hin). apply list_elem_of_lookup_2 in Hl as Hmem. exists c.
    split; [by exists mx|]. split; [done|]. split; [done|]. split; [done|]. cbn [shardName shardVersion]. split.
    + intros mx' c' Hin' Hsh. apply (getVersion_max cm (getShardId c) Hr) with (k := mx'); [by exists mx, c|done|done].
    + pose proof (objsize_pos doc) as Hp. apply Z.ltb_lt in Hp. rewrite Hp. cbn. by apply map_get_assign.
  - pose proof (find_total cm (el :: k) kSimpleSpec) as Htot. rewrite Hf in Htot. split; [done|]. split; [done|].
    intros [Hlo Hhi]. destruct (find_in_range cm lo hi (el :: k)) as [c Hc]; [by apply ok_map, reachable_ok|done..|].
    unfold findIntersectingChunkWithSimpleCollation in Hc. congruence.
  - pose proof (find_total cm (el :: k) kSimpleSpec) as Htot. by rewrite Hf in Htot.
  - pose proof (find_total cm (el :: k) kSimpleSpec) as Htot. by rewrite Hf in Htot.
Qed.

(** The shard key that an update names: that of the replacement document, or the
    equalities of the query. *)
Definition names_key (E : QueryEngine) (cm : ChunkManager) (u : UpdateOpEntry) (key : BSONObj) : Prop :=
  match getUpdateExprType (upd_u u) with
  | UpdateType_OpStyle => extractShardKeyFromQuery E (cm_shardKeyPattern cm) (upd_q u) = OK key
  | _ => extractShardKeyFromDoc (hash64 E) (cm_shardKeyPattern cm) (upd_u u) = key
  end.

Lemma update_key_names E info cm u key :
  cri_cm info = Some cm -> update_key E info u (getUpdateExprType (upd_u u)) = Ret (OK key) ->
  names_key E cm u key /\ (upd_upsert u = true -> objsize key <= kMaxShardKeySizeBytes).
Proof.
  intros Hcm. unfold update_key, names_key. rewrite Hcm.
  assert (Hsz : forall k, (if upd_upsert u then let* status := as_status (checkShardKeySize k) in if_ok status (fun _ => Ret (OK k))
      else Ret (OK k)) = Ret (OK key) -> k = key /\ (upd_upsert u = true -> objsize key <= kMaxShardKeySizeBytes)).
  { intros k. unfold checkShardKeySize, uassert. destruct (upd_upsert u); [|by intros [= <-]].
    destruct (Z.leb_spec (objsize k) kMaxShardKeySizeBytes); cbn; [|done]. by intros [= <-]. }
  destruct (getUpdateExprType (upd_u u)); cbn [if_ok]; [intros H; by apply Hsz in H| |intros H; by apply Hsz in H].
  destruct (extractShardKeyFromQuery _ _ _) as [k|e]; cbn [if_ok]; [|done]. intros H. by apply Hsz in H as [-> ?].
Qed.

(** An update without a usable shard key that is still targeted. *)
Lemma update_by_query_exact E info cm u ty t t' eps :
  cri_cm info = Some cm -> update_by_query E info u ty t = Ret (t', OK eps) ->
  upd_upsert u = false /\ (upd_multi u = true \/
    exists cq, canonicalize E (_nss t) (upd_q u) (collationOf (upd_collation u)) true = OK cq /\
      isExactIdQuery E (collationOf (upd_collation u)) cq cm = true).
Proof.
  intros Hcm. unfold update_by_query. cbv zeta. rewrite Hcm. cbn [isSome andb]. destruct (upd_upsert u); [done|]. cbn [negb].
  destruct (canonicalize E _ _ _ _) as [cq|e] eqn:Ecq; [|done]. intros H. split; [done|].
  destruct (upd_multi u); [by left|]. cbn [negb andb] in H.
  destruct (isExactIdQuery E (collationOf (upd_collation u)) cq cm) eqn:Ex; [|done]. right. eauto.
Qed.

(** An update that may touch one document only (an upsert or one that is not
    multi) is targeted at a single shard, the owner of the shard key named by the
    update, or, if it is not an upsert, by a query that names an exact _id. *)
Lemma targetUpdate_single E t info cm u t' eps :
  _routingInfo t = Some info -> cri_cm info = Some cm -> targetUpdate E u t = Ret (t', OK eps) ->
  upd_upsert u = true \/ upd_multi u = false ->
  (exists key c, names_key E cm u key /\ findIntersectingChunk cm key (collationOf (upd_collation u)) = Ret c /\
     eps = [mkEndpoint (getShardId c) (getVersion cm (getShardId c))] /\
     (upd_upsert u = true -> objsize key <= kMaxShardKeySizeBytes)) \/
  upd_upsert u = false /\
    exists cq, canonicalize E (_nss t) (upd_q u) (collationOf (upd_collation u)) true = OK cq /\
      isExactIdQuery E (collationOf (upd_collation u)) cq cm = true.
Proof.
  intros Hi Hcm Hu Hone. unfold targetUpdate, routing in Hu. rewrite Hi in Hu. cbn [obind] in Hu.
  assert (Hs : update_shards E info u (getUpdateExprType (upd_u u)) t = Ret (t', OK eps)) by (by destruct (getUpdateExprType _)).
  clear Hu. assert (Hq : forall ty, update_by_query E info u ty t = Ret (t', OK eps) -> upd_upsert u = false /\
    exists cq, canonicalize E (_nss t) (upd_q u) (collationOf (upd_collation u)) true = OK cq /\
      isExactIdQuery E (collationOf (upd_collation u)) cq cm = true).
  { intros ty H. destruct (update_by_query_exact E info cm u ty t t' eps Hcm H) as [Hup [Hm|?]]; [|done].
    destruct Hone; congruence. }
  unfold update_shards in Hs. apply obind_Ret_inv in Hs as (sw & Hk & Hs). destruct sw as [[|el k]|e]; [right; by eapply Hq| |done].
  rewrite Hcm in Hs. destruct (update_key_names E info cm u (el :: k) Hcm Hk) as [Hnk Hsz].
  destruct (_targetShardKey cm (el :: k) _ _ t) as [[t1 e]|e| |] eqn:Ets; [|right; by eapply Hq|done|done].
  injection Hs as _ <-. left. unfold _targetShardKey in Ets. apply obind_Ret_inv in Ets as (c & Hf & [= _ <-]). eauto 10.
Qed.

(** * Refreshing *)

Lemma compare_loop_GTE info remote : forall r,
  compare_loop info r remote = CompareResult_GTE ->
  r = CompareResult_GTE /\
  forall s v, (s, v) ∈ remote -> compareShardVersions (getShardVersion info s) v = CompareResult_GTE.
Proof.
  induction remote as [|[s v] remote IH]; intros r; cbn [compare_loop].
  - intros ->. split; [done|]. by intros s v ?%not_elem_of_nil.
  - destruct (compareShardVersions (getShardVersion info s) v) eqn:Ec; [done| |].
    + intros H. destruct (IH r H) as [-> Hall]. split; [done|]. intros s' v' [[= -> ->]|Hin]%elem_of_cons; auto.
    + intros H. by destruct (IH CompareResult_LT H).
Qed.

(** After a shard answered with a version that the cached routing information
    does not reach, a refresh reloads the routing information and forgets the
    stale answers; but it reports the metadata as unchanged even when the reload
    changed it. *)
Lemma stale_forces_reload cached reload t s v info :
  (s, v) ∈ _remoteShardVersions t -> _needsTargetingRefresh t = false -> is_Some (_routingInfo t) -> cached = OK info ->
  compareShardVersions (getShardVersion info s) v <> CompareResult_GTE ->
  exists t' status, refreshIfNeeded cached reload t = Ret (t', status, false) /\
    _needsTargetingRefresh t' = false /\ _remoteShardVersions t' = [] /\
    match reload info with
    | OK fresh => status = OK () /\ _routingInfo t' = Some fresh
    | NotOK e => status = NotOK e /\ _routingInfo t' = Some info
    end.
Proof.
  intros Hin Hn [last Hl] -> Hc. unfold refreshIfNeeded. rewrite Hn. cbn [negb andb].
  rewrite bool_decide_eq_false_2 by (intros E; destruct (_remoteShardVersions t); [by apply not_elem_of_nil in Hin|done]).
  unfold routing at 1. rewrite Hl. cbn [init obind routing set_info _routingInfo _needsTargetingRefresh _remoteShardVersions].
  rewrite Hn. destruct (compareAllShardVersions info (_remoteShardVersions t)) eqn:Ec.
  2:{ exfalso. apply Hc. by eapply compare_loop_GTE. }
  all: unfold _refreshNow, routing; cbn; destruct (reload info); (eexists _, _; split; [reflexivity|done]).
Qed.

(** * Examples *)

Definition sample_engine : QueryEngine := {|
  CanonicalQuery := BSONObj;
  canonicalize := fun _ q _ _ => OK q;
  getCollator := fun _ => None;
  hasGeoNear := fun _ => false;
  extractFullEqualityMatches := fun q _ => Some (extractKeyElement q);
  getIndexBoundsForQuery := fun kp _ => (fun _ => [mkInterval VMinKey true VMaxKey true]) <$> kp;
  collatorsMatch := fun _ _ => true;
  hash64 := fun _ => mkInt64 0 eq_refl
|}.

Lemma sample_engine_ok : engine_ok sample_engine.
Proof. intros kp cq. cbn. apply length_fmap. Qed.

Definition sample_info : CachedCollectionRoutingInfo := mkInfo "s0" (Some sample_cm) "" false.
Definition sample_targeter : State := set_info sample_info (new "db.c").

Lemma targetInsert_owner_witness :
  exists t', targetInsert sample_engine (sample_key "z") sample_targeter =
    Ret (t', OK (mkEndpoint "s1" (newVersion 1 2 OID_zero))) /\
  match targetInsert sample_engine (sample_key "z") sample_targeter with
  | Ret (_, OK e) => exists c, in_range (c_range c) (sample_key "z") /\ shardName e = getShardId c
  | _ => False
  end.
Proof.
  eexists. split; [vm_compute; reflexivity|].
  pose proof (targetInsert_owner sample_engine sample_targeter sample_info sample_cm sample_lo sample_hi (sample_key "z")
    eq_refl eq_refl sample_reachable sample_tiling ltac:(apply ksorted_nil)) as H.
  destruct (targetInsert sample_engine (sample_key "z") sample_targeter) as [[t' [e|e]]| | |] eqn:E;
    try (vm_compute in E; discriminate E).
  destruct H as (c & _ & H1 & H2 & _). exists c. split; [exact H1|exact H2].
Defined.

(** An upsert that names its key goes to one shard. *)
Definition sample_upsert : UpdateOpEntry :=
  mkUpdateOp (sample_key "a") [("$set", VObject [("y", VBool true)])] false true None.

Lemma targetUpdate_single_witness :
  exists t' eps, targetUpdate sample_engine sample_upsert sample_targeter = Ret (t', OK eps) /\
    exists key c, names_key sample_engine sample_cm sample_upsert key /\
      findIntersectingChunk sample_cm key [] = Ret c /\ eps = [mkEndpoint (getShardId c) (getVersion sample_cm (getShardId c))].
Proof.
  eexists _, _. split; [vm_compute; reflexivity|].
  edestruct (targetUpdate_single sample_engine sample_targeter sample_info sample_cm sample_upsert) as [(key & c & H1 & H2 & H3 & _)|[H _]];
    [reflexivity|reflexivity|vm_compute; reflexivity|left; reflexivity| |discriminate H].
  exists key, c. split; [exact H1|]. split; [exact H2|exact H3].
Defined.

(** The table after a chunk moved, and a stale answer about it: the refresh finds
    new metadata and reports no change. *)
Definition sample_fresh : CachedCollectionRoutingInfo :=
  mkInfo "s0" (match makeUpdated 2 sample_cm sample_change with Ret (_, cm) => Some cm | _ => None end) "" false.
Definition sample_stale : State := set_remote [("s0", newVersion 2 0 OID_zero)] sample_targeter.

Lemma stale_forces_reload_witness :
  isMetadataDifferent sample_info sample_fresh = Ret true /\
  exists t', refreshIfNeeded (OK sample_info) (fun _ => OK sample_fresh) sample_stale = Ret (t', OK (), false) /\
    _routingInfo t' = Some sample_fresh.
Proof.
  split; [vm_compute; reflexivity|].
  destruct (stale_forces_reload (OK sample_info) (fun _ => OK sample_fresh) sample_stale "s0" (newVersion 2 0 OID_zero) sample_info)
    as (t' & status & H1 & _ & _ & H2 & H3);
    [left|reflexivity|exists sample_info; reflexivity|reflexivity|vm_compute; discriminate|].
  exists t'. rewrite <- H2. split; [exact H1|exact H3].
Defined.
End ChunkManagerTargeter.
