(* ===== verification/WritePath.v ===== *)
(** The write path of the router: a batch of writes executed with the targeter of
    the routing table.  Batches end, ordered batches stop at their first error,
    errors are reported under the index of their write, and a write that a shard
    acknowledged is not sent again. *)

From stdpp Require Import base list strings gmap sorting.
From Stdlib Require Import ZArith Lia String.
From S2P Require Import Prelude OrdMap Tiling Bson ChunkVersion ChunkType ShardKey Chunk ChunkManager ConfigChunks.
From S2P Require Import CatalogCache WriteOps BatchSafe BatchTarget BatchExec BatchRounds Targeter.
Local Open Scope string_scope.
Local Open Scope Z_scope.
Local Open Scope list_scope.
Local Open Scope outcome_scope.

(** * What executing a batch promises *)

Section promises.
Context {T : Type} {docs : BSONObj -> Prop} `{L : NSTargeterLaws T docs} (rq : BatchedCommandRequest) (txnNumber : option Z).

(** What the router relies on when it executes a batch: the shards answer the
    requests they get and stop an ordered batch at its first error, the command
    was parsed, the targeter obeys its laws and can target the documents. *)
Record run_ok (env : nat -> RoundEnv (T:=T)) (t : T) : Prop := {
  ru_env k : good_env (env k);
  ru_stops k : rq_ordered rq = true -> shards_stop (env k);
  ru_parsed : parsed_ok rq;
  ru_docs : docs_ok docs rq;
  ru_targeter : targeter_ok t
}.

Lemma executeBatch_ends env K fuel t stats :
  run_ok env t -> settled_after rq txnNumber env K (initial rq t stats) -> (6 * (K + sizeWriteOps rq + 1) <= fuel)%nat ->
  exists resp st, executeBatch rq txnNumber fuel env t stats = Ret (resp, st) /\ ended rq st /\
    isFinished rq (ex_batch st) = true /\
    (isVerboseWC rq = true -> we_index <$> default [] (rs_errDetails resp) = error_indexes 0 (bw_writeOps (ex_batch st))).
Proof.
  intros [Henv Hstop Hids Hdocs Ht] HK Hfu. unfold executeBatch.
  destruct (exec_loop_ok rq txnNumber Hids Hdocs env Henv (fun Ho k => Hstop k Ho) K (initial rq t stats) fuel (initial rq t stats) HK) as (st & E & He & Hf).
  - apply rtc_refl.
  - by apply initial_running.
  - pose proof (initial_rounds rq K t stats). lia.
  - unfold initial in E. rewrite E. cbn [obind]. destruct (response_ok rq st He) as (resp & -> & Hr). cbn [obind]. eauto 10.
Qed.

Lemma error_indexes_ordered a ops : forall k,
  (forall j op, ops !! j = Some op -> ((j < a)%nat -> wo_state op = WriteOpState_Completed) /\
     (j = a -> wo_state op = WriteOpState_Error) /\ ((a < j)%nat -> wo_state op = WriteOpState_Ready)) ->
  error_indexes k ops = if (a <? List.length ops)%nat then [Z.of_nat (k + a)] else [].
Proof.
  revert a. induction ops as [|op ops IH]; intros a k Ha; cbn [error_indexes]; [done|].
  destruct (Ha 0%nat op eq_refl) as (H1 & H2 & H3). destruct a as [|a].
  - rewrite bool_decide_eq_true_2 by auto. cbn. rewrite Nat.add_0_r. f_equal.
    assert (Hr : forall j x, ops !! j = Some x -> wo_state x = WriteOpState_Ready).
    { intros j x Hx. apply (Ha (S j) x Hx). lia. }
    clear -Hr. generalize (S k). induction ops as [|y ops IH]; intros n; [done|]. cbn.
    rewrite (Hr 0%nat y eq_refl). apply IH. intros j x. apply (Hr (S j)).
  - rewrite (H1 ltac:(lia)). cbn [app]. rewrite bool_decide_eq_false_2 by done. cbn [app]. rewrite (IH a).
    + cbn. by rewrite Nat.add_succ_r.
    + intros j x Hx. destruct (Ha (S j) x Hx) as (? & ? & ?). split_and!; auto with lia.
Qed.

(** The first operation that waits keeps an ordered batch from ending. *)
Lemma unfinished_at ops : forall a op,
  (forall j op, ops !! j = Some op -> (j < a)%nat -> wo_state op = WriteOpState_Completed) ->
  ops !! a = Some op -> wo_state op = WriteOpState_Ready -> ops_finished rq ops = false.
Proof.
  induction ops as [|x ops IH]; intros a op Hc Ha Hr; [done|]. cbn [ops_finished]. destruct a as [|a].
  - injection Ha as ->. by rewrite Hr.
  - rewrite (Hc 0%nat x eq_refl ltac:(lia)). cbn. rewrite andb_false_r. apply (IH a op); try done.
    intros j y Hj Hlt. apply (Hc (S j) y Hj). lia.
Qed.

Lemma round_of_run env t st : run_ok env t -> ended rq st -> isFinished rq (ex_batch st) = false ->
  exists st' stop, exec_round rq txnNumber (env (ex_rounds st)) st = Ret (st', stop) /\
    round_ok rq txnNumber (env (ex_rounds st)) st st' stop.
Proof.
  intros [Henv Hstop Hids Hdocs _] He Hf. apply (exec_round_ok rq txnNumber Hids Hdocs); try done. intros Ho. by apply Hstop.
Qed.

Lemma rounds_after_ok env t st st' :
  run_ok env t -> rounds_after rq txnNumber env st st' -> ended rq st ->
  ended rq st' /\ keeps_final (bw_writeOps (ex_batch st)) (bw_writeOps (ex_batch st')).
Proof.
  intros Hrun. induction 1 as [st|st st1 st2 [Hf Hr] _ IH]; intros He; [by split|].
  destruct (round_of_run env t st Hrun He Hf) as (st' & stop & E & Hro). rewrite E in Hr. injection Hr as <- ->.
  destruct (IH (ro_ended _ _ _ _ _ _ Hro)) as [He2 Hk]. split; [done|]. eapply keeps_final_trans; [apply Hro|done].
Qed.

(** A write that was acknowledged keeps its result to the end. *)
Lemma exec_loop_keeps env t fuel st st' :
  run_ok env t -> ended rq st -> exec_loop rq txnNumber fuel env st = Ret st' ->
  keeps_final (bw_writeOps (ex_batch st)) (bw_writeOps (ex_batch st')).
Proof.
  intros Hrun. revert st. induction fuel as [|fuel IH]; intros st He; cbn [exec_loop];
    (destruct (isFinished rq (ex_batch st)) eqn:Ef; [by intros [= <-]|]); [done|].
  destruct (round_of_run env t st Hrun He Ef) as (st1 & stop & -> & Hro). cbn [obind]. destruct stop; intros Hx.
  - injection Hx as <-. apply Hro.
  - eapply keeps_final_trans; [apply Hro|]. apply IH; [apply Hro|done].
Qed.

Lemma exec_loop_from env fuel st0 st st' : rounds_after rq txnNumber env st0 st -> exec_loop rq txnNumber fuel env st0 = Ret st' ->
  exists fuel', exec_loop rq txnNumber fuel' env st = Ret st'.
Proof.
  intros Hst. revert fuel. induction Hst as [st0|st0 st1 st [Hf Hr] _ IH]; intros fuel E; [by exists fuel|].
  destruct fuel as [|fuel]; cbn [exec_loop] in E; rewrite Hf in E; [done|]. rewrite Hr in E. by apply (IH fuel).
Qed.

Lemma acks_kept env fuel t stats resp stf st s b req w :
  run_ok env t -> executeBatch rq txnNumber fuel env t stats = Ret (resp, stf) ->
  rounds_after rq txnNumber env (initial rq t stats) st -> isFinished rq (ex_batch st) = false ->
  round_batches rq txnNumber st !! s = Some b -> buildBatchRequest rq txnNumber b = Ret req ->
  w ∈ answer_acks rq b (answer (env (ex_rounds st)) s req) ->
  exists op, bw_writeOps (ex_batch stf) !! item_of w = Some op /\ final op.
Proof.
  intros Hrun E Hst Hf Hb Hreq Hw. unfold executeBatch in E. apply obind_Ret_inv in E as (st0 & E & Hx).
  apply obind_Ret_inv in Hx as (r & _ & Hx). injection Hx as _ <-.
  destruct (rounds_after_ok env t _ _ Hrun Hst) as [He _]; [apply initial_running, Hrun|].
  destruct (exec_loop_from env fuel _ st st0 Hst E) as [[|fuel'] E']; cbn [exec_loop] in E'; rewrite Hf in E'; [done|].
  destruct (round_of_run env t st Hrun He Hf) as (st1 & stop & Er & Hro). rewrite Er in E'. cbn [obind] in E'.
  destruct (ro_acked _ _ _ _ _ _ Hro s b req w Hb Hreq Hw) as (op & Hop & Hfin). exists op. split; [|done].
  destruct stop; [by injection E' as <-|]. apply (exec_loop_keeps env t fuel' st1 st0 Hrun (ro_ended _ _ _ _ _ _ Hro) E'); done.
Qed.

(** C15: An unordered batch of writes ends.  If the targeter obeys its laws and can
    target the documents, every shard answers the requests it gets, and from round
    [K] on refreshing finds no new metadata, then [executeBatch] of [n] writes returns
    within [6 * (K + n + 1)] rounds, whatever the answers are and in whatever order
    they arrive, and no invariant fails.  Every write is then completed or in error,
    and a client that asked for details gets exactly the errors, each under the index
    of its write. *)
Theorem executeBatch_unordered (env : nat -> RoundEnv (T:=T)) (K fuel : nat) (t : T) (stats : BatchWriteExecStats) :
  run_ok env t -> settled_after rq txnNumber env K (initial rq t stats) ->
  rq_ordered rq = false -> (6 * (K + sizeWriteOps rq + 1) <= fuel)%nat ->
  exists resp st, executeBatch rq txnNumber fuel env t stats = Ret (resp, st) /\
    (forall i, (i < sizeWriteOps rq)%nat -> exists op, bw_writeOps (ex_batch st) !! i = Some op /\
       (wo_state op = WriteOpState_Completed \/ wo_state op = WriteOpState_Error)) /\
    (isVerboseWC rq = true -> we_index <$> default [] (rs_errDetails resp) = error_indexes 0 (bw_writeOps (ex_batch st))).
Proof.
  intros Hrun HK Ho Hfu. destruct (executeBatch_ends env K fuel t stats) as (resp & st & E & He & Hf & Hr); try done.
  exists resp, st. split; [done|]. split; [|done]. intros i Hi. destruct (en_tidy _ _ He) as [Hsz Hq _]. rewrite Hsz in Hi.
  destruct (lookup_lt_is_Some_2 _ _ Hi) as [op Hop]. exists op. split; [done|]. by eapply finished_final.
Qed.

(** C16: An ordered batch stops at its first error.  Under the same conditions, and if
    the shards stop an ordered batch at its first error, [executeBatch] returns, and
    for some [a] the writes before [a] are completed, the write [a] is in error, the
    writes after [a] are left to do, and in no round of the run did a shard
    acknowledge one of them; a client that asked for details gets the one error with
    index [a], or none if all writes are completed. *)
Theorem executeBatch_ordered (env : nat -> RoundEnv (T:=T)) (K fuel : nat) (t : T) (stats : BatchWriteExecStats) :
  run_ok env t -> settled_after rq txnNumber env K (initial rq t stats) ->
  rq_ordered rq = true -> (6 * (K + sizeWriteOps rq + 1) <= fuel)%nat ->
  exists resp st a, executeBatch rq txnNumber fuel env t stats = Ret (resp, st) /\ (a <= sizeWriteOps rq)%nat /\
    (forall i op, bw_writeOps (ex_batch st) !! i = Some op ->
       ((i < a)%nat -> wo_state op = WriteOpState_Completed) /\ (i = a -> wo_state op = WriteOpState_Error) /\
       ((a < i)%nat -> wo_state op = WriteOpState_Ready)) /\
    (forall st' s b req w, rounds_after rq txnNumber env (initial rq t stats) st' -> isFinished rq (ex_batch st') = false ->
       round_batches rq txnNumber st' !! s = Some b -> buildBatchRequest rq txnNumber b = Ret req ->
       w ∈ answer_acks rq b (answer (env (ex_rounds st')) s req) -> (item_of w <= a)%nat) /\
    (isVerboseWC rq = true -> we_index <$> default [] (rs_errDetails resp) =
       if (a <? sizeWriteOps rq)%nat then [Z.of_nat a] else []).
Proof.
  intros Hrun HK Ho Hfu.
  destruct (executeBatch_ends env K fuel t stats) as (resp & st & E & He & Hf & Hr); try done.
  pose proof (td_size _ _ (en_tidy _ _ He)) as Hsz. destruct (en_shape _ _ He Ho) as [a0 Ha0].
  assert (Ha : exists a, (a <= sizeWriteOps rq)%nat /\ forall i op, bw_writeOps (ex_batch st) !! i = Some op ->
    ((i < a)%nat -> wo_state op = WriteOpState_Completed) /\ (i = a -> wo_state op = WriteOpState_Error) /\
    ((a < i)%nat -> wo_state op = WriteOpState_Ready)).
  { exists (Nat.min a0 (sizeWriteOps rq)). split; [lia|]. intros i op Hop. pose proof (lookup_lt_Some _ _ _ Hop) as Hlt.
    rewrite Hsz, Nat.min_comm. assert (i < Nat.min (List.length (bw_writeOps (ex_batch st))) a0 <-> i < a0)%nat as Hmin by lia.
    destruct (Ha0 i op Hop) as [[? ?]|[[-> [Hw|?]]|[? ?]]]; [split_and!; [done|lia|lia]| |split_and!; [lia|done|lia]|split_and!; [lia|lia|done]].
    exfalso. unfold isFinished in Hf. rewrite (unfinished_at _ a0 op) in Hf; try done. intros j x Hx Hj.
    destruct (Ha0 j x Hx) as [[_ ?]|[[-> _]|[? _]]]; [done|lia|lia]. }
  destruct Ha as (a & Hle & Ha). exists resp, st, a. split; [done|]. split; [done|]. split; [done|]. split.
  - intros st' s b req w Hst Hf' Hb Hreq Hw. destruct (acks_kept env fuel t stats resp st st' s b req w Hrun E Hst Hf' Hb Hreq Hw) as (op & Hop & Hfin).
    destruct (Nat.le_gt_cases (item_of w) a) as [|Hgt]; [done|]. destruct (Ha _ op Hop) as (_ & _ & Hx). destruct Hfin; rewrite Hx in *; done.
  - intros Hv. rewrite (Hr Hv), (error_indexes_ordered a _ 0 Ha), <- Hsz. done.
Qed.

(** C17: A write that a shard acknowledged in some round of a batch is in no request
    of any later round, to any shard: retries after stale versions and failed
    requests never apply a write twice that is known to be applied. *)
Theorem acknowledged_not_resent (env : nat -> RoundEnv (T:=T)) (t : T) (stats : BatchWriteExecStats)
    (st st1 st2 : ExecState (T:=T)) (s s2 : ShardId) (b b2 : TargetedWriteBatch) (req : BatchedCommandRequest)
    (w w2 : TargetedWrite) :
  run_ok env t -> rounds_after rq txnNumber env (initial rq t stats) st -> isFinished rq (ex_batch st) = false ->
  exec_round rq txnNumber (env (ex_rounds st)) st = Ret (st1, false) -> round_batches rq txnNumber st !! s = Some b ->
  buildBatchRequest rq txnNumber b = Ret req -> w ∈ answer_acks rq b (answer (env (ex_rounds st)) s req) ->
  rounds_after rq txnNumber env st1 st2 -> isFinished rq (ex_batch st2) = false -> round_batches rq txnNumber st2 !! s2 = Some b2 ->
  w2 ∈ tb_writes b2 -> item_of w2 <> item_of w.
Proof.
  intros Hrun Hst Hf Hr Hb Hreq Hw Hst2 Hf2 Hb2 Hw2 E.
  destruct (rounds_after_ok env t _ _ Hrun Hst) as [He _]; [apply initial_running, Hrun|].
  destruct (round_of_run env t st Hrun He Hf) as (st' & stop & E1 & Hro). rewrite Hr in E1. injection E1 as <- <-.
  destruct (ro_acked _ _ _ _ _ _ Hro s b req w Hb Hreq Hw) as (op & Hop & Hfin).
  destruct (rounds_after_ok env t _ _ Hrun Hst2 (ro_ended _ _ _ _ _ _ Hro)) as [He2 [_ Hk]].
  destruct (round_of_run env t st2 Hrun He2 Hf2) as (st' & stop & _ & Hro2).
  destruct (ro_sent _ _ _ _ _ _ Hro2 s2 b2 w2 Hb2 Hw2) as (op2 & Hop2 & Hready).
  rewrite E, (Hk _ _ Hop Hfin) in Hop2. injection Hop2 as <-. destruct Hfin; congruence.
Qed.

(** A write is reported as completed only if it was sent and every shard that
    it was sent to in that round acknowledged it. *)
Lemma completed_acknowledged (env : nat -> RoundEnv (T:=T)) (t : T) (stats : BatchWriteExecStats)
    (st st1 : ExecState (T:=T)) (stop : bool) (i : nat) (op op1 : WriteOp) :
  run_ok env t -> rounds_after rq txnNumber env (initial rq t stats) st -> isFinished rq (ex_batch st) = false ->
  exec_round rq txnNumber (env (ex_rounds st)) st = Ret (st1, stop) ->
  bw_writeOps (ex_batch st) !! i = Some op -> bw_writeOps (ex_batch st1) !! i = Some op1 ->
  wo_state op <> WriteOpState_Completed -> wo_state op1 = WriteOpState_Completed ->
  (exists s b w, round_batches rq txnNumber st !! s = Some b /\ w ∈ tb_writes b /\ item_of w = i) /\
  forall s b req w, round_batches rq txnNumber st !! s = Some b -> buildBatchRequest rq txnNumber b = Ret req ->
    w ∈ tb_writes b -> item_of w = i -> w ∈ answer_acks rq b (answer (env (ex_rounds st)) s req).
Proof.
  intros Hrun Hst Hf Hr Hop Hop1 Hn Hc.
  destruct (rounds_after_ok env t _ _ Hrun Hst) as [He _]; [apply initial_running, Hrun|].
  destruct (round_of_run env t st Hrun He Hf) as (st' & stop' & E1 & Hro). rewrite Hr in E1. injection E1 as <- <-.
  by destruct (ro_completed _ _ _ _ _ _ Hro i op op1 Hop Hop1 Hc).
Qed.
End promises.

(** * Examples *)

Import ChunkManagerTargeter.

Definition ex_doc (x : string) : BSONObj := sample_key x.
Definition ex_docs (d : BSONObj) : Prop := d = ex_doc "a" \/ d = ex_doc "h" \/ d = ex_doc "z".
Definition ex_registry : list ShardId := ["s0"; "s1"].
#[local] Instance ex_targeting : NSTargeter State := targeter sample_engine ex_registry.

Lemma ex_registry_ok : ex_registry <> [] /\ NoDup ex_registry.
Proof. split; [done|]. by apply (bool_decide_unpack _). Qed.

Lemma getVersion_cases cm s : reachable cm ->
  getVersion cm s = newVersion 0 0 (_epoch (cm_collectionVersion cm)) \/ getVersion cm s ∈ (shardVersions (cm_views cm)).*2.
Proof.
  intros Hr. unfold getVersion. destruct (map_get s (shardVersions (cm_views cm))) as [v|] eqn:E; [right|by left]. cbn.
  apply map_get_Some in E as (k & Hin & _); [|apply (ok_views _ (proj1 (reachable_ok _ Hr)))].
  apply list_elem_of_fmap. by exists (k, v).
Qed.

Lemma ex_info_ok : info_ok sample_engine ex_docs sample_info.
Proof.
  split; [apply sample_reachable|]. split.
  - exists sample_lo, sample_hi. split; [apply sample_tiling|].
    intros d [->|[->| ->]]; right; (split; [vm_compute; discriminate|vm_compute; reflexivity]).
  - intros s. destruct (getVersion_cases sample_cm s sample_reachable) as [-> |Hin]; [vm_compute; discriminate|].
    revert Hin. generalize (getVersion sample_cm s). intros v Hin. apply list_elem_of_In in Hin. vm_compute in Hin.
    destruct Hin as [<-|[<-|[]]]; vm_compute; discriminate.
Qed.

#[local] Instance ex_laws : NSTargeterLaws State ex_docs :=
  targeter_laws sample_engine ex_registry ex_docs sample_engine_ok ex_registry_ok.

(** Shard [s1] rejects the first write that it gets. *)
Definition ex_ok (n : Z) : BatchedCommandResponse := mkResponse true InternalError n 0 None None None.
Definition ex_answer (s : ShardId) (req : BatchedCommandRequest) : ShardAnswer :=
  if String.eqb s "s1" then Results (mkResponse true InternalError 0 0 None None (Some [mkWriteError 0 DuplicateKey None []]))
  else Results (ex_ok (Z.of_nat (sizeWriteOps req))).
Definition ex_env (k : nat) : RoundEnv (T := State) :=
  targeter_env ex_answer (fun l => l) (NotOK HostUnreachable) (fun _ => NotOK HostUnreachable).

Lemma ex_env_good k : good_env (ex_env k).
Proof.
  apply targeter_env_ok; [|done|done|done]. intros s req v _. unfold ex_answer. destruct (String.eqb s "s1"); cbn.
  - split; [done| |by apply Forall_nil]. intros _. by apply Forall_singleton.
  - split; [done| |by apply Forall_nil]. intros _. by apply Forall_nil.
Qed.

Lemma ex_env_stops k : shards_stop (ex_env k).
Proof. intros s req _. cbn. unfold ex_answer. destruct (String.eqb s "s1"); cbn; lia. Qed.

Definition ex_request (ordered : bool) : BatchedCommandRequest :=
  mkRequest "db.c" (Inserts [ex_doc "a"; ex_doc "z"; ex_doc "h"]) ordered false None None None.

Lemma ex_request_docs ordered : docs_ok ex_docs (ex_request ordered).
Proof. unfold docs_ok, ex_docs. cbn. rewrite !Forall_cons. auto 10. Qed.

Lemma ex_settled rq st0 : settled_after rq None ex_env 0 st0.
Proof.
  intros st _ _ (b & t & rt & stats & t' & status & _ & Hr). cbn in Hr. unfold ChunkManagerTargeter.refreshIfNeeded in Hr.
  destruct (_ && _); [discriminate Hr|]. unfold routing in Hr. by destruct (_routingInfo t).
Qed.

Definition ex_stats : BatchWriteExecStats := mkExecStats 0 0 0.

Lemma ex_run_ok ordered : run_ok (docs:=ex_docs) (ex_request ordered) ex_env sample_targeter.
Proof.
  split; [exact ex_env_good|intros k _; apply ex_env_stops|by split|apply ex_request_docs|].
  exists sample_info. split; [reflexivity|exact ex_info_ok].
Qed.

Lemma executeBatch_unordered_witness :
  exists resp st, executeBatch (ex_request false) None 24 ex_env sample_targeter ex_stats = Ret (resp, st) /\
    we_index <$> default [] (rs_errDetails resp) = error_indexes 0 (bw_writeOps (ex_batch st)).
Proof.
  destruct (executeBatch_unordered (ex_request false) None ex_env 0 24 sample_targeter ex_stats) as (resp & st & E & _ & Hr).
  - apply ex_run_ok.
  - apply ex_settled.
  - reflexivity.
  - vm_compute. lia.
  - exists resp, st. split; [exact E|]. apply Hr. reflexivity.
Defined.

(** The batch as the router answers it: the write of [z] failed. *)
Lemma ex_unordered_runs :
  match executeBatch (ex_request false) None 24 ex_env sample_targeter ex_stats with
  | Ret (resp, st) => rs_n resp = 2 /\ we_index <$> default [] (rs_errDetails resp) = [1]
  | _ => False
  end.
Proof. by vm_compute. Qed.

Lemma executeBatch_ordered_witness :
  exists resp st a, executeBatch (ex_request true) None 24 ex_env sample_targeter ex_stats = Ret (resp, st) /\
    we_index <$> default [] (rs_errDetails resp) = if (a <? 3)%nat then [Z.of_nat a] else [].
Proof.
  destruct (executeBatch_ordered (ex_request true) None ex_env 0 24 sample_targeter ex_stats) as (resp & st & a & E & _ & _ & _ & Hr).
  - apply ex_run_ok.
  - apply ex_settled.
  - reflexivity.
  - vm_compute. lia.
  - exists resp, st, a. split; [exact E|]. apply Hr. reflexivity.
Defined.

(** An ordered batch stops at [z]: [h] is not written. *)
Lemma ex_ordered_runs :
  match executeBatch (ex_request true) None 24 ex_env sample_targeter ex_stats with
  | Ret (resp, st) => rs_n resp = 1 /\ we_index <$> default [] (rs_errDetails resp) = [1]
  | _ => False
  end.
Proof. by vm_compute. Qed.

(** The first round of the ordered batch writes [a], the second one tries [z]. *)
Definition ex_start : ExecState (T := State) := initial (ex_request true) sample_targeter ex_stats.
Definition ex_next : ExecState (T := State) :=
  match exec_round (ex_request true) None (ex_env 0) ex_start with Ret (st, _) => st | _ => ex_start end.
Definition ex_batch_of (st : ExecState (T := State)) (s : ShardId) : TargetedWriteBatch :=
  default (mkBatch (mkEndpoint s UNSHARDED) [] 0) (round_batches (ex_request true) None st !! s).
Definition ex_write (e : ShardEndpoint) (i : nat) : TargetedWrite := mkTargeted e (i, 0%nat).
Definition ex_a : TargetedWrite := ex_write (mkEndpoint "s0" (newVersion 1 1 OID_zero)) 0.
Definition ex_z : TargetedWrite := ex_write (mkEndpoint "s1" (newVersion 1 2 OID_zero)) 1.
Definition ex_sub : BatchedCommandRequest :=
  match buildBatchRequest (ex_request true) None (ex_batch_of ex_start "s0") with Ret r => r | _ => ex_request true end.

Lemma ex_first_round : exec_round (ex_request true) None (ex_env 0) ex_start = Ret (ex_next, false).
Proof. vm_compute. reflexivity. Qed.

Lemma acknowledged_not_resent_witness :
  ex_a ∈ answer_acks (ex_request true) (ex_batch_of ex_start "s0") (ex_answer "s0" ex_sub) /\
  ex_z ∈ tb_writes (ex_batch_of ex_next "s1") /\ item_of ex_z <> item_of ex_a.
Proof.
  assert (Ha : ex_a ∈ answer_acks (ex_request true) (ex_batch_of ex_start "s0") (ex_answer "s0" ex_sub))
    by (vm_compute; left).
  assert (Hz : ex_z ∈ tb_writes (ex_batch_of ex_next "s1")) by (vm_compute; left).
  split; [exact Ha|]. split; [exact Hz|].
  apply (acknowledged_not_resent (ex_request true) None ex_env sample_targeter ex_stats ex_start ex_next ex_next "s0" "s1"
    (ex_batch_of ex_start "s0") (ex_batch_of ex_next "s1") ex_sub ex_a ex_z).
  - apply ex_run_ok.
  - apply rtc_refl.
  - vm_compute. reflexivity.
  - exact ex_first_round.
  - vm_compute. reflexivity.
  - vm_compute. reflexivity.
  - exact Ha.
  - apply rtc_refl.
  - vm_compute. reflexivity.
  - vm_compute. reflexivity.
  - exact Hz.
Defined.

Lemma completed_acknowledged_witness :
  ex_a ∈ answer_acks (ex_request true) (ex_batch_of ex_start "s0") (ex_answer "s0" ex_sub).
Proof.
  apply (completed_acknowledged (ex_request true) None ex_env sample_targeter ex_stats ex_start ex_next false 0 newWriteOp
    (mkWriteOp WriteOpState_Completed [] None)).
  - apply ex_run_ok.
  - apply rtc_refl.
  - vm_compute. reflexivity.
  - exact ex_first_round.
  - reflexivity.
  - vm_compute. reflexivity.
  - discriminate.
  - reflexivity.
  - vm_compute. reflexivity.
  - vm_compute. reflexivity.
  - vm_compute. left.
  - reflexivity.
Defined.

(** * A key at the upper end of the key space *)

Section exception.
Context {T : Type} `{NSTargeter T} (rq : BatchedCommandRequest) (txnNumber : option Z).

(** The targeting of a round goes through the writes [l], without an early end. *)
Fixpoint goes_through (rec : bool) (l : list nat) (tst tst' : Targeting (T := T)) : Prop :=
  match l with
  | [] => tst' = tst
  | i :: l => exists tst1, target_one rq txnNumber rec i tst = Ret (Continue tst1) /\ goes_through rec l tst1 tst'
  end.

Definition targeting_start (st : ExecState (T := T)) : Targeting (T := T) :=
  mkTargeting (ex_targeter st) (bw_writeOps (ex_batch st)) [] ∅.

Lemma target_loop_throws rec l i l' e tst tst' :
  goes_through rec l tst tst' -> target_one rq txnNumber rec i tst' = Throw e ->
  target_loop rq txnNumber rec (l ++ i :: l') tst = Throw e.
Proof.
  revert tst. induction l as [|j l IH]; intros tst; cbn [app target_loop goes_through]; [by intros -> ->|].
  intros (tst1 & -> & Hl) Hi. cbn [obind]. by apply IH.
Qed.

(** The round in which targeting an insert throws ends with the exception. *)
Lemma insert_throws env st i op ds doc e tst :
  rq_ops rq = Inserts ds -> ds !! i = Some doc -> isInsertIndexRequest rq = false ->
  goes_through (ex_refreshedTargeter st) (seq 0 i) (targeting_start st) tst ->
  tg_ops tst !! i = Some op -> wo_state op = WriteOpState_Ready ->
  WriteOps.targetInsert doc (tg_targeter tst) = Throw e -> exec_round rq txnNumber env st = Throw e.
Proof.
  intros Hops Hdoc Hidx Hthrough Hop Hready Ht. unfold exec_round, round_sends, targetBatch.
  assert (Hsz : sizeWriteOps rq = (i + S (sizeWriteOps rq - S i))%nat).
  { apply lookup_lt_Some in Hdoc. unfold sizeWriteOps. rewrite Hops. lia. }
  rewrite Hsz, seq_app. cbn [seq Nat.add]. erewrite target_loop_throws; [done|exact Hthrough|].
  unfold target_one. rewrite Hop, bool_decide_eq_true_2 by done. cbn [negb]. unfold item_at. rewrite Hops, Hdoc.
  cbn [obind]. unfold targetWrites, target_item. by rewrite Hidx, Ht.
Qed.

Lemma exec_round_counts env st st' stop : exec_round rq txnNumber env st = Ret (st', stop) -> ex_rounds st' = S (ex_rounds st).
Proof.
  unfold exec_round. intros Hr. apply obind_Ret_inv in Hr as ([[[b t] r] stats] & _ & Hr).
  destruct (isFinished rq b); [by injection Hr as <- _|]. apply obind_Ret_inv in Hr as ([ts c] & _ & Hr).
  destruct (_ <? _); by injection Hr as <- _.
Qed.

Lemma exec_loop_reaches env st0 st : rounds_after rq txnNumber env st0 st ->
  (ex_rounds st0 <= ex_rounds st)%nat /\
  forall fuel, exec_loop rq txnNumber (ex_rounds st - ex_rounds st0 + fuel) env st0 = exec_loop rq txnNumber fuel env st.
Proof.
  induction 1 as [st|st0 st1 st [Hf Hr] _ [IHle IH]]; [split; [done|]; intros fuel; by rewrite Nat.sub_diag|].
  pose proof (exec_round_counts _ _ _ _ Hr) as Hc. split; [lia|]. intros fuel.
  replace (ex_rounds st - ex_rounds st0 + fuel)%nat with (S (ex_rounds st - ex_rounds st1 + fuel)) by lia.
  cbn [exec_loop]. rewrite Hf, Hr. apply IH.
Qed.

Lemma exception_leaves env fuel t stats st e :
  rounds_after rq txnNumber env (initial rq t stats) st -> isFinished rq (ex_batch st) = false ->
  exec_round rq txnNumber (env (ex_rounds st)) st = Throw e -> (ex_rounds st < fuel)%nat ->
  executeBatch rq txnNumber fuel env t stats = Throw e.
Proof.
  intros Hst Hf Hr Hfu. destruct (exec_loop_reaches env _ _ Hst) as [_ Hl]. cbn [initial ex_rounds] in Hl.
  unfold executeBatch. replace fuel with (ex_rounds st - 0 + S (fuel - ex_rounds st - 1))%nat by lia.
  unfold initial in Hl. rewrite Hl. cbn [exec_loop]. by rewrite Hf, Hr.
Qed.
End exception.

(** The shard key of an insert at or above the end of the key space: no chunk has it. *)
Lemma insert_above_throws E t info cm lo hi doc :
  _routingInfo t = Some info -> cri_cm info = Some cm -> reachable cm -> tiling Chunk.getMin lo (cm_chunkMap cm) hi ->
  doc_key E cm doc <> [] -> objsize (doc_key E cm doc) <= kMaxShardKeySizeBytes -> hi ≼ doc_key E cm doc ->
  targetInsert E doc t = Throw ShardKeyNotFound.
Proof.
  intros Hi Hcm Hr Ht Hne Hsz Hhi. unfold targetInsert, routing, insert_key. rewrite Hi. cbn [obind]. rewrite Hcm.
  fold (doc_key E cm doc). destruct (doc_key E cm doc) as [|el k]; [done|]. unfold checkShardKeySize, uassert.
  rewrite (proj2 (Z.leb_le _ _) Hsz). cbn [as_status obind if_ok]. unfold _targetShardKey.
  pose proof (find_total cm (el :: k) kSimpleSpec) as Htot.
  destruct (findIntersectingChunk cm (el :: k) kSimpleSpec) as [c|e| |] eqn:Hf; cbn [obind]; [|by rewrite Htot|done..].
  destruct (find_sound cm _ _ c Hf) as (mx & Hl & Hin). apply list_elem_of_lookup_2 in Hl.
  destruct (tiling_in Chunk.getMin lo _ hi _ _ Ht Hl) as (_ & _ & Hmx).
  destruct (proj2 (ok_map _ (proj1 (reachable_ok _ Hr))) _ _ Hl) as [-> _].
  destruct Hin as [_ Hin]. exfalso. change (_maxKey (c_range c)) with (Chunk.getMax c) in Hin. korder.
Qed.

(** C40: A key at the end of the key space loses the results of a batch.  No chunk has
    the upper bound of the key space, so the insert of a document whose shard key is
    MaxKey, or any key not below the bound, cannot be targeted, and targeting throws
    instead of returning an error.  When the targeting of some round, after any
    earlier rounds, gets to such a document, the exception leaves [executeBatch]: the
    client gets no response, whatever writes the earlier rounds have completed. *)
Theorem max_key_loses_batch (E : QueryEngine) (registryShardIds : list ShardId) rq txnNumber env fuel t stats st tst i op ds doc info cm lo hi :
  let _ := targeter E registryShardIds in
  rounds_after rq txnNumber env (initial rq t stats) st -> isFinished rq (ex_batch st) = false -> (ex_rounds st < fuel)%nat ->
  rq_ops rq = Inserts ds -> ds !! i = Some doc -> isInsertIndexRequest rq = false ->
  goes_through rq txnNumber (ex_refreshedTargeter st) (seq 0 i) (targeting_start st) tst ->
  tg_ops tst !! i = Some op -> wo_state op = WriteOpState_Ready ->
  _routingInfo (tg_targeter tst) = Some info -> cri_cm info = Some cm -> reachable cm ->
  tiling Chunk.getMin lo (cm_chunkMap cm) hi ->
  doc_key E cm doc <> [] -> objsize (doc_key E cm doc) <= kMaxShardKeySizeBytes -> hi ≼ doc_key E cm doc ->
  executeBatch rq txnNumber fuel env t stats = Throw ShardKeyNotFound.
Proof.
  intros T Hst Hf Hfu Hops Hdoc Hidx Hthrough Hop Hready Hi Hcm Hr Ht Hne Hsz Hhi.
  apply (exception_leaves rq txnNumber env fuel t stats st); [done|done| |done].
  apply (insert_throws rq txnNumber _ st i op ds doc _ tst); try done. by apply (insert_above_throws E _ info cm lo hi).
Qed.

(** The document with the largest shard key, after two others. *)
Definition max_doc : BSONObj := [("x", VMaxKey)].
Definition max_request : BatchedCommandRequest :=
  mkRequest "db.c" (Inserts [ex_doc "a"; ex_doc "z"; max_doc]) true false None None None.
Definition max_env (k : nat) : RoundEnv (T := State) :=
  targeter_env (fun _ req => Results (ex_ok (Z.of_nat (sizeWriteOps req)))) (fun l => l) (NotOK HostUnreachable)
    (fun _ => NotOK HostUnreachable).
Definition max_round (k : nat) (st : ExecState (T := State)) : ExecState (T := State) :=
  match exec_round max_request None (max_env k) st with Ret (st1, _) => st1 | _ => st end.
Definition max_start : ExecState (T := State) := initial max_request sample_targeter ex_stats.
Definition max_second : ExecState (T := State) := max_round 0 max_start.
Definition max_through (i : nat) (tst : Targeting (T := State)) : Targeting (T := State) :=
  match target_one max_request None (ex_refreshedTargeter max_second) i tst with Ret (Continue tst) => tst | _ => tst end.
Definition max_targeting : Targeting (T := State) := max_through 1 (max_through 0 (targeting_start max_second)).

Lemma max_key_loses_batch_witness :
  wo_state <$> bw_writeOps (ex_batch max_second) = [WriteOpState_Completed; WriteOpState_Ready; WriteOpState_Ready] /\
  executeBatch max_request None 24 max_env sample_targeter ex_stats = Throw ShardKeyNotFound.
Proof.
  split; [vm_compute; reflexivity|].
  assert (Hop : exists op, tg_ops max_targeting !! 2%nat = Some op /\ wo_state op = WriteOpState_Ready)
    by (vm_compute; eexists; split; reflexivity).
  destruct Hop as (op & Hop & Hr).
  apply (max_key_loses_batch sample_engine ex_registry max_request None max_env 24 sample_targeter ex_stats max_second max_targeting 2 op
    [ex_doc "a"; ex_doc "z"; max_doc] max_doc sample_info sample_cm sample_lo sample_hi).
  - apply rtc_once. split; vm_compute; reflexivity.
  - vm_compute. reflexivity.
  - vm_compute. lia.
  - reflexivity.
  - reflexivity.
  - vm_compute. reflexivity.
  - exists (max_through 0 (targeting_start max_second)). split; [vm_compute; reflexivity|].
    exists max_targeting. split; vm_compute; reflexivity.
  - exact Hop.
  - exact Hr.
  - vm_compute. reflexivity.
  - reflexivity.
  - exact sample_reachable.
  - exact sample_tiling.
  - vm_compute. discriminate.
  - vm_compute. discriminate.
  - vm_compute. discriminate.
Defined.
