(* ===== verification/RangeMap.v ===== *)
(** Maps from the lower to the upper bound of ranges of shard keys
    (db/range_arithmetic.h, db/range_arithmetic.cpp): the shard keeps its chunks,
    the coalesced runs of them and the chunks it receives in such maps. *)

From stdpp Require Import base list sorting.
From Stdlib Require Import ZArith Lia.
From S2P Require Import Prelude OrdMap Bson ChunkType.
Local Open Scope Z_scope.
Local Open Scope list_scope.

Definition RangeMap : Type := list (BSONObj * BSONObj).

Definition rangeContains (inclusiveLower exclusiveUpper point : BSONObj) : bool :=
  (0 <=? woCompare point inclusiveLower) && (woCompare point exclusiveUpper <? 0).

Definition rangeOverlaps (inclusiveLower1 exclusiveUpper1 inclusiveLower2 exclusiveUpper2 : BSONObj) : bool :=
  (0 <? woCompare exclusiveUpper1 inclusiveLower2) && (0 <? woCompare exclusiveUpper2 inclusiveLower1).

(** The entries that overlap a range, as the positions of the first one and of
    the one after the last. *)
Definition rangeMapOverlapBounds (ranges : RangeMap) (inclusiveLower exclusiveUpper : BSONObj) : nat * nat :=
  let low := lower_bound inclusiveLower ranges in
  let low :=
    match low with
    | O => O
    | S prev =>
        match ranges !! prev with
        | Some (_, mx) => if woCompare mx inclusiveLower <? 1 then low else prev
        | None => low
        end
    end in
  (low, lower_bound exclusiveUpper ranges).

Definition rangeMapOverlaps (ranges : RangeMap) (inclusiveLower exclusiveUpper : BSONObj) : bool :=
  let bounds := rangeMapOverlapBounds ranges inclusiveLower exclusiveUpper in
  negb (bounds.1 =? bounds.2)%nat.

(** The entry before the upper bound of a key, and the one at it. *)
Definition neighbours (key : BSONObj) (m : RangeMap) : option (BSONObj * BSONObj) * option (BSONObj * BSONObj) :=
  let upper := upper_bound key m in
  (match upper with O => None | S lower => m !! lower end, m !! upper).

(** * Ranges that do not overlap *)

Definition covered (m : RangeMap) (k : BSONObj) : Prop := exists a b, (a, b) ∈ m /\ a ≼ k /\ k ≺ b.

Record range_map_wf (m : RangeMap) : Prop := {
  rm_sorted : ksorted m;
  rm_range a b : (a, b) ∈ m -> a ≺ b;
  rm_disjoint a b c d : (a, b) ∈ m -> (c, d) ∈ m -> a ≺ c -> b ≼ c
}.

Lemma range_map_nil : range_map_wf [].
Proof.
  split; [apply ksorted_nil|by intros ? ? ?%not_elem_of_nil|by intros ? ? ? ? ?%not_elem_of_nil].
Qed.

Lemma range_map_cons a b m :
  range_map_wf ((a, b) :: m) <-> range_map_wf m /\ a ≺ b /\ forall c d, (c, d) ∈ m -> b ≼ c.
Proof.
  split.
  - intros [Hs Hr Hd]. apply ksorted_cons in Hs as [Hs Hlt]. split_and!.
    + split; [done|..]; intros; [apply Hr|eapply Hd]; try (by right); done.
    + apply Hr. left.
    + intros c d Hin. apply (Hd a b c d); [left|by right|by eapply Hlt].
  - intros ([Hs Hr Hd] & Hab & Hb). split.
    + apply ksorted_cons. split; [done|]. intros c d Hin. specialize (Hb c d Hin). korder.
    + intros c d [[= -> ->]|Hin]%elem_of_cons; [done|by apply Hr].
    + intros c d c' d' [[= -> ->]|H1]%elem_of_cons [[= -> ->]|H2]%elem_of_cons Hlt; [korder|by eapply Hb| |by eapply Hd].
      specialize (Hb _ _ H1). specialize (Hr _ _ H1). korder.
Qed.

Lemma covered_nil k : ~ covered [] k.
Proof. by intros (a & b & ?%not_elem_of_nil & _). Qed.

Lemma covered_cons a b m k : covered ((a, b) :: m) k <-> (a ≼ k /\ k ≺ b) \/ covered m k.
Proof.
  unfold covered. split.
  - intros (c & d & [[= -> ->]|Hin]%elem_of_cons & Hk); [by left|right; eauto].
  - intros [Hk|(c & d & Hin & Hk)]; [exists a, b|exists c, d]; (split; [|done]); [left|by right].
Qed.

Lemma covered_app m1 m2 k : covered (m1 ++ m2) k <-> covered m1 k \/ covered m2 k.
Proof. unfold covered. setoid_rewrite elem_of_app. naive_solver. Qed.

Lemma covered_unique m k a b c d :
  range_map_wf m -> (a, b) ∈ m -> (c, d) ∈ m -> a ≼ k -> k ≺ b -> c ≼ k -> k ≺ d -> (a, b) = (c, d).
Proof.
  intros [Hs _ Hd] H1 H2 Ha Hb Hc Hk. apply (ksorted_unique m a b c d Hs H1 H2).
  destruct (kltb a c) eqn:E1; [|destruct (kltb c a) eqn:E2; [|korder]].
  - assert (a ≺ c) by korder. pose proof (Hd _ _ _ _ H1 H2 H). korder.
  - assert (c ≺ a) by korder. pose proof (Hd _ _ _ _ H2 H1 H). korder.
Qed.

Lemma neighbours_cons key a b m :
  neighbours key ((a, b) :: m) =
  if kltb key a then (None, Some (a, b))
  else match neighbours key m with (None, upper) => (Some (a, b), upper) | p => p end.
Proof.
  unfold neighbours, RangeMap. simpl. destruct (kltb key a); [done|]. simpl.
  destruct (upper_bound key m) as [|p] eqn:E; [done|]. simpl. pose proof (upper_bound_le_length key m) as Hle.
  destruct (lookup_lt_is_Some_2 m p) as [e He]; [lia|]. by rewrite He.
Qed.

(** The neighbours of a key: the lower one is the only entry that can cover it,
    and there is nothing else between the two. *)
Lemma neighbours_spec key m lower upper :
  range_map_wf m -> neighbours key m = (lower, upper) ->
  (forall a b, lower = Some (a, b) -> (a, b) ∈ m /\ a ≼ key) /\
  (forall c d, upper = Some (c, d) -> (c, d) ∈ m /\ key ≺ c) /\
  forall a b, (a, b) ∈ m ->
    lower = Some (a, b) \/ (exists a' b', lower = Some (a', b') /\ b ≼ a') \/ exists c d, upper = Some (c, d) /\ c ≼ a.
Proof.
  intros Hwf. revert lower upper. induction m as [|[x y] m IH]; intros lower upper.
  { intros [= <- <-]. split_and!; [done..|by intros ? ? ?%not_elem_of_nil]. }
  apply range_map_cons in Hwf as (Hwf & Hxy & Hy). rewrite neighbours_cons.
  destruct (kltb key x) eqn:E.
  - intros [= <- <-]. split_and!; [done|intros c d [= <- <-]; split; [left|korder]|].
    intros a b [[= -> ->]|Hin]%elem_of_cons; right; right; exists x, y; (split; [done|]); [korder|].
    specialize (Hy a b Hin). korder.
  - destruct (neighbours key m) as [l u] eqn:En. specialize (IH Hwf l u eq_refl) as (H1 & H2 & H3).
    destruct l as [[a0 b0]|]; intros [= <- <-]; split_and!.
    + intros a b [= <- <-]. destruct (H1 a0 b0 eq_refl). split; [by right|done].
    + intros c d Hu. destruct (H2 c d Hu). split; [by right|done].
    + intros a b [[= -> ->]|Hin]%elem_of_cons; [|by apply H3]. right. left. exists a0, b0. split; [done|].
      destruct (H1 a0 b0 eq_refl) as [Hin _]. by eapply Hy.
    + intros a b [= <- <-]. split; [left|korder].
    + intros c d Hu. destruct (H2 c d Hu). split; [by right|done].
    + intros a b [[= -> ->]|Hin]%elem_of_cons; [by left|]. destruct (H3 a b Hin) as [?|[(? & ? & ? & _)|?]]; [done|done|].
      by right; right.
Qed.

Lemma neighbours_covered key m lower upper :
  range_map_wf m -> neighbours key m = (lower, upper) ->
  covered m key <-> exists a b, lower = Some (a, b) /\ key ≺ b.
Proof.
  intros Hwf Hn. destruct (neighbours_spec key m lower upper Hwf Hn) as (H1 & H2 & H3). split.
  - intros (a & b & Hin & Ha & Hb). destruct (H3 a b Hin) as [?|[(a' & b' & El & Hle)|(c & d & Hu & Hle)]]; [eauto|..].
    + destruct (H1 a' b' El). korder.
    + destruct (H2 c d Hu). korder.
  - intros (a & b & El & Hb). destruct (H1 a b El). by exists a, b.
Qed.

(** Above the lower neighbour and below the upper one nothing is covered. *)
Lemma neighbours_gap key m lower upper k :
  range_map_wf m -> neighbours key m = (lower, upper) ->
  (forall a b, lower = Some (a, b) -> b ≼ k) -> (forall c d, upper = Some (c, d) -> k ≺ c) -> ~ covered m k.
Proof.
  intros Hwf Hn Hl Hu (a & b & Hin & Ha & Hb).
  destruct (neighbours_spec key m lower upper Hwf Hn) as (H1 & _ & H3).
  destruct (H3 a b Hin) as [El|[(a' & b' & El & Hle)|(c & d & Eu & Hle)]].
  - specialize (Hl _ _ El). korder.
  - specialize (Hl _ _ El). destruct (H1 _ _ El) as [Hin' _]. pose proof (rm_range _ Hwf _ _ Hin'). korder.
  - specialize (Hu _ _ Eu). korder.
Qed.

(** * Overlaps *)

Definition overlapping (m : RangeMap) (lo hi : BSONObj) : Prop := exists a b, (a, b) ∈ m /\ a ≺ hi /\ lo ≺ b.

Lemma wo_lt1 a b : (woCompare a b <? 1) = kleb a b.
Proof. rewrite <- wo_le. destruct (Z.ltb_spec (woCompare a b) 1), (Z.leb_spec (woCompare a b) 0); lia || done. Qed.

Lemma rangeMapOverlaps_cons a b m lo hi :
  lo ≺ hi ->
  rangeMapOverlaps ((a, b) :: m) lo hi =
  if kltb a lo then (lower_bound lo m =? 0)%nat && kltb lo b || rangeMapOverlaps m lo hi else kltb a hi.
Proof.
  intros Hlt. unfold rangeMapOverlaps, rangeMapOverlapBounds, RangeMap. cbn [fst snd lower_bound].
  destruct (kltb a lo) eqn:E1.
  - assert (E2 : kltb a hi = true) by korder. rewrite E2. cbn [lookup list_lookup].
    destruct (lower_bound lo m) as [|j] eqn:Ej; cbn [Nat.eqb andb orb].
    + change (((a, b) :: m) !! 0%nat) with (Some (a, b)). cbv beta iota. rewrite wo_lt1. destruct (kleb b lo) eqn:E3; [assert (E4 : kltb lo b = false) by korder|assert (E4 : kltb lo b = true) by korder];
        rewrite E4; [|done]. done.
    + change (((a, b) :: m) !! S j) with (m !! j). destruct (m !! j) as [[c d]|]; [|done]. destruct (woCompare d lo <? 1); done.
  - destruct (kltb a hi) eqn:E2; done.
Qed.

Lemma lower_bound_pos lo (m : RangeMap) : lower_bound lo m <> 0%nat -> exists c d, (c, d) ∈ m /\ c ≺ lo.
Proof.
  destruct m as [|[c d] m]; cbn; [done|]. destruct (kltb c lo) eqn:E; [|done]. intros _. exists c, d. split; [left|korder].
Qed.

Lemma rangeMapOverlaps_spec m lo hi :
  range_map_wf m -> lo ≺ hi -> rangeMapOverlaps m lo hi = true <-> overlapping m lo hi.
Proof.
  intros Hwf Hlt. induction m as [|[a b] m IH].
  { cbn. split; [done|]. by intros (? & ? & ?%not_elem_of_nil & _). }
  apply range_map_cons in Hwf as (Hwf & Hab & Hb). rewrite rangeMapOverlaps_cons by done. specialize (IH Hwf).
  assert (Hc : overlapping ((a, b) :: m) lo hi <-> (a ≺ hi /\ lo ≺ b) \/ overlapping m lo hi).
  { unfold overlapping. split.
    - intros (c & d & [[= -> ->]|Hin]%elem_of_cons & Hk); [by left|right; eauto].
    - intros [Hk|(c & d & Hin & Hk)]; [exists a, b|exists c, d]; (split; [|done]); [left|by right]. }
  rewrite Hc. destruct (kltb a lo) eqn:E1.
  - rewrite orb_true_iff, IH, andb_true_iff, Nat.eqb_eq. split.
    + intros [[_ H]|H]; [left; split; korder|by right].
    + intros [[_ H]|H]; [|by right]. destruct (decide (lower_bound lo m = 0%nat)) as [?|Hp]; [left; split; [done|korder]|].
      destruct (lower_bound_pos lo m Hp) as (c & d & Hin & Hlo). specialize (Hb c d Hin). korder.
  - split.
    + intros H. left. split; korder.
    + intros [[H _]|(c & d & Hin & H & _)]; [korder|]. specialize (Hb c d Hin). korder.
Qed.

Lemma rangeOverlaps_spec a b c d : rangeOverlaps a b c d = true <-> c ≺ b /\ a ≺ d.
Proof. unfold rangeOverlaps. rewrite !wo_gt, andb_true_iff. split; intros [? ?]; split; korder. Qed.

Lemma rangeContains_spec a b k : rangeContains a b k = true <-> a ≼ k /\ k ≺ b.
Proof. unfold rangeContains. rewrite wo_ge, wo_lt, andb_true_iff, negb_true_iff. split; intros [? ?]; split; korder. Qed.

(** Two ranges overlap exactly if some key is in both. *)
Lemma overlapping_key m lo hi :
  range_map_wf m -> lo ≺ hi -> overlapping m lo hi <-> exists k, lo ≼ k /\ k ≺ hi /\ covered m k.
Proof.
  intros Hwf Hlt. split.
  - intros (a & b & Hin & Ha & Hb). pose proof (rm_range _ Hwf _ _ Hin). destruct (kltb a lo) eqn:E.
    + exists lo. split; [korder|]. split; [done|]. exists a, b. split_and!; [done|korder|done].
    + exists a. split; [korder|]. split; [done|]. exists a, b. split_and!; [done|korder|done].
  - intros (k & H1 & H2 & a & b & Hin & Ha & Hb). exists a, b. split_and!; [done|korder|korder].
Qed.

(** * Changes of a map of ranges *)

Lemma elem_of_sublist {A} (l l' : list A) x : l `sublist_of` l' -> x ∈ l -> x ∈ l'.
Proof. intros Hs Hx. apply elem_of_submseteq with l; [done|]. by apply sublist_submseteq. Qed.

Lemma range_map_sublist (m m' : RangeMap) : range_map_wf m -> m' `sublist_of` m -> range_map_wf m'.
Proof.
  intros Hwf Hsub. induction Hsub as [|[a b] l1 l2 Hs IH|[a b] l1 l2 Hs IH]; [done|..];
    apply range_map_cons in Hwf as (Hwf & Hab & Hb); [|by apply IH].
  apply range_map_cons. split_and!; [by apply IH|done|]. intros c d Hin. apply (Hb c d). by eapply elem_of_sublist.
Qed.

Lemma filter_sublist {A} (f : A -> bool) (l : list A) : List.filter f l `sublist_of` l.
Proof. induction l as [|x l IH]; cbn; [constructor|]. destruct (f x); by constructor. Qed.

Lemma erase_sublist {A} (i : nat) (l : list A) : take i l ++ drop (S i) l `sublist_of` l.
Proof.
  revert i. induction l as [|x l IH]; intros [|i]; cbn; [constructor|constructor|by constructor|]. constructor. apply IH.
Qed.

(** A range that overlaps no entry can be inserted. *)
Lemma range_map_insert (m : RangeMap) (a b : BSONObj) :
  range_map_wf m -> a ≺ b -> ~ overlapping m a b ->
  range_map_wf (map_insert a b m) /\ forall x, x ∈ map_insert a b m <-> x = (a, b) \/ x ∈ m.
Proof.
  intros Hwf Hab Hno.
  assert (Hd : forall c d, (c, d) ∈ m -> b ≼ c \/ d ≼ a).
  { intros c d Hin. destruct (kltb c b) eqn:E1; [|left; korder]. destruct (kltb a d) eqn:E2; [|right; korder].
    exfalso. apply Hno. exists c, d. split_and!; [done|korder|korder]. }
  assert (Hne : forall k' v', (k', v') ∈ m -> ~ a ≅k k').
  { intros c d Hin. pose proof (rm_range _ Hwf c d Hin). destruct (Hd c d Hin); korder. }
  pose proof (fun x => elem_of_map_insert a b m x (rm_sorted _ Hwf) Hne) as He. split; [|exact He]. split.
  - apply map_insert_sorted; [apply Hwf|done].
  - intros c d [[= -> ->]|Hin]%He; [done|by apply (rm_range _ Hwf)].
  - intros c d c' d' [[= -> ->]|H1]%He [[= -> ->]|H2]%He Hlt; [korder| | |by eapply (rm_disjoint _ Hwf)].
    + pose proof (rm_range _ Hwf _ _ H2). destruct (Hd _ _ H2); korder.
    + pose proof (rm_range _ Hwf _ _ H1). destruct (Hd _ _ H1); korder.
Qed.

(** Erasing the entry of a key leaves the others. *)
Lemma map_find_missing (m : list (BSONObj * BSONObj)) k : map_get k m = None -> map_find k m = List.length m.
Proof.
  unfold map_get. intros Hn%fmap_None. unfold map_find in *. destruct (m !! lower_bound k m) as [[k' v]|] eqn:E; [|done].
  destruct (kltb k k'); [done|congruence].
Qed.

Lemma range_map_erase (m : list (BSONObj * BSONObj)) (a b : BSONObj) :
  range_map_wf m -> (a, b) ∈ m ->
  (map_find a m < List.length m)%nat /\ range_map_wf (erase_at (map_find a m) m) /\
  (forall x, x ∈ erase_at (map_find a m) m -> x ∈ m) /\
  forall c d, (c, d) ∈ erase_at (map_find a m) m -> b ≼ c \/ d ≼ a.
Proof.
  intros Hwf Hin. pose proof (erase_sublist (map_find a m) m) as Hsub.
  assert (Hget : map_get a m = Some b) by (apply map_get_Some; [apply Hwf|exists a; split; [done|korder]]).
  unfold map_get in Hget. destruct (m !! map_find a m) as [[a' b']|] eqn:E; [|done]. injection Hget as ->.
  assert (Hin' : (a', b) ∈ m) by (by eapply list_elem_of_lookup_2).
  assert (Ea : a ≅k a').
  { unfold map_find in E. destruct (m !! lower_bound a m) as [[k1 v1]|] eqn:E1; [|apply lookup_lt_Some in E; lia].
    pose proof (lower_bound_lookup _ _ _ _ (rm_sorted _ Hwf) E1).
    destruct (kltb a k1) eqn:E2; [by rewrite lookup_ge_None_2 in E|]. rewrite E1 in E. injection E as -> ->. korder. }
  split_and!.
  - by eapply lookup_lt_Some.
  - by eapply range_map_sublist.
  - intros x Hx. by eapply elem_of_sublist.
  - intros c d Hcd. unfold erase_at in Hcd.
    assert (Es : m = take (map_find a m) m ++ (a', b) :: drop (S (map_find a m)) m) by (symmetry; by apply take_drop_middle).
    pose proof (rm_sorted _ Hwf) as Hs. rewrite Es in Hs. apply ksorted_app in Hs as (_ & Hs2 & Hs3).
    apply ksorted_cons in Hs2 as [_ Hs2]. apply elem_of_app in Hcd as [Hcd|Hcd].
    + right. assert (c ≺ a') by (eapply Hs3; [exact Hcd|left]).
      assert (d ≼ a') by (eapply (rm_disjoint _ Hwf); [eapply elem_of_take_weak; exact Hcd|exact Hin'|done]). korder.
    + left. eapply (rm_disjoint _ Hwf); [exact Hin'|eapply elem_of_drop_weak; exact Hcd|by eapply Hs2].
Qed.
