(* ===== verification/CollectionMetadata.v ===== *)
(** What a shard knows about a sharded collection
    (db/s/collection_metadata.h, db/s/collection_metadata.cpp): its own chunks,
    their coalesced ranges, and the ranges of keys it does not own. *)

From stdpp Require Import base list sorting strings.
From Stdlib Require Import ZArith Lia String.
From S2P Require Import Prelude OrdMap Tiling Bson ChunkVersion ChunkType ShardKey Chunk ChunkManager RangeMap.
From S2P Require Import ConfigChunks.
Local Open Scope string_scope.
Local Open Scope Z_scope.
Local Open Scope list_scope.
Local Open Scope outcome_scope.

Record CollectionMetadata := mkMetadata {
  md_cm : ChunkManager;
  md_thisShardId : ShardId;
  md_shardVersion : ChunkVersion;
  md_chunksMap : RangeMap;
  md_rangesMap : RangeMap
}.

Definition getCollVersion (m : CollectionMetadata) : ChunkVersion := cm_collectionVersion (md_cm m).
Definition getShardVersion (m : CollectionMetadata) : ChunkVersion := md_shardVersion m.
Definition getNumChunks (m : CollectionMetadata) : Z := Z.of_nat (List.length (md_chunksMap m)).
Definition isValidKey (m : CollectionMetadata) (key : BSONObj) : bool := isShardKey (cm_shardKeyPattern (md_cm m)) key.
Definition getMinKey (m : CollectionMetadata) : BSONObj := globalMin (skp_pattern (cm_shardKeyPattern (md_cm m))).
Definition getMaxKey (m : CollectionMetadata) : BSONObj := globalMax (skp_pattern (cm_shardKeyPattern (md_cm m))).

(** The chunks of the shard, by their lower bounds. *)
Definition chunks_of (cm : ChunkManager) (thisShardId : ShardId) : RangeMap :=
  foldl (fun m e => if negb (String.eqb (getShardId e.2) thisShardId) then m else map_insert (getMin e.2) (getMax e.2) m)
    [] (cm_chunkMap cm).

(** The loop of [_buildRangesMap] with what follows it; [min] and [max] are
    empty at the start. *)
Fixpoint build_loop (chunks : RangeMap) (min max : BSONObj) (rangesMap : RangeMap) : Outcome RangeMap :=
  match chunks with
  | [] =>
      invariant (negb (isEmpty min)) ;*
      invariant (negb (isEmpty max)) ;*
      Ret (map_insert min max rangesMap)
  | (currMin, currMax) :: chunks =>
      if isEmpty min then build_loop chunks currMin currMax rangesMap
      else if woCompare max currMin =? 0 then build_loop chunks min currMax rangesMap
      else build_loop chunks currMin currMax (map_insert min max rangesMap)
  end.
Definition _buildRangesMap (chunksMap : RangeMap) : Outcome RangeMap := build_loop chunksMap [] [] [].

Definition newCollectionMetadata (cm : ChunkManager) (thisShardId : ShardId) : Outcome CollectionMetadata :=
  let shardVersion := getVersion cm thisShardId in
  invariant (isSet (cm_collectionVersion cm)) ;*
  invariant (version_ge (cm_collectionVersion cm) shardVersion) ;*
  let chunksMap := chunks_of cm thisShardId in
  match chunksMap with
  | [] =>
      invariant (negb (isSet shardVersion)) ;*
      Ret (mkMetadata cm thisShardId shardVersion [] [])
  | _ =>
      invariant (isSet shardVersion) ;*
      let* rangesMap := _buildRangesMap chunksMap in
      Ret (mkMetadata cm thisShardId shardVersion chunksMap rangesMap)
  end.

Definition keyBelongsToMe (m : CollectionMetadata) (key : BSONObj) : bool :=
  match md_rangesMap m with
  | [] => false
  | _ =>
      match md_rangesMap m !! Nat.pred (upper_bound key (md_rangesMap m)) with
      | Some (mn, mx) => rangeContains mn mx key
      | None => false
      end
  end.

(** The bounds of the chunk, if there is one. *)
Definition getNextChunk (m : CollectionMetadata) (lookupKey : BSONObj) : option (BSONObj * BSONObj) :=
  let '(lower, upper) := neighbours lookupKey (md_chunksMap m) in
  match lower with
  | Some (mn, mx) => if 0 <? woCompare mx lookupKey then Some (mn, mx) else upper
  | None => upper
  end.

Definition getDifferentChunk (m : CollectionMetadata) (chunkMinKey : BSONObj) : option (BSONObj * BSONObj) :=
  List.find (fun e => negb (woCompare e.1 chunkMinKey =? 0)) (md_chunksMap m).

Definition checkChunkIsValid (m : CollectionMetadata) (mn mx : BSONObj) : StatusWith unit :=
  match getNextChunk m mn with
  | None => NotOK StaleShardVersion
  | Some (emn, emx) =>
      if negb (woCompare emn mn =? 0) || negb (woCompare emx mx =? 0) then NotOK StaleShardVersion else OK ()
  end.

Definition rangeOverlapsChunk (m : CollectionMetadata) (range : ChunkRange) : bool :=
  rangeMapOverlaps (md_rangesMap m) (_minKey range) (_maxKey range).

(** [patchLookupKey]: the end of the entry that contains the key, or the
    neighbours of the key. *)
Definition patchLookupKey (map : RangeMap) (lookupKey : BSONObj)
    : BSONObj + (option (BSONObj * BSONObj) * option (BSONObj * BSONObj)) :=
  let '(lower, upper) := neighbours lookupKey map in
  match lower with
  | Some (_, mx) => if 0 <? woCompare mx lookupKey then inl mx else inr (lower, upper)
  | None => inr (lower, upper)
  end.

Definition patchArgRange (its : option (BSONObj * BSONObj) * option (BSONObj * BSONObj)) (range : BSONObj * BSONObj)
    : BSONObj * BSONObj :=
  let '(rangeMin, rangeMax) := range in
  (match its.1 with Some (_, mx) => if 0 <? woCompare mx rangeMin then mx else rangeMin | None => rangeMin end,
   match its.2 with Some (mn, _) => if woCompare mn rangeMax <? 0 then mn else rangeMax | None => rangeMax end).

(** The loop skips one chunk or pending range per turn. *)
Fixpoint orphan_loop (fuel : nat) (m : CollectionMetadata) (receivingChunks : RangeMap) (lookupKey : BSONObj)
    : Outcome (option ChunkRange) :=
  if negb (woCompare lookupKey (getMaxKey m) <? 0) then Ret None
  else
    match fuel with
    | O => Undef
    | S fuel =>
        match patchLookupKey (md_chunksMap m) lookupKey with
        | inl next => orphan_loop fuel m receivingChunks next
        | inr chunksIts =>
            match patchLookupKey receivingChunks lookupKey with
            | inl next => orphan_loop fuel m receivingChunks next
            | inr pendingIts =>
                let '(rangeMin, rangeMax) :=
                  patchArgRange pendingIts (patchArgRange chunksIts (getMinKey m, getMaxKey m)) in
                Ret (Some (mkRange rangeMin rangeMax))
            end
        end
    end.
Definition getNextOrphanRange (m : CollectionMetadata) (receivingChunks : RangeMap) (lookupKey : BSONObj)
    : Outcome (option ChunkRange) :=
  orphan_loop (S (List.length (md_chunksMap m) + List.length receivingChunks)) m receivingChunks lookupKey.

(** * The chunks of a routing table *)

Definition valid_chunk (c : Chunk) : Prop := isSet (getLastmod c) = true /\ getMin c <> [] /\ getMax c <> [].

Definition valid_chunks (m : ChunkMap) : Prop := forall k c, (k, c) ∈ m -> valid_chunk c.

Lemma newChunk_wf seed ch c : newChunk seed ch = Ret c -> valid_chunk c.
Proof.
  intros H. destruct (newChunk_Ret _ _ _ H) as (Hv & Hmn & Hmx & _ & Hcv & _).
  apply validate_inv in Hv as (mn & mx & v & s & E1 & E2 & E3 & _ & Hn1 & Hn2 & Hset & _).
  split_and!; congruence.
Qed.

Lemma changes_valid changes m v m' v' :
  chunk_map_wf m -> valid_chunks m -> ofold apply_change (m, v) changes = Ret (m', v') -> valid_chunks m'.
Proof.
  intros Hwf Hm Hf.
  apply (ofold_inv (fun st : ChunkMap * ChunkVersion => chunk_map_wf st.1 /\ valid_chunks st.1) _ _ _ _) in Hf as [_ ?];
    [done| |by split].
  intros [m1 v1] [ch seed] [m2 v2] _ [Hw Hv] Ha. cbn [fst] in *.
  destruct (apply_change_spec _ _ _ _ _ _ Hw Ha) as (c & Hc & Hw2 & Hiff). split; [done|].
  intros k x [[= -> ->]|[Hin _]]%Hiff; [by eapply newChunk_wf|by eapply Hv].
Qed.

Lemma makeUpdated_valid seq cm changes seq' cm' :
  cm_ok cm -> valid_chunks (cm_chunkMap cm) -> makeUpdated seq cm changes = Ret (seq', cm') ->
  valid_chunks (cm_chunkMap cm').
Proof.
  intros Hok Hv Hu. apply makeUpdated_inv in Hu as [[-> _]|(_ & _ & _ & _ & _ & _ & Hf & _)]; [done| |done].
  eapply changes_valid; [apply Hok|exact Hv|exact Hf].
Qed.

Lemma reachable_valid cm : reachable cm -> valid_chunks (cm_chunkMap cm).
Proof.
  induction 1 as [seq nss kp coll u epoch chunks seq' cm Hn|seq cm changes seq' cm' Hr IH Hu].
  - unfold makeNew in Hn. apply obind_Ret_inv in Hn as ([s0 cm0] & H0 & Hn).
    apply newChunkManager_ok in H0 as (Hok & Hm & _);
      [|split; [apply ksorted_nil|by intros ? ? ?%not_elem_of_nil]|by intros ? ? ?%not_elem_of_nil].
    apply obind_Ret_inv in Hn as ([s1 cm1] & Hu & Hn). simpl in Hn. destruct (s1 =? s0); [done|]. injection Hn as <- <-.
    eapply makeUpdated_valid; [exact Hok| |exact Hu]. rewrite Hm. by intros ? ? ?%not_elem_of_nil.
  - eapply makeUpdated_valid; [by apply reachable_ok|done|done].
Qed.

(** * The chunks of the shard *)

(** A key is in a chunk of the shard. *)
Definition owns (cm : ChunkManager) (s : ShardId) (k : BSONObj) : Prop :=
  exists mx c, (mx, c) ∈ cm_chunkMap cm /\ getShardId c = s /\ in_range (c_range c) k.

Definition own_rows (s : ShardId) (m : ChunkMap) : RangeMap :=
  (fun e => (getMin e.2, getMax e.2)) <$> List.filter (fun e => String.eqb (getShardId e.2) s) m.

Lemma own_rows_cons s k c m :
  own_rows s ((k, c) :: m) = if String.eqb (getShardId c) s then (getMin c, getMax c) :: own_rows s m else own_rows s m.
Proof. unfold own_rows. cbn. by destruct (String.eqb (getShardId c) s). Qed.

Lemma elem_own_rows s m a b : (a, b) ∈ own_rows s m <-> exists k c, (k, c) ∈ m /\ getShardId c = s /\ getMin c = a /\ getMax c = b.
Proof.
  unfold own_rows. rewrite list_elem_of_fmap. split.
  - intros ([k c] & [= -> ->] & [Hin E%String.eqb_eq]%list_elem_of_In%filter_In). exists k, c. by rewrite list_elem_of_In.
  - intros (k & c & Hin & E & <- & <-). exists (k, c). split; [done|]. apply list_elem_of_In, filter_In.
    rewrite <- list_elem_of_In. split; [done|by apply String.eqb_eq].
Qed.

Lemma own_rows_wf s lo m hi :
  (forall k c, (k, c) ∈ m -> k = getMax c) -> tiling getMin lo m hi ->
  range_map_wf (own_rows s m) /\ forall a b, (a, b) ∈ own_rows s m -> lo ≼ a /\ b ≼ hi.
Proof.
  revert lo. induction m as [|[k c] m IH]; intros lo Hk Ht.
  - split; [apply range_map_nil|by intros ? ? ?%not_elem_of_nil].
  - destruct Ht as (Hlo & Hlt & Ht). destruct (IH k) as [Hwf Hin]; [intros; apply Hk; by right|done|].
    pose proof (tiling_le _ _ _ _ Ht). rewrite own_rows_cons. pose proof (Hk k c ltac:(left)) as ->.
    destruct (String.eqb (getShardId c) s).
    + split; [apply range_map_cons; split_and!; [done|korder|]|].
      * intros a b Hab. by apply Hin in Hab as [? _].
      * intros a b [[= -> ->]|Hab]%elem_of_cons; [split; korder|]. apply Hin in Hab as [? ?]. split; korder.
    + split; [done|]. intros a b Hab. apply Hin in Hab as [? ?]. split; korder.
Qed.

Lemma insert_rows (acc rows : RangeMap) :
  range_map_wf (acc ++ rows) -> foldl (fun m e => map_insert e.1 e.2 m) acc rows = acc ++ rows.
Proof.
  revert acc. induction rows as [|[a b] rows IH]; intros acc Hwf; cbn [foldl]; [by rewrite app_nil_r|].
  rewrite map_insert_end.
  - rewrite IH; rewrite <- app_assoc; done.
  - intros a' b' Hin. destruct (proj1 (ksorted_app _ _) (rm_sorted _ Hwf)) as (_ & _ & H). by eapply H; [|left].
Qed.

Lemma chunks_of_rows cm s lo hi :
  chunk_map_wf (cm_chunkMap cm) -> tiling getMin lo (cm_chunkMap cm) hi -> chunks_of cm s = own_rows s (cm_chunkMap cm).
Proof.
  intros [_ Hk] Ht. unfold chunks_of.
  assert (E : forall m acc, foldl (fun m e => if negb (String.eqb (getShardId e.2) s) then m else map_insert (getMin e.2) (getMax e.2) m)
    acc m = foldl (fun m e => map_insert e.1 e.2 m) acc (own_rows s m)).
  { intros m. induction m as [|[k c] m IH]; intros acc; [done|]. rewrite own_rows_cons. cbn [foldl fst snd].
    destruct (String.eqb (getShardId c) s); cbn [negb foldl fst snd]; apply IH. }
  rewrite E. apply (insert_rows []). eapply own_rows_wf; [|exact Ht]. intros k c Hin. by destruct (Hk k c Hin).
Qed.

Lemma build_loop_ok (chunks : RangeMap) (mn mx : BSONObj) (acc : RangeMap) :
  mn <> [] -> mx <> [] -> (forall a b, (a, b) ∈ chunks -> a <> [] /\ b <> []) ->
  range_map_wf (acc ++ (mn, mx) :: chunks) ->
  exists rm, build_loop chunks mn mx acc = Ret rm /\ range_map_wf rm /\
    forall k, covered rm k <-> covered (acc ++ (mn, mx) :: chunks) k.
Proof.
  revert mn mx acc. induction chunks as [|[a b] chunks IH]; intros mn mx acc Hmn Hmx Hne Hwf; cbn [build_loop].
  - destruct mn as [|e mn]; [done|]. destruct mx as [|e' mx]; [done|]. cbn [isEmpty negb invariant obind].
    pose proof (insert_rows acc [(e :: mn, e' :: mx)] Hwf) as E. cbn [foldl fst snd] in E. rewrite E. eauto.
  - assert (He : isEmpty mn = false) by (by destruct mn). rewrite He, wo_eq.
    destruct (Hne a b ltac:(left)) as [Ha Hb].
    assert (Hne' : forall a b, (a, b) ∈ chunks -> a <> [] /\ b <> []) by (intros; apply Hne; by right).
    destruct (keqb mx a) eqn:E.
    + destruct (IH mn b acc) as (rm & Hr & Hw & Hc); [done..| |].
      { clear -Hwf E. induction acc as [|[c d] acc IH]; cbn in *.
        - apply range_map_cons in Hwf as (Hwf & H1 & H2). apply range_map_cons in Hwf as (Hwf & H3 & H4).
          apply range_map_cons. split_and!; [done|korder|done].
        - apply range_map_cons in Hwf as (Hwf & H1 & H2). apply range_map_cons. split_and!; [by apply IH|done|].
          intros x y [Hin|[[= -> ->]|Hin]%elem_of_cons]%elem_of_app; (eapply H2, elem_of_app);
            [by left|right; left|right; right; by right]. }
      exists rm. split_and!; [exact Hr|done|]. intros k. rewrite Hc, !covered_app, !covered_cons.
      assert (Hkk : (mn ≼ k /\ k ≺ b) <-> (mn ≼ k /\ k ≺ mx) \/ (a ≼ k /\ k ≺ b)).
      { assert (Hx : mn ≺ mx) by (apply (rm_range _ Hwf), elem_of_app; right; left).
        assert (Hy : a ≺ b) by (apply (rm_range _ Hwf), elem_of_app; right; right; left).
        split; [|intros [[? ?]|[? ?]]; split; korder]. intros [? ?].
        destruct (kltb k mx) eqn:Ek; [left|right]; split; korder. }
      tauto.
    + destruct (IH a b (acc ++ [(mn, mx)])) as (rm & Hr & Hw & Hc); [done..|by rewrite <- app_assoc|].
      exists rm. rewrite map_insert_end.
      * split_and!; [exact Hr|done|]. intros k. rewrite Hc, <- app_assoc. done.
      * intros c d Hin. destruct (proj1 (ksorted_app _ _) (rm_sorted _ Hwf)) as (_ & _ & H). by eapply H; [|left].
Qed.

(** What the metadata of a shard holds. *)
Record metadata_ok (cm : ChunkManager) (s : ShardId) (m : CollectionMetadata) : Prop := {
  mo_cm : md_cm m = cm;
  mo_shard : md_thisShardId m = s;
  mo_version : md_shardVersion m = getVersion cm s;
  mo_chunks : md_chunksMap m = own_rows s (cm_chunkMap cm);
  mo_chunks_wf : range_map_wf (md_chunksMap m);
  mo_ranges_wf : range_map_wf (md_rangesMap m);
  mo_ranges k : covered (md_rangesMap m) k <-> covered (md_chunksMap m) k
}.

Lemma getVersion_set cm s : reachable cm ->
  isSet (getVersion cm s) = true <-> exists k c, (k, c) ∈ cm_chunkMap cm /\ getShardId c = s.
Proof.
  intros Hr. destruct (getVersion_max cm s Hr) as (H1 & H2 & H3). split.
  - intros Hset. apply H3. destruct (decide (s ∈ getAllShardIds cm)) as [|Hn]; [done|]. exfalso.
    rewrite H2 in Hset; [done|]. intros k c Hin E. apply Hn, H3. eauto.
  - intros He. destruct (H1 He) as [(k & c & Hin & _ & <-) _]. by eapply reachable_valid.
Qed.

Lemma getVersion_le cm s : reachable cm -> isSet (cm_collectionVersion cm) = true ->
  version_ge (cm_collectionVersion cm) (getVersion cm s) = true.
Proof.
  intros Hr Hset. destruct (reachable_ok cm Hr) as [Hok _]. destruct (getVersion_max cm s Hr) as (H1 & H2 & H3).
  unfold version_ge. apply Z.leb_le. destruct (decide (s ∈ getAllShardIds cm)) as [Hs|Hs].
  - apply H3 in Hs. destruct (H1 Hs) as [(k & c & Hin & _ & <-) _]. by apply (ok_versions _ Hok k c Hin).
  - rewrite H2; [|intros k c Hin E; apply Hs, H3; eauto]. unfold isSet in Hset. apply Z.ltb_lt in Hset.
    change (toLong (newVersion 0 0 _)) with 0. lia.
Qed.

Lemma newCollectionMetadata_ok cm s lo hi :
  reachable cm -> tiling getMin lo (cm_chunkMap cm) hi ->
  exists m, newCollectionMetadata cm s = Ret m /\ metadata_ok cm s m.
Proof.
  intros Hr Ht. destruct (reachable_ok cm Hr) as [Hok (k0 & c0 & Hin0 & Hv0)]. pose proof (reachable_valid cm Hr) as Hval.
  assert (Hset : isSet (cm_collectionVersion cm) = true) by (rewrite <- Hv0; by eapply Hval).
  assert (Hk : forall k c, (k, c) ∈ cm_chunkMap cm -> k = getMax c) by (intros k c Hin; by apply (ok_map _ Hok)).
  destruct (own_rows_wf s lo _ hi Hk Ht) as [Hwf _].
  unfold newCollectionMetadata. rewrite Hset, (getVersion_le cm s Hr Hset). cbn [invariant obind].
  rewrite (chunks_of_rows cm s lo hi (ok_map _ Hok) Ht). pose proof (getVersion_set cm s Hr) as Hs.
  destruct (own_rows s (cm_chunkMap cm)) as [|[a b] rows] eqn:E.
  - assert (Hn : isSet (getVersion cm s) = false).
    { apply not_true_iff_false. rewrite Hs. intros (k & c & Hin & Esh).
      assert (Hrow : (getMin c, getMax c) ∈ own_rows s (cm_chunkMap cm)) by (apply elem_own_rows; eauto 10).
      rewrite E in Hrow. by apply not_elem_of_nil in Hrow. }
    rewrite Hn. cbn [negb invariant obind]. eexists. split; [reflexivity|]. split; cbn; done.
  - assert (Hne : forall a b, (a, b) ∈ own_rows s (cm_chunkMap cm) -> a <> [] /\ b <> []).
    { intros x y (k & c & Hin & _ & <- & <-)%elem_own_rows. by destruct (Hval k c Hin) as (_ & ? & ?). }
    rewrite E in Hne. destruct (Hne a b ltac:(left)) as [Ha Hb].
    rewrite (proj2 Hs). 2:{ assert (Hrow : (a, b) ∈ own_rows s (cm_chunkMap cm)) by (rewrite E; left).
      apply elem_own_rows in Hrow as (k & c & Hin & Esh & _). eauto. }
    cbn [invariant obind]. unfold _buildRangesMap. cbn [build_loop isEmpty].
    destruct (build_loop_ok rows a b []) as (rm & -> & Hw & Hc); [done|done|intros; apply Hne; by right|done|].
    cbn [obind]. eexists. split; [reflexivity|]. split; cbn; try done.
Qed.

Lemma own_rows_covered s m k : (forall x c, (x, c) ∈ m -> x = getMax c) ->
  covered (own_rows s m) k <-> exists mx c, (mx, c) ∈ m /\ getShardId c = s /\ in_range (c_range c) k.
Proof.
  intros _. unfold covered. split.
  - intros (a & b & (x & c & Hin & E & <- & <-)%elem_own_rows & H1 & H2). exists x, c. by split_and!.
  - intros (x & c & Hin & E & H1 & H2). exists (getMin c), (getMax c). split; [|done]. apply elem_own_rows. eauto 10.
Qed.

Lemma keyBelongs_covered m k : range_map_wf (md_rangesMap m) -> keyBelongsToMe m k = true <-> covered (md_rangesMap m) k.
Proof.
  intros Hwf. unfold keyBelongsToMe. destruct (neighbours k (md_rangesMap m)) as [l u] eqn:En.
  rewrite (neighbours_covered _ _ _ _ Hwf En). pose proof (neighbours_spec _ _ _ _ Hwf En) as (H1 & H2 & _).
  unfold neighbours in En. destruct (md_rangesMap m) as [|[a b] rm] eqn:E.
  - injection En as <- <-. split; [done|]. by intros (? & ? & ? & _).
  - destruct (upper_bound k ((a, b) :: rm)) as [|p]; injection En as <- <-; cbn [Nat.pred].
    + specialize (H2 a b eq_refl). destruct H2 as [_ H2]. split; [|by intros (? & ? & ? & _)].
      cbn. rewrite rangeContains_spec. intros [? _]. korder.
    + unfold RangeMap in *. destruct (((a, b) :: rm) !! p) as [[c d]|] eqn:Ep.
      * pose proof (H1 c d eq_refl) as [_ Hc]. rewrite rangeContains_spec. split; [intros [_ ?]; eauto|].
        intros (a' & b' & [= <- <-] & ?). done.
      * split; [done|]. by intros (? & ? & ? & _).
Qed.

(** * Orphaned ranges *)

(** The entries that end after a key. *)
Definition ahead (k : BSONObj) (m : RangeMap) : nat := List.length (List.filter (fun e => kltb k e.2) m).

Lemma ahead_le k (m : RangeMap) : (ahead k m <= List.length m)%nat.
Proof. apply filter_length_le. Qed.

Lemma ahead_mono k k' (m : RangeMap) : k ≼ k' -> (ahead k' m <= ahead k m)%nat.
Proof.
  intros Hk. unfold ahead. induction m as [|[a b] m IH]; [done|]. cbn.
  destruct (kltb k' b) eqn:E1, (kltb k b) eqn:E2; cbn; try lia. korder.
Qed.

Lemma ahead_lt k (m : RangeMap) a b : (a, b) ∈ m -> k ≺ b -> (ahead b m < ahead k m)%nat.
Proof.
  intros Hin Hk. unfold ahead. induction m as [|[c d] m IH]; [by apply not_elem_of_nil in Hin|]. cbn.
  apply elem_of_cons in Hin as [[= -> ->]|Hin].
  - assert (E1 : kltb d d = false) by korder. assert (E2 : kltb k d = true) by korder. rewrite E1, E2. cbn.
    pose proof (ahead_mono k d m ltac:(korder)). unfold ahead in *. lia.
  - specialize (IH Hin). destruct (kltb b d) eqn:E1, (kltb k d) eqn:E2; cbn; try lia. korder.
Qed.

Lemma patchLookupKey_spec map key :
  range_map_wf map ->
  match patchLookupKey map key with
  | inl next => exists a, (a, next) ∈ map /\ a ≼ key /\ key ≺ next
  | inr (lower, upper) =>
      neighbours key map = (lower, upper) /\ (forall a b, lower = Some (a, b) -> b ≼ key) /\
      (forall c d, upper = Some (c, d) -> key ≺ c)
  end.
Proof.
  intros Hwf. unfold patchLookupKey. destruct (neighbours key map) as [lower upper] eqn:En.
  destruct (neighbours_spec key map lower upper Hwf En) as (H1 & H2 & _).
  assert (Hu : forall c d, upper = Some (c, d) -> key ≺ c) by (intros c d E; by apply H2 in E as [_ ?]).
  destruct lower as [[a b]|]; [|done]. rewrite wo_gt. destruct (kltb key b) eqn:E.
  - destruct (H1 a b eq_refl) as [? ?]. exists a. split_and!; [done..|korder].
  - split; [done|]. split; [|done]. intros x y [= <- <-]. korder.
Qed.

Lemma patchArgRange_spec its mn mx key :
  mn ≼ key -> key ≺ mx -> (forall a b, its.1 = Some (a, b) -> b ≼ key) -> (forall c d, its.2 = Some (c, d) -> key ≺ c) ->
  match patchArgRange its (mn, mx) with
  | (mn', mx') =>
      mn ≼ mn' /\ mn' ≼ key /\ key ≺ mx' /\ mx' ≼ mx /\
      (forall a b, its.1 = Some (a, b) -> b ≼ mn') /\ (forall c d, its.2 = Some (c, d) -> mx' ≼ c)
  end.
Proof.
  intros Hmn Hmx Hl Hu. unfold patchArgRange. destruct its as [lower upper]. cbn [fst snd] in *.
  split_and!.
  - destruct lower as [[a b]|]; [|korder]. rewrite wo_gt. destruct (kltb mn b) eqn:E; korder.
  - destruct lower as [[a b]|]; [|korder]. specialize (Hl a b eq_refl). rewrite wo_gt. destruct (kltb mn b) eqn:E; korder.
  - destruct upper as [[c d]|]; [|korder]. specialize (Hu c d eq_refl). rewrite wo_lt. destruct (kltb c mx) eqn:E; korder.
  - destruct upper as [[c d]|]; [|korder]. rewrite wo_lt. destruct (kltb c mx) eqn:E; korder.
  - intros a b ->. rewrite wo_gt. destruct (kltb mn b) eqn:E; korder.
  - intros c d ->. rewrite wo_lt. destruct (kltb c mx) eqn:E; korder.
Qed.

(** The result for a lookup key: a range without owned or pending keys such that
    all keys before it are owned or pending, or nothing if all keys are. *)
Definition next_orphans (m : CollectionMetadata) (receiving : RangeMap) (key : BSONObj) (r : option ChunkRange) : Prop :=
  let taken k := covered (md_chunksMap m) k \/ covered receiving k in
  match r with
  | Some r =>
      (forall k, in_range r k -> ~ taken k) /\ (forall k, key ≼ k -> k ≺ _minKey r -> taken k) /\
      key ≺ _maxKey r /\ _minKey r ≺ _maxKey r /\ getMinKey m ≼ _minKey r /\ _maxKey r ≼ getMaxKey m
  | None => forall k, key ≼ k -> k ≺ getMaxKey m -> taken k
  end.

Lemma orphan_loop_spec m receiving fuel key :
  range_map_wf (md_chunksMap m) -> range_map_wf receiving -> getMinKey m ≼ key ->
  (ahead key (md_chunksMap m) + ahead key receiving < fuel)%nat ->
  exists r, orphan_loop fuel m receiving key = Ret r /\ next_orphans m receiving key r.
Proof.
  intros Hc Hr. revert key. induction fuel as [|fuel IH]; intros key Hmin Hf; [lia|]. cbn [orphan_loop]. rewrite wo_lt.
  destruct (kltb key (getMaxKey m)) eqn:E; cbn [negb].
  2:{ eexists. split; [reflexivity|]. intros k ? ?. korder. }
  (* a chunk or pending range that holds the key is skipped *)
  assert (Hskip : forall a next, ((a, next) ∈ md_chunksMap m \/ (a, next) ∈ receiving) -> a ≼ key -> key ≺ next ->
    exists r, orphan_loop fuel m receiving next = Ret r /\ next_orphans m receiving key r).
  { intros a next Hin Ha Hk. destruct (IH next) as (r & Er & Hn); [korder| |].
    - destruct Hin as [Hin|Hin].
      + pose proof (ahead_lt key _ a next Hin Hk). pose proof (ahead_mono key next receiving ltac:(korder)). lia.
      + pose proof (ahead_lt key _ a next Hin Hk). pose proof (ahead_mono key next (md_chunksMap m) ltac:(korder)). lia.
    - exists r. split; [done|]. unfold next_orphans in *.
      assert (Hcov : forall k, key ≼ k -> k ≺ next -> covered (md_chunksMap m) k \/ covered receiving k).
      { intros k H1 H2. destruct Hin as [Hin|Hin]; [left|right]; exists a, next; (split_and!; [done|korder|done]). }
      destruct r as [r|].
      + destruct Hn as (H1 & H2 & H3 & H4 & H5 & H6). split_and!; [done| |korder|done..]. intros k Hk1 Hk2.
        destruct (kltb k next) eqn:Ek; [apply Hcov; korder|apply H2; korder].
      + intros k Hk1 Hk2. destruct (kltb k next) eqn:Ek; [apply Hcov; korder|apply Hn; korder]. }
  pose proof (patchLookupKey_spec (md_chunksMap m) key Hc) as H1.
  destruct (patchLookupKey (md_chunksMap m) key) as [next|[l1 u1]].
  { destruct H1 as (a & Hin & Ha & Hk). eapply Hskip; eauto. }
  pose proof (patchLookupKey_spec receiving key Hr) as H2. destruct (patchLookupKey receiving key) as [next|[l2 u2]].
  { destruct H2 as (a & Hin & Ha & Hk). eapply Hskip; eauto. }
  destruct H1 as (E1 & Hl1 & Hu1), H2 as (E2 & Hl2 & Hu2).
  pose proof (patchArgRange_spec (l1, u1) (getMinKey m) (getMaxKey m) key Hmin ltac:(korder) Hl1 Hu1) as P1.
  destruct (patchArgRange (l1, u1) _) as [mn1 mx1]. destruct P1 as (P11 & P12 & P13 & P14 & P15 & P16).
  pose proof (patchArgRange_spec (l2, u2) mn1 mx1 key P12 P13 Hl2 Hu2) as P2.
  destruct (patchArgRange (l2, u2) _) as [mn2 mx2]. destruct P2 as (P21 & P22 & P23 & P24 & P25 & P26). cbn [fst snd] in *.
  eexists. split; [reflexivity|]. cbn [next_orphans _minKey _maxKey]. split_and!; try korder.
  intros k [Hk1 Hk2]. cbn [_minKey _maxKey] in *. intros [Hk|Hk]; revert Hk.
  - apply (neighbours_gap key _ l1 u1 k Hc E1); [intros a b El; specialize (P15 a b El); korder|].
    intros c d Eu. specialize (P16 c d Eu). korder.
  - apply (neighbours_gap key _ l2 u2 k Hr E2); [intros a b El; specialize (P25 a b El); korder|].
    intros c d Eu. specialize (P26 c d Eu). korder.
Qed.

(** * What the metadata answers *)

(** C22: For every complete routing table the metadata of a shard is built without
    failing an invariant; it carries the version of the shard, set exactly if the
    shard has chunks, and [keyBelongsToMe], which searches the coalesced ranges,
    holds exactly for the keys in a chunk of the shard. *)
Theorem metadata_exact cm s lo hi :
  reachable cm -> tiling getMin lo (cm_chunkMap cm) hi ->
  exists m, newCollectionMetadata cm s = Ret m /\ getShardVersion m = getVersion cm s /\
    (isSet (getShardVersion m) = true <-> exists k c, (k, c) ∈ cm_chunkMap cm /\ getShardId c = s) /\
    forall k, keyBelongsToMe m k = true <-> owns cm s k.
Proof.
  intros Hr Ht. destruct (newCollectionMetadata_ok cm s lo hi Hr Ht) as (m & E & [Hcm Hs Hv Hch Hw1 Hw2 Hcov]).
  exists m. unfold getShardVersion. rewrite Hv. split_and!; [done..|by apply getVersion_set|]. intros k.
  rewrite (keyBelongs_covered m k Hw2), Hcov, Hch. destruct (reachable_ok cm Hr) as [Hok _].
  apply own_rows_covered. intros x c Hin. by apply (ok_map _ Hok).
Qed.

(** [getNextOrphanRange] ends and returns the first range at or after the
    lookup key that the shard neither owns nor receives, as long as possible:
    every key before it is owned or being received; it returns nothing exactly
    if all keys up to the end of the key space are. *)
Lemma getNextOrphanRange_exact m receiving key :
  range_map_wf (md_chunksMap m) -> range_map_wf receiving -> getMinKey m ≼ key ->
  exists r, getNextOrphanRange m receiving key = Ret r /\ next_orphans m receiving key r.
Proof.
  intros Hc Hr Hk. apply orphan_loop_spec; [done..|].
  pose proof (ahead_le key (md_chunksMap m)). pose proof (ahead_le key receiving). lia.
Qed.

(** [getNextChunk] finds the chunk of an owned key, or the first chunk after it. *)
Lemma getNextChunk_spec m key :
  range_map_wf (md_chunksMap m) ->
  match getNextChunk m key with
  | Some (a, b) => (a, b) ∈ md_chunksMap m /\ key ≺ b /\ forall k, key ≼ k -> k ≺ a -> ~ covered (md_chunksMap m) k
  | None => forall k, key ≼ k -> ~ covered (md_chunksMap m) k
  end.
Proof.
  intros Hwf. unfold getNextChunk. destruct (neighbours key (md_chunksMap m)) as [lower upper] eqn:En.
  destruct (neighbours_spec key _ lower upper Hwf En) as (H1 & H2 & _).
  assert (Hup : (forall a b, lower = Some (a, b) -> b ≼ key) ->
    match upper with
    | Some (a, b) => (a, b) ∈ md_chunksMap m /\ key ≺ b /\ forall k, key ≼ k -> k ≺ a -> ~ covered (md_chunksMap m) k
    | None => forall k, key ≼ k -> ~ covered (md_chunksMap m) k
    end).
  { intros Hl. assert (Hg : forall k, key ≼ k -> (forall c d, upper = Some (c, d) -> k ≺ c) -> ~ covered (md_chunksMap m) k).
    { intros k Hk Hu. apply (neighbours_gap key _ lower upper k Hwf En); [|done]. intros a b El. specialize (Hl a b El). korder. }
    destruct upper as [[c d]|].
    - destruct (H2 c d eq_refl) as [Hin Hc]. pose proof (rm_range _ Hwf c d Hin). split_and!; [done|korder|].
      intros k Hk Hkc. apply Hg; [done|]. intros x y [= <- <-]. done.
    - intros k Hk. by apply Hg. }
  destruct lower as [[a b]|]; [|by apply Hup]. rewrite wo_gt. destruct (kltb key b) eqn:E.
  - destruct (H1 a b eq_refl) as [Hin Ha]. split_and!; [done|korder|]. intros k ? ?. korder.
  - apply Hup. intros x y [= <- <-]. korder.
Qed.

(** A chunk is valid exactly if the shard has a chunk with its bounds. *)
Lemma checkChunkIsValid_spec m mn mx :
  range_map_wf (md_chunksMap m) ->
  checkChunkIsValid m mn mx = OK () <-> exists a b, (a, b) ∈ md_chunksMap m /\ a ≅k mn /\ b ≅k mx.
Proof.
  intros Hwf. unfold checkChunkIsValid. pose proof (getNextChunk_spec m mn Hwf) as H. split.
  - destruct (getNextChunk m mn) as [[a b]|]; [|done]. rewrite !wo_eq. destruct (keqb a mn) eqn:E1; [|done].
    destruct (keqb b mx) eqn:E2; [|done]. intros _. exists a, b. split_and!; [by destruct H|korder|korder].
  - intros (a & b & Hin & Ha & Hb). pose proof (rm_range _ Hwf a b Hin) as Hab.
    assert (Hcov : covered (md_chunksMap m) a) by (exists a, b; split_and!; [done|korder|done]).
    destruct (getNextChunk m mn) as [[c d]|]; [|exfalso; apply (H a); [korder|done]].
    destruct H as (Hin' & Hd & Hg). assert (Hca : c ≼ a).
    { destruct (kltb a c) eqn:E; [|korder]. exfalso. apply (Hg a); [korder|korder|done]. }
    assert (Heq : (c, d) = (a, b)) by (apply (covered_unique _ a _ _ _ _ Hwf Hin' Hin); korder). injection Heq as -> ->.
    rewrite !wo_eq. assert (E1 : keqb a mn = true) by korder. assert (E2 : keqb b mx = true) by korder. by rewrite E1, E2.
Qed.

(** If the shard has more than one chunk, there is one that does not start at a
    given key. *)
Lemma getDifferentChunk_spec m key :
  range_map_wf (md_chunksMap m) -> 1 < getNumChunks m ->
  exists a b, getDifferentChunk m key = Some (a, b) /\ (a, b) ∈ md_chunksMap m /\ ~ a ≅k key.
Proof.
  intros Hwf Hn. unfold getDifferentChunk, getNumChunks in *. destruct (List.find _ _) as [[a b]|] eqn:E.
  - apply find_some in E as [Hin E]. exists a, b. split; [done|]. split; [by apply list_elem_of_In|].
    cbn in E. rewrite wo_eq in E. destruct (keqb a key) eqn:Ek; [done|]. intros ?. korder.
  - exfalso. pose proof (find_none _ _ E) as Hall. destruct (md_chunksMap m) as [|[a b] [|[c d] rest]]; [cbn in Hn; lia..|].
    pose proof (Hall (a, b) ltac:(by left)) as H1. pose proof (Hall (c, d) ltac:(right; by left)) as H2.
    cbn in H1, H2. rewrite wo_eq in H1, H2. apply range_map_cons in Hwf as (_ & Hab & Hb).
    specialize (Hb c d ltac:(left)). destruct (keqb a key) eqn:E1, (keqb c key) eqn:E2; try done. korder.
Qed.

(** * Examples *)

Definition sample_metadata : CollectionMetadata :=
  match newCollectionMetadata sample_cm "s0" with Ret m => m | _ => mkMetadata sample_cm "" UNSHARDED [] [] end.

Lemma sample_metadata_ok : metadata_ok sample_cm "s0" sample_metadata.
Proof.
  destruct (newCollectionMetadata_ok sample_cm "s0" sample_lo sample_hi sample_reachable sample_tiling) as (m & E & Hm).
  unfold sample_metadata. by rewrite E.
Qed.

Lemma metadata_exact_witness :
  newCollectionMetadata sample_cm "s0" = Ret sample_metadata /\ keyBelongsToMe sample_metadata (sample_key "a") = true /\
  owns sample_cm "s0" (sample_key "a").
Proof.
  destruct (metadata_exact sample_cm "s0" sample_lo sample_hi sample_reachable sample_tiling) as (m & E & _ & _ & Hk).
  assert (Em : m = sample_metadata) by (unfold sample_metadata; rewrite E; reflexivity). rewrite Em in E, Hk.
  assert (Hb : keyBelongsToMe sample_metadata (sample_key "a") = true) by (vm_compute; reflexivity).
  split; [exact E|]. split; [exact Hb|]. apply Hk. exact Hb.
Defined.

Lemma getNextOrphanRange_exact_witness :
  range_map_wf (md_chunksMap sample_metadata) /\
  exists r, getNextOrphanRange sample_metadata [] (getMinKey sample_metadata) = Ret r.
Proof.
  pose proof (mo_chunks_wf _ _ _ sample_metadata_ok) as Hwf.
  split; [exact Hwf|]. destruct (getNextOrphanRange_exact sample_metadata [] (getMinKey sample_metadata)) as (r & E & _).
  - exact Hwf.
  - apply range_map_nil.
  - korder.
  - by exists r.
Defined.
