(* ===== verification/MetadataManager.v ===== *)
(** The metadata of one collection over time on a shard (db/s/metadata_manager.cpp)
    and the queue of orphaned ranges to delete (db/s/collection_range_deleter.cpp).

    Every operation is one atomic step under the manager's lock.  Metadata
    trackers are shared between the manager and running queries, so they live in a
    store and are named by their position; notifications likewise.  The state
    keeps the cleanup tasks given to the executor as their epoch and time, and
    whether the executor is shutting down. *)

From stdpp Require Import base list sorting strings.
From Stdlib Require Import ZArith Lia String.
From S2P Require Import Prelude OrdMap Bson ChunkVersion ChunkType ShardKey Chunk ChunkManager RangeMap CollectionMetadata.
Local Open Scope Z_scope.
Local Open Scope list_scope.
Local Open Scope outcome_scope.

(** * State *)

(** [dl_when] is in milliseconds, 0 for [Date_t{}]. *)
Record Deletion := mkDeletion { dl_range : ChunkRange; dl_when : Z; dl_notification : nat }.

Record CollectionRangeDeleter := mkDeleter { _orphans : list Deletion; _delayedOrphans : list Deletion }.

Record CollectionMetadataTracker := mkTracker {
  tk_metadata : option CollectionMetadata;
  tk_orphans : list Deletion;
  tk_usageCounter : Z
}.

Record MetadataManager := mkManager {
  mm_trackers : list CollectionMetadataTracker;
  mm_metadata : list nat;
  mm_receivingChunks : RangeMap;
  mm_rangesToClean : CollectionRangeDeleter;
  mm_notifications : list (option (StatusWith unit));
  mm_tasks : list (OID * Z);
  mm_inShutdown : bool
}.

Definition newMetadataManager : MetadataManager := mkManager [] [] [] (mkDeleter [] []) [] [] false.

(** A notification that is ready at once, or one of the store. *)
Inductive CleanupNotification := Ready (status : StatusWith unit) | Later (n : nat).

Definition set_tracker (i : nat) (t : CollectionMetadataTracker) (m : MetadataManager) : MetadataManager :=
  mkManager (<[i := t]> (mm_trackers m)) (mm_metadata m) (mm_receivingChunks m) (mm_rangesToClean m) (mm_notifications m)
    (mm_tasks m) (mm_inShutdown m).
Definition set_metadata (l : list nat) (m : MetadataManager) : MetadataManager :=
  mkManager (mm_trackers m) l (mm_receivingChunks m) (mm_rangesToClean m) (mm_notifications m) (mm_tasks m)
    (mm_inShutdown m).
Definition set_receiving (r : RangeMap) (m : MetadataManager) : MetadataManager :=
  mkManager (mm_trackers m) (mm_metadata m) r (mm_rangesToClean m) (mm_notifications m) (mm_tasks m) (mm_inShutdown m).
Definition set_deleter (d : CollectionRangeDeleter) (m : MetadataManager) : MetadataManager :=
  mkManager (mm_trackers m) (mm_metadata m) (mm_receivingChunks m) d (mm_notifications m) (mm_tasks m) (mm_inShutdown m).
Definition set_notifications (l : list (option (StatusWith unit))) (m : MetadataManager) : MetadataManager :=
  mkManager (mm_trackers m) (mm_metadata m) (mm_receivingChunks m) (mm_rangesToClean m) l (mm_tasks m) (mm_inShutdown m).
Definition add_task (epoch : OID) (when : Z) (m : MetadataManager) : MetadataManager :=
  mkManager (mm_trackers m) (mm_metadata m) (mm_receivingChunks m) (mm_rangesToClean m) (mm_notifications m)
    (mm_tasks m ++ [(epoch, when)]) (mm_inShutdown m).

(** [scheduleCleanup]: the executor takes the task unless it is shutting down; that
    it does not is only logged. *)
Definition scheduleCleanup (epoch : OID) (when : Z) (m : MetadataManager) : MetadataManager :=
  if mm_inShutdown m then m else add_task epoch when m.

Definition tracker (i : nat) (m : MetadataManager) : Outcome CollectionMetadataTracker :=
  match mm_trackers m !! i with Some t => Ret t | None => Undef end.

Definition with_usage (n : Z) (t : CollectionMetadataTracker) : CollectionMetadataTracker :=
  mkTracker (tk_metadata t) (tk_orphans t) n.
Definition with_orphans (l : list Deletion) (t : CollectionMetadataTracker) : CollectionMetadataTracker :=
  mkTracker (tk_metadata t) l (tk_usageCounter t).
Definition without_metadata (t : CollectionMetadataTracker) : CollectionMetadataTracker :=
  mkTracker None (tk_orphans t) (tk_usageCounter t).

(** * The range deleter *)

(** [DeleteNotification::notify]; a second call aborts. *)
Definition notify (n : nat) (status : StatusWith unit) (m : MetadataManager) : Outcome MetadataManager :=
  match mm_notifications m !! n with
  | Some None => Ret (set_notifications (<[n := Some status]> (mm_notifications m)) m)
  | Some (Some _) => Abort
  | None => Undef
  end.

Definition deleter_isEmpty (d : CollectionRangeDeleter) : bool :=
  match _orphans d, _delayedOrphans d with [], [] => true | _, _ => false end.

(** [CollectionRangeDeleter::add]: the time to begin deletions, if they are not
    scheduled already. *)
Definition add (ranges : list Deletion) (d : CollectionRangeDeleter) : CollectionRangeDeleter * option Z :=
  let wasScheduledImmediate := negb (List.length (_orphans d) =? 0)%nat in
  let wasScheduledLater := negb (List.length (_delayedOrphans d) =? 0)%nat in
  let d' := foldl (fun d r =>
      if negb (dl_when r =? 0) then mkDeleter (_orphans d) (_delayedOrphans d ++ [r])
      else mkDeleter (_orphans d ++ [r]) (_delayedOrphans d)) d ranges in
  (d',
   if wasScheduledImmediate then None
   else match _orphans d', _delayedOrphans d' with
        | _ :: _, _ => Some 0
        | [], front :: _ => if wasScheduledLater then None else Some (dl_when front)
        | [], [] => None
        end).

(** [CollectionRangeDeleter::clear] *)
Definition clear (status : StatusWith unit) (m : MetadataManager) : Outcome MetadataManager :=
  let d := mm_rangesToClean m in
  let* m := ofold (fun m r => notify (dl_notification r) status m) m (_orphans d ++ _delayedOrphans d) in
  Ret (set_deleter (mkDeleter [] []) m).

Definition checkOverlap (deletions : list Deletion) (range : ChunkRange) : option nat :=
  dl_notification <$> List.find (fun r => match Range.overlapWith (dl_range r) range with Some _ => true | None => false end)
    (reverse deletions).

Definition overlaps (d : CollectionRangeDeleter) (range : ChunkRange) : option nat :=
  match checkOverlap (_orphans d) range with
  | Some n => Some n
  | None => checkOverlap (_delayedOrphans d) range
  end.

(** [_pop]; the first range must exist. *)
Definition _pop (result : StatusWith unit) (m : MetadataManager) : Outcome MetadataManager :=
  match _orphans (mm_rangesToClean m) with
  | [] => Undef
  | r :: rest =>
      let* m := notify (dl_notification r) result m in
      Ret (set_deleter (mkDeleter rest (_delayedOrphans (mm_rangesToClean m))) m)
  end.

(** * The list of metadata *)

(** The epoch of the active metadata. *)
Definition active_epoch (m : MetadataManager) : Outcome OID :=
  match last (mm_metadata m) with
  | None => Undef
  | Some i =>
      let* t := tracker i m in
      match tk_metadata t with Some md => Ret (_epoch (getCollVersion md)) | None => Undef end
  end.

Definition _pushListToClean (ranges : list Deletion) (m : MetadataManager) : Outcome MetadataManager :=
  let '(d, when) := add ranges (mm_rangesToClean m) in
  let m := set_deleter d m in
  match when with
  | None => Ret m
  | Some when => let* epoch := active_epoch m in Ret (scheduleCleanup epoch when m)
  end.

Definition _pushRangeToClean (range : ChunkRange) (when : Z) (m : MetadataManager) : Outcome (MetadataManager * nat) :=
  let notifn := List.length (mm_notifications m) in
  let m := set_notifications (mm_notifications m ++ [None]) m in
  let* m := _pushListToClean [mkDeletion range when notifn] m in
  Ret (m, notifn).

(** The first loop of [_retireExpiredMetadata]; [l] is the list of metadata. *)
Fixpoint retire_front (l : list nat) (m : MetadataManager) : Outcome MetadataManager :=
  match l with
  | i :: ((_ :: _) as rest) =>
      let* t := tracker i m in
      if negb (tk_usageCounter t =? 0) then Ret m
      else
        let* m :=
          match tk_orphans t with
          | [] => Ret m
          | orphans => _pushListToClean orphans (set_tracker i (with_orphans [] t) m)
          end in
        retire_front rest (set_metadata rest m)
  | _ => Ret m
  end.

(** The second loop: all but the last. *)
Fixpoint drop_unused (l : list nat) (m : MetadataManager) : Outcome MetadataManager :=
  match l with
  | i :: ((_ :: _) as rest) =>
      let* t := tracker i m in
      drop_unused rest (if tk_usageCounter t =? 0 then set_tracker i (without_metadata t) m else m)
  | _ => Ret m
  end.

Definition _retireExpiredMetadata (m : MetadataManager) : Outcome MetadataManager :=
  let* m := retire_front (mm_metadata m) m in
  drop_unused (mm_metadata m) m.

Definition _setActiveMetadata (newMetadata : CollectionMetadata) (m : MetadataManager) : Outcome MetadataManager :=
  let i := List.length (mm_trackers m) in
  _retireExpiredMetadata
    (mkManager (mm_trackers m ++ [mkTracker (Some newMetadata) [] 0]) (mm_metadata m ++ [i]) (mm_receivingChunks m)
       (mm_rangesToClean m) (mm_notifications m) (mm_tasks m) (mm_inShutdown m)).

Definition _clearAllCleanups (status : StatusWith unit) (m : MetadataManager) : Outcome MetadataManager :=
  let* m :=
    ofold (fun m i =>
             let* t := tracker i m in
             Ret (set_deleter (add (tk_orphans t) (mm_rangesToClean m)).1 (set_tracker i (with_orphans [] t) m)))
      m (mm_metadata m) in
  clear status m.

Definition abandoned : StatusWith unit := NotOK InterruptedDueToReplStateChange.

(** The active metadata. *)
Definition active (m : MetadataManager) : Outcome CollectionMetadata :=
  match last (mm_metadata m) with
  | None => Undef
  | Some i => let* t := tracker i m in match tk_metadata t with Some md => Ret md | None => Undef end
  end.

Definition refreshActiveMetadata (remoteMetadata : option CollectionMetadata) (m : MetadataManager) : Outcome MetadataManager :=
  match remoteMetadata, mm_metadata m with
  | None, [] =>
      invariant (List.length (mm_receivingChunks m) =? 0)%nat ;*
      invariant (deleter_isEmpty (mm_rangesToClean m)) ;*
      Ret m
  | None, _ =>
      let* _ := active m in
      let* m := _clearAllCleanups abandoned (set_receiving [] m) in
      Ret (set_metadata [] m)
  | Some remote, [] =>
      invariant (List.length (mm_receivingChunks m) =? 0)%nat ;*
      let* m := _setActiveMetadata remote m in
      invariant (deleter_isEmpty (mm_rangesToClean m)) ;*
      Ret m
  | Some remote, _ =>
      let* activeMetadata := active m in
      if negb (oid_eqb (_epoch (getCollVersion activeMetadata)) (_epoch (getCollVersion remote))) then
        let* m := _setActiveMetadata remote (set_receiving [] m) in
        _clearAllCleanups abandoned m
      else if version_ge (getCollVersion activeMetadata) (getCollVersion remote) then Ret m
      else
        let receiving := List.filter (fun r => negb (rangeOverlapsChunk remote (mkRange r.1 r.2))) (mm_receivingChunks m) in
        _setActiveMetadata remote (set_receiving receiving m)
  end.

(** * Queries *)

(** [getActiveMetadata]: the tracker that the result refers to, if any. *)
Definition getActiveMetadata (m : MetadataManager) : Outcome (MetadataManager * option nat) :=
  match last (mm_metadata m) with
  | None => Ret (m, None)
  | Some i =>
      let* t := tracker i m in
      Ret (set_tracker i (with_usage (u32 (tk_usageCounter t + 1)) t) m, Some i)
  end.

(** [ScopedCollectionMetadata::_clear] of a reference to a tracker. *)
Definition release (i : nat) (m : MetadataManager) : Outcome MetadataManager :=
  let* t := tracker i m in
  invariant (negb (tk_usageCounter t =? 0)) ;*
  let t := with_usage (tk_usageCounter t - 1) t in
  let m := set_tracker i t m in
  if tk_usageCounter t =? 0 then _retireExpiredMetadata m else Ret m.

(** * Ranges *)

Definition uses (range : ChunkRange) (is_active : bool) (t : CollectionMetadataTracker) : bool :=
  (is_active || negb (tk_usageCounter t =? 0)) &&
  match tk_metadata t with Some md => rangeOverlapsChunk md range | None => false end.

(** The loop of [_findNewestOverlappingMetadata] over the list from its end. *)
Fixpoint find_newest (range : ChunkRange) (is_active : bool) (l : list nat) (m : MetadataManager) : Outcome (option nat) :=
  match l with
  | [] => Ret None
  | i :: l =>
      let* t := tracker i m in
      if uses range is_active t then Ret (Some i) else find_newest range false l m
  end.
Definition _findNewestOverlappingMetadata (range : ChunkRange) (m : MetadataManager) : Outcome (option nat) :=
  invariant (negb (List.length (mm_metadata m) =? 0)%nat) ;*
  find_newest range true (reverse (mm_metadata m)) m.

Definition _overlapsInUseChunk (range : ChunkRange) (m : MetadataManager) : Outcome bool :=
  let* found := _findNewestOverlappingMetadata range m in
  Ret (match found with Some _ => true | None => false end).

Definition beginReceive (range : ChunkRange) (m : MetadataManager) : Outcome (MetadataManager * CleanupNotification) :=
  invariant (negb (List.length (mm_metadata m) =? 0)%nat) ;*
  let* in_use := _overlapsInUseChunk range m in
  if (in_use : bool) then Ret (m, Ready (NotOK RangeOverlapConflict))
  else
    let m := set_receiving (map_insert (_minKey range) (_maxKey range) (mm_receivingChunks m)) m in
    let* (m, n) := _pushRangeToClean range 0 m in
    Ret (m, Later n).

Definition forgetReceive (range : ChunkRange) (m : MetadataManager) : Outcome MetadataManager :=
  invariant (negb (List.length (mm_metadata m) =? 0)%nat) ;*
  let* in_use := _overlapsInUseChunk range m in
  invariant (negb in_use) ;*
  let it := map_find (_minKey range) (mm_receivingChunks m) in
  invariant (negb (it =? List.length (mm_receivingChunks m))%nat) ;*
  let* (m, _) := _pushRangeToClean range 0 (set_receiving (erase_at it (mm_receivingChunks m)) m) in
  Ret m.

Definition cleanUpRange (range : ChunkRange) (whenToDelete : Z) (m : MetadataManager)
    : Outcome (MetadataManager * CleanupNotification) :=
  invariant (negb (List.length (mm_metadata m) =? 0)%nat) ;*
  let* overlapMetadata := _findNewestOverlappingMetadata range m in
  if bool_decide (overlapMetadata = last (mm_metadata m))
  then Ret (m, Ready (NotOK RangeOverlapConflict))
  else if rangeMapOverlaps (mm_receivingChunks m) (_minKey range) (_maxKey range)
  then Ret (m, Ready (NotOK RangeOverlapConflict))
  else
    match overlapMetadata with
    | None => let* (m, n) := _pushRangeToClean range whenToDelete m in Ret (m, Later n)
    | Some i =>
        let* t := tracker i m in
        let n := List.length (mm_notifications m) in
        let m := set_notifications (mm_notifications m ++ [None]) m in
        Ret (set_tracker i (with_orphans (tk_orphans t ++ [mkDeletion range whenToDelete n]) t) m, Later n)
    end.

(** The loop of [overlappingMetadata] over the list from its end: references to
    all trackers that may depend on the range. *)
Fixpoint overlapping_loop (range : ChunkRange) (is_active : bool) (l : list nat) (m : MetadataManager)
    : Outcome (MetadataManager * list nat) :=
  match l with
  | [] => Ret (m, [])
  | i :: l =>
      let* t := tracker i m in
      let* used :=
        if is_active || (0 <? tk_usageCounter t) then
          match tk_metadata t with Some md => Ret (rangeOverlapsChunk md range) | None => Undef end
        else Ret false in
      if (used : bool) then
        let* (m, found) := overlapping_loop range false l (set_tracker i (with_usage (u32 (tk_usageCounter t + 1)) t) m) in
        Ret (m, i :: found)
      else overlapping_loop range false l m
  end.
Definition overlappingMetadata (range : ChunkRange) (m : MetadataManager) : Outcome (MetadataManager * list nat) :=
  invariant (negb (List.length (mm_metadata m) =? 0)%nat) ;*
  overlapping_loop range true (reverse (mm_metadata m)) m.

(** The loop of [_overlapsInUseCleanups] over the list from its end. *)
Fixpoint in_use_cleanups (range : ChunkRange) (l : list nat) (m : MetadataManager) : Outcome (option nat) :=
  match l with
  | [] => Ret None
  | i :: l =>
      let* t := tracker i m in
      match checkOverlap (tk_orphans t) range with
      | Some n => Ret (Some n)
      | None => in_use_cleanups range l m
      end
  end.
Definition trackOrphanedDataCleanup (range : ChunkRange) (m : MetadataManager) : Outcome (option nat) :=
  invariant (negb (List.length (mm_metadata m) =? 0)%nat) ;*
  let* found := in_use_cleanups range (reverse (mm_metadata m)) m in
  Ret (match found with Some n => Some n | None => overlaps (mm_rangesToClean m) range end).

Definition nextOrphanRange (from : BSONObj) (m : MetadataManager) : Outcome (option ChunkRange) :=
  invariant (negb (List.length (mm_metadata m) =? 0)%nat) ;*
  let* md := active m in
  getNextOrphanRange md (mm_receivingChunks m) from.

(** * The deletion task *)

(** What the cursor and the deletion of one document do. *)
Inductive Read := Advanced | CursorFailure | DeleteThrows (code : ErrorCode) | RestoreFails.

(** The loop of [_doDeletion] over the index, whose entries are the shard keys of
    the documents: the documents left and the number deleted. *)
Fixpoint delete_loop (docs : list BSONObj) (range : ChunkRange) (reads : list Read) (numDeleted limit : Z)
    : list BSONObj * StatusWith Z :=
  match docs with
  | [] => ([], OK numDeleted)
  | k :: rest =>
      if negb (Range.containsKey range k) then
        let '(docs, wrote) := delete_loop rest range reads numDeleted limit in (k :: docs, wrote)
      else
        match default Advanced (List.hd_error reads) with
        | CursorFailure => (docs, OK numDeleted)
        | DeleteThrows code => (docs, NotOK code)
        | RestoreFails => (rest, OK numDeleted)
        | Advanced =>
            if numDeleted + 1 <? limit then delete_loop rest range (List.tl reads) (numDeleted + 1) limit
            else (rest, OK (numDeleted + 1))
        end
  end.

(** [hasIndex]: an index prefixed by the shard key exists. *)
Definition _doDeletion (docs : list BSONObj) (d : CollectionRangeDeleter) (range : ChunkRange) (hasIndex : bool)
    (reads : list Read) (limit : Z) : Outcome (list BSONObj * StatusWith Z) :=
  invariant (negb (deleter_isEmpty d)) ;*
  if negb hasIndex then Ret (docs, NotOK InternalError) else Ret (delete_loop docs range reads 0 limit).

Definition release_scoped (scoped : option nat) (m : MetadataManager) : Outcome MetadataManager :=
  match scoped with Some i => release i m | None => Ret m end.
Definition scoped_metadata (scoped : option nat) (m : MetadataManager) : option CollectionMetadata :=
  i ← scoped; t ← mm_trackers m !! i; tk_metadata t.

Definition _checkCollectionMetadataStillValid (epoch : OID) (hasCollection : bool) (m : MetadataManager)
    : Outcome (MetadataManager * bool) :=
  let* (m, scoped) := getActiveMetadata m in
  match (if hasCollection then scoped_metadata scoped m else None) with
  | None =>
      let* m := _clearAllCleanups abandoned m in
      let* m := release_scoped scoped m in
      Ret (m, false)
  | Some md =>
      let* m := release_scoped scoped m in
      Ret (m, oid_eqb (_epoch (getCollVersion md)) epoch)
  end.

(** The world a deletion task runs in: the collection's documents, if it exists,
    the clock, the result of the write to the oplog, the index and the cursor. *)
Record TaskEnv := mkTaskEnv {
  te_now : Z;
  te_oplog : option ErrorCode;
  te_hasIndex : bool;
  te_reads : list Read;
  te_maxToDelete : Z;
  te_rangeDeleterBatchSize : Z;
  te_internalQueryExecYieldIterations : Z
}.

(** The most documents that one run of the task deletes. *)
Definition maxToDelete (env : TaskEnv) : Z :=
  if te_maxToDelete env <=? 0 then
    if te_rangeDeleterBatchSize env <=? 0 then Z.max (te_internalQueryExecYieldIterations env) 1
    else te_rangeDeleterBatchSize env
  else te_maxToDelete env.

Inductive TaskResult :=
  | TaskDone
  | TaskDefer (when : Z)
  | TaskContinue
  | TaskWait (range : ChunkRange) (notification : nat) (wrote : StatusWith Z).

(** The range to delete, and whether it was a deferred one. *)
Definition next_range (now : Z) (d : CollectionRangeDeleter) : CollectionRangeDeleter * (Z + (Deletion * bool)) :=
  match _orphans d, _delayedOrphans d with
  | front :: _, _ => (d, inr (front, false))
  | [], df :: rest =>
      if now <? dl_when df then (d, inl (dl_when df)) else (mkDeleter [df] rest, inr (df, true))
  | [], [] => (d, inl 0)
  end.

(** The part of [cleanUpNextRange] before the wait for replication, under the
    collection's lock, which excludes changes of the active metadata. *)
Definition cleanUpNextRange (env : TaskEnv) (epoch : OID) (collection : option (list BSONObj)) (m : MetadataManager)
    : Outcome (option (list BSONObj) * MetadataManager * TaskResult) :=
  let* (m, valid) := _checkCollectionMetadataStillValid epoch (match collection with Some _ => true | None => false end) m in
  match collection with
  | Some docs =>
      if negb valid then Ret (collection, m, TaskDone)
      else if deleter_isEmpty (mm_rangesToClean m) then Ret (collection, m, TaskDone)
      else
        let '(d, next) := next_range (te_now env) (mm_rangesToClean m) in
        let m := set_deleter d m in
        match next with
        | inl when => Ret (collection, m, TaskDefer when)
        | inr (front, writeOpLog) =>
            match (if (writeOpLog : bool) then te_oplog env else None) with
            | Some code =>
                let* m := _clearAllCleanups (NotOK code) m in
                Ret (collection, m, TaskDone)
            | None =>
                let* (m, scoped) := getActiveMetadata m in
                let* (docs, wrote) :=
                  match scoped_metadata scoped m with
                  | None => Undef
                  | Some _ =>
                      _doDeletion docs (mm_rangesToClean m) (dl_range front) (te_hasIndex env) (te_reads env)
                        (maxToDelete env)
                  end in
                let* m := release_scoped scoped m in
                Ret (Some docs, m,
                     match wrote with
                     | OK n => if n =? 0 then TaskWait (dl_range front) (dl_notification front) wrote else TaskContinue
                     | NotOK _ => TaskWait (dl_range front) (dl_notification front) wrote
                     end)
            end
        end
  | None => Ret (collection, m, TaskDone)
  end.

(** The part after the wait. *)
Definition finishRange (epoch : OID) (hasCollection : bool) (notification : nat) (wrote : StatusWith Z)
    (replicationStatus : StatusWith unit) (m : MetadataManager) : Outcome (MetadataManager * TaskResult) :=
  let* (m, valid) := _checkCollectionMetadataStillValid epoch hasCollection m in
  if negb (valid : bool) then Ret (m, TaskDone)
  else
    let* m :=
      match replicationStatus with
      | NotOK _ =>
          match mm_notifications m !! notification with
          | None => Undef
          | Some (Some _) => Ret m
          | Some None =>
              invariant (negb (deleter_isEmpty (mm_rangesToClean m))) ;*
              match _orphans (mm_rangesToClean m) with
              | [] => Undef
              | front :: _ =>
                  invariant (dl_notification front =? notification)%nat ;* _pop replicationStatus m
              end
          end
      | OK _ => _pop (match wrote with OK _ => OK tt | NotOK code => NotOK code end) m
      end in
    Ret (m, TaskContinue).

(** * The reception of a chunk *)

(** [MigrationDestinationManager::_notePending] *)
Definition _notePending (epoch : OID) (range : ChunkRange) (m : MetadataManager) : Outcome (MetadataManager * CleanupNotification) :=
  let* (m, scoped) := getActiveMetadata m in
  let stale := let* m := release_scoped scoped m in Ret (m, Ready (NotOK StaleShardVersion)) in
  match scoped_metadata scoped m with
  | None => stale
  | Some md =>
      if negb (oid_eqb (_epoch (getCollVersion md)) epoch) then stale
      else
        let* (m, notification) := beginReceive range m in
        let* m := release_scoped scoped m in
        Ret (m, notification)
  end.

(** [MigrationDestinationManager::_forgetPending], when the migration fails. *)
Definition _forgetPending (chunkMarkedPending : bool) (epoch : OID) (range : ChunkRange) (m : MetadataManager)
    : Outcome MetadataManager :=
  if negb chunkMarkedPending then Ret m
  else
    let* (m, scoped) := getActiveMetadata m in
    match scoped_metadata scoped m with
    | None => release_scoped scoped m
    | Some md =>
        if negb (oid_eqb (_epoch (getCollVersion md)) epoch) then release_scoped scoped m
        else
          let* m := forgetReceive range m in
          release_scoped scoped m
    end.
