(* ===== verification/RangeDeletion.v ===== *)
(** The deletion of orphaned ranges never removes a document that the shard owns
    or that a running query may still read (db/s/metadata_manager.cpp,
    db/s/collection_range_deleter.cpp): the invariant of the metadata manager, its
    preservation by every operation, and what the deletion task does. *)

From stdpp Require Import base list sorting strings.
From Stdlib Require Import ZArith Lia String.
From S2P Require Import Prelude OrdMap Bson ChunkVersion ChunkType ShardKey Chunk ChunkManager RangeMap CollectionMetadata MetadataManager.
Local Open Scope Z_scope.
Local Open Scope list_scope.
Local Open Scope outcome_scope.

(** * The invariant *)

Definition queue (m : MetadataManager) : list Deletion :=
  _orphans (mm_rangesToClean m) ++ _delayedOrphans (mm_rangesToClean m).

(** All deletions that are queued or wait for queries to finish. *)
Definition pending (m : MetadataManager) : list Deletion := queue m ++ mjoin (tk_orphans <$> mm_trackers m).

Definition uses_of (i : nat) (held : list nat) : nat := List.length (List.filter (Nat.eqb i) held).

(** A key is in a chunk of the active metadata, or of a metadata in use. *)
Definition owned_by (m : MetadataManager) (i : nat) (k : BSONObj) : Prop :=
  i ∈ mm_metadata m /\
  exists t md, mm_trackers m !! i = Some t /\ tk_metadata t = Some md /\
    (last (mm_metadata m) = Some i \/ tk_usageCounter t <> 0) /\ covered (md_rangesMap md) k.

(** [held]: the references to trackers that queries hold. *)
Record mm_ok (held : list nat) (m : MetadataManager) : Prop := {
  ok_sorted : StronglySorted lt (mm_metadata m);
  ok_bound i : i ∈ mm_metadata m -> (i < List.length (mm_trackers m))%nat;
  ok_wf i t md : mm_trackers m !! i = Some t -> tk_metadata t = Some md -> range_map_wf (md_rangesMap md);
  ok_active i : last (mm_metadata m) = Some i ->
    exists t md, mm_trackers m !! i = Some t /\ tk_metadata t = Some md /\ tk_orphans t = [];
  ok_used i t : i ∈ mm_metadata m -> mm_trackers m !! i = Some t -> tk_usageCounter t <> 0 -> is_Some (tk_metadata t);
  ok_popped i t : mm_trackers m !! i = Some t -> ~ i ∈ mm_metadata m -> tk_orphans t = [];
  ok_count i t : mm_trackers m !! i = Some t -> tk_usageCounter t = Z.of_nat (uses_of i held);
  ok_held i : i ∈ held -> (i < List.length (mm_trackers m))%nat;
  ok_fresh : NoDup (dl_notification <$> pending m);
  ok_unset d : d ∈ pending m -> mm_notifications m !! dl_notification d = Some None;
  ok_ranges d : d ∈ pending m -> _minKey (dl_range d) ≺ _maxKey (dl_range d);
  ok_none : mm_metadata m = [] -> queue m = [] /\ mm_receivingChunks m = [];
  ok_receiving : range_map_wf (mm_receivingChunks m)
}.

(** [ready]: the ranges being received from which all orphans are gone. What holds
    of deletions holds if [careful], which says that no refresh gave the shard keys
    of other ranges. *)
Record mm_safe (careful : Prop) (ready : RangeMap) (m : MetadataManager) : Prop := {
  safe_queue d i k : careful -> d ∈ queue m -> owned_by m i k -> ~ in_range (dl_range d) k;
  safe_orphans i j t d k : careful -> mm_trackers m !! i = Some t -> d ∈ tk_orphans t -> owned_by m j k -> (i < j)%nat ->
    ~ in_range (dl_range d) k;
  safe_receiving a b i k : (a, b) ∈ mm_receivingChunks m -> owned_by m i k -> ~ (a ≼ k /\ k ≺ b);
  safe_ready a b d k : careful -> (a, b) ∈ ready -> d ∈ pending m -> in_range (dl_range d) k -> ~ (a ≼ k /\ k ≺ b);
  safe_sub : ready ⊆ mm_receivingChunks m
}.
Arguments safe_queue {careful}.
Arguments safe_orphans {careful}.
Arguments safe_receiving {careful}.
Arguments safe_ready {careful}.
Arguments safe_sub {careful}.

(** Queued deletions have a task for the collection's epoch, scheduled or running,
    as long as the executor takes tasks. *)
Definition mm_tasked (running : list OID) (m : MetadataManager) : Prop :=
  forall d, mm_inShutdown m = false -> d ∈ queue m -> exists epoch, active_epoch m = Ret epoch /\ epoch ∈ running ++ (mm_tasks m).*1.

(** * Lists *)

Lemma uses_of_cons i j held : uses_of i (j :: held) = if (i =? j)%nat then S (uses_of i held) else uses_of i held.
Proof. unfold uses_of. cbn. by destruct (i =? j)%nat. Qed.

Lemma sorted_lt_last (i : nat) l x : StronglySorted lt (i :: l) -> last l = Some x -> (i < x)%nat.
Proof.
  intros Hs Hl. apply StronglySorted_inv in Hs as [_ Hf]. rewrite Forall_forall in Hf. apply Hf.
  by apply last_Some_elem_of.
Qed.

Lemma sorted_below (l : list nat) i x : StronglySorted lt l -> last l = Some x -> i ∈ l -> i <> x -> (i < x)%nat.
Proof.
  intros Hs [l' ->]%last_Some [Hi|Hi%list_elem_of_singleton]%elem_of_app Hne; [|done].
  induction l' as [|y l' IH]; [by apply not_elem_of_nil in Hi|]. apply StronglySorted_inv in Hs as [Hs Hf].
  apply elem_of_cons in Hi as [->|Hi]; [|by apply IH]. rewrite Forall_forall in Hf. apply Hf, elem_of_app. right. left.
Qed.

Lemma sorted_snoc (R : nat -> nat -> Prop) (l : list nat) n :
  StronglySorted R l -> (forall i, i ∈ l -> R i n) -> StronglySorted R (l ++ [n]).
Proof.
  induction l as [|x l IH]; intros Hs Hn; cbn; [repeat constructor|].
  apply StronglySorted_inv in Hs as [Hs Hf]. constructor; [apply IH; [done|intros; apply Hn; by right]|].
  apply Forall_app. split; [done|]. constructor; [apply Hn; left|constructor].
Qed.

Lemma join_insert {A} (l : list (list A)) (i : nat) x y : l !! i = Some x -> x ++ mjoin (<[i := y]> l) ≡ₚ y ++ mjoin l.
Proof.
  revert i. induction l as [|z l IH]; intros [|i] H; cbn in *; [done|done|injection H as ->|].
  - by rewrite !app_assoc, (Permutation_app_comm x y).
  - specialize (IH i H). rewrite (app_assoc x), (Permutation_app_comm x z), <- app_assoc, IH.
    by rewrite !app_assoc, (Permutation_app_comm z y).
Qed.

(** The pending deletions after a change of one tracker. *)
Lemma pending_update i t t' m : mm_trackers m !! i = Some t -> tk_orphans t' = tk_orphans t ->
  pending (set_tracker i t' m) = pending m.
Proof.
  intros Ht E. unfold pending. cbn. f_equal. rewrite list_fmap_insert, E. f_equal.
  apply list_insert_id. by rewrite list_lookup_fmap, Ht.
Qed.

Lemma lookup_tracker i t t' m j x :
  mm_trackers m !! i = Some t ->
  mm_trackers (set_tracker i t' m) !! j = Some x <-> (j = i /\ x = t') \/ (j <> i /\ mm_trackers m !! j = Some x).
Proof.
  intros Ht. cbn. destruct (decide (j = i)) as [->|Hne].
  - rewrite list_lookup_insert_eq by (by eapply lookup_lt_Some). naive_solver.
  - rewrite list_lookup_insert_ne by done. naive_solver.
Qed.

(** * A change of one tracker that keeps its orphans *)

Lemma tracker_update_ok held held' i t t' m :
  mm_ok held m -> mm_trackers m !! i = Some t -> tk_orphans t' = tk_orphans t ->
  (forall j, j <> i -> uses_of j held' = uses_of j held) -> tk_usageCounter t' = Z.of_nat (uses_of i held') ->
  (forall j, j ∈ held' -> j ∈ held \/ j = i) ->
  tk_metadata t' = tk_metadata t \/ (tk_metadata t' = None /\ last (mm_metadata m) <> Some i) ->
  (i ∈ mm_metadata m -> tk_usageCounter t' <> 0 -> is_Some (tk_metadata t')) ->
  mm_ok held' (set_tracker i t' m).
Proof.
  intros Hok Ht Eo Hu Hc Hh Hm Hs. pose proof (lookup_tracker i t t' m) as Hl.
  assert (Hlt : (i < List.length (mm_trackers m))%nat) by (by eapply lookup_lt_Some).
  split; try rewrite (pending_update i t t' m Ht Eo); try apply Hok.
  - intros j Hj. cbn. rewrite length_insert. by apply (ok_bound _ _ Hok).
  - intros j x md [[-> ->]|[_ Hx]]%Hl E; [|by eapply (ok_wf _ _ Hok)|done].
    apply (ok_wf _ _ Hok i t md Ht). destruct Hm as [<-|[Hm _]]; congruence.
  - intros j Hj. change (last (mm_metadata m) = Some j) in Hj.
    destruct (ok_active _ _ Hok j Hj) as (x & md & Hx & Em & Ex). destruct (decide (j = i)) as [->|Hne].
    + assert (x = t) as -> by congruence. exists t', md. split_and!; [by apply Hl; [|left]| |congruence].
      destruct Hm as [->|[_ Hm]]; done.
    + exists x, md. split_and!; [apply Hl; [done|by right]|done|done].
  - intros j x Hj [[-> ->]|[_ Hx]]%Hl Hn; [by apply Hs|by eapply (ok_used _ _ Hok)|done].
  - intros j x [[-> ->]|[_ Hx]]%Hl Hn; [rewrite Eo; by eapply (ok_popped _ _ Hok)|by eapply (ok_popped _ _ Hok)|done].
  - intros j x [[-> ->]|[Hne Hx]]%Hl; [done|rewrite Hu by done; by apply (ok_count _ _ Hok)|done].
  - intros j Hj. cbn. rewrite length_insert. destruct (Hh j Hj) as [?| ->]; [by apply (ok_held _ _ Hok)|done].
Qed.

Lemma update_owned i t t' m j k :
  mm_trackers m !! i = Some t -> tk_metadata t' = tk_metadata t \/ tk_metadata t' = None ->
  (tk_usageCounter t' <> 0 -> tk_usageCounter t <> 0 \/ last (mm_metadata m) = Some i) ->
  owned_by (set_tracker i t' m) j k -> owned_by m j k.
Proof.
  intros Ht Hm Hu (Hj & x & md & Hx & Em & Ha & Hc). split; [done|].
  apply (lookup_tracker i t) in Hx as [[-> ->]|[_ Hx]]; [|by exists x, md|done]. exists t, md.
  split_and!; [done|destruct Hm; congruence| |done]. cbn in Ha. destruct Ha as [?|Ha]; [by left|]. destruct (Hu Ha); tauto.
Qed.

Lemma update_safe careful ready i t t' m :
  mm_safe careful ready m -> mm_trackers m !! i = Some t -> tk_orphans t' = tk_orphans t ->
  tk_metadata t' = tk_metadata t \/ tk_metadata t' = None ->
  (tk_usageCounter t' <> 0 -> tk_usageCounter t <> 0 \/ last (mm_metadata m) = Some i) ->
  mm_safe careful ready (set_tracker i t' m).
Proof.
  intros Hs Ht Eo Hm Hu. pose proof (fun j k => update_owned i t t' m j k Ht Hm Hu) as Hown.
  split; try rewrite (pending_update i t t' m Ht Eo); try apply Hs.
  - intros d j k Hst Hd Ho%Hown. by eapply (safe_queue _ _ Hs).
  - intros j j' x d k Hst Hx Hd Ho%Hown Hlt. apply (lookup_tracker i t) in Hx as [[-> ->]|[_ Hx]]; [rewrite Eo in Hd|..|done];
      by eapply (safe_orphans _ _ Hs).
  - intros a b j k Hab Ho%Hown. by eapply (safe_receiving _ _ Hs).
Qed.

Lemma active_metadata m : active_epoch m = let* md := active m in Ret (_epoch (getCollVersion md)).
Proof.
  unfold active_epoch, active, tracker. destruct (last (mm_metadata m)) as [i|]; [|done]. cbn.
  destruct (mm_trackers m !! i) as [t|]; [|done]. cbn. by destruct (tk_metadata t).
Qed.

Lemma update_active i t t' m :
  mm_trackers m !! i = Some t -> tk_metadata t' = tk_metadata t \/ last (mm_metadata m) <> Some i ->
  active (set_tracker i t' m) = active m.
Proof.
  intros Ht Hm. unfold active, tracker. cbn. destruct (last (mm_metadata m)) as [j|]; [|done].
  destruct (decide (j = i)) as [->|Hne].
  - rewrite list_lookup_insert_eq by (by eapply lookup_lt_Some). rewrite Ht. cbn. destruct Hm as [->|Hm]; [done|by destruct Hm].
  - by rewrite list_lookup_insert_ne.
Qed.

Lemma tasked_same running m m' : active m' = active m -> queue m' ⊆ queue m -> mm_tasks m' = mm_tasks m ->
  mm_inShutdown m' = mm_inShutdown m -> mm_tasked running m -> mm_tasked running m'.
Proof.
  intros Ea Hq Et Es H d Hsd Hd. rewrite Es in Hsd. destruct (H d Hsd (Hq _ Hd)) as (e & He & Hin). exists e. by rewrite active_metadata, Ea, <- active_metadata, Et.
Qed.

(** * Queueing *)

Lemma add_queue ds d : let d' := (add ds d).1 in
  _orphans d' ++ _delayedOrphans d' ≡ₚ ds ++ _orphans d ++ _delayedOrphans d.
Proof.
  cbn. revert d. induction ds as [|x ds IH]; intros d; cbn [foldl]; [done|]. rewrite IH.
  destruct (dl_when x =? 0); cbn.
  - rewrite <- (app_assoc _ [x]). cbn. rewrite !app_assoc. symmetry. apply Permutation_middle.
  - rewrite !app_assoc. symmetry. apply Permutation_cons_append.
Qed.

Lemma add_scheduled ds d : (add ds d).2 = None ->
  (_orphans d <> [] \/ _delayedOrphans d <> []) \/ (_orphans (add ds d).1 = [] /\ _delayedOrphans (add ds d).1 = []).
Proof.
  unfold add. cbn [fst snd]. set (d' := foldl _ _ _). destruct (_orphans d) as [|x o] eqn:Eo; [|intros; left; by left].
  destruct (_delayedOrphans d) as [|y dl] eqn:Ed; [|intros; left; by right]. cbn [List.length Nat.eqb negb]. intros H. right.
  destruct (_orphans d'); [|done]. by destruct (_delayedOrphans d').
Qed.

(** What a list of deletions put on the queue leaves as it was. *)
Record pushed (ds : list Deletion) (m m' : MetadataManager) : Prop := {
  pu_trackers : mm_trackers m' = mm_trackers m;
  pu_metadata : mm_metadata m' = mm_metadata m;
  pu_receiving : mm_receivingChunks m' = mm_receivingChunks m;
  pu_notifications : mm_notifications m' = mm_notifications m;
  pu_shutdown : mm_inShutdown m' = mm_inShutdown m;
  pu_queue : queue m' ≡ₚ ds ++ queue m;
  pu_tasked running : mm_tasked running m -> mm_tasked running m'
}.

Lemma push_list ds m md : active m = Ret md -> exists m', _pushListToClean ds m = Ret m' /\ pushed ds m m'.
Proof.
  intros Ha. unfold _pushListToClean. pose proof (add_queue ds (mm_rangesToClean m)) as Hp.
  pose proof (add_scheduled ds (mm_rangesToClean m)) as Hs. cbn zeta in Hp.
  assert (Ea : forall d, active_epoch (set_deleter d m) = Ret (_epoch (getCollVersion md))).
  { intros d. rewrite active_metadata. change (active (set_deleter d m)) with (active m). by rewrite Ha. }
  destruct (add ds (mm_rangesToClean m)) as [d when]. cbn [fst snd] in *. destruct when as [when|].
  - rewrite Ea. cbn [obind]. eexists. split; [reflexivity|]. unfold scheduleCleanup.
    change (mm_inShutdown (set_deleter d m)) with (mm_inShutdown m).
    destruct (mm_inShutdown m) eqn:Esd; split; try done; [by intros running _ x H; cbn in H; rewrite Esd in H|]. intros running _ x _ _.
    exists (_epoch (getCollVersion md)). split; [exact (Ea d)|]. cbn. rewrite fmap_app. apply elem_of_app. right.
    apply elem_of_app. right. left.
  - eexists. split; [reflexivity|]. split; try done. intros running Ht x Hsd Hx.
    destruct (Hs eq_refl) as [Hq|[E1 E2]].
    + assert (exists y, y ∈ queue m) as [y Hy].
      { unfold queue. destruct (_orphans (mm_rangesToClean m)) as [|z o]; [|exists z; left].
        destruct (_delayedOrphans (mm_rangesToClean m)) as [|z o]; [naive_solver|exists z; left]. }
      exact (Ht y Hsd Hy).
    + unfold queue in Hx. cbn in Hx. rewrite E1, E2 in Hx. by apply not_elem_of_nil in Hx.
Qed.

Lemma active_ok held m i : mm_ok held m -> last (mm_metadata m) = Some i -> exists md, active m = Ret md.
Proof.
  intros Hok Hl. destruct (ok_active _ _ Hok i Hl) as (t & md & Ht & Em & _). exists md. unfold active, tracker.
  by rewrite Hl, Ht; cbn; rewrite Em.
Qed.

(** * Retirement of metadata no query uses *)

Record retired (held : list nat) (m m' : MetadataManager) : Prop := {
  re_ok : mm_ok held m';
  re_safe careful ready : mm_safe careful ready m -> mm_safe careful ready m';
  re_tasked running : mm_tasked running m -> mm_tasked running m';
  re_active : active m' = active m;
  re_owned j k : owned_by m j k -> owned_by m' j k;
  re_last : last (mm_metadata m') = last (mm_metadata m);
  re_receiving : mm_receivingChunks m' = mm_receivingChunks m;
  re_notifications : mm_notifications m' = mm_notifications m;
  re_pending : pending m' ≡ₚ pending m;
  re_length : List.length (mm_trackers m') = List.length (mm_trackers m)
}.

Lemma retired_refl held m : mm_ok held m -> retired held m m.
Proof. by split. Qed.

Lemma retired_trans held m1 m2 m3 : retired held m1 m2 -> retired held m2 m3 -> retired held m1 m3.
Proof. intros [] []. split; eauto; try congruence. by transitivity (pending m2). Qed.

(** The orphans of the oldest metadata move to the queue. *)
Record moved (i : nat) (t : CollectionMetadataTracker) (m m' : MetadataManager) : Prop := {
  mv_trackers : mm_trackers m' = <[i := with_orphans [] t]> (mm_trackers m);
  mv_metadata : mm_metadata m' = mm_metadata m;
  mv_receiving : mm_receivingChunks m' = mm_receivingChunks m;
  mv_notifications : mm_notifications m' = mm_notifications m;
  mv_shutdown : mm_inShutdown m' = mm_inShutdown m;
  mv_queue : queue m' ≡ₚ tk_orphans t ++ queue m;
  mv_tasked running : mm_tasked running m -> mm_tasked running m'
}.

Lemma move_orphans i t m md : mm_trackers m !! i = Some t -> active m = Ret md ->
  exists m', match tk_orphans t with
             | [] => Ret m
             | orphans => _pushListToClean orphans (set_tracker i (with_orphans [] t) m)
             end = Ret m' /\ moved i t m m'.
Proof.
  intros Ht Ha. destruct (tk_orphans t) as [|x ds] eqn:Eo.
  - exists m. split; [done|]. split; try done; [|by rewrite Eo].
    symmetry. apply list_insert_id. rewrite Ht. f_equal. destruct t. cbn in *. by rewrite Eo.
  - assert (Ea : active (set_tracker i (with_orphans [] t) m) = active m) by (eapply update_active; [done|by left]).
    destruct (push_list (x :: ds) (set_tracker i (with_orphans [] t) m) md) as (m' & E & Hp); [by rewrite Ea|].
    exists m'. split; [exact E|]. destruct Hp as [H1 H2 H3 H4 H5 H6 H7]. split; try done; [by rewrite Eo|].
    intros running Hr. apply H7. by eapply tasked_same; [exact Ea|..|exact Hr].
Qed.

Lemma moved_pending i t m m' : mm_trackers m !! i = Some t -> moved i t m m' -> pending m' ≡ₚ pending m.
Proof.
  intros Ht Hm. unfold pending. rewrite (mv_queue _ _ _ _ Hm), (mv_trackers _ _ _ _ Hm), list_fmap_insert.
  assert (Ej : (tk_orphans <$> mm_trackers m) !! i = Some (tk_orphans t)) by (by rewrite list_lookup_fmap, Ht).
  pose proof (join_insert _ i _ [] Ej) as Hj. cbn [app] in Hj. rewrite <- Hj. cbn [tk_orphans with_orphans].
  rewrite <- app_assoc. apply Permutation_app_swap_app.
Qed.

Lemma moved_active i t m m' : mm_trackers m !! i = Some t -> moved i t m m' -> active m' = active m.
Proof.
  intros Ht Hm. rewrite <- (update_active i t (with_orphans [] t) m Ht) by (by left). unfold active, tracker. cbn.
  by rewrite (mv_trackers _ _ _ _ Hm), (mv_metadata _ _ _ _ Hm).
Qed.

Lemma lookup_moved i t m m' j x : mm_trackers m !! i = Some t -> moved i t m m' ->
  mm_trackers m' !! j = Some x <-> (j = i /\ x = with_orphans [] t) \/ (j <> i /\ mm_trackers m !! j = Some x).
Proof.
  intros Ht Hm. rewrite (mv_trackers _ _ _ _ Hm). apply (lookup_tracker i t (with_orphans [] t) m j x Ht).
Qed.

Lemma pop_ok held i l m t m' :
  mm_ok held m -> mm_metadata m = i :: l -> l <> [] -> mm_trackers m !! i = Some t -> moved i t m m' ->
  mm_ok held (set_metadata l m').
Proof.
  intros Hok El Hl Ht Hm. pose proof (moved_pending _ _ _ _ Ht Hm) as Hp.
  pose proof (fun j x => lookup_moved i t m m' j x Ht Hm) as Hlk.
  pose proof (ok_sorted _ _ Hok) as Hs. rewrite El in Hs.
  assert (Hlast : last (mm_metadata m) = last l) by (rewrite El; by destruct l).
  assert (Hsub : forall j, j ∈ l -> j ∈ mm_metadata m) by (intros; rewrite El; by right).
  assert (Hlen : List.length (mm_trackers m') = List.length (mm_trackers m))
    by (rewrite (mv_trackers _ _ _ _ Hm); apply length_insert).
  split; cbn [mm_trackers mm_metadata mm_receivingChunks mm_notifications set_metadata];
    try change (pending (set_metadata l m')) with (pending m'); try rewrite Hp; try setoid_rewrite Hp; rewrite ?Hlen.
  - by apply StronglySorted_inv in Hs as [].
  - intros j Hj. by apply (ok_bound _ _ Hok), Hsub.
  - intros j x md [[-> ->]|[_ Hx]]%Hlk E; [by apply (ok_wf _ _ Hok i t)|by eapply (ok_wf _ _ Hok)].
  - intros j Hj. pose proof (sorted_lt_last _ _ _ Hs Hj). rewrite <- Hlast in Hj.
    destruct (ok_active _ _ Hok j Hj) as (x & md & Hx & ?). exists x, md. split; [|done]. apply Hlk. right. split; [lia|done].
  - intros j x Hj [[-> ->]|[_ Hx]]%Hlk Hn; [apply (ok_used _ _ Hok i t)|eapply (ok_used _ _ Hok)]; eauto.
  - intros j x [[-> ->]|[Hne Hx]]%Hlk Hn; [done|]. eapply (ok_popped _ _ Hok); [done|]. rewrite El.
    by intros [?|?]%elem_of_cons.
  - intros j x [[-> ->]|[_ Hx]]%Hlk; [by apply (ok_count _ _ Hok i t)|by apply (ok_count _ _ Hok)].
  - intros j Hj. by apply (ok_held _ _ Hok).
  - apply Hok.
  - intros d Hd. rewrite (mv_notifications _ _ _ _ Hm). by apply (ok_unset _ _ Hok).
  - apply Hok.
  - done.
  - rewrite (mv_receiving _ _ _ _ Hm). apply Hok.
Qed.

Lemma pop_safe careful held ready i l m t m' :
  mm_ok held m -> mm_safe careful ready m -> mm_metadata m = i :: l -> l <> [] -> mm_trackers m !! i = Some t -> moved i t m m' ->
  mm_safe careful ready (set_metadata l m').
Proof.
  intros Hok Hsf El Hl Ht Hm. pose proof (moved_pending _ _ _ _ Ht Hm) as Hp.
  pose proof (fun j x => lookup_moved i t m m' j x Ht Hm) as Hlk.
  pose proof (ok_sorted _ _ Hok) as Hs. rewrite El in Hs. apply StronglySorted_inv in Hs as [_ Hf]. rewrite Forall_forall in Hf.
  assert (Hlast : last (mm_metadata m) = last l) by (rewrite El; by destruct l).
  assert (Hown : forall j k, owned_by (set_metadata l m') j k -> (i < j)%nat /\ owned_by m j k).
  { intros j k (Hj & x & md & Hx & Em & Ha & Hc). cbn in *. split; [by apply Hf|]. split; [rewrite El; by right|].
    apply Hlk in Hx as [[-> ->]|[_ Hx]]; [exists t, md|exists x, md]; rewrite Hlast; done. }
  split; try change (pending (set_metadata l m')) with (pending m'); try setoid_rewrite Hp.
  - intros d j k Hst Hd [Hlt Ho]%Hown. change (d ∈ queue m') in Hd. rewrite (mv_queue _ _ _ _ Hm) in Hd.
    apply elem_of_app in Hd as [Hd|Hd]; [by eapply (safe_orphans _ _ Hsf)|by eapply (safe_queue _ _ Hsf)].
  - intros a b x d k Hst Hx Hd [_ Ho]%Hown Hlt. apply Hlk in Hx as [[-> ->]|[_ Hx]]; [by apply not_elem_of_nil in Hd|].
    by eapply (safe_orphans _ _ Hsf).
  - intros a b j k Hab [_ Ho]%Hown. cbn in Hab. rewrite (mv_receiving _ _ _ _ Hm) in Hab. by eapply (safe_receiving _ _ Hsf).
  - apply Hsf.
  - cbn. rewrite (mv_receiving _ _ _ _ Hm). apply Hsf.
Qed.

Lemma pop_retired held i l m t m' :
  mm_ok held m -> mm_metadata m = i :: l -> l <> [] -> mm_trackers m !! i = Some t -> tk_usageCounter t = 0 -> moved i t m m' ->
  retired held m (set_metadata l m').
Proof.
  intros Hok El Hl Ht Hu Hm. assert (Hlast : last l = last (mm_metadata m)) by (rewrite El; by destruct l).
  assert (Ea : active (set_metadata l m') = active m).
  { rewrite <- (moved_active _ _ _ _ Ht Hm). unfold active, tracker. cbn. by rewrite Hlast, (mv_metadata _ _ _ _ Hm). }
  split.
  - by eapply pop_ok.
  - intros careful ready Hs. by eapply pop_safe.
  - intros running Hr d Hsd Hd. destruct (mv_tasked _ _ _ _ Hm running Hr d Hsd Hd) as (e & He & Hin). exists e.
    rewrite active_metadata, Ea, <- (moved_active _ _ _ _ Ht Hm), <- active_metadata. done.
  - exact Ea.
  - intros j k (Hj & x & md & Hx & Em & Ha & Hc).
    assert (Hne : j <> i).
    { intros ->. destruct Ha as [Ha|Ha]; [|by assert (x = t) as -> by congruence]. rewrite <- Hlast in Ha.
      pose proof (ok_sorted _ _ Hok) as Hs. rewrite El in Hs. pose proof (sorted_lt_last _ _ _ Hs Ha). lia. }
    split; [rewrite El in Hj; by apply elem_of_cons in Hj as [?|?]|]. exists x, md. cbn. rewrite Hlast. split_and!; try done.
    apply (lookup_moved i t m m' j x Ht Hm). by right.
  - exact Hlast.
  - apply (mv_receiving _ _ _ _ Hm).
  - apply (mv_notifications _ _ _ _ Hm).
  - exact (moved_pending _ _ _ _ Ht Hm).
  - cbn. rewrite (mv_trackers _ _ _ _ Hm). apply length_insert.
Qed.

Lemma tracker_ok held i m : mm_ok held m -> i ∈ mm_metadata m -> exists t, tracker i m = Ret t /\ mm_trackers m !! i = Some t.
Proof.
  intros Hok Hi. destruct (lookup_lt_is_Some_2 (mm_trackers m) i) as [t Ht]; [by apply (ok_bound _ _ Hok)|].
  exists t. unfold tracker. by rewrite Ht.
Qed.

Lemma retire_front_ok held l m : mm_ok held m -> mm_metadata m = l ->
  exists m', retire_front l m = Ret m' /\ retired held m m'.
Proof.
  revert m. induction l as [|i l IH]; intros m Hok El; cbn [retire_front]; [by exists m; split; [|apply retired_refl]|].
  destruct l as [|j l']; [by exists m; split; [|apply retired_refl]|].
  destruct (tracker_ok held i m Hok) as (t & -> & Ht); [rewrite El; left|]. cbn [obind].
  destruct (Z.eqb_spec (tk_usageCounter t) 0) as [Eu|]; cbn [negb]; [|by exists m; split; [|apply retired_refl]].
  assert (Hx : is_Some (last (mm_metadata m))).
  { rewrite El. destruct (last (i :: j :: l')) eqn:E; [by eexists|]. by apply last_None in E. }
  destruct Hx as [x Hx]. destruct (active_ok held m x Hok Hx) as [md Ha].
  destruct (move_orphans i t m md Ht Ha) as (m1 & -> & Hm). cbn [obind].
  pose proof (pop_retired held i (j :: l') m t m1 Hok El ltac:(done) Ht Eu Hm) as Hr.
  destruct (IH (set_metadata (j :: l') m1)) as (m' & -> & Hr'); [apply Hr|done|].
  exists m'. split; [done|]. by eapply retired_trans.
Qed.

Lemma update_retired held i t t' m :
  mm_ok held m -> mm_trackers m !! i = Some t -> tk_orphans t' = tk_orphans t -> tk_usageCounter t' = tk_usageCounter t ->
  tk_usageCounter t = 0 -> tk_metadata t' = None -> last (mm_metadata m) <> Some i -> retired held m (set_tracker i t' m).
Proof.
  intros Hok Ht Eo Eu E0 Em Hl. assert (Ea : active (set_tracker i t' m) = active m) by (eapply update_active; [done|by right]).
  split; try done.
  - eapply tracker_update_ok; [done..| |by left|by right|by rewrite Eu]. rewrite Eu. by apply (ok_count _ _ Hok).
  - intros careful ready Hs. eapply update_safe; [done..|by right|by rewrite Eu].
  - intros running. by apply tasked_same.
  - intros j k (Hj & x & md & Hx & Ex & Ha & Hc). split; [done|]. exists x, md. split_and!; try done.
    apply (lookup_tracker i t); [done|]. right. split; [|done]. intros ->. assert (x = t) as -> by congruence.
    by destruct Ha.
  - by erewrite pending_update.
  - apply length_insert.
Qed.

Lemma drop_unused_ok held l m : mm_ok held m -> l `suffix_of` mm_metadata m ->
  exists m', drop_unused l m = Ret m' /\ retired held m m' /\ mm_metadata m' = mm_metadata m.
Proof.
  revert m. induction l as [|i l IH]; intros m Hok Hsuf; cbn [drop_unused].
  { exists m. split_and!; [done|by apply retired_refl|done]. }
  destruct l as [|j l']; [exists m; split_and!; [done|by apply retired_refl|done]|].
  destruct Hsuf as [pre Epre].
  destruct (tracker_ok held i m Hok) as (t & -> & Ht); [rewrite Epre; apply elem_of_app; right; left|]. cbn [obind].
  assert (Hsuf' : j :: l' `suffix_of` mm_metadata m) by (exists (pre ++ [i]); by rewrite Epre, <- app_assoc).
  destruct (tk_usageCounter t =? 0) eqn:Eu; [|by apply IH]. apply Z.eqb_eq in Eu.
  assert (Hr : retired held m (set_tracker i (without_metadata t) m)).
  { eapply update_retired; [done..|]. intros El. pose proof (ok_sorted _ _ Hok) as Hs. rewrite Epre in El, Hs.
    rewrite last_app_cons in El. assert (Hs' : StronglySorted lt (i :: j :: l')) by (clear -Hs; induction pre as [|x pre IH]; [done|];
      apply IH; by apply StronglySorted_inv in Hs as []).
    assert (El' : last (j :: l') = Some i) by (by rewrite <- El). pose proof (sorted_lt_last _ _ _ Hs' El'). lia. }
  destruct (IH (set_tracker i (without_metadata t) m)) as (m' & E & Hr' & Em); [apply Hr|done|].
  exists m'. split_and!; [exact E|by eapply retired_trans|exact Em].
Qed.

Lemma retire_ok held m : mm_ok held m -> exists m', _retireExpiredMetadata m = Ret m' /\ retired held m m'.
Proof.
  intros Hok. unfold _retireExpiredMetadata. destruct (retire_front_ok held _ m Hok eq_refl) as (m1 & -> & H1). cbn [obind].
  destruct (drop_unused_ok held (mm_metadata m1) m1) as (m2 & -> & H2 & _); [apply H1|done|].
  exists m2. split; [done|]. by eapply retired_trans.
Qed.

(** * References of queries *)

Lemma uses_of_le i held : (uses_of i held <= List.length held)%nat.
Proof. unfold uses_of. apply List.filter_length_le. Qed.

(** Fewer references than the counter can hold. *)
Definition few (held : list nat) : Prop := Z.of_nat (List.length held) < 2 ^ 32 - 1.

Lemma usage_owned i t n m j k : mm_trackers m !! i = Some t -> n <> 0 \/ last (mm_metadata m) = Some i ->
  owned_by m j k -> owned_by (set_tracker i (with_usage n t) m) j k.
Proof.
  intros Ht Hn (Hj & x & md & Hx & Ex & Ha & Hc). split; [done|]. destruct (decide (j = i)) as [->|Hne].
  - assert (x = t) as -> by congruence. eexists _, md.
    split_and!; [apply (lookup_tracker i t); [done|by left]|done|destruct Hn; [by right|by left]|done].
  - exists x, md. split_and!; try done. apply (lookup_tracker i t); [done|by right].
Qed.

Lemma acquire_ok held i t m :
  mm_ok held m -> few held -> mm_trackers m !! i = Some t ->
  (last (mm_metadata m) = Some i \/ tk_usageCounter t <> 0) ->
  let m' := set_tracker i (with_usage (u32 (tk_usageCounter t + 1)) t) m in
  mm_ok (i :: held) m' /\ (forall careful ready, mm_safe careful ready m -> mm_safe careful ready m') /\ active m' = active m /\
  forall j k, owned_by m' j k <-> owned_by m j k.
Proof.
  intros Hok Hf Ht Hl m'. pose proof (uses_of_le i held) as Hle. pose proof (ok_count _ _ Hok i t Ht) as Hc.
  assert (Hu : u32 (tk_usageCounter t + 1) = Z.of_nat (uses_of i (i :: held))).
  { rewrite uses_of_cons, Nat.eqb_refl, Hc. unfold u32, few in *. rewrite Z.mod_small; lia. }
  split_and!.
  - eapply tracker_update_ok; [done..| |exact Hu| |by left|].
    + intros j Hj. rewrite uses_of_cons. by apply Nat.eqb_neq in Hj as ->.
    + intros j [->|?]%elem_of_cons; [by right|by left].
    + intros Hi _. cbn. destruct Hl as [Hl|Hl]; [|by eapply (ok_used _ _ Hok)].
      destruct (ok_active _ _ Hok i Hl) as (t0 & md & Ht0 & Em & _). assert (t0 = t) as -> by congruence. by rewrite Em.
  - intros careful ready Hs. eapply update_safe; [done..|by left|]. intros _. tauto.
  - eapply update_active; [done|by left].
  - intros j k. split; [apply (update_owned i t); [done|by left|]; intros _; tauto|].
    apply usage_owned; [done|]. left. rewrite Hu, uses_of_cons, Nat.eqb_refl. lia.
Qed.

Lemma getActiveMetadata_ok held m : mm_ok held m -> few held ->
  exists m', getActiveMetadata m = Ret (m', last (mm_metadata m)) /\
    mm_ok (option_list (last (mm_metadata m)) ++ held) m' /\
    (forall careful ready, mm_safe careful ready m -> mm_safe careful ready m') /\ active m' = active m /\
    (forall running, mm_tasked running m -> mm_tasked running m') /\ (forall j k, owned_by m j k -> owned_by m' j k) /\
    mm_rangesToClean m' = mm_rangesToClean m /\ mm_receivingChunks m' = mm_receivingChunks m /\ mm_metadata m' = mm_metadata m.
Proof.
  intros Hok Hf. unfold getActiveMetadata. destruct (last (mm_metadata m)) as [i|] eqn:El; [|by exists m].
  destruct (ok_active _ _ Hok i El) as (t & md & Ht & _). unfold tracker. rewrite Ht. cbn [obind].
  destruct (acquire_ok held i t m Hok Hf Ht) as (H1 & H2 & H3 & H4); [by left|].
  eexists. split; [reflexivity|]. split_and!; [exact H1|exact H2|exact H3| |by intros; apply H4|done..].
  intros running. by apply tasked_same.
Qed.

Lemma release_ok held i m : mm_ok (i :: held) m -> exists m', release i m = Ret m' /\
  mm_ok held m' /\ (forall careful ready, mm_safe careful ready m -> mm_safe careful ready m') /\
  (forall running, mm_tasked running m -> mm_tasked running m') /\ active m' = active m /\
  mm_receivingChunks m' = mm_receivingChunks m /\ pending m' ≡ₚ pending m /\
  last (mm_metadata m') = last (mm_metadata m) /\
  (last (mm_metadata m) = Some i -> forall j k, owned_by m j k -> owned_by m' j k).
Proof.
  intros Hok. destruct (lookup_lt_is_Some_2 (mm_trackers m) i) as [t Ht]; [apply (ok_held _ _ Hok); left|].
  unfold release, tracker. rewrite Ht. cbn [obind]. pose proof (ok_count _ _ Hok i t Ht) as Hc.
  rewrite uses_of_cons, Nat.eqb_refl in Hc. assert (Hn : (tk_usageCounter t =? 0) = false) by lia. rewrite Hn. cbn [negb invariant obind].
  set (t' := with_usage (tk_usageCounter t - 1) t). set (m1 := set_tracker i t' m).
  assert (H1 : mm_ok held m1).
  { eapply tracker_update_ok; [exact Hok|exact Ht|done| |cbn; lia| |by left|].
    - intros j Hj. rewrite uses_of_cons. by apply Nat.eqb_neq in Hj as ->.
    - intros j Hj. left. by right.
    - intros Hi _. cbn. eapply (ok_used _ _ Hok); [done..|lia]. }
  assert (H2 : forall careful ready, mm_safe careful ready m -> mm_safe careful ready m1).
  { intros careful ready Hs. eapply update_safe; [done..|by left|]. intros _. left. lia. }
  assert (H3 : active m1 = active m) by (eapply update_active; [done|by left]).
  assert (H4 : forall running, mm_tasked running m -> mm_tasked running m1) by (intros running; by apply tasked_same).
  assert (H5 : pending m1 = pending m) by (by apply (pending_update i t)).
  assert (H6 : last (mm_metadata m) = Some i -> forall j k, owned_by m j k -> owned_by m1 j k)
    by (intros Hl j k; apply usage_owned; [done|by right]).
  destruct (tk_usageCounter t' =? 0); [|exists m1; split_and!; try done; by rewrite H5].
  destruct (retire_ok held m1 H1) as (m2 & -> & [R1 R2 R3 R4 R5 R6 R7 R8 R9 _]). exists m2.
  split_and!; [done|done|by auto|by auto|congruence|by rewrite R7|by rewrite R9, H5|by rewrite R6|by auto].
Qed.

(** * Abandoning all deletions *)

Record gathered (held l : list nat) (m m' : MetadataManager) : Prop := {
  ga_ok : mm_ok held m';
  ga_metadata : mm_metadata m' = mm_metadata m;
  ga_receiving : mm_receivingChunks m' = mm_receivingChunks m;
  ga_notifications : mm_notifications m' = mm_notifications m;
  ga_tasks : mm_tasks m' = mm_tasks m;
  ga_active : active m' = active m;
  ga_owned j k : owned_by m' j k -> owned_by m j k;
  ga_orphans j t : mm_trackers m' !! j = Some t -> j ∈ l \/ ~ j ∈ mm_metadata m -> tk_orphans t = [];
  ga_pending : pending m' ≡ₚ pending m
}.

Lemma gather_one held l i t m0 m :
  gathered held l m0 m -> i ∈ mm_metadata m0 -> mm_trackers m !! i = Some t ->
  gathered held (l ++ [i]) m0 (set_deleter (add (tk_orphans t) (mm_rangesToClean m)).1 (set_tracker i (with_orphans [] t) m)).
Proof.
  intros [Hok Em Er En Et Ea Ho Hor Hp] Hi Ht.
  set (m' := set_deleter _ _). pose proof (add_queue (tk_orphans t) (mm_rangesToClean m)) as Hq.
  assert (Hmv : pending m' ≡ₚ pending m).
  { unfold pending, queue, m'. cbn [set_deleter set_tracker mm_rangesToClean mm_trackers]. rewrite Hq, list_fmap_insert.
    assert (Ej : (tk_orphans <$> mm_trackers m) !! i = Some (tk_orphans t)) by (by rewrite list_lookup_fmap, Ht).
    pose proof (join_insert _ i _ [] Ej) as Hj. cbn [app] in Hj. rewrite <- Hj. cbn [tk_orphans with_orphans].
    rewrite <- (app_assoc (tk_orphans t)). apply Permutation_app_swap_app. }
  assert (Hlk : forall j x, mm_trackers m' !! j = Some x <->
    (j = i /\ x = with_orphans [] t) \/ (j <> i /\ mm_trackers m !! j = Some x)) by (intros; exact (lookup_tracker i t _ m j x Ht)).
  assert (Hlen : List.length (mm_trackers m') = List.length (mm_trackers m)) by (cbn; apply length_insert).
  split; try done.
  - split; try setoid_rewrite Hmv; rewrite ?Hlen; try apply Hok.
    + intros j x md [[-> ->]|[_ Hx]]%Hlk E; [by apply (ok_wf _ _ Hok i t)|by eapply (ok_wf _ _ Hok)].
    + intros j Hj. destruct (ok_active _ _ Hok j Hj) as (x & md & Hx & Ex & E0). destruct (decide (j = i)) as [->|Hne].
      * assert (x = t) as -> by congruence. exists (with_orphans [] t), md. split_and!; [apply Hlk; by left|done|done].
      * exists x, md. split_and!; [apply Hlk; by right|done|done].
    + intros j x Hj [[-> ->]|[_ Hx]]%Hlk Hn; [by apply (ok_used _ _ Hok i t)|by eapply (ok_used _ _ Hok)].
    + intros j x [[-> ->]|[_ Hx]]%Hlk Hn; [done|by eapply (ok_popped _ _ Hok)].
    + intros j x [[-> ->]|[_ Hx]]%Hlk; [by apply (ok_count _ _ Hok i t)|by apply (ok_count _ _ Hok)].
    + intros E. exfalso. change (mm_metadata m = []) in E. rewrite <- Em in Hi. rewrite E in Hi. by apply not_elem_of_nil in Hi.
  - rewrite <- Ea. exact (update_active i t (with_orphans [] t) m Ht (or_introl eq_refl)).
  - intros j k Hown. apply Ho. apply (update_owned i t (with_orphans [] t) m j k Ht); [by left|by left|exact Hown].
  - intros j x [[-> ->]|[Hne Hx]]%Hlk Hj; [done|]. apply (Hor j x Hx). destruct Hj as [Hj|Hj]; [|by right]. left.
    apply elem_of_app in Hj as [Hj|Hj]; [done|]. by apply list_elem_of_singleton in Hj.
  - by rewrite Hmv.
Qed.

Lemma gather_all held m0 todo l m : gathered held l m0 m -> todo ⊆ mm_metadata m0 ->
  exists m', ofold (fun m i =>
             let* t := tracker i m in
             Ret (set_deleter (add (tk_orphans t) (mm_rangesToClean m)).1 (set_tracker i (with_orphans [] t) m)))
      m todo = Ret m' /\ gathered held (l ++ todo) m0 m'.
Proof.
  revert l m. induction todo as [|i todo IH]; intros l m Hg Hsub; cbn [ofold]; [exists m; by rewrite app_nil_r|].
  destruct (tracker_ok held i m) as (t & -> & Ht); [apply Hg|rewrite (ga_metadata _ _ _ _ Hg); apply Hsub; left|]. cbn [obind].
  destruct (IH (l ++ [i]) (set_deleter (add (tk_orphans t) (mm_rangesToClean m)).1 (set_tracker i (with_orphans [] t) m)))
    as (m' & E & Hg').
  - apply gather_one; [done|apply Hsub; left|done].
  - intros x Hx. apply Hsub. by right.
  - exists m'. split; [exact E|]. by rewrite <- app_assoc in Hg'.
Qed.

Lemma notify_all status ds m :
  NoDup (dl_notification <$> ds) -> (forall d, d ∈ ds -> mm_notifications m !! dl_notification d = Some None) ->
  exists ns, ofold (fun m r => notify (dl_notification r) status m) m ds = Ret (set_notifications ns m) /\
    (forall d, d ∈ ds -> ns !! dl_notification d = Some (Some status)) /\
    forall n, ~ n ∈ dl_notification <$> ds -> ns !! n = mm_notifications m !! n.
Proof.
  revert m. induction ds as [|d ds IH]; intros m Hnd Hu; cbn [ofold].
  { exists (mm_notifications m). split_and!; [by destruct m|by intros ? ?%not_elem_of_nil|done]. }
  cbn [fmap list_fmap] in Hnd. apply NoDup_cons in Hnd as [Hn Hnd].
  set (m1 := set_notifications (<[dl_notification d := Some status]> (mm_notifications m)) m).
  assert (E1 : notify (dl_notification d) status m = Ret m1) by (unfold notify; by rewrite (Hu d) by left).
  rewrite E1. cbn [obind].
  destruct (IH m1 Hnd) as (ns & E & H1 & H2).
  { intros d' Hd'. cbn. rewrite list_lookup_insert_ne; [apply Hu; by right|]. intros Heq. apply Hn. rewrite Heq.
    by apply list_elem_of_fmap_2. }
  exists ns. split_and!; [exact E| |].
  - intros d' [->|Hd']%elem_of_cons; [|by apply H1]. rewrite H2 by done. cbn. apply list_lookup_insert_eq.
    eapply lookup_lt_Some. apply Hu. left.
  - intros n Hnn. cbn [fmap list_fmap] in Hnn. apply not_elem_of_cons in Hnn as [Hne Hnn]. rewrite H2 by done. cbn.
    by apply list_lookup_insert_ne.
Qed.

(** After all deletions are abandoned nothing is pending, and whoever waited for
    one of them has been told. *)
Record cleared (held : list nat) (status : StatusWith unit) (m m' : MetadataManager) : Prop := {
  cl_ok : mm_ok held m';
  cl_pending : pending m' = [];
  cl_metadata : mm_metadata m' = mm_metadata m;
  cl_receiving : mm_receivingChunks m' = mm_receivingChunks m;
  cl_active : active m' = active m;
  cl_owned j k : owned_by m' j k -> owned_by m j k;
  cl_notified d : d ∈ pending m -> mm_notifications m' !! dl_notification d = Some (Some status);
  cl_others n : ~ n ∈ dl_notification <$> pending m -> mm_notifications m' !! n = mm_notifications m !! n
}.

Lemma join_nil {A} (l : list (list A)) : (forall x, x ∈ l -> x = []) -> mjoin l = [].
Proof.
  induction l as [|x l IH]; intros H; [done|]. cbn. rewrite (H x) by left. apply IH. intros y Hy. apply H. by right.
Qed.

Lemma clearAll_ok held status m : mm_ok held m ->
  exists m', _clearAllCleanups status m = Ret m' /\ cleared held status m m'.
Proof.
  intros Hok. unfold _clearAllCleanups.
  destruct (gather_all held m (mm_metadata m) [] m) as (m1 & -> & Hg); [|done|].
  { split; try done. intros j t Ht [Hj|Hj]; [by apply not_elem_of_nil in Hj|by eapply (ok_popped _ _ Hok)]. }
  cbn [app obind] in *. unfold clear. destruct Hg as [Hok1 Em Er En Et Ea Ho Hor Hp].
  assert (Hjoin : mjoin (tk_orphans <$> mm_trackers m1) = []).
  { apply join_nil. intros x (t & -> & [j Hj]%list_elem_of_lookup)%list_elem_of_fmap. apply (Hor j t Hj).
    destruct (decide (j ∈ mm_metadata m)); [by left|by right]. }
  assert (Hpq : pending m1 = queue m1) by (unfold pending; by rewrite Hjoin, app_nil_r).
  pose proof (ok_fresh _ _ Hok1) as Hf. pose proof (ok_unset _ _ Hok1) as Hu. rewrite Hpq in Hf, Hu.
  destruct (notify_all status (queue m1) m1 Hf Hu) as (ns & E & H1 & H2). unfold queue in E at 1. rewrite E. cbn [obind].
  eexists. split; [reflexivity|]. set (m' := set_deleter _ _).
  assert (Hp' : pending m' = []) by (unfold pending, queue; cbn; exact Hjoin).
  split; try done.
  - split; try apply Hok1; rewrite ?Hp'; try done; try (by intros ? ?%not_elem_of_nil); [constructor|].
    intros E0. split; [done|]. by apply (ok_none _ _ Hok1).
  - intros d Hd. apply H1. by rewrite <- Hpq, Hp.
  - intros n Hn. rewrite <- En. apply H2. rewrite <- Hpq. intros Hin. apply Hn. by rewrite <- Hp.
Qed.

Lemma cleared_safe careful held status ready m m' : cleared held status m m' ->
  (forall a b i k, (a, b) ∈ mm_receivingChunks m -> owned_by m i k -> ~ (a ≼ k /\ k ≺ b)) ->
  ready ⊆ mm_receivingChunks m -> mm_safe careful ready m'.
Proof.
  intros Hc Hr Hsub. pose proof (cl_pending _ _ _ _ Hc) as Hp.
  assert (Hq : queue m' = []) by (unfold pending in Hp; by apply app_eq_nil in Hp as [? _]).
  split; rewrite ?Hp, ?Hq, ?(cl_receiving _ _ _ _ Hc); try (by intros ? ? ? _ ?%not_elem_of_nil); [| |by intros ? ? ? ? _ _ ?%not_elem_of_nil|done].
  - intros i j t d k _ Ht Hd _ _ _. assert (Hin : d ∈ pending m'); [|rewrite Hp in Hin; by apply not_elem_of_nil in Hin].
    apply elem_of_app. right. apply list_elem_of_join. exists (tk_orphans t). split; [done|].
    apply list_elem_of_fmap_2. by eapply list_elem_of_lookup_2.
  - intros a b i k Hab Hown%(cl_owned _ _ _ _ Hc). by eapply Hr.
Qed.

Lemma cleared_tasked held status running m m' : cleared held status m m' -> mm_tasked running m'.
Proof.
  intros Hc d _ Hd. pose proof (cl_pending _ _ _ _ Hc) as Hp. unfold pending in Hp. apply app_eq_nil in Hp as [Hq _].
  rewrite Hq in Hd. by apply not_elem_of_nil in Hd.
Qed.

(** * New metadata *)

Lemma uses_of_none i held : ~ i ∈ held -> uses_of i held = 0%nat.
Proof.
  intros Hn. induction held as [|j held IH]; [done|]. rewrite uses_of_cons. apply not_elem_of_cons in Hn as [Hne Hn].
  apply Nat.eqb_neq in Hne as ->. by apply IH.
Qed.

Definition extend (remote : CollectionMetadata) (m : MetadataManager) : MetadataManager :=
  mkManager (mm_trackers m ++ [mkTracker (Some remote) [] 0]) (mm_metadata m ++ [List.length (mm_trackers m)])
    (mm_receivingChunks m) (mm_rangesToClean m) (mm_notifications m) (mm_tasks m) (mm_inShutdown m).

Lemma extend_pending remote m : pending (extend remote m) = pending m.
Proof. unfold pending. cbn. by rewrite fmap_app, join_app; cbn; rewrite app_nil_r. Qed.

Lemma extend_lookup remote m j t : mm_trackers (extend remote m) !! j = Some t <->
  mm_trackers m !! j = Some t \/ (j = List.length (mm_trackers m) /\ t = mkTracker (Some remote) [] 0).
Proof.
  cbn. split.
  - intros [?|[Hle Hx]]%lookup_app_Some; [by left|right]. apply list_lookup_singleton_Some in Hx as [? <-]. split; [lia|done].
  - intros [?|[-> ->]]; apply lookup_app_Some; [by left|right]. split; [lia|]. by rewrite Nat.sub_diag.
Qed.

Lemma extend_last remote m : last (mm_metadata (extend remote m)) = Some (List.length (mm_trackers m)).
Proof. apply last_snoc. Qed.

Lemma extend_active remote m : active (extend remote m) = Ret remote.
Proof.
  unfold active, tracker. rewrite extend_last, (proj2 (extend_lookup remote m _ _) (or_intror (conj eq_refl eq_refl))). done.
Qed.

Lemma extend_ok held remote m : mm_ok held m -> range_map_wf (md_rangesMap remote) -> mm_ok held (extend remote m).
Proof.
  intros Hok Hw. pose proof (extend_lookup remote m) as Hl. set (n := List.length (mm_trackers m)) in *.
  assert (Hn : forall i, i ∈ mm_metadata m -> (i < n)%nat) by apply Hok.
  assert (Hlt : forall i t, mm_trackers m !! i = Some t -> (i < n)%nat) by (intros; by eapply lookup_lt_Some).
  split; rewrite ?extend_pending; try apply Hok.
  - by apply sorted_snoc; [apply Hok|].
  - intros i [Hi| ->%list_elem_of_singleton]%elem_of_app; cbn; rewrite length_app; cbn; [specialize (Hn i Hi)|]; fold n; lia.
  - intros i t md [Ht|[_ ->]]%Hl Em; [by eapply (ok_wf _ _ Hok)|]. by injection Em as <-.
  - intros i Hi. rewrite extend_last in Hi. injection Hi as <-. eexists _, remote. split_and!; [apply Hl; by right|done|done].
  - intros i t Hi [Ht|[_ ->]]%Hl Hu; [|done]. apply elem_of_app in Hi as [Hi|Hi]; [by eapply (ok_used _ _ Hok)|].
    apply list_elem_of_singleton in Hi. specialize (Hlt i t Ht). fold n in Hi. lia.
  - intros i t [Ht|[-> ->]]%Hl Hi; [|done]. eapply (ok_popped _ _ Hok); [done|]. intros Hin. apply Hi, elem_of_app. by left.
  - intros i t [Ht|[-> ->]]%Hl; [by apply (ok_count _ _ Hok)|]. rewrite uses_of_none; [done|].
    intros Hh%(ok_held _ _ Hok). fold n in Hh. lia.
  - intros i Hi%(ok_held _ _ Hok). cbn. rewrite length_app. lia.
  - intros E. apply app_eq_nil in E as [_ E]. done.
Qed.

(** The keys of new metadata are keys of the active metadata, or of a range that
    was received after all orphans in it were gone. *)
Definition gains_only_ready (ready : RangeMap) (m : MetadataManager) (remote : CollectionMetadata) : Prop :=
  forall k, covered (md_rangesMap remote) k ->
    (exists i, last (mm_metadata m) = Some i /\ owned_by m i k) \/ exists a b, (a, b) ∈ ready /\ a ≼ k /\ k ≺ b.

Lemma extend_safe (careful : Prop) held ready ready' recv remote m :
  mm_ok held m -> mm_safe careful ready m -> (careful -> gains_only_ready ready m remote) ->
  recv ⊆ mm_receivingChunks m -> (forall a b k, (a, b) ∈ recv -> covered (md_rangesMap remote) k -> ~ (a ≼ k /\ k ≺ b)) ->
  ready' ⊆ ready -> ready' ⊆ recv -> mm_safe careful ready' (extend remote (set_receiving recv m)).
Proof.
  intros Hok Hs Hg Hrecv Hno Hsub Hsub'. set (m' := extend _ _). pose proof (extend_lookup remote (set_receiving recv m)) as Hl.
  set (n := List.length (mm_trackers m)).
  assert (Hp : pending m' = pending m) by exact (extend_pending remote (set_receiving recv m)).
  assert (Hown : forall j k, owned_by m' j k -> owned_by m j k \/ (j = n /\ covered (md_rangesMap remote) k)).
  { intros j k (Hj & t & md & Ht & Em & Ha & Hc). apply Hl in Ht as [Ht|[-> ->]]; [left|right; by injection Em as <-].
    assert (Hne : j <> n) by (intros ->; apply lookup_lt_Some in Ht; cbn in Ht; unfold n in Ht; lia).
    split; [apply elem_of_app in Hj as [Hj| ->%list_elem_of_singleton]; [done|by destruct Hne]|].
    exists t, md. split_and!; [done|done| |done]. right. destruct Ha as [Ha|Ha]; [|done]. exfalso.
    unfold m' in Ha. rewrite extend_last in Ha. injection Ha as <-. by apply Hne. }
  split; rewrite ?Hp.
  - intros d j k Hst Hd [Ho|[-> Hc]]%Hown; [by eapply (safe_queue _ _ Hs)|]. change (d ∈ queue m) in Hd.
    destruct (Hg Hst k Hc) as [(i & _ & Ho)|(a & b & Hab & Hk)]; [by eapply (safe_queue _ _ Hs)|]. intros Hin.
    eapply (safe_ready _ _ Hs); [exact Hst|exact Hab| |exact Hin|exact Hk]. apply elem_of_app. by left.
  - intros i j t d k Hst Ht Hd Ho Hlt. apply Hl in Ht as [Ht|[-> ->]]; [|by apply not_elem_of_nil in Hd].
    change (mm_trackers m !! i = Some t) in Ht. apply Hown in Ho as [Ho|[-> Hc]]; [by eapply (safe_orphans _ _ Hs)|].
    destruct (Hg Hst k Hc) as [(x & Hx & Ho)|(a & b & Hab & Hk)].
    + eapply (safe_orphans _ _ Hs); [exact Hst|exact Ht|exact Hd|exact Ho|].
      assert (Hi : i ∈ mm_metadata m).
      { destruct (decide (i ∈ mm_metadata m)) as [|Hn]; [done|]. rewrite (ok_popped _ _ Hok i t Ht Hn) in Hd.
        by apply not_elem_of_nil in Hd. }
      apply (sorted_below (mm_metadata m)); [apply Hok|done|done|]. intros ->.
      destruct (ok_active _ _ Hok x Hx) as (t0 & md & Ht0 & _ & E0).
      assert (t0 = t) as -> by congruence. rewrite E0 in Hd. by apply not_elem_of_nil in Hd.
    + intros Hin. eapply (safe_ready _ _ Hs); [exact Hst|exact Hab| |exact Hin|exact Hk]. apply elem_of_app. right.
      apply list_elem_of_join. exists (tk_orphans t). split; [done|]. apply list_elem_of_fmap_2. by eapply list_elem_of_lookup_2.
  - intros a b i k Hab [Ho|[-> Hc]]%Hown; [eapply (safe_receiving _ _ Hs); [by apply Hrecv|done]|by eapply Hno].
  - intros a b d k Hst Hab%Hsub. by eapply (safe_ready _ _ Hs).
  - done.
Qed.

Definition same_epoch (a b : CollectionMetadata) : bool := oid_eqb (_epoch (getCollVersion a)) (_epoch (getCollVersion b)).

Definition may_become (careful : Prop) (ready : RangeMap) (m : MetadataManager) (remote : option CollectionMetadata) : Prop :=
  match remote with
  | None => True
  | Some r =>
      range_map_wf (md_rangesMap r) /\
      forall act, active m = Ret act -> same_epoch act r = true -> version_ge (getCollVersion act) (getCollVersion r) = false ->
        careful -> gains_only_ready ready m r
  end.

(** The metadata that is active after a refresh. *)
Definition refreshed (remote : option CollectionMetadata) (m m' : MetadataManager) : Prop :=
  match remote with
  | None => mm_metadata m' = []
  | Some r =>
      active m' = Ret r \/
      exists act, active m = Ret act /\ same_epoch act r = true /\
        version_ge (getCollVersion act) (getCollVersion r) = true /\ m' = m
  end.

Record good (careful : Prop) (held : list nat) (ready : RangeMap) (running : list OID) (m : MetadataManager) : Prop := {
  gd_ok : mm_ok held m;
  gd_safe : mm_safe careful ready m;
  gd_tasked : mm_tasked running m
}.
Arguments gd_ok {careful}.
Arguments gd_safe {careful}.
Arguments gd_tasked {careful}.

Lemma setActive_ok held remote m : mm_ok held m -> range_map_wf (md_rangesMap remote) ->
  exists m', _setActiveMetadata remote m = Ret m' /\ retired held (extend remote m) m'.
Proof. intros Hok Hw. apply retire_ok. by apply extend_ok. Qed.

Lemma set_receiving_ok held recv m : mm_ok held m -> recv `sublist_of` mm_receivingChunks m -> mm_ok held (set_receiving recv m).
Proof.
  intros Hok Hsub. split; try apply Hok.
  - intros E. destruct (ok_none _ _ Hok E) as [H1 H2]. split; [done|]. rewrite H2 in Hsub. by apply sublist_nil_r in Hsub.
  - eapply range_map_sublist; [apply Hok|done].
Qed.

Lemma rangeOverlapsChunk_key md r : range_map_wf (md_rangesMap md) -> _minKey r ≺ _maxKey r ->
  rangeOverlapsChunk md r = true <-> exists k, in_range r k /\ covered (md_rangesMap md) k.
Proof.
  intros Hw Hlt. unfold rangeOverlapsChunk. rewrite rangeMapOverlaps_spec, overlapping_key by done. unfold in_range. naive_solver.
Qed.

(** Metadata of the same epoch and a newer version. *)
Lemma update_metadata_ok (careful : Prop) held ready running remote act m :
  good careful held ready running m -> range_map_wf (md_rangesMap remote) -> active m = Ret act -> same_epoch act remote = true ->
  (careful -> gains_only_ready ready m remote) ->
  let recv := List.filter (fun r => negb (rangeOverlapsChunk remote (mkRange r.1 r.2))) (mm_receivingChunks m) in
  exists m', _setActiveMetadata remote (set_receiving recv m) = Ret m' /\ active m' = Ret remote /\
    mm_receivingChunks m' = recv /\
    forall ready', ready' ⊆ ready -> ready' ⊆ recv -> good careful held ready' running m'.
Proof.
  intros [Hok Hs Ht] Hw Ha He Hg recv.
  assert (Hsub : recv `sublist_of` mm_receivingChunks m) by apply filter_sublist.
  destruct (setActive_ok held remote (set_receiving recv m)) as (m' & E & Hr); [by apply set_receiving_ok|done|].
  assert (Hno : forall a b k, (a, b) ∈ recv -> covered (md_rangesMap remote) k -> ~ (a ≼ k /\ k ≺ b)).
  { intros a b k [Hin Hf]%list_elem_of_In%filter_In Hc Hk. apply negb_true_iff in Hf. cbn in Hf. apply not_true_iff_false in Hf.
    apply Hf, rangeOverlapsChunk_key; [done|apply (rm_range _ (ok_receiving _ _ Hok)); by apply list_elem_of_In|by exists k]. }
  exists m'. split_and!; [exact E|rewrite (re_active _ _ _ Hr); apply extend_active|apply (re_receiving _ _ _ Hr)|].
  intros ready' H1 H2. split; [apply Hr|apply (re_safe _ _ _ Hr)|apply (re_tasked _ _ _ Hr)].
  - eapply extend_safe; try done. intros x Hx. by eapply elem_of_sublist.
  - intros d Hsd Hd. destruct (Ht d Hsd Hd) as (e & Hae & Hin). exists e. split; [|exact Hin].
    rewrite active_metadata, extend_active. rewrite active_metadata, Ha in Hae. cbn in Hae |- *. rewrite <- Hae. f_equal.
    apply oid_eqb_eq in He. done.
Qed.

Lemma good_empty careful held running m : mm_ok held m -> pending m = [] -> mm_receivingChunks m = [] -> good careful held [] running m.
Proof.
  intros Hok Hp Er. assert (Hq : queue m = []) by (unfold pending in Hp; by apply app_eq_nil in Hp as [? _]). split; [done|split|].
  - rewrite Hq. by intros ? ? ? _ ?%not_elem_of_nil.
  - intros i j t d k _ Ht Hd. assert (Hin : d ∈ pending m); [|rewrite Hp in Hin; by apply not_elem_of_nil in Hin].
    apply elem_of_app. right. apply list_elem_of_join. exists (tk_orphans t). split; [done|].
    apply list_elem_of_fmap_2. by eapply list_elem_of_lookup_2.
  - rewrite Er. by intros ? ? ? ? ?%not_elem_of_nil.
  - by intros ? ? ? ? _ ?%not_elem_of_nil.
  - by intros ? ?%not_elem_of_nil.
  - intros d _ Hd. rewrite Hq in Hd. by apply not_elem_of_nil in Hd.
Qed.

Lemma pending_none held m : mm_ok held m -> mm_metadata m = [] -> pending m = [].
Proof.
  intros Hok E. destruct (ok_none _ _ Hok E) as [Hq _]. unfold pending. rewrite Hq. apply join_nil.
  intros x (t & -> & [j Hj]%list_elem_of_lookup)%list_elem_of_fmap. apply (ok_popped _ _ Hok j t Hj). rewrite E. apply not_elem_of_nil.
Qed.

(** A state without deletions or ranges being received. *)
Lemma good_reset careful held running ready m : mm_ok held m -> pending m = [] -> mm_receivingChunks m = [] ->
  ready ⊆ mm_receivingChunks m -> good careful held ready running m.
Proof.
  intros Hok Hp Er Hin. rewrite Er in Hin. destruct ready as [|x ready]; [by apply good_empty|].
  specialize (Hin x ltac:(left)). by apply not_elem_of_nil in Hin.
Qed.

Lemma refresh_first careful held running r m : mm_ok held m -> mm_metadata m = [] -> range_map_wf (md_rangesMap r) ->
  exists m', refreshActiveMetadata (Some r) m = Ret m' /\ active m' = Ret r /\ mm_receivingChunks m' = [] /\
    forall ready, ready ⊆ mm_receivingChunks m' -> good careful held ready running m'.
Proof.
  intros Hok El Hw. destruct (ok_none _ _ Hok El) as [_ Hr]. pose proof (pending_none held m Hok El) as Hp.
  unfold refreshActiveMetadata. rewrite El, Hr. cbn [List.length Nat.eqb invariant obind].
  destruct (setActive_ok held r m Hok Hw) as (m' & -> & Hrt). cbn [obind].
  assert (Hp' : pending m' = []) by (apply Permutation_nil_r; rewrite (re_pending _ _ _ Hrt), extend_pending, Hp; done).
  assert (Hd : deleter_isEmpty (mm_rangesToClean m') = true).
  { apply app_eq_nil in Hp' as [[H1 H2]%app_eq_nil _]. unfold deleter_isEmpty. by rewrite H1, H2. }
  rewrite Hd. cbn [invariant obind]. exists m'. split_and!; [done|rewrite (re_active _ _ _ Hrt); apply extend_active|by rewrite (re_receiving _ _ _ Hrt)|].
  intros ready. apply good_reset; [apply Hrt|done|]. rewrite (re_receiving _ _ _ Hrt). exact Hr.
Qed.

Lemma refresh_epoch careful held running r m : mm_ok held m -> range_map_wf (md_rangesMap r) ->
  exists m', (let* m := _setActiveMetadata r (set_receiving [] m) in _clearAllCleanups abandoned m) = Ret m' /\
    active m' = Ret r /\ forall ready, ready ⊆ mm_receivingChunks m' -> good careful held ready running m'.
Proof.
  intros Hok Hw. assert (Hok0 : mm_ok held (set_receiving [] m)) by (apply set_receiving_ok; [done|apply sublist_nil_l]).
  destruct (setActive_ok held r _ Hok0 Hw) as (m1 & -> & Hrt). cbn [obind].
  destruct (clearAll_ok held abandoned m1) as (m' & -> & Hc); [apply Hrt|]. exists m'. split_and!; [done| |].
  - rewrite (cl_active _ _ _ _ Hc), (re_active _ _ _ Hrt). apply extend_active.
  - intros ready. apply good_reset; [apply Hc|apply Hc|]. by rewrite (cl_receiving _ _ _ _ Hc), (re_receiving _ _ _ Hrt).
Qed.

Lemma forget_metadata_ok held m : mm_ok held m -> pending m = [] -> mm_receivingChunks m = [] -> mm_ok held (set_metadata [] m).
Proof.
  intros Hok Hp Er. assert (Hq : queue m = []) by (unfold pending in Hp; by apply app_eq_nil in Hp as [? _]).
  split; try apply Hok; cbn; try done; try (by intros ? ?%not_elem_of_nil); [constructor|..].
  - by intros i t ?%not_elem_of_nil.
  - intros i t Ht _. destruct (tk_orphans t) as [|d ds] eqn:E; [done|]. exfalso.
    assert (Hin : d ∈ pending m); [|rewrite Hp in Hin; by apply not_elem_of_nil in Hin].
    apply elem_of_app. right. apply list_elem_of_join. exists (tk_orphans t). split; [rewrite E; left|].
    apply list_elem_of_fmap_2. by eapply list_elem_of_lookup_2.
Qed.

Lemma refresh_unsharded careful held running m : mm_ok held m ->
  exists m', (let* m := _clearAllCleanups abandoned (set_receiving [] m) in Ret (set_metadata [] m)) = Ret m' /\
    mm_metadata m' = [] /\ forall ready, ready ⊆ mm_receivingChunks m' -> good careful held ready running m'.
Proof.
  intros Hok. assert (Hok0 : mm_ok held (set_receiving [] m)) by (apply set_receiving_ok; [done|apply sublist_nil_l]).
  destruct (clearAll_ok held abandoned _ Hok0) as (m1 & -> & Hc). cbn [obind]. eexists. split_and!; [done|done|].
  assert (Er : mm_receivingChunks m1 = []) by (by rewrite (cl_receiving _ _ _ _ Hc)).
  intros ready. apply good_reset; [|apply Hc|done]. apply forget_metadata_ok; [apply Hc|apply Hc|done].
Qed.

Lemma good_sub careful held ready ready' running m : good careful held ready running m -> ready' ⊆ ready -> good careful held ready' running m.
Proof.
  intros [Hok [S1 S2 S3 S4 S5] Ht] Hin. split; [done|split; [done..| |]|done].
  - intros a b d k Hst Hab. apply S4; [done|]. by apply Hin.
  - intros x Hx. by apply S5, Hin.
Qed.

Lemma refreshActive_ok careful held ready running remote m :
  good careful held ready running m -> may_become careful ready m remote ->
  exists m', refreshActiveMetadata remote m = Ret m' /\ refreshed remote m m' /\
    forall ready', ready' ⊆ ready -> ready' ⊆ mm_receivingChunks m' -> good careful held ready' running m'.
Proof.
  intros Hg Hb. pose proof Hg as [Hok Hs Ht]. destruct (mm_metadata m) as [|i0 l0] eqn:El.
  - destruct remote as [r|].
    + destruct Hb as [Hw _]. destruct (refresh_first careful held running r m Hok El Hw) as (m' & E & Ha & _ & Hg').
      exists m'. split_and!; [done|by left|by intros; apply Hg'].
    + destruct (ok_none _ _ Hok El) as [[H1 H2]%app_eq_nil Hr]. unfold refreshActiveMetadata, deleter_isEmpty.
      rewrite El, Hr, H1, H2. exists m. split_and!; [done|exact El|]. intros. by eapply good_sub.
  - assert (exists i, last (mm_metadata m) = Some i) as [i Hi].
    { rewrite El. destruct (last (i0 :: l0)) eqn:E; [by eexists|]. by apply last_None in E. }
    destruct (active_ok held m i Hok Hi) as [act Ha]. unfold refreshActiveMetadata. rewrite El. destruct remote as [r|]; rewrite Ha.
    + destruct Hb as [Hw Hb]. specialize (Hb act Ha). cbn [obind]. fold (same_epoch act r).
      destruct (same_epoch act r) eqn:Ee; cbn [negb].
      * destruct (version_ge (getCollVersion act) (getCollVersion r)) eqn:Ev.
        -- exists m. split_and!; [done|right; by exists act|]. intros. by eapply good_sub.
        -- destruct (update_metadata_ok careful held ready running r act m Hg Hw Ha Ee) as (m' & E & Ha' & Er & Hg'); [by apply Hb|].
           exists m'. split_and!; [exact E|by left|]. by rewrite Er.
      * destruct (refresh_epoch careful held running r m Hok Hw) as (m' & E & Ha' & Hg').
        exists m'. split_and!; [exact E|by left|by intros; apply Hg'].
    + destruct (refresh_unsharded careful held running m Hok) as (m' & E & Ha' & Hg').
      exists m'. split_and!; [exact E|exact Ha'|by intros; apply Hg'].
Qed.
