(* ===== verification/RangeSafety.v ===== *)
(** The operations on ranges keep the invariant of the metadata manager, and the
    deletion task removes no document that is owned or may still be read
    (db/s/metadata_manager.cpp, db/s/collection_range_deleter.cpp). *)

From stdpp Require Import base list sorting strings.
From Stdlib Require Import ZArith Lia String.
From S2P Require Import Prelude OrdMap Bson ChunkVersion ChunkType ShardKey Chunk ChunkManager RangeMap CollectionMetadata MetadataManager RangeDeletion.
Local Open Scope Z_scope.
Local Open Scope list_scope.
Local Open Scope outcome_scope.

(** * The newest_user metadata that uses a range *)

Definition in_use (m : MetadataManager) (i : nat) (r : ChunkRange) : Prop := exists k, in_range r k /\ owned_by m i k.

Definition valid_range (r : ChunkRange) : Prop := _minKey r ≺ _maxKey r.

Lemma uses_spec held m i t r b : mm_ok held m -> valid_range r -> i ∈ mm_metadata m -> mm_trackers m !! i = Some t ->
  b = bool_decide (last (mm_metadata m) = Some i) -> uses r b t = true <-> in_use m i r.
Proof.
  intros Hok Hr Hi Ht ->. unfold uses. rewrite andb_true_iff, orb_true_iff, bool_decide_eq_true, negb_true_iff, Z.eqb_neq.
  split.
  - intros [Ha Hu]. destruct (tk_metadata t) as [md|] eqn:Em; [|done].
    apply rangeOverlapsChunk_key in Hu as (k & Hk & Hc); [|by eapply (ok_wf _ _ Hok)|done].
    exists k. split; [done|]. split; [done|]. by exists t, md.
  - intros (k & Hk & _ & t' & md & Ht' & Em & Ha & Hc). assert (t' = t) as -> by congruence. split; [done|].
    rewrite Em. apply rangeOverlapsChunk_key; [by eapply (ok_wf _ _ Hok)|done|by exists k].
Qed.

(** The elements of a reversed list of metadata: only its first one is active. *)
Definition descending (m : MetadataManager) (act : bool) (l : list nat) : Prop :=
  l ⊆ mm_metadata m /\ StronglySorted (flip lt) l /\
  match l with
  | [] => True
  | i :: l => act = bool_decide (last (mm_metadata m) = Some i) /\ forall j, j ∈ l -> last (mm_metadata m) <> Some j
  end.

Lemma descending_tail m act i l : descending m act (i :: l) -> descending m false l.
Proof.
  intros (Hsub & Hs & _ & Hn). split_and!.
  - intros x Hx. apply Hsub. by right.
  - by apply StronglySorted_inv in Hs as [].
  - destruct l as [|j l]; [done|]. split; [|intros x Hx; apply Hn; by right]. symmetry. apply bool_decide_eq_false. apply Hn. left.
Qed.

Lemma sorted_reverse (l : list nat) : StronglySorted lt l -> StronglySorted (flip lt) (reverse l).
Proof.
  induction l as [|x l IH]; intros Hs; [constructor|]. apply StronglySorted_inv in Hs as [Hs Hf]. rewrite reverse_cons.
  apply sorted_snoc; [by apply IH|]. intros i Hi. rewrite elem_of_reverse in Hi. rewrite Forall_forall in Hf. exact (Hf i Hi).
Qed.

Lemma descending_all held m : mm_ok held m -> mm_metadata m <> [] -> descending m true (reverse (mm_metadata m)).
Proof.
  intros Hok Hne. pose proof (sorted_reverse _ (ok_sorted _ _ Hok)) as Hs. split_and!; [|done|].
  - intros x. by rewrite elem_of_reverse.
  - destruct (reverse (mm_metadata m)) as [|i l] eqn:E; [done|].
    assert (Hl : last (mm_metadata m) = Some i) by (by rewrite <- (reverse_involutive (mm_metadata m)), E, reverse_cons, last_snoc).
    rewrite Hl. split; [symmetry; by apply bool_decide_eq_true|]. intros j Hj [= ->].
    apply StronglySorted_inv in Hs as [_ Hf]. rewrite Forall_forall in Hf. specialize (Hf j Hj). unfold flip in Hf. lia.
Qed.

Definition newest_user (m : MetadataManager) (r : ChunkRange) (l : list nat) (found : option nat) : Prop :=
  match found with
  | Some i => i ∈ l /\ in_use m i r /\ forall j, j ∈ l -> (i < j)%nat -> ~ in_use m j r
  | None => forall j, j ∈ l -> ~ in_use m j r
  end.

Lemma find_newest_ok held m r act l : mm_ok held m -> valid_range r -> descending m act l ->
  exists found, find_newest r act l m = Ret found /\ newest_user m r l found.
Proof.
  intros Hok Hr. revert act. induction l as [|i l IH]; intros act Hd; cbn [find_newest].
  { exists None. split; [done|]. by intros j ?%not_elem_of_nil. }
  pose proof Hd as (Hsub & Hs & Ea & _). apply StronglySorted_inv in Hs as [_ Hf]. rewrite Forall_forall in Hf.
  assert (Hi : i ∈ mm_metadata m) by (apply Hsub; left).
  destruct (tracker_ok held i m Hok Hi) as (t & -> & Ht). cbn [obind].
  pose proof (uses_spec held m i t r act Hok Hr Hi Ht Ea) as Hu. destruct (uses r act t).
  - exists (Some i). split; [done|]. split_and!; [left|by apply Hu|].
    intros j [->|Hj]%elem_of_cons Hlt; [lia|]. specialize (Hf j Hj). unfold flip in Hf. lia.
  - destruct (IH false (descending_tail _ _ _ _ Hd)) as (found & -> & Hn). exists found. split; [done|].
    assert (Hni : ~ in_use m i r) by (rewrite <- Hu; done). destruct found as [x|]; cbn in *.
    + destruct Hn as (Hx & Hux & Hn). split_and!; [by right|done|]. intros j [->|Hj]%elem_of_cons Hlt; [done|by apply Hn].
    + intros j [->|Hj]%elem_of_cons; [done|by apply Hn].
Qed.

Lemma nonempty_invariant {A B} (l : list A) (k : Outcome B) : l <> [] -> (invariant (negb (List.length l =? 0)%nat) ;* k) = k.
Proof. by destruct l. Qed.

Lemma findNewest_ok held m r : mm_ok held m -> valid_range r -> mm_metadata m <> [] ->
  exists found, _findNewestOverlappingMetadata r m = Ret found /\ newest_user m r (mm_metadata m) found.
Proof.
  intros Hok Hr Hne. unfold _findNewestOverlappingMetadata. rewrite nonempty_invariant by done.
  destruct (find_newest_ok held m r true _ Hok Hr (descending_all held m Hok Hne)) as (found & -> & Hn).
  exists found. split; [done|]. unfold newest_user in *. destruct found; by setoid_rewrite elem_of_reverse in Hn.
Qed.

Lemma overlapsInUse_ok held m r : mm_ok held m -> valid_range r -> mm_metadata m <> [] ->
  exists b, _overlapsInUseChunk r m = Ret b /\ (b = true <-> exists i, in_use m i r).
Proof.
  intros Hok Hr Hne. unfold _overlapsInUseChunk. destruct (findNewest_ok held m r Hok Hr Hne) as (found & -> & Hn).
  cbn [obind]. eexists. split; [reflexivity|]. destruct found as [i|]; cbn in Hn.
  - split; [|done]. intros _. exists i. by destruct Hn as (_ & ? & _).
  - split; [done|]. intros (i & k & Hk & Ho). destruct (Hn i); [apply Ho|by exists k].
Qed.

(** * A range put on the queue *)

(** A new deletion, with a notification of its own, does not disturb the others. *)
Lemma fresh_notification held m d : mm_ok held m -> d ∈ pending m -> (dl_notification d < List.length (mm_notifications m))%nat.
Proof. intros Hok Hd. eapply lookup_lt_Some. by apply (ok_unset _ _ Hok). Qed.

(** One more pending deletion. *)
Record one_more (d : Deletion) (m m' : MetadataManager) : Prop := {
  om_notification : dl_notification d = List.length (mm_notifications m);
  om_valid : valid_range (dl_range d);
  om_notifications : mm_notifications m' = mm_notifications m ++ [None];
  om_pending : pending m' ≡ₚ d :: pending m
}.

Lemma one_more_fresh held d m m' : mm_ok held m -> one_more d m m' ->
  NoDup (dl_notification <$> pending m') /\
  (forall x, x ∈ pending m' -> mm_notifications m' !! dl_notification x = Some None) /\
  forall x, x ∈ pending m' -> _minKey (dl_range x) ≺ _maxKey (dl_range x).
Proof.
  intros Hok [En Hv Ens Hp]. rewrite Hp, Ens. setoid_rewrite Hp. split_and!.
  - cbn. apply NoDup_cons. split; [|apply Hok]. intros (x & Ex & Hx)%list_elem_of_fmap.
    pose proof (fresh_notification held m x Hok Hx). lia.
  - intros x [->|Hx]%elem_of_cons.
    + rewrite En, lookup_app_r by lia. by rewrite Nat.sub_diag.
    + rewrite lookup_app_l by (by eapply fresh_notification). by apply (ok_unset _ _ Hok).
  - intros x [->|Hx]%elem_of_cons; [done|by apply (ok_ranges _ _ Hok)].
Qed.

Record queued_one (d : Deletion) (m m' : MetadataManager) : Prop := {
  qo_trackers : mm_trackers m' = mm_trackers m;
  qo_metadata : mm_metadata m' = mm_metadata m;
  qo_receiving : mm_receivingChunks m' = mm_receivingChunks m;
  qo_queue : queue m' ≡ₚ d :: queue m;
  qo_more : one_more d m m'
}.

Lemma queued_owned d m m' i k : queued_one d m m' -> owned_by m' i k <-> owned_by m i k.
Proof. intros [H1 H2 _ _ _]. unfold owned_by. by rewrite H1, H2. Qed.

Lemma queued_ok held d m m' : mm_ok held m -> mm_metadata m <> [] -> queued_one d m m' -> mm_ok held m'.
Proof.
  intros Hok Hne [H1 H2 H3 H4 H5]. destruct (one_more_fresh held d m m' Hok H5) as (F1 & F2 & F3).
  split; rewrite ?H1, ?H2, ?H3; try apply Hok; try done.
Qed.

Lemma queued_safe careful ready d m m' : mm_safe careful ready m -> queued_one d m m' -> (forall i, ~ in_use m i (dl_range d)) ->
  (forall a b k, (a, b) ∈ ready -> in_range (dl_range d) k -> ~ (a ≼ k /\ k ≺ b)) -> mm_safe careful ready m'.
Proof.
  intros Hs Hq Hn Hr. pose proof (fun i k => proj1 (queued_owned d m m' i k Hq)) as Ho. destruct Hq as [H1 H2 H3 H4 [_ _ _ H5]].
  split; rewrite ?H1, ?H2, ?H3; try setoid_rewrite H4; try setoid_rewrite H5; try apply Hs.
  - intros x i k Hst [->|Hx]%elem_of_cons Hown%Ho; [intros Hk; apply (Hn i); by exists k|by eapply (safe_queue _ _ Hs)].
  - intros i j t x k Hst Ht Hx Hown%Ho. by eapply (safe_orphans _ _ Hs).
  - intros a b i k Hab Hown%Ho. by eapply (safe_receiving _ _ Hs).
  - intros a b x k Hst Hab [->|Hx]%elem_of_cons; [by apply Hr|by eapply (safe_ready _ _ Hs)].
Qed.

Lemma pushRange_ok held m r when : mm_ok held m -> mm_metadata m <> [] -> valid_range r ->
  exists m', _pushRangeToClean r when m = Ret (m', List.length (mm_notifications m)) /\
    queued_one (mkDeletion r when (List.length (mm_notifications m))) m m' /\
    forall running, mm_tasked running m -> mm_tasked running m'.
Proof.
  intros Hok Hne Hr. assert (exists i, last (mm_metadata m) = Some i) as [i Hi].
  { destruct (last (mm_metadata m)) eqn:E; [by eexists|]. by apply last_None in E. }
  destruct (active_ok held m i Hok Hi) as [md Ha]. unfold _pushRangeToClean.
  set (m1 := set_notifications _ m). set (d := mkDeletion r when _).
  destruct (push_list [d] m1 md Ha) as (m' & E & Hp). rewrite E. cbn [obind]. exists m'. split; [done|].
  destruct Hp as [P1 P2 P3 P4 _ P5 P6]. split; [|by apply P6]. split; [done..|]. split; [done|done|by rewrite P4|].
  unfold pending. by rewrite P5, P1.
Qed.

(** * Chunks being received *)

Lemma beginReceive_ok careful held ready running r m :
  good careful held ready running m -> mm_metadata m <> [] -> valid_range r ->
  ~ overlapping (mm_receivingChunks m) (_minKey r) (_maxKey r) ->
  exists m' res, beginReceive r m = Ret (m', res) /\ good careful held ready running m' /\
    ((exists i, in_use m i r) -> res = Ready (NotOK RangeOverlapConflict) /\ m' = m) /\
    ((forall i, ~ in_use m i r) -> exists n, res = Later n /\ mm_notifications m' !! n = Some None /\
       forall x, x ∈ mm_receivingChunks m' <-> x = (_minKey r, _maxKey r) \/ x ∈ mm_receivingChunks m).
Proof.
  intros [Hok Hs Ht] Hne Hr Hno. unfold beginReceive. rewrite nonempty_invariant by done.
  destruct (overlapsInUse_ok held m r Hok Hr Hne) as (b & -> & Hb). cbn [obind]. destruct b.
  { exists m, (Ready (NotOK RangeOverlapConflict)). split_and!; [done..|]. intros Hn. destruct (proj1 Hb eq_refl) as [i Hi].
    by destruct (Hn i). }
  assert (Hn : forall i, ~ in_use m i r) by (intros i Hi; enough (false = true) by done; apply Hb; by exists i).
  destruct (range_map_insert _ _ _ (ok_receiving _ _ Hok) Hr Hno) as [Hw He].
  set (m1 := set_receiving _ m).
  assert (Hok1 : mm_ok held m1) by (split; try apply Hok; done).
  assert (Hs1 : mm_safe careful ready m1).
  { split; try apply Hs; cbn [mm_receivingChunks set_receiving m1].
    - intros a b i k [[= -> ->]|Hab]%He Ho Hk; [apply (Hn i); by exists k|by eapply (safe_receiving _ _ Hs)].
    - intros x Hx. apply He. right. by apply (safe_sub _ _ Hs). }
  destruct (pushRange_ok held m1 r 0 Hok1 Hne Hr) as (m' & -> & Hq & Htk). cbn [obind]. exists m', (Later (List.length (mm_notifications m))).
  split_and!; [done| |intros [i Hi]; by destruct (Hn i)|].
  - split; [by eapply queued_ok| |by apply Htk]. eapply queued_safe; [done..|]. intros a b k Hab Hk [Ha Hb'].
    apply Hno. exists a, b. cbn in Hk. destruct Hk. split_and!; [by apply (safe_sub _ _ Hs)|korder|korder].
  - intros _. exists (List.length (mm_notifications m)). split_and!; [done| |].
    + rewrite (om_notifications _ _ _ (qo_more _ _ _ Hq)). cbn. rewrite lookup_app_r by lia. by rewrite Nat.sub_diag.
    + rewrite (qo_receiving _ _ _ Hq). exact He.
Qed.

Lemma forgetReceive_ok careful held ready running r m :
  good careful held ready running m -> mm_metadata m <> [] -> (_minKey r, _maxKey r) ∈ mm_receivingChunks m ->
  exists m', forgetReceive r m = Ret m' /\
    (exists d, d ∈ queue m' /\ dl_range d = r) /\
    forall ready', ready' ⊆ ready -> ready' ⊆ mm_receivingChunks m' -> good careful held ready' running m'.
Proof.
  intros [Hok Hs Ht] Hne Hin. pose proof (rm_range _ (ok_receiving _ _ Hok) _ _ Hin) as Hr.
  unfold forgetReceive. rewrite nonempty_invariant by done.
  assert (Hn : forall i, ~ in_use m i r) by (intros i (k & Hk & Ho); by eapply (safe_receiving _ _ Hs)).
  destruct (overlapsInUse_ok held m r Hok Hr Hne) as (b & -> & Hb). cbn [obind]. destruct b.
  { destruct (proj1 Hb eq_refl) as [i Hi]. by destruct (Hn i). }
  destruct (range_map_erase _ _ _ (ok_receiving _ _ Hok) Hin) as (Hlt & Hw & He & Hd). cbn [negb invariant obind].
  destruct (Nat.eqb_spec (map_find (_minKey r) (mm_receivingChunks m)) (List.length (mm_receivingChunks m))); [lia|].
  cbn [negb invariant obind]. set (m1 := set_receiving _ m).
  assert (Hok1 : mm_ok held m1).
  { split; try apply Hok; [|done]. intros E. by destruct Hne. }
  destruct (pushRange_ok held m1 r 0 Hok1 Hne Hr) as (m' & -> & Hq & Htk). cbn [obind]. exists m'.
  split_and!; [done|eexists; split; [rewrite (qo_queue _ _ _ Hq); left|done]|]. intros ready' H1 H2.
  rewrite (qo_receiving _ _ _ Hq) in H2.
  assert (Hs1 : mm_safe careful ready' m1).
  { split; try apply Hs; cbn [mm_receivingChunks set_receiving m1]; [| |done].
    - intros a b i k Hab%He. by apply (safe_receiving _ _ Hs).
    - intros a b d k Hst Hab%H1. by apply (safe_ready _ _ Hs). }
  split; [by eapply queued_ok| |by apply Htk]. eapply queued_safe; [done..|]. intros a b k Hab%H2 [Hk1 Hk2] [Ha Hb'].
  cbn in Hk1, Hk2. destruct (Hd a b Hab); korder.
Qed.

(** A range that is not registered cannot be forgotten. *)
Lemma forgetReceive_missing held r m :
  mm_ok held m -> mm_metadata m <> [] -> valid_range r -> map_get (_minKey r) (mm_receivingChunks m) = None ->
  forgetReceive r m = Abort.
Proof.
  intros Hok Hne Hr Hn. unfold forgetReceive. rewrite nonempty_invariant by done.
  destruct (overlapsInUse_ok held m r Hok Hr Hne) as (b & -> & _). cbn [obind]. destruct b; [done|]. cbn [negb invariant obind].
  rewrite map_find_missing, Nat.eqb_refl by done. done.
Qed.

(** * Ranges to clean *)

(** A deletion that waits for the queries on one metadata. *)
Lemma postpone_pending i t d m : mm_trackers m !! i = Some t ->
  pending (set_tracker i (with_orphans (tk_orphans t ++ [d]) t) m) ≡ₚ d :: pending m.
Proof.
  intros Ht. unfold pending. cbn [mm_trackers set_tracker]. change (queue (set_tracker i _ m)) with (queue m).
  rewrite list_fmap_insert. cbn [tk_orphans with_orphans].
  assert (Ej : (tk_orphans <$> mm_trackers m) !! i = Some (tk_orphans t)) by (by rewrite list_lookup_fmap, Ht).
  pose proof (join_insert _ i _ (tk_orphans t ++ [d]) Ej) as Hj. rewrite <- app_assoc in Hj. apply Permutation_app_inv_l in Hj.
  rewrite Hj. cbn. symmetry. apply Permutation_middle.
Qed.

Lemma postpone_ok held i t d m : let m1 := set_notifications (mm_notifications m ++ [None]) m in
  let m' := set_tracker i (with_orphans (tk_orphans t ++ [d]) t) m1 in
  mm_ok held m -> mm_trackers m !! i = Some t -> i ∈ mm_metadata m -> last (mm_metadata m) <> Some i ->
  dl_notification d = List.length (mm_notifications m) -> valid_range (dl_range d) -> mm_ok held m'.
Proof.
  intros m1 m' Hok Ht Hi Hl En Hv.
  assert (Hm : one_more d m m') by (split; [done|done|done|exact (postpone_pending i t d m1 Ht)]).
  destruct (one_more_fresh held d m m' Hok Hm) as (F1 & F2 & F3).
  assert (Hlk : forall j x, mm_trackers m' !! j = Some x <->
    (j = i /\ x = with_orphans (tk_orphans t ++ [d]) t) \/ (j <> i /\ mm_trackers m !! j = Some x))
    by (intros; exact (lookup_tracker i t _ m1 j x Ht)).
  assert (Hlen : List.length (mm_trackers m') = List.length (mm_trackers m)) by (cbn; apply length_insert).
  split; rewrite ?Hlen; try apply Hok; try done.
  - intros j x md [[-> ->]|[_ Hx]]%Hlk E; [by apply (ok_wf _ _ Hok i t)|by eapply (ok_wf _ _ Hok)].
  - intros j Hj. destruct (ok_active _ _ Hok j Hj) as (x & md & Hx & Ex & E0). exists x, md. split; [|done]. apply Hlk.
    right. split; [|done]. intros ->. by apply Hl.
  - intros j x Hj [[-> ->]|[_ Hx]]%Hlk Hn; [by apply (ok_used _ _ Hok i t)|by eapply (ok_used _ _ Hok)].
  - intros j x [[-> ->]|[_ Hx]]%Hlk Hn; [by destruct Hn|by eapply (ok_popped _ _ Hok)].
  - intros j x [[-> ->]|[_ Hx]]%Hlk; [by apply (ok_count _ _ Hok i t)|by apply (ok_count _ _ Hok)].
Qed.

Lemma postpone_safe careful ready i t d m : let m1 := set_notifications (mm_notifications m ++ [None]) m in
  let m' := set_tracker i (with_orphans (tk_orphans t ++ [d]) t) m1 in
  mm_safe careful ready m -> mm_trackers m !! i = Some t ->
  (forall j, (i < j)%nat -> ~ in_use m j (dl_range d)) ->
  (forall a b k, (a, b) ∈ ready -> in_range (dl_range d) k -> ~ (a ≼ k /\ k ≺ b)) -> mm_safe careful ready m'.
Proof.
  intros m1 m' Hs Ht Hn Hr.
  assert (Hown : forall j k, owned_by m' j k -> owned_by m j k).
  { intros j k Ho. apply (update_owned i t (with_orphans (tk_orphans t ++ [d]) t) m1 j k Ht); [by left|by left|done]. }
  pose proof (postpone_pending i t d m1 Ht : pending m' ≡ₚ d :: pending m) as Hp.
  split; try setoid_rewrite Hp; try apply Hs.
  - intros x j k Hst Hx Ho%Hown. by eapply (safe_queue _ _ Hs).
  - intros j j' x y k Hst Hx Hy Ho%Hown Hlt. apply (lookup_tracker i t _ m1 j x Ht) in Hx as [[-> ->]|[_ Hx]];
      [|by eapply (safe_orphans _ _ Hs)]. cbn in Hy. apply elem_of_app in Hy as [Hy| ->%list_elem_of_singleton];
      [by eapply (safe_orphans _ _ Hs)|]. intros Hk. apply (Hn j' Hlt). by exists k.
  - intros a b j k Hab Ho%Hown. by eapply (safe_receiving _ _ Hs).
  - intros a b x k Hst Hab [->|Hx]%elem_of_cons; [by apply Hr|by eapply (safe_ready _ _ Hs)].
Qed.

Definition refuses (m : MetadataManager) (r : ChunkRange) : Prop :=
  (exists i, last (mm_metadata m) = Some i /\ in_use m i r) \/
  overlapping (mm_receivingChunks m) (_minKey r) (_maxKey r).

Lemma not_ready careful ready m r : mm_safe careful ready m -> ~ overlapping (mm_receivingChunks m) (_minKey r) (_maxKey r) ->
  forall a b k, (a, b) ∈ ready -> in_range r k -> ~ (a ≼ k /\ k ≺ b).
Proof.
  intros Hs Hno a b k Hab [Hk1 Hk2] [Ha Hb]. apply Hno. exists a, b.
  split_and!; [by apply (safe_sub _ _ Hs)|korder|korder].
Qed.

Lemma cleanUpRange_ok careful held ready running r when m :
  good careful held ready running m -> mm_metadata m <> [] -> valid_range r ->
  exists m' res, cleanUpRange r when m = Ret (m', res) /\ good careful held ready running m' /\
    ((refuses m r /\ res = Ready (NotOK RangeOverlapConflict) /\ m' = m) \/
     (~ refuses m r /\ exists d, d ∈ pending m' /\ dl_range d = r /\ res = Later (dl_notification d))).
Proof.
  intros [Hok Hs Ht] Hne Hr. unfold cleanUpRange. rewrite nonempty_invariant by done.
  destruct (findNewest_ok held m r Hok Hr Hne) as (found & -> & Hf). cbn [obind].
  destruct (bool_decide_reflect (found = last (mm_metadata m))) as [El|El].
  { exists m, (Ready (NotOK RangeOverlapConflict)). split_and!; [done..|]. left. split_and!; [|done..]. left.
    destruct (last (mm_metadata m)) as [i|] eqn:Ei; [|by apply last_None in Ei]. subst found. exists i. split; [done|apply Hf]. }
  assert (Hna : ~ exists i, last (mm_metadata m) = Some i /\ in_use m i r).
  { intros (i & Hi & Hu). pose proof (last_Some_elem_of _ _ Hi) as Hin. destruct found as [x|]; [|by apply (Hf i Hin)].
    destruct Hf as (Hx & _ & Hf). apply (Hf i Hin); [|done].
    apply (sorted_below (mm_metadata m)); [apply Hok|done|done|congruence]. }
  pose proof (rangeMapOverlaps_spec _ _ _ (ok_receiving _ _ Hok) Hr) as Hov.
  destruct (rangeMapOverlaps (mm_receivingChunks m) (_minKey r) (_maxKey r)).
  { exists m, (Ready (NotOK RangeOverlapConflict)). split_and!; [done..|]. left. split_and!; [|done..]. right. by apply Hov. }
  assert (Hno : ~ overlapping (mm_receivingChunks m) (_minKey r) (_maxKey r)) by (rewrite <- Hov; done).
  assert (Href : ~ refuses m r) by (intros [?|?]; done). pose proof (not_ready careful ready m r Hs Hno) as Hnr.
  destruct found as [i|].
  - destruct Hf as (Hi & _ & Hf). destruct (tracker_ok held i m Hok Hi) as (t & -> & Htk). cbn [obind]. eexists _, _.
    split_and!; [reflexivity| |right; split; [done|]].
    + split; [apply postpone_ok; try done; congruence| |].
      2:{ refine (tasked_same running m _ _ _ _ _ Ht); [|done|done|done].
          refine (update_active i t _ (set_notifications _ m) Htk _). by left. }
      apply postpone_safe; [done..| |done]. intros j Hlt Hu. eapply Hf; [|exact Hlt|exact Hu]. by destruct Hu as (k & _ & ? & _).
    + exists (mkDeletion r when (List.length (mm_notifications m))). split_and!; [|done..].
      rewrite postpone_pending by done. left.
  - destruct (pushRange_ok held m r when Hok Hne Hr) as (m' & -> & Hq & Htk). cbn [obind]. eexists _, _.
    split_and!; [reflexivity| |right; split; [done|]].
    + split; [by eapply queued_ok| |by apply Htk]. eapply queued_safe; [done..| |done]. intros i Hu. apply (Hf i); [|done].
      by destruct Hu as (k & _ & ? & _).
    + exists (mkDeletion r when (List.length (mm_notifications m))). split_and!; [|done..].
      rewrite (om_pending _ _ _ (qo_more _ _ _ Hq)). left.
Qed.

(** * Ranges whose orphans are gone *)

Lemma checkOverlap_None ds r : (forall d, d ∈ ds -> valid_range (dl_range d)) -> valid_range r ->
  checkOverlap ds r = None <-> forall d k, d ∈ ds -> in_range (dl_range d) k -> ~ in_range r k.
Proof.
  intros Hv Hr. unfold checkOverlap. rewrite fmap_None. split.
  - intros Hf d k Hd Hk Hk'. apply (List.find_none _ _) with (x := d) in Hf; [|by apply list_elem_of_In; rewrite elem_of_reverse].
    pose proof (overlapWith_intersection (dl_range d) r (Hv d Hd) Hr) as Ho.
    destruct (Range.overlapWith (dl_range d) r); [done|]. by apply (Ho k).
  - intros Hn. destruct (List.find _ _) as [d|] eqn:Ef; [|done]. exfalso. apply List.find_some in Ef as [Hd Ho].
    apply list_elem_of_In in Hd. rewrite elem_of_reverse in Hd.
    pose proof (overlapWith_intersection (dl_range d) r (Hv d Hd) Hr) as Hi.
    destruct (Range.overlapWith (dl_range d) r) as [x|]; [|done]. destruct Hi as [Hx Hi].
    assert (Hk : in_range x (_minKey x)) by (split; [korder|done]). apply Hi in Hk as [? ?]. by eapply Hn.
Qed.

Lemma in_use_cleanups_ok held m r l : mm_ok held m -> l ⊆ mm_metadata m ->
  exists found, in_use_cleanups r l m = Ret found /\
    (found = None <-> forall i t, i ∈ l -> mm_trackers m !! i = Some t -> checkOverlap (tk_orphans t) r = None).
Proof.
  intros Hok. induction l as [|i l IH]; intros Hsub; cbn [in_use_cleanups].
  { exists None. split; [done|]. split; [|done]. by intros _ i t ?%not_elem_of_nil. }
  destruct (tracker_ok held i m Hok) as (t & -> & Ht); [apply Hsub; left|]. cbn [obind].
  destruct (checkOverlap (tk_orphans t) r) as [n|] eqn:Ec.
  - exists (Some n). split; [done|]. split; [done|]. intros H. specialize (H i t ltac:(left) Ht). congruence.
  - destruct IH as (found & -> & Hf); [intros x Hx; apply Hsub; by right|]. exists found. split; [done|]. rewrite Hf. split.
    + intros H j x [->|Hj]%elem_of_cons Hx; [congruence|by eapply H].
    + intros H j x Hj. apply H. by right.
Qed.

Lemma pending_orphan i t d m : mm_trackers m !! i = Some t -> d ∈ tk_orphans t -> d ∈ pending m.
Proof.
  intros Ht Hd. apply elem_of_app. right. apply list_elem_of_join. exists (tk_orphans t). split; [done|].
  apply list_elem_of_fmap_2. by eapply list_elem_of_lookup_2.
Qed.

(** No cleanup is tracked for a range exactly if no pending deletion touches it. *)
Lemma track_ok held m r : mm_ok held m -> mm_metadata m <> [] -> valid_range r ->
  exists found, trackOrphanedDataCleanup r m = Ret found /\
    (found = None <-> forall d k, d ∈ pending m -> in_range (dl_range d) k -> ~ in_range r k).
Proof.
  intros Hok Hne Hr. unfold trackOrphanedDataCleanup. rewrite nonempty_invariant by done.
  destruct (in_use_cleanups_ok held m r (reverse (mm_metadata m)) Hok) as (found & -> & Hf).
  { intros x. by rewrite elem_of_reverse. }
  cbn [obind]. eexists. split; [reflexivity|].
  assert (Hvq : forall d, d ∈ queue m -> valid_range (dl_range d)).
  { intros d Hd. apply (ok_ranges _ _ Hok). apply elem_of_app. by left. }
  assert (Hvt : forall i t d, mm_trackers m !! i = Some t -> d ∈ tk_orphans t -> valid_range (dl_range d)).
  { intros i t d Ht Hd. apply (ok_ranges _ _ Hok). by eapply pending_orphan. }
  assert (Hq : overlaps (mm_rangesToClean m) r = None <-> forall d k, d ∈ queue m -> in_range (dl_range d) k -> ~ in_range r k).
  { unfold overlaps. pose proof (checkOverlap_None (_orphans (mm_rangesToClean m)) r) as H1.
    pose proof (checkOverlap_None (_delayedOrphans (mm_rangesToClean m)) r) as H2. unfold queue in *.
    specialize (H1 ltac:(intros; apply Hvq, elem_of_app; by left) Hr). specialize (H2 ltac:(intros; apply Hvq, elem_of_app; by right) Hr).
    destruct (checkOverlap (_orphans _) r); setoid_rewrite elem_of_app; naive_solver. }
  assert (Ho : found = None <-> forall i t d k, mm_trackers m !! i = Some t -> d ∈ tk_orphans t -> in_range (dl_range d) k -> ~ in_range r k).
  { rewrite Hf. setoid_rewrite elem_of_reverse. split.
    - intros H i t d k Ht Hd. destruct (decide (i ∈ mm_metadata m)) as [Hi|Hi].
      + pose proof (proj1 (checkOverlap_None (tk_orphans t) r (fun x => Hvt i t x Ht) Hr) (H i t Hi Ht)). eauto.
      + rewrite (ok_popped _ _ Hok i t Ht Hi) in Hd. by apply not_elem_of_nil in Hd.
    - intros H i t _ Ht. apply checkOverlap_None; [intros x; by apply (Hvt i t)|done|]. intros d k Hd. by apply (H i t). }
  destruct found as [n|].
  - split; [done|]. intros H. apply Ho. intros i t d k Ht Hd. eapply H. by eapply pending_orphan.
  - rewrite Hq. split.
    + intros H d k [Hd|Hd]%elem_of_app; [by apply H|]. apply list_elem_of_join in Hd as (x & Hd & (t & -> & Ht)%list_elem_of_fmap).
      apply list_elem_of_lookup in Ht as [i Ht]. by eapply (proj1 Ho).
    + intros H d k Hd. apply H. apply elem_of_app. by left.
Qed.

(** Once nothing is tracked for a range being received, it is ready. *)
Lemma received_ready careful held ready running r m :
  good careful held ready running m -> mm_metadata m <> [] -> (_minKey r, _maxKey r) ∈ mm_receivingChunks m ->
  trackOrphanedDataCleanup r m = Ret None -> good careful held ((_minKey r, _maxKey r) :: ready) running m.
Proof.
  intros [Hok [S1 S2 S3 S4 S5] Ht] Hne Hin Htr. pose proof (rm_range _ (ok_receiving _ _ Hok) _ _ Hin) as Hr.
  destruct (track_ok held m r Hok Hne Hr) as (found & E & Hf). rewrite Htr in E. injection E as <-.
  pose proof (proj1 Hf eq_refl) as Hno. split; [done|split; [done..| |]|done].
  - intros a b d k Hst [[= -> ->]|Hab]%elem_of_cons Hd Hk; [by eapply Hno|by eapply S4].
  - intros x [->|Hx]%elem_of_cons; [done|by apply S5].
Qed.

(** * References to all metadata that use a range *)

Lemma uses_of_perm i held held' : held ≡ₚ held' -> uses_of i held = uses_of i held'.
Proof.
  induction 1 as [|x l l' _ IH|x y l|l1 l2 l3 _ IH1 _ IH2]; [done| | |congruence]; rewrite !uses_of_cons.
  - by rewrite IH.
  - by destruct (i =? x)%nat, (i =? y)%nat.
Qed.

Lemma mm_ok_perm held held' m : held ≡ₚ held' -> mm_ok held m -> mm_ok held' m.
Proof.
  intros Hp Hok. split; try apply Hok.
  - intros i t Ht. rewrite <- (uses_of_perm i _ _ Hp). by apply (ok_count _ _ Hok).
  - intros i. rewrite <- Hp. apply Hok.
Qed.

Lemma overlapping_loop_ok careful held ready running m r act l :
  good careful held ready running m -> valid_range r -> descending m act l ->
  Z.of_nat (List.length held + List.length l) < 2 ^ 32 - 1 ->
  exists m' found, overlapping_loop r act l m = Ret (m', found) /\ good careful (found ++ held) ready running m' /\
    (forall i, i ∈ found <-> i ∈ l /\ in_use m i r).
Proof.
  revert held act m. induction l as [|i l IH]; intros held act m Hg Hr Hd Hf; cbn [overlapping_loop].
  { exists m, []. split_and!; [done|done|]. intros i. split; [by intros ?%not_elem_of_nil|by intros [?%not_elem_of_nil _]]. }
  pose proof Hg as [Hok Hs Ht]. pose proof Hd as (Hsub & Hso & Ea & _).
  assert (Hi : i ∈ mm_metadata m) by (apply Hsub; left). destruct (tracker_ok held i m Hok Hi) as (t & -> & Htk). cbn [obind].
  pose proof (uses_spec held m i t r act Hok Hr Hi Htk Ea) as Hu. pose proof (ok_count _ _ Hok i t Htk) as Hc.
  assert (Eu : (0 <? tk_usageCounter t) = negb (tk_usageCounter t =? 0)) by lia. rewrite Eu.
  assert (Em : act || negb (tk_usageCounter t =? 0) = true -> is_Some (tk_metadata t)).
  { intros [Ha|Ha]%orb_true_iff; [|eapply (ok_used _ _ Hok); [done..|lia]]. subst act. apply bool_decide_eq_true in Ha.
    destruct (ok_active _ _ Hok i Ha) as (t0 & md & Ht0 & E & _). assert (t0 = t) as -> by congruence. by rewrite E. }
  cbn [List.length] in Hf. pose proof (descending_tail _ _ _ _ Hd) as Hd'. unfold uses in Hu.
  assert (Hsplit : exists used, (if act || negb (tk_usageCounter t =? 0) then
      match tk_metadata t with Some md => Ret (rangeOverlapsChunk md r) | None => Undef end else Ret false) = Ret used /\
    (used = true <-> in_use m i r)).
  { destruct (act || negb (tk_usageCounter t =? 0)); [|by exists false]. destruct (Em eq_refl) as [md E]. rewrite E in Hu |- *. by eexists. }
  destruct Hsplit as (used & -> & Hused). cbn [obind]. destruct used.
  - destruct (proj1 Hused eq_refl) as (k0 & _ & _ & t0 & md0 & Ht0 & _ & Hlive & _). assert (t0 = t) as -> by congruence.
    destruct (acquire_ok held i t m Hok) as (A1 & A2 & A3 & A4); [unfold few; lia|done|done|].
    set (m1 := set_tracker i _ m) in *.
    destruct (IH (i :: held) false m1) as (m' & found & -> & Hg' & Hfd); [|done|done|cbn; lia|].
    { split; [done|by apply A2|]. revert Ht. by apply tasked_same. }
    cbn [obind]. exists m', (i :: found). split_and!; [done| |].
    + destruct Hg' as [G1 G2 G3]. split; [|done|done]. eapply mm_ok_perm; [|exact G1]. cbn. symmetry. apply Permutation_middle.
    + assert (Hin : forall j, in_use m1 j r <-> in_use m j r) by (intros j; unfold in_use; by setoid_rewrite A4).
      intros j. rewrite !elem_of_cons, Hfd, Hin. split; [intros [->|[? ?]]; [|by auto]; split; [by left|by apply Hused]|naive_solver].
  - destruct (IH held false m) as (m' & found & -> & Hg' & Hfd); [done|done|done|lia|]. exists m', found. split_and!; [done|done|].
    intros j. rewrite Hfd, elem_of_cons. split; [naive_solver|]. intros [[->|Hj] Hin]; [by apply Hused in Hin|done].
Qed.

Lemma overlappingMetadata_ok careful held ready running m r :
  good careful held ready running m -> valid_range r -> mm_metadata m <> [] ->
  Z.of_nat (List.length held + List.length (mm_metadata m)) < 2 ^ 32 - 1 ->
  exists m' found, overlappingMetadata r m = Ret (m', found) /\ good careful (found ++ held) ready running m' /\
    (forall i, i ∈ found <-> in_use m i r).
Proof.
  intros Hg Hr Hne Hf. unfold overlappingMetadata. rewrite nonempty_invariant by done.
  destruct (overlapping_loop_ok careful held ready running m r true _ Hg Hr (descending_all held m (gd_ok _ _ _ _ Hg) Hne))
    as (m' & found & -> & Hg' & Hfd); [by rewrite length_reverse|].
  exists m', found. split_and!; [done|done|]. intros i. rewrite Hfd, elem_of_reverse. split; [by intros [_ ?]|].
  intros Hu. split; [|done]. by destruct Hu as (k & _ & ? & _).
Qed.
