(* ===== verification/RangeTask.v ===== *)
(** The deletion task of a collection and the metadata manager it works on
    (db/s/collection_range_deleter.cpp, db/s/metadata_manager.cpp): every step of a
    shard keeps the manager's invariant, no deletion removes a document that is
    owned or may be read, and no queued range is left without a task. *)

From stdpp Require Import base list sorting strings.
From Stdlib Require Import ZArith Lia String.
From S2P Require Import Prelude OrdMap Bson ChunkVersion ChunkType ShardKey Chunk ChunkManager RangeMap CollectionMetadata MetadataManager RangeDeletion RangeSafety.
Local Open Scope Z_scope.
Local Open Scope list_scope.
Local Open Scope outcome_scope.

(** * The check at the start and at the end of the task *)

Lemma scoped_active m md : active m = Ret md -> scoped_metadata (last (mm_metadata m)) m = Some md.
Proof.
  unfold active, scoped_metadata, tracker. destruct (last (mm_metadata m)) as [i|]; [|done]. cbn.
  destruct (mm_trackers m !! i) as [t|]; [|done]. cbn. destruct (tk_metadata t); [|done]. by intros [= ->].
Qed.

(** A reference to the active metadata, if there is one, and its end. *)
Lemma release_active careful held ready running m scoped :
  good careful (option_list scoped ++ held) ready running m ->
  exists m', release_scoped scoped m = Ret m' /\ good careful held ready running m' /\ active m' = active m /\
    last (mm_metadata m') = last (mm_metadata m) /\ pending m' ≡ₚ pending m /\
    mm_receivingChunks m' = mm_receivingChunks m /\
    (scoped = last (mm_metadata m) -> forall j k, owned_by m j k -> owned_by m' j k).
Proof.
  intros [Hok Hs Ht]. destruct scoped as [i|]; cbn [option_list app release_scoped] in *; [|by exists m].
  destruct (release_ok held i m Hok) as (m' & -> & H1 & H2 & H3 & H4 & Hrc & H5 & H6 & H7). exists m'.
  split_and!; [done|split; [done|by apply H2|by apply H3]|done|done|done|done|]. intros E. by apply H7.
Qed.

Lemma cleared_good careful held ready running status m m' :
  good careful held ready running m -> cleared held status m m' -> forall running', good careful held ready running' m'.
Proof.
  intros [Hok Hs _] Hc running'. split; [apply Hc| |by eapply cleared_tasked].
  eapply cleared_safe; [done|apply Hs|apply Hs].
Qed.

Lemma untasked running epoch m : mm_tasked (epoch :: running) m -> active_epoch m <> Ret epoch -> mm_tasked running m.
Proof.
  intros Ht Hne d Hsd Hd. destruct (Ht d Hsd Hd) as (e & He & Hin). exists e. split; [done|].
  apply elem_of_cons in Hin as [->|Hin]; [done|exact Hin].
Qed.

Lemma check_ok careful held ready running epoch hasCollection m :
  good careful held ready (epoch :: running) m -> few held ->
  exists m' valid, _checkCollectionMetadataStillValid epoch hasCollection m = Ret (m', valid) /\
    good careful held ready (epoch :: running) m' /\ (valid = false -> mm_tasked running m') /\
    (valid = true -> hasCollection = true /\ active_epoch m' = Ret epoch /\ forall j k, owned_by m j k -> owned_by m' j k).
Proof.
  intros [Hok Hs Ht] Hf. unfold _checkCollectionMetadataStillValid.
  destruct (getActiveMetadata_ok held m Hok Hf) as (m1 & -> & A1 & A2 & A3 & A4 & A5 & _ & _ & A6). cbn [obind].
  assert (Hg1 : good careful (option_list (last (mm_metadata m)) ++ held) ready (epoch :: running) m1)
    by (split; [done|by apply A2|by apply A4]).
  destruct (if hasCollection then scoped_metadata (last (mm_metadata m)) m1 else None) as [md|] eqn:Esc.
  - destruct (release_active careful held ready (epoch :: running) m1 _ Hg1) as (m' & -> & Hg' & Ha' & _ & _ & _ & Hown). cbn [obind].
    destruct (last (mm_metadata m)) as [i|] eqn:El; [|by destruct hasCollection].
    destruct (active_ok held m i Hok El) as [md0 Ha].
    assert (md0 = md) as ->.
    { destruct hasCollection; [|done]. rewrite <- El, <- A6, (scoped_active m1 md0) in Esc by congruence. congruence. }
    assert (Ea : active_epoch m' = Ret (_epoch (getCollVersion md))) by (by rewrite active_metadata, Ha', A3, Ha).
    eexists _, _. split_and!; [reflexivity|done| |].
    + intros E. apply (untasked running epoch); [apply Hg'|]. rewrite Ea. intros [= Ee]. apply not_true_iff_false in E. apply E.
      by apply oid_eqb_eq.
    + intros E%oid_eqb_eq. rewrite Ea, E. split_and!; [by destruct hasCollection|done|]. intros j k Hj. apply Hown; [by rewrite A6, El|by apply A5].
  - destruct (clearAll_ok _ abandoned m1 A1) as (m2 & -> & Hc). cbn [obind].
    pose proof (cleared_good _ _ _ _ _ _ _ Hg1 Hc) as Hg2.
    destruct (release_active careful held ready running m2 _ (Hg2 running)) as (m' & E & Hg' & _). rewrite E. cbn [obind].
    exists m', false. split_and!; [done| |intros _; apply Hg'|done].
    destruct (release_active careful held ready (epoch :: running) m2 _ (Hg2 _)) as (m'' & E' & Hg'' & _). congruence.
Qed.

(** * Deleting documents *)

Lemma delete_loop_sub docs r reads n mx docs' wrote : delete_loop docs r reads n mx = (docs', wrote) ->
  docs' `sublist_of` docs /\ forall k, k ∈ docs -> ~ in_range r k -> k ∈ docs'.
Proof.
  revert reads n docs' wrote. induction docs as [|x docs IH]; intros reads n docs' wrote; cbn [delete_loop].
  { intros [= <- <-]. split; [done|]. by intros k ?%not_elem_of_nil. }
  pose proof (containsKey_spec r x) as Hc. destruct (Range.containsKey r x); cbn [negb].
  - assert (Hrest : forall k, k ∈ x :: docs -> ~ in_range r k -> k ∈ docs)
      by (intros k [->|?]%elem_of_cons Hk; [by destruct Hk; apply Hc|done]).
    assert (Hsub : docs `sublist_of` x :: docs) by by constructor.
    destruct (default Advanced (List.hd_error reads)); [|by intros [= <- <-]..].
    destruct (n + 1 <? mx); [|by intros [= <- <-]]. intros H. apply IH in H as [H1 H2]. split; [by constructor|].
    intros k Hk Hn. apply H2; [by apply Hrest|done].
  - destruct (delete_loop docs r reads n mx) as [docs1 w] eqn:E. intros [= <- <-]. destruct (IH _ _ _ _ E) as [H1 H2].
    split; [by constructor|]. intros k [->|Hk]%elem_of_cons Hn; [left|right; by apply H2].
Qed.

(** Without cursor errors, a scan that deletes nothing found nothing. *)
Lemma delete_loop_pos docs r n mx docs' wrote : 0 <= n ->
  delete_loop docs r [] n mx = (docs', wrote) -> exists n', wrote = OK n' /\ n <= n' /\
  (n' = n -> forall k, k ∈ docs -> ~ in_range r k).
Proof.
  revert n docs' wrote. induction docs as [|x docs IH]; intros n docs' wrote Hn; cbn [delete_loop].
  { intros [= <- <-]. exists n. split_and!; [done|lia|]. by intros _ k ?%not_elem_of_nil. }
  pose proof (containsKey_spec r x) as Hc. destruct (Range.containsKey r x); cbn [negb List.hd_error default List.tl].
  - destruct (n + 1 <? mx).
    + intros H. apply IH in H as (n' & -> & Hle & _); [|lia]. exists n'. split_and!; [done|lia|lia].
    + intros [= <- <-]. exists (n + 1). split_and!; [done|lia|lia].
  - destruct (delete_loop docs r [] n mx) as [docs1 w] eqn:E. intros [= <- <-].
    destruct (IH _ _ _ Hn E) as (n' & -> & Hle & H). exists n'. split_and!; [done|done|].
    intros -> k [->|Hk]%elem_of_cons; [by rewrite <- Hc|by apply H].
Qed.

Lemma next_range_queue now d d' next : next_range now d = (d', next) -> deleter_isEmpty d = false ->
  _orphans d' ++ _delayedOrphans d' = _orphans d ++ _delayedOrphans d /\ deleter_isEmpty d' = false /\
  forall front b, next = inr (front, b) -> exists rest, _orphans d' = front :: rest.
Proof.
  unfold next_range, deleter_isEmpty. destruct d as [[|x o] [|y dl]]; cbn; [done|..].
  - destruct (now <? dl_when y); intros [= <- <-] _; (split_and!; [done|done|]); intros front b; [done|]. intros [= <- <-]. by eexists.
  - intros [= <- <-] _. split_and!; [done|done|]. intros front b [= <- <-]. by eexists.
  - intros [= <- <-] _. split_and!; [done|done|]. intros front b [= <- <-]. by eexists.
Qed.

Lemma same_queue_good careful held ready running m d : _orphans d ++ _delayedOrphans d = queue m ->
  good careful held ready running m -> good careful held ready running (set_deleter d m).
Proof.
  intros E [Hok Hs Ht]. assert (Eq : queue (set_deleter d m) = queue m) by exact E.
  assert (Ep : pending (set_deleter d m) = pending m) by (unfold pending; by rewrite Eq).
  split; [split|split|]; rewrite ?Eq, ?Ep; try apply Hok; try apply Hs. intros x. rewrite Eq. apply Ht.
Qed.

(** A key that must not be deleted. *)
Definition protected (ready : RangeMap) (m : MetadataManager) (k : BSONObj) : Prop :=
  (exists i, owned_by m i k) \/ exists a b, (a, b) ∈ ready /\ a ≼ k /\ k ≺ b.

Lemma queued_unprotected (careful : Prop) ready m d k : careful -> mm_safe careful ready m -> d ∈ queue m -> in_range (dl_range d) k -> ~ protected ready m k.
Proof.
  intros Hst Hs Hd Hk [[i Ho]|(a & b & Hab & Hk')]; [by eapply (safe_queue _ _ Hs)|].
  eapply (safe_ready _ _ Hs); [done|exact Hab|apply elem_of_app; by left|done|done].
Qed.

Lemma doDeletion_ok docs d r hasIndex reads mx : deleter_isEmpty d = false ->
  exists docs' wrote, _doDeletion docs d r hasIndex reads mx = Ret (docs', wrote) /\
    docs' `sublist_of` docs /\ forall k, k ∈ docs -> ~ in_range r k -> k ∈ docs'.
Proof.
  intros Hd. unfold _doDeletion. rewrite Hd. cbn [negb invariant obind]. destruct hasIndex; cbn [negb]; [|by eexists _, _].
  destruct (delete_loop docs r reads 0 mx) as [docs' wrote] eqn:E. exists docs', wrote.
  destruct (delete_loop_sub _ _ _ _ _ _ _ E) as [H1 H2]. by split_and!.
Qed.

Lemma delete_front_ok careful held ready running env docs front m :
  good careful held ready running m -> few held -> deleter_isEmpty (mm_rangesToClean m) = false -> is_Some (last (mm_metadata m)) ->
  exists docs' m' res,
    (let* (m, scoped) := getActiveMetadata m in
     let* (docs, wrote) :=
       match scoped_metadata scoped m with
       | None => Undef
       | Some _ =>
           _doDeletion docs (mm_rangesToClean m) (dl_range front) (te_hasIndex env) (te_reads env) (maxToDelete env)
       end in
     let* m := release_scoped scoped m in
     Ret (Some docs, m,
          match wrote with
          | OK n => if n =? 0 then TaskWait (dl_range front) (dl_notification front) wrote else TaskContinue
          | NotOK _ => TaskWait (dl_range front) (dl_notification front) wrote
          end)) = Ret (Some docs', m', res) /\
    good careful held ready running m' /\ res <> TaskDone /\
    forall k, k ∈ docs -> ~ in_range (dl_range front) k -> k ∈ docs'.
Proof.
  intros [Hok Hs Ht] Hf He [i Hi].
  destruct (getActiveMetadata_ok held m Hok Hf) as (m1 & -> & A1 & A2 & A3 & A4 & _ & A5 & _ & A6). cbn [obind].
  destruct (active_ok held m i Hok Hi) as [md Ha].
  pose proof (scoped_active m1 md ltac:(congruence)) as Esc. rewrite A6 in Esc. rewrite Esc.
  destruct (doDeletion_ok docs (mm_rangesToClean m1) (dl_range front) (te_hasIndex env) (te_reads env) (maxToDelete env))
    as (docs' & wrote & -> & _ & Hk); [by rewrite A5|]. cbn [obind].
  destruct (release_active careful held ready running m1 (last (mm_metadata m))) as (m' & -> & Hg' & _); [by split; [|apply A2|apply A4]|].
  cbn [obind]. eexists docs', m', _. split_and!; [reflexivity|done| |done]. destruct wrote as [n|]; [destruct (n =? 0)|]; done.
Qed.

(** The first part of the task: the manager stays good, a task that ends leaves no
    queued range behind, and no protected document is deleted. *)
Lemma cleanUpNextRange_ok careful held ready running env epoch collection m :
  good careful held ready (epoch :: running) m -> few held ->
  exists collection' m' res, cleanUpNextRange env epoch collection m = Ret (collection', m', res) /\
    good careful held ready (epoch :: running) m' /\ (res = TaskDone -> mm_tasked running m') /\
    forall docs k, careful -> collection = Some docs -> k ∈ docs -> protected ready m k ->
      exists docs', collection' = Some docs' /\ k ∈ docs'.
Proof.
  intros Hg Hf. unfold cleanUpNextRange.
  destruct (check_ok careful held ready running epoch (match collection with Some _ => true | None => false end) m Hg Hf)
    as (m1 & valid & -> & Hg1 & Hinv & Hval). cbn [obind].
  assert (Hkeep : forall docs k, careful -> collection = Some docs -> k ∈ docs -> protected ready m k ->
    exists docs', collection = Some docs' /\ k ∈ docs') by (intros; by eexists).
  destruct collection as [docs|].
  2:{ exists None, m1, TaskDone. split_and!; [done|done| |done]. intros _. apply Hinv.
      destruct valid; [by destruct (Hval eq_refl)|done]. }
  destruct valid; cbn [negb].
  2:{ exists (Some docs), m1, TaskDone. split_and!; [done|done|intros _; by apply Hinv|done]. }
  destruct (Hval eq_refl) as (_ & Ha1 & Hown).
  destruct (deleter_isEmpty (mm_rangesToClean m1)) eqn:Ee.
  { exists (Some docs), m1, TaskDone. split_and!; [done|done| |done]. intros _ d _ Hd.
    unfold queue, deleter_isEmpty in *. destruct (_orphans _), (_delayedOrphans _); try done. by apply not_elem_of_nil in Hd. }
  destruct (next_range (te_now env) (mm_rangesToClean m1)) as [d next] eqn:En.
  destruct (next_range_queue _ _ _ _ En Ee) as (Hq & Ed & Hfront).
  pose proof (same_queue_good _ _ _ _ m1 d Hq Hg1) as Hg2. set (m2 := set_deleter d m1) in *.
  destruct next as [when|[front w]]; [by exists (Some docs), m2, (TaskDefer when)|].
  destruct (if w then te_oplog env else None) as [code|].
  { destruct (clearAll_ok held (NotOK code) m2) as (m3 & -> & Hc); [apply Hg2|]. cbn [obind].
    pose proof (cleared_good _ _ _ _ _ _ _ Hg2 Hc) as Hg3. exists (Some docs), m3, TaskDone.
    split_and!; [done|done|intros _; apply Hg3|done]. }
  destruct (delete_front_ok careful held ready (epoch :: running) env docs front m2 Hg2 Hf Ed) as (docs' & m' & res & -> & Hg' & Hr & Hk).
  { change (is_Some (last (mm_metadata m1))). unfold active_epoch in Ha1. by destruct (last (mm_metadata m1)). }
  exists (Some docs'), m', res. split_and!; [done..|]. intros docs0 k Hst [= <-] Hin Hp. exists docs'. split; [done|].
  apply Hk; [done|]. intros Hr'. destruct (Hfront front w eq_refl) as [rest Er].
  eapply (queued_unprotected careful ready m2 front k); [done|apply Hg2| |done|].
  - unfold queue, m2. cbn. rewrite Er. left.
  - destruct Hp as [[i Ho]|Hp]; [left; exists i; by apply Hown|by right].
Qed.

(** * The end of a range *)

Lemma pop_front_ok careful held ready running status d rest m :
  good careful held ready running m -> _orphans (mm_rangesToClean m) = d :: rest ->
  exists m', _pop status m = Ret m' /\ good careful held ready running m' /\ pending m = d :: pending m' /\
    mm_notifications m' !! dl_notification d = Some (Some status).
Proof.
  intros [Hok Hs Ht] Eo. unfold _pop. rewrite Eo.
  assert (Ep : pending m = d :: (rest ++ _delayedOrphans (mm_rangesToClean m)) ++ mjoin (tk_orphans <$> mm_trackers m))
    by (unfold pending, queue; by rewrite Eo).
  assert (Hd : d ∈ pending m) by (rewrite Ep; left). pose proof (ok_unset _ _ Hok d Hd) as Hu.
  unfold notify. rewrite Hu. cbn [obind]. eexists. split; [reflexivity|]. set (m' := set_deleter _ _).
  assert (Ep' : pending m = d :: pending m') by exact Ep.
  pose proof (ok_fresh _ _ Hok) as Hf. rewrite Ep' in Hf. cbn in Hf. apply NoDup_cons in Hf as [Hn Hf].
  assert (Hsub : forall x, x ∈ pending m' -> x ∈ pending m) by (intros x Hx; rewrite Ep'; by right).
  assert (Hq : forall x, x ∈ queue m' -> x ∈ queue m) by (intros x Hx; unfold queue; rewrite Eo; by right).
  split_and!; [split; [split|split|]| |]; try apply Hok; try apply Hs; try done.
  - intros x Hx. cbn. rewrite list_lookup_insert_ne; [by apply (ok_unset _ _ Hok), Hsub|]. intros E. apply Hn. rewrite E.
    by apply list_elem_of_fmap_2.
  - intros x Hx. by apply (ok_ranges _ _ Hok), Hsub.
  - intros E. destruct (ok_none _ _ Hok E) as [Hq0 Hr]. unfold queue in Hq0. by rewrite Eo in Hq0.
  - intros x i k Hst Hx. apply (safe_queue _ _ Hs); [done|]. by apply Hq.
  - intros a b x k Hst Hab Hx. apply (safe_ready _ _ Hs a b); [done|done|]. by apply Hsub.
  - intros x Hsd Hx. exact (Ht x Hsd (Hq x Hx)).
  - cbn. apply list_lookup_insert_eq. by eapply lookup_lt_Some.
Qed.

Lemma pop_any careful held ready running status m m' : good careful held ready running m -> _pop status m = Ret m' -> good careful held ready running m'.
Proof.
  intros Hg Hp. destruct (_orphans (mm_rangesToClean m)) as [|d rest] eqn:E; [unfold _pop in Hp; by rewrite E in Hp|].
  destruct (pop_front_ok careful held ready running status d rest m Hg E) as (m1 & E1 & Hg' & _). congruence.
Qed.

Lemma finishRange_ok careful held ready running epoch hasCollection n wrote repl m m' res :
  good careful held ready (epoch :: running) m -> few held -> finishRange epoch hasCollection n wrote repl m = Ret (m', res) ->
  good careful held ready (epoch :: running) m' /\ (res = TaskDone -> mm_tasked running m').
Proof.
  intros Hg Hf. unfold finishRange.
  destruct (check_ok careful held ready running epoch hasCollection m Hg Hf) as (m1 & valid & -> & Hg1 & Hinv & _). cbn [obind].
  destruct valid; cbn [negb]; [|intros [= <- <-]; split; [done|intros _; by apply Hinv]].
  intros H. apply obind_Ret_inv in H as (m2 & H2 & H). injection H as <- <-. split; [|done].
  destruct repl as [?|code]; [by eapply pop_any|].
  destruct (mm_notifications m1 !! n) as [[?|]|]; [by injection H2 as <-| |done].
  destruct (deleter_isEmpty (mm_rangesToClean m1)); [done|]. cbn [negb invariant obind] in H2.
  destruct (_orphans (mm_rangesToClean m1)) as [|front o] eqn:Eo; [done|].
  destruct (dl_notification front =? n)%nat; [|done]. cbn [invariant obind] in H2. by eapply pop_any.
Qed.

(** * The reception of a chunk *)

(** A reference to the active metadata that a function holds. *)
Lemma acquire_active careful held ready running m : good careful held ready running m -> few held ->
  exists m', getActiveMetadata m = Ret (m', last (mm_metadata m)) /\
    good careful (option_list (last (mm_metadata m)) ++ held) ready running m' /\ active m' = active m /\
    mm_receivingChunks m' = mm_receivingChunks m /\ mm_metadata m' = mm_metadata m.
Proof.
  intros [Hok Hs Ht] Hf. destruct (getActiveMetadata_ok held m Hok Hf) as (m' & E & A1 & A2 & A3 & A4 & _ & _ & A5 & A6).
  exists m'. split_and!; [done|split; [done|by apply A2|by apply A4]|done..].
Qed.

(** The metadata a reference is to, or none. *)
Lemma scoped_cases careful held ready running m :
  good careful held ready running m ->
  (last (mm_metadata m) = None /\ scoped_metadata (last (mm_metadata m)) m = None) \/
  exists md, active m = Ret md /\ scoped_metadata (last (mm_metadata m)) m = Some md /\ mm_metadata m <> [].
Proof.
  intros [Hok _ _]. destruct (last (mm_metadata m)) as [i|] eqn:El; [right|by left].
  destruct (active_ok held m i Hok El) as [md Ha]. exists md. rewrite <- El, (scoped_active m md Ha). split_and!; [done|done|].
  intros E. by rewrite E in El.
Qed.

Lemma notePending_ok careful held ready running epoch r m :
  good careful held ready running m -> few held -> valid_range r ->
  ~ overlapping (mm_receivingChunks m) (_minKey r) (_maxKey r) ->
  exists m' res, _notePending epoch r m = Ret (m', res) /\ good careful held ready running m'.
Proof.
  intros Hg Hf Hr Hno. unfold _notePending. destruct (acquire_active _ _ _ _ _ Hg Hf) as (m1 & -> & Hg1 & _ & Er & Em). cbn [obind].
  rewrite <- Er in Hno. rewrite <- Em. rewrite <- Em in Hg1.
  assert (Hst : exists m' res, (let* m2 := release_scoped (last (mm_metadata m1)) m1 in Ret (m2, Ready (NotOK StaleShardVersion))) = Ret (m', res) /\
    good careful held ready running m').
  { destruct (release_active _ _ _ _ _ _ Hg1) as (m2 & -> & Hg2 & _). by eexists _, _. }
  destruct (scoped_cases _ _ _ _ _ Hg1) as [[_ ->]|(md & _ & -> & Hne)]; [done|]. destruct (negb _); [done|].
  destruct (beginReceive_ok _ _ _ _ _ _ Hg1 Hne Hr Hno) as (m2 & res & -> & Hg2 & _). cbn [obind].
  destruct (release_active _ _ _ _ _ _ Hg2) as (m3 & -> & Hg3 & _). by eexists _, _.
Qed.

(** The end of a failed reception: it returns, unless the metadata has the epoch of
    the migration and the range is not registered. *)
Lemma forgetPending_ok careful held ready running marked epoch r m :
  good careful held ready running m -> few held -> valid_range r ->
  (map_get (_minKey r) (mm_receivingChunks m) = None \/ (_minKey r, _maxKey r) ∈ mm_receivingChunks m) ->
  (_forgetPending marked epoch r m = Abort /\ marked = true /\ active_epoch m = Ret epoch /\
     map_get (_minKey r) (mm_receivingChunks m) = None) \/
  exists m', _forgetPending marked epoch r m = Ret m' /\
    ~ (marked = true /\ active_epoch m = Ret epoch /\ map_get (_minKey r) (mm_receivingChunks m) = None) /\
    forall ready', ready' ⊆ ready -> ready' ⊆ mm_receivingChunks m' -> good careful held ready' running m'.
Proof.
  intros Hg Hf Hr Hreg. unfold _forgetPending. destruct marked; cbn [negb].
  2:{ right. exists m. split_and!; [done|naive_solver|]. intros ready' Hsub _. by eapply good_sub. }
  destruct (acquire_active _ _ _ _ _ Hg Hf) as (m1 & -> & Hg1 & Ha & Er & Em). cbn [obind].
  rewrite <- Er in Hreg |- *. rewrite active_metadata, <- Ha, <- Em. rewrite <- Em in Hg1.
  assert (Hsk : exists m', release_scoped (last (mm_metadata m1)) m1 = Ret m' /\
    forall ready', ready' ⊆ ready -> good careful held ready' running m').
  { destruct (release_active _ _ _ _ _ _ Hg1) as (m2 & -> & Hg2 & _). exists m2. split; [done|]. intros. by eapply good_sub. }
  destruct (scoped_cases _ _ _ _ _ Hg1) as [[El ->]|(md & Ea & -> & Hne)].
  { right. destruct Hsk as (m2 & E & H). exists m2. split_and!; [exact E| |by auto]. unfold active. rewrite El. naive_solver. }
  rewrite Ea. cbn [obind]. destruct (oid_eqb (_epoch (getCollVersion md)) epoch) eqn:Ee; cbn [negb].
  2:{ right. destruct Hsk as (m2 & E & H). exists m2. split_and!; [exact E| |by auto]. intros (_ & [= Hx%oid_eqb_eq] & _). congruence. }
  apply oid_eqb_eq in Ee. destruct Hreg as [Hm|Hin].
  { left. rewrite (forgetReceive_missing _ r m1 (gd_ok _ _ _ _ Hg1) Hne Hr Hm). split_and!; [done|done|by rewrite Ee|done]. }
  right. destruct (forgetReceive_ok _ _ _ _ _ _ Hg1 Hne Hin) as (m2 & -> & _ & Hg2). cbn [obind].
  destruct (release_active _ _ _ _ _ _ (Hg2 [] ltac:(apply list_subseteq_nil) ltac:(apply list_subseteq_nil))) as (m3 & E & _ & _ & _ & _ & Er3 & _).
  exists m3. split_and!; [done| |].
  - intros (_ & _ & Hm). apply map_get_None with (k' := _minKey r) (v' := _maxKey r) in Hm; [|apply (gd_ok _ _ _ _ Hg1)|done]. destruct Hm. korder.
  - intros ready' Hs1 Hs2. rewrite Er3 in Hs2.
    destruct (release_active _ _ _ _ _ _ (Hg2 ready' Hs1 Hs2)) as (m4 & E4 & Hg4 & _). congruence.
Qed.

(** * The shard *)

(** The manager, the documents of the collection, the references of queries, the
    ranges received that are free of orphans, and the tasks that wait for the
    replication of what they deleted. *)
Record Shard := mkShard {
  sh_manager : MetadataManager;
  sh_docs : option (list BSONObj);
  sh_held : list nat;
  sh_ready : RangeMap;
  sh_waiting : list (OID * nat * StatusWith Z)
}.

Definition set_tasks (l : list (OID * Z)) (m : MetadataManager) : MetadataManager :=
  mkManager (mm_trackers m) (mm_metadata m) (mm_receivingChunks m) (mm_rangesToClean m) (mm_notifications m) l (mm_inShutdown m).

Definition shut_down (m : MetadataManager) : MetadataManager :=
  mkManager (mm_trackers m) (mm_metadata m) (mm_receivingChunks m) (mm_rangesToClean m) (mm_notifications m) (mm_tasks m) true.

Definition epochs (waiting : list (OID * nat * StatusWith Z)) : list OID := (fun w => w.1.1) <$> waiting.

(** What the executor does with the result of a task: [scheduleCleanup] again, or not. *)
Definition reschedule (epoch : OID) (delayed : Z) (res : TaskResult) (m : MetadataManager) : MetadataManager :=
  match res with
  | TaskDefer when => scheduleCleanup epoch when m
  | TaskContinue => scheduleCleanup epoch delayed m
  | _ => m
  end.

Definition waits (epoch : OID) (res : TaskResult) : list (OID * nat * StatusWith Z) :=
  match res with TaskWait _ n wrote => [(epoch, n, wrote)] | _ => [] end.

Inductive ShardEvent :=
  | Refreshes (remote : option CollectionMetadata)
  | Queries
  | Releases (i : nat)
  | AsksOverlapping (r : ChunkRange)
  | NotesPending (epoch : OID) (r : ChunkRange)
  | FindsClean (r : ChunkRange)
  | ForgetsPending (marked : bool) (epoch : OID) (r : ChunkRange)
  | CleansUp (r : ChunkRange) (when : Z)
  | Writes
  | RunsTask (epoch : OID)
  | FinishesTask (epoch : OID)
  | ShutsDown.

(** Every operation may run in every state in which it returns. A range is ready
    once nothing is tracked for it while it is received, and as long as it stays
    registered. *)
Inductive shard_step : Shard -> ShardEvent -> Shard -> Prop :=
  | step_refresh m docs held ready waiting remote m' ready' :
      refreshActiveMetadata remote m = Ret m' -> ready' ⊆ ready -> ready' ⊆ mm_receivingChunks m' ->
      shard_step (mkShard m docs held ready waiting) (Refreshes remote) (mkShard m' docs held ready' waiting)
  | step_query m docs held ready waiting m' scoped :
      getActiveMetadata m = Ret (m', scoped) ->
      shard_step (mkShard m docs held ready waiting) Queries (mkShard m' docs (option_list scoped ++ held) ready waiting)
  | step_release m docs held held' ready waiting i m' :
      held ≡ₚ i :: held' -> release i m = Ret m' ->
      shard_step (mkShard m docs held ready waiting) (Releases i) (mkShard m' docs held' ready waiting)
  | step_overlapping m docs held ready waiting r m' found :
      overlappingMetadata r m = Ret (m', found) ->
      shard_step (mkShard m docs held ready waiting) (AsksOverlapping r) (mkShard m' docs (found ++ held) ready waiting)
  | step_notePending m docs held ready waiting epoch r m' res :
      _notePending epoch r m = Ret (m', res) ->
      shard_step (mkShard m docs held ready waiting) (NotesPending epoch r) (mkShard m' docs held ready waiting)
  | step_ready m docs held ready waiting r :
      (_minKey r, _maxKey r) ∈ mm_receivingChunks m -> trackOrphanedDataCleanup r m = Ret None ->
      shard_step (mkShard m docs held ready waiting) (FindsClean r)
        (mkShard m docs held ((_minKey r, _maxKey r) :: ready) waiting)
  | step_forgetPending m docs held ready waiting marked epoch r m' ready' :
      _forgetPending marked epoch r m = Ret m' -> ready' ⊆ ready -> ready' ⊆ mm_receivingChunks m' ->
      shard_step (mkShard m docs held ready waiting) (ForgetsPending marked epoch r) (mkShard m' docs held ready' waiting)
  | step_cleanUpRange m docs held ready waiting r when m' res :
      cleanUpRange r when m = Ret (m', res) ->
      shard_step (mkShard m docs held ready waiting) (CleansUp r when) (mkShard m' docs held ready waiting)
  | step_documents m docs docs' held ready waiting :
      shard_step (mkShard m docs held ready waiting) Writes (mkShard m docs' held ready waiting)
  | step_task env m docs held ready waiting tasks1 epoch when tasks2 docs' m' res delayed :
      mm_tasks m = tasks1 ++ (epoch, when) :: tasks2 ->
      cleanUpNextRange env epoch docs (set_tasks (tasks1 ++ tasks2) m) = Ret (docs', m', res) ->
      shard_step (mkShard m docs held ready waiting) (RunsTask epoch)
        (mkShard (reschedule epoch delayed res m') docs' held ready (waits epoch res ++ waiting))
  | step_finish m docs held ready waiting1 epoch n wrote waiting2 hasCollection repl m' res delayed :
      finishRange epoch hasCollection n wrote repl m = Ret (m', res) ->
      shard_step (mkShard m docs held ready (waiting1 ++ (epoch, n, wrote) :: waiting2)) (FinishesTask epoch)
        (mkShard (reschedule epoch delayed res m') docs held ready (waiting1 ++ waiting2))
  | step_shutdown m docs held ready waiting :
      shard_step (mkShard m docs held ready waiting) ShutsDown (mkShard (shut_down m) docs held ready waiting).

(** The sequences of steps in which every event satisfies [P] of its state. *)
Inductive shard_reachable (P : Shard -> ShardEvent -> Prop) : Shard -> Prop :=
  | shard_init docs : shard_reachable P (mkShard newMetadataManager docs [] [] [])
  | shard_next s e s' : shard_reachable P s -> P s e -> shard_step s e s' -> shard_reachable P s'.

(** What the callers provide: metadata whose chunks do not overlap, ranges that are
    not empty, fewer references than the counters hold, and receptions of ranges
    that overlap none that is registered; a reception ends for the range that it
    began with. *)
Definition tame (s : Shard) (e : ShardEvent) : Prop :=
  let m := sh_manager s in
  few (sh_held s) /\
  match e with
  | Refreshes (Some remote) => range_map_wf (md_rangesMap remote)
  | AsksOverlapping r => valid_range r /\ Z.of_nat (List.length (sh_held s) + List.length (mm_metadata m)) < 2 ^ 32 - 1
  | NotesPending _ r => valid_range r /\ ~ overlapping (mm_receivingChunks m) (_minKey r) (_maxKey r)
  | ForgetsPending _ _ r =>
      valid_range r /\
      (map_get (_minKey r) (mm_receivingChunks m) = None \/ (_minKey r, _maxKey r) ∈ mm_receivingChunks m)
  | CleansUp r _ => valid_range r
  | _ => True
  end.

(** Newer metadata of the same epoch has no other keys than the old one and the
    ranges that are registered as received and free of orphans. *)
Definition gains_ready (s : Shard) (e : ShardEvent) : Prop :=
  match e with
  | Refreshes (Some remote) =>
      forall act, active (sh_manager s) = Ret act -> same_epoch act remote = true ->
        version_ge (getCollVersion act) (getCollVersion remote) = false -> gains_only_ready (sh_ready s) (sh_manager s) remote
  | _ => True
  end.

Definition careful_steps (s : Shard) (e : ShardEvent) : Prop := tame s e /\ gains_ready s e.

(** * Every reachable state *)

Lemma tasked_mono running running' m m' : active m' = active m -> queue m' = queue m -> mm_inShutdown m' = mm_inShutdown m ->
  running ++ (mm_tasks m).*1 ⊆ running' ++ (mm_tasks m').*1 -> mm_tasked running m -> mm_tasked running' m'.
Proof.
  intros Ea Eq Es Hsub Ht d Hsd Hd. rewrite Eq in Hd. rewrite Es in Hsd. destruct (Ht d Hsd Hd) as (e & He & Hin). exists e.
  rewrite active_metadata, Ea, <- active_metadata. split; [done|by apply Hsub].
Qed.

Lemma good_tasks careful held ready running running' m l : running ++ (mm_tasks m).*1 ⊆ running' ++ l.*1 ->
  good careful held ready running m -> good careful held ready running' (set_tasks l m).
Proof.
  intros Hsub [Hok Hs Ht]. split; [split; apply Hok|split; apply Hs|]. by eapply (tasked_mono running running' m).
Qed.

Lemma good_schedule careful held ready running running' epoch when m :
  good careful held ready running m -> running ⊆ epoch :: running' -> good careful held ready running' (scheduleCleanup epoch when m).
Proof.
  intros Hg Hsub. unfold scheduleCleanup. destruct (mm_inShutdown m) eqn:Esd.
  { destruct Hg as [G1 G2 _]. split; [done|done|]. intros d Hsd. congruence. }
  apply (good_tasks careful held ready running running' m (mm_tasks m ++ [(epoch, when)])); [|done].
  intros x. rewrite fmap_app, !elem_of_app. intros [Hx|Hx]; [|by right; left].
  apply Hsub, elem_of_cons in Hx as [->|Hx]; [right; right; left|by left].
Qed.

(** The end of a part of the task. *)
Lemma reschedule_good careful held ready running epoch delayed res m :
  good careful held ready (epoch :: running) m -> (res = TaskDone -> mm_tasked running m) ->
  good careful held ready (epochs (waits epoch res) ++ running) (reschedule epoch delayed res m).
Proof.
  intros Hg Hd. destruct res; cbn [reschedule waits epochs fmap list_fmap app]; [|by eapply good_schedule..|done].
  destruct Hg as [G1 G2 _]. split; [done|done|by apply Hd].
Qed.

Lemma metadata_nonempty {A} (l : list nat) (k : Outcome A) x : (invariant (negb (List.length l =? 0)%nat) ;* k) = Ret x -> l <> [].
Proof. by destruct l. Qed.

Lemma task_good careful held ready waiting env epoch tasks1 when tasks2 docs m :
  good careful held ready (epochs waiting) m -> few held -> mm_tasks m = tasks1 ++ (epoch, when) :: tasks2 ->
  exists docs' m' res, cleanUpNextRange env epoch docs (set_tasks (tasks1 ++ tasks2) m) = Ret (docs', m', res) /\
    (forall delayed, good careful held ready (epochs (waits epoch res ++ waiting)) (reschedule epoch delayed res m')) /\
    forall l k, careful -> docs = Some l -> k ∈ l -> protected ready m k -> exists l', docs' = Some l' /\ k ∈ l'.
Proof.
  intros Hg Hf Et. assert (Hg1 : good careful held ready (epoch :: epochs waiting) (set_tasks (tasks1 ++ tasks2) m)).
  { eapply good_tasks; [|exact Hg]. rewrite Et. intros x. cbn. rewrite !fmap_app, elem_of_cons, !elem_of_app. cbn. rewrite elem_of_cons. naive_solver. }
  destruct (cleanUpNextRange_ok careful held ready (epochs waiting) env epoch docs _ Hg1 Hf) as (docs' & m' & res & E & Hg' & Hd & Hk).
  exists docs', m', res. split_and!; [done| |exact Hk]. intros delayed. unfold epochs at 1. rewrite fmap_app.
  by apply reschedule_good.
Qed.

Lemma finish_good careful held ready waiting1 epoch n wrote waiting2 hasCollection repl m m' res delayed :
  good careful held ready (epochs (waiting1 ++ (epoch, n, wrote) :: waiting2)) m -> few held ->
  finishRange epoch hasCollection n wrote repl m = Ret (m', res) ->
  good careful held ready (epochs (waiting1 ++ waiting2)) (reschedule epoch delayed res m').
Proof.
  intros Hg Hf E. assert (Hg1 : good careful held ready (epoch :: epochs (waiting1 ++ waiting2)) m).
  { destruct Hg as [G1 G2 G3]. split; [done|done|]. eapply (tasked_mono _ _ m m); [done|done|done| |exact G3].
    unfold epochs. intros x. rewrite !fmap_app. cbn. rewrite elem_of_cons, !elem_of_app, elem_of_cons. naive_solver. }
  destruct (finishRange_ok _ _ _ _ _ _ _ _ _ _ _ _ Hg1 Hf E) as [Hg' Hd].
  pose proof (reschedule_good _ _ _ _ _ delayed _ _ Hg' Hd) as H. destruct res; try done.
  unfold finishRange in E. apply obind_Ret_inv in E as ([m2 v] & _ & E). destruct v; [|done].
  apply obind_Ret_inv in E as (m3 & _ & E). done.
Qed.

Lemma step_good (careful : Prop) s e s' : shard_step s e s' -> tame s e -> (careful -> gains_ready s e) ->
  good careful (sh_held s) (sh_ready s) (epochs (sh_waiting s)) (sh_manager s) ->
  good careful (sh_held s') (sh_ready s') (epochs (sh_waiting s')) (sh_manager s').
Proof.
  destruct 1 as [m docs held ready waiting remote m' ready' E H1 H2
    |m docs held ready waiting m' scoped E|m docs held held' ready waiting i m' Hp E
    |m docs held ready waiting r m' found E|m docs held ready waiting epoch r m' res E
    |m docs held ready waiting r Hin E|m docs held ready waiting marked epoch r m' ready' E H1 H2
    |m docs held ready waiting r when m' res E|m docs docs' held ready waiting
    |env m docs held ready waiting tasks1 epoch when tasks2 docs' m' res delayed Et E
    |m docs held ready waiting1 epoch n wrote waiting2 hasCollection repl m' res delayed E|m docs held ready waiting];
    unfold tame, gains_ready; cbn [sh_manager sh_held sh_ready sh_waiting]; intros [Hf Hd] Hgain Hg.
  - assert (Hb : may_become careful ready m remote) by (destruct remote as [r|]; [split; [done|]; intros act ??? Hc; by eapply Hgain|done]).
    destruct (refreshActive_ok _ _ _ _ _ _ Hg Hb) as (m1 & E1 & _ & Hg'). rewrite E in E1. injection E1 as <-. by apply Hg'.
  - destruct (acquire_active _ _ _ _ _ Hg Hf) as (m1 & E1 & Hg1 & _). rewrite E in E1. by injection E1 as <- ->.
  - destruct Hg as [Hok Hs Ht]. apply (mm_ok_perm _ _ _ Hp) in Hok.
    destruct (release_ok held' i m Hok) as (m1 & E1 & R1 & R2 & R3 & _). rewrite E in E1. injection E1 as <-.
    split; [done|by apply R2|by apply R3].
  - assert (Hne : mm_metadata m <> []) by (by eapply metadata_nonempty).
    destruct (overlappingMetadata_ok _ _ _ _ _ _ Hg (proj1 Hd) Hne (proj2 Hd)) as (m1 & f1 & E1 & Hg' & _). rewrite E in E1. by injection E1 as <- <-.
  - destruct (notePending_ok _ _ _ _ epoch _ _ Hg Hf (proj1 Hd) (proj2 Hd)) as (m1 & r1 & E1 & Hg'). rewrite E in E1. by injection E1 as <- <-.
  - assert (Hne : mm_metadata m <> []) by (by eapply metadata_nonempty). by apply received_ready.
  - destruct (forgetPending_ok _ _ _ _ marked epoch _ _ Hg Hf (proj1 Hd) (proj2 Hd)) as [(E1 & _)|(m1 & E1 & _ & Hg')]; rewrite E in E1; [done|].
    injection E1 as <-. by apply Hg'.
  - assert (Hne : mm_metadata m <> []) by (by eapply metadata_nonempty).
    destruct (cleanUpRange_ok _ _ _ _ _ when _ Hg Hne Hd) as (m1 & r1 & E1 & Hg' & _). rewrite E in E1. by injection E1 as <- <-.
  - done.
  - destruct (task_good careful held ready waiting env epoch tasks1 when tasks2 docs m Hg Hf Et) as (d1 & m1 & r1 & E1 & Hg' & _).
    rewrite E in E1. by injection E1 as <- <- <-.
  - by eapply finish_good.
  - destruct Hg as [Hok Hs _]. split; [split; apply Hok|split; apply Hs|]. intros d Hsd. done.
Qed.

Lemma good_init careful running : good careful [] [] running newMetadataManager.
Proof.
  apply good_empty; [|done|done].
  split; cbn; try done; try (by intros ? ?%not_elem_of_nil); try apply range_map_nil; constructor.
Qed.


Lemma tame_good s : shard_reachable tame s -> good False (sh_held s) (sh_ready s) (epochs (sh_waiting s)) (sh_manager s).
Proof. induction 1 as [docs|s e s' _ IH Ht Hst]; [apply good_init|by eapply step_good]. Qed.



(** C23: No queued range is forgotten.  In every state that callers within [tame]
    reach, as long as a range waits in the queue of the deleter and the executor
    has not been shut down, a deletion task for the collection's epoch is scheduled,
    or one is running and will look at the queue again. *)
Theorem queued_ranges_tasked s d :
  shard_reachable tame s -> mm_inShutdown (sh_manager s) = false -> d ∈ queue (sh_manager s) ->
  exists epoch, active_epoch (sh_manager s) = Ret epoch /\
    epoch ∈ epochs (sh_waiting s) ++ (mm_tasks (sh_manager s)).*1.
Proof. intros Hr Hs Hd. exact (gd_tasked _ _ _ _ (tame_good s Hr) d Hs Hd). Qed.

(** What the first part of the task returns when it waits for replication. *)
Lemma cleanUpNextRange_wait env epoch docs m collection' m' r n w :
  cleanUpNextRange env epoch (Some docs) m = Ret (collection', m', TaskWait r n (OK w)) ->
  w = 0 /\ exists docs', collection' = Some docs' /\ te_hasIndex env = true /\
    delete_loop docs r (te_reads env) 0 (maxToDelete env) = (docs', OK 0).
Proof.
  unfold cleanUpNextRange. intros H. apply obind_Ret_inv in H as ([m1 valid] & _ & H). destruct valid; [|done]. cbn [negb] in H.
  destruct (deleter_isEmpty (mm_rangesToClean m1)) eqn:Ee; [done|].
  destruct (next_range _ _) as [d [when|[front b]]]; [done|].
  destruct (if b then te_oplog env else None) as [code|]; [by apply obind_Ret_inv in H as (? & _ & ?)|].
  apply obind_Ret_inv in H as ([m2 scoped] & _ & H). apply obind_Ret_inv in H as ([docs1 wrote] & Hd & H).
  apply obind_Ret_inv in H as (m3 & _ & H). injection H as <- _ Hres.
  assert (Hw : wrote = OK 0 /\ w = 0 /\ r = dl_range front).
  { destruct wrote as [x|]; [|done]. destruct (Z.eqb_spec x 0) as [->|]; [|done]. by injection Hres as <- _ <-. }
  destruct Hw as (-> & -> & ->). split; [done|]. destruct (scoped_metadata scoped m2); [|done].
  unfold _doDeletion in Hd. destruct (deleter_isEmpty (mm_rangesToClean m2)) eqn:Ed; [done|]. cbn [negb invariant obind] in Hd.
  destruct (te_hasIndex env); [|done]. injection Hd as Hd. by exists docs1.
Qed.

(** C24: A range is reported clean when it is clean.  When the scan of the range met
    no error, a task that goes on to wait for replication with success, after which
    the range's waiters are told that it is clean, has left no document in it. *)
Theorem waits_when_clean env epoch docs m docs' m' r n w :
  te_reads env = [] -> cleanUpNextRange env epoch (Some docs) m = Ret (Some docs', m', TaskWait r n (OK w)) ->
  forall k, k ∈ docs' -> ~ in_range r k.
Proof.
  intros Er H. apply cleanUpNextRange_wait in H as (_ & docs1 & [= <-] & _ & Hl). rewrite Er in Hl.
  destruct (delete_loop_pos docs r 0 (maxToDelete env) docs' (OK 0) ltac:(lia) Hl) as (n' & [= <-] & _ & Hn).
  intros k Hk. apply Hn; [done|]. apply delete_loop_sub in Hl as [Hs _]. by eapply elem_of_sublist.
Qed.

(** * Examples *)

Definition task_env : TaskEnv := mkTaskEnv 100 None true [] 0 0 128.
Definition sample_orphans : ChunkRange := mkRange (sample_key "p") (sample_key "t").
Definition sample_docs : list BSONObj := [sample_key "a"; sample_key "q"; sample_key "v"].

Definition ret_or {A} (a : A) (o : Outcome A) : A := match o with Ret x => x | _ => a end.

(** The metadata is installed, and a range is queued. *)
Definition sample_m1 : MetadataManager := ret_or newMetadataManager (refreshActiveMetadata (Some sample_metadata) newMetadataManager).
Definition sample_m2 : MetadataManager := (ret_or (sample_m1, Later 0) (cleanUpRange sample_orphans 0 sample_m1)).1.
Definition sample_s2 : Shard := mkShard sample_m2 (Some sample_docs) [] [] [].

Lemma sample_few : few [].
Proof. vm_compute. reflexivity. Qed.

Lemma sample_s2_reachable : shard_reachable careful_steps sample_s2.
Proof.
  eapply (shard_next _ _ (CleansUp sample_orphans 0)); [eapply shard_next; [apply (shard_init _ (Some sample_docs))| |]| |].
  2: eapply (step_refresh _ _ _ _ _ (Some sample_metadata) sample_m1 []); [vm_compute; reflexivity|done|done].
  - split; [split; [exact sample_few|apply sample_metadata_ok]|]. intros act Ha. discriminate Ha.
  - split; [split; [exact sample_few|]|exact I]. change (valid_range sample_orphans). vm_compute. reflexivity.
  - eapply (step_cleanUpRange _ _ _ _ _ sample_orphans 0 sample_m2 (Later 0)). vm_compute. reflexivity.
Qed.

Lemma careful_tame s : shard_reachable careful_steps s -> shard_reachable tame s.
Proof. induction 1 as [docs|s e s' _ IH [Ht _] Hst]; [constructor|by eapply shard_next]. Qed.




Lemma queued_ranges_tasked_witness :
  exists epoch, active_epoch sample_m2 = Ret epoch /\ epoch ∈ (mm_tasks sample_m2).*1.
Proof.
  apply (queued_ranges_tasked sample_s2 (mkDeletion sample_orphans 0 0) (careful_tame _ sample_s2_reachable)); vm_compute; [reflexivity|left].
Defined.

(** The task deletes the document in the range, and in its next run finds nothing
    and waits for replication; meanwhile the metadata is lost and loaded again, and
    another range is queued. *)
Definition sample_t1 := ret_or (None, sample_m2, TaskDone) (cleanUpNextRange task_env OID_zero (Some sample_docs) (set_tasks [] sample_m2)).
Definition sample_m3 : MetadataManager := reschedule OID_zero 120 sample_t1.2 sample_t1.1.2.
Definition sample_t2 := ret_or (None, sample_m3, TaskDone) (cleanUpNextRange task_env OID_zero sample_t1.1.1 (set_tasks [] sample_m3)).
Definition sample_m4 : MetadataManager := reschedule OID_zero 140 sample_t2.2 sample_t2.1.2.
Definition sample_m5 : MetadataManager := ret_or sample_m4 (refreshActiveMetadata None sample_m4).
Definition sample_m6 : MetadataManager := ret_or sample_m5 (refreshActiveMetadata (Some sample_metadata) sample_m5).
Definition sample_other : ChunkRange := mkRange (sample_key "u") (sample_key "w").
Definition sample_m7 : MetadataManager := (ret_or (sample_m6, Later 0) (cleanUpRange sample_other 0 sample_m6)).1.

Definition sample_wait (m : MetadataManager) : Shard :=
  mkShard m (Some [sample_key "a"; sample_key "v"]) [] [] [(OID_zero, 0%nat, OK 0)].

Lemma sample_m6_reachable : shard_reachable careful_steps (sample_wait sample_m6).
Proof.
  assert (Hq : forall e s, match e with RunsTask _ | Refreshes None => true | _ => false end = true -> sh_held s = [] -> careful_steps s e).
  { intros e s He Es. unfold careful_steps, tame, gains_ready. rewrite Es. destruct e as [[|]| | | | | | | | | | |]; try discriminate He;
      split; try split; try exact sample_few; exact I. }
  assert (H3 : shard_reachable careful_steps (mkShard sample_m3 (Some [sample_key "a"; sample_key "v"]) [] [] [])).
  { eapply shard_next; [apply sample_s2_reachable|apply (Hq (RunsTask OID_zero) sample_s2); reflexivity|].
    apply (step_task task_env sample_m2 (Some sample_docs) [] [] [] [] OID_zero 0 [] (Some [sample_key "a"; sample_key "v"])
      sample_t1.1.2 sample_t1.2 120); vm_compute; reflexivity. }
  assert (H4 : shard_reachable careful_steps (sample_wait sample_m4)).
  { eapply shard_next; [apply H3|apply (Hq (RunsTask OID_zero)); reflexivity|].
    apply (step_task task_env sample_m3 (Some [sample_key "a"; sample_key "v"]) [] [] [] [] OID_zero 120 []
      (Some [sample_key "a"; sample_key "v"]) sample_t2.1.2 sample_t2.2 140); vm_compute; reflexivity. }
  eapply (shard_next _ _ (Refreshes (Some sample_metadata))); [eapply shard_next; [apply H4|apply (Hq (Refreshes None)); reflexivity|]| |].
  - eapply (step_refresh sample_m4 _ _ _ _ None sample_m5 []); [vm_compute; reflexivity|done|done].
  - split; [split; [exact sample_few|apply sample_metadata_ok]|]. intros act Ha.
    assert (Eu : active sample_m5 = Undef) by (vm_compute; reflexivity). change (active sample_m5 = Ret act) in Ha. rewrite Eu in Ha. discriminate Ha.
  - eapply (step_refresh sample_m5 _ _ _ _ (Some sample_metadata) sample_m6 []); [vm_compute; reflexivity|done|done].
Qed.

Lemma waits_when_clean_witness :
  cleanUpNextRange task_env OID_zero sample_t1.1.1 (set_tasks [] sample_m3) =
    Ret (Some [sample_key "a"; sample_key "v"], sample_t2.1.2, TaskWait sample_orphans 0 (OK 0)) /\
  ~ in_range sample_orphans (sample_key "v").
Proof.
  assert (E : cleanUpNextRange task_env OID_zero (Some [sample_key "a"; sample_key "v"]) (set_tasks [] sample_m3) =
    Ret (Some [sample_key "a"; sample_key "v"], sample_t2.1.2, TaskWait sample_orphans 0 (OK 0))) by (vm_compute; reflexivity).
  split; [vm_compute; reflexivity|].
  apply (waits_when_clean task_env OID_zero _ _ _ _ _ _ _ eq_refl E). right. left.
Defined.

(** With a cursor that fails, or cannot be restored after the first document, the
    task takes the range for clean while documents are left in it. *)
Definition failing_env (read : Read) : TaskEnv := mkTaskEnv 100 None true [read] 0 0 128.

Lemma cursor_failure_reported_clean :
  in_range sample_orphans (sample_key "q") /\ in_range sample_orphans (sample_key "r") /\
  (exists m, cleanUpNextRange (failing_env CursorFailure) OID_zero (Some [sample_key "q"]) (set_tasks [] sample_m2) =
    Ret (Some [sample_key "q"], m, TaskWait sample_orphans 0 (OK 0))) /\
  exists m, cleanUpNextRange (failing_env RestoreFails) OID_zero (Some [sample_key "q"; sample_key "r"]) (set_tasks [] sample_m2) =
    Ret (Some [sample_key "r"], m, TaskWait sample_orphans 0 (OK 0)).
Proof.
  split; [split; vm_compute; congruence|]. split; [split; vm_compute; congruence|].
  split; eexists; vm_compute; reflexivity.
Qed.

(** C25: The end of a deletion task can report a range that was never cleaned.  After
    the wait for replication the task takes the first range off the queue without
    checking that it is the one it deleted.  When the metadata was reset and loaded
    again during the wait, a range queued since then is removed from the queue and
    its waiters are told that it is clean, while its documents are still there; and
    when no range was queued the task reads the front of an empty list. *)
Theorem finish_reports_wrong_range :
  finishRange OID_zero true 0 (OK 0) (OK tt) sample_m6 = Undef /\ shard_reachable careful_steps (sample_wait sample_m6) /\
  shard_reachable careful_steps (sample_wait sample_m7) /\
  exists m', finishRange OID_zero true 0 (OK 0) (OK tt) sample_m7 = Ret (m', TaskContinue) /\
    queue sample_m7 = [mkDeletion sample_other 0 1] /\ in_range sample_other (sample_key "v") /\
    queue m' = [] /\ mm_notifications m' !! 1%nat = Some (Some (OK tt)).
Proof.
  split; [vm_compute; reflexivity|]. split; [apply sample_m6_reachable|]. split.
  - eapply (shard_next _ _ (CleansUp sample_other 0)); [apply sample_m6_reachable| |].
    + split; [split; [exact sample_few|]|exact I]. change (valid_range sample_other). vm_compute. reflexivity.
    + eapply (step_cleanUpRange sample_m6 _ _ _ _ sample_other 0 sample_m7 (Later 1)); vm_compute; reflexivity.
  - eexists. split; [vm_compute; reflexivity|]. split; [vm_compute; reflexivity|].
    split; [split; vm_compute; congruence|]. split; vm_compute; reflexivity.
Qed.
