(* ===== verification/RangeGaps.v ===== *)
(** What a shard loses when the metadata of a collection is cleared and loaded
    again, with the same epoch, while it receives a chunk
    (db/s/metadata_manager.cpp, db/s/migration_destination_manager.cpp): the
    registration of the range being received goes with the metadata. *)

From stdpp Require Import base list sorting strings.
From Stdlib Require Import ZArith Lia String.
From S2P Require Import Prelude OrdMap Bson ChunkVersion ChunkType ShardKey Chunk ChunkManager RangeMap CollectionMetadata MetadataManager RangeDeletion RangeSafety RangeTask.
Local Open Scope Z_scope.
Local Open Scope list_scope.
Local Open Scope outcome_scope.

(** * The metadata cleared and loaded again *)

Lemma reload_good s remote : shard_reachable tame s -> range_map_wf (md_rangesMap remote) ->
  exists m1 m2, refreshActiveMetadata None (sh_manager s) = Ret m1 /\ refreshActiveMetadata (Some remote) m1 = Ret m2 /\
    mm_metadata m1 = [] /\ mm_receivingChunks m1 = [] /\ queue m1 = [] /\
    good False (sh_held s) [] (epochs (sh_waiting s)) m2 /\ active m2 = Ret remote /\ mm_receivingChunks m2 = [].
Proof.
  intros Hr Hw. destruct (refreshActive_ok _ _ _ _ None _ (tame_good s Hr) I) as (m1 & E1 & Em & Hg1).
  assert (Hok : mm_ok (sh_held s) m1) by (apply (Hg1 []); apply list_subseteq_nil).
  destruct (refresh_first False _ (epochs (sh_waiting s)) remote m1 Hok Em Hw) as (m2 & E2 & Ha & Er & Hg2).
  destruct (ok_none _ _ Hok Em) as [Hq Hrc]. exists m1, m2. split_and!; try done. apply Hg2, list_subseteq_nil.
Qed.

(** A reception that fails after the metadata was cleared and loaded again stops
    the process.  In every state that callers within [tame] reach, whatever is being
    received: after the metadata was cleared and metadata with the epoch of the
    migration was loaded, the check of the epoch in [_forgetPending] passes, nothing is
    registered as received, and an [invariant] fails. *)
Lemma forget_after_reload_aborts s remote r :
  shard_reachable tame s -> few (sh_held s) -> range_map_wf (md_rangesMap remote) -> valid_range r ->
  exists m1 m2, refreshActiveMetadata None (sh_manager s) = Ret m1 /\ refreshActiveMetadata (Some remote) m1 = Ret m2 /\
    _forgetPending true (_epoch (getCollVersion remote)) r m2 = Abort.
Proof.
  intros Hr Hf Hw Hv. destruct (reload_good s remote Hr Hw) as (m1 & m2 & E1 & E2 & _ & _ & _ & Hg & Ha & Er).
  exists m1, m2. split_and!; [done|done|].
  assert (Hn : map_get (_minKey r) (mm_receivingChunks m2) = None) by (by rewrite Er).
  destruct (forgetPending_ok _ _ _ _ true (_epoch (getCollVersion remote)) _ _ Hg Hf Hv (or_introl Hn)) as [(E & _)|(m' & _ & H & _)]; [done|].
  destruct H. split_and!; [done|by rewrite active_metadata, Ha|done].
Qed.

(** * A cleanup between the reload and the commit of the migration *)

Lemma schedule_tasks epoch when m : exists l, scheduleCleanup epoch when m = set_tasks l m.
Proof. unfold scheduleCleanup. destruct (mm_inShutdown m); [exists (mm_tasks m); by destruct m|by eexists]. Qed.

Definition loaded (md : CollectionMetadata) : CollectionMetadataTracker := mkTracker (Some md) [] 0.

Section reload.
Context (tks : list CollectionMetadataTracker) (ns : list (option (StatusWith unit))) (sd : bool).
Context (remote remote' : CollectionMetadata) (r : ChunkRange).

Let n := List.length tks.
Let n' := List.length (tks ++ [loaded remote]).
Let d := mkDeletion r 0 (List.length ns).

Lemma load_first tasks : refreshActiveMetadata (Some remote) (mkManager tks [] [] (mkDeleter [] []) ns tasks sd) =
  Ret (mkManager (tks ++ [loaded remote]) [n] [] (mkDeleter [] []) ns tasks sd).
Proof. reflexivity. Qed.

Lemma cleanUp_reloaded tasks : rangeOverlapsChunk remote r = false ->
  exists tasks', cleanUpRange r 0 (mkManager (tks ++ [loaded remote]) [n] [] (mkDeleter [] []) ns tasks sd) =
    Ret (mkManager (tks ++ [loaded remote]) [n] [] (mkDeleter [d] []) (ns ++ [None]) tasks' sd, Later (List.length ns)).
Proof.
  intros Ho. assert (Ht : (tks ++ [loaded remote]) !! n = Some (loaded remote)) by (by apply list_lookup_middle).
  unfold cleanUpRange, _findNewestOverlappingMetadata. cbn. unfold tracker. cbn. rewrite Ht. cbn. rewrite Ho. cbn.
  unfold _pushRangeToClean, _pushListToClean. cbn. unfold active_epoch, tracker. cbn. rewrite Ht. cbn.
  destruct (schedule_tasks (_epoch (getCollVersion remote)) 0
    (mkManager (tks ++ [loaded remote]) [n] [] (mkDeleter [d] []) (ns ++ [None]) tasks sd)) as [l E].
  exists l. unfold set_deleter, set_notifications. cbn. fold d. by rewrite E.
Qed.

Lemma load_newer tasks : same_epoch remote remote' = true -> version_ge (getCollVersion remote) (getCollVersion remote') = false ->
  refreshActiveMetadata (Some remote') (mkManager (tks ++ [loaded remote]) [n] [] (mkDeleter [d] []) (ns ++ [None]) tasks sd) =
  Ret (mkManager ((tks ++ [loaded remote]) ++ [loaded remote']) [n'] [] (mkDeleter [d] []) (ns ++ [None]) tasks sd).
Proof.
  intros He Hv. assert (Ht : (tks ++ [loaded remote]) !! n = Some (loaded remote)) by (by apply list_lookup_middle).
  unfold refreshActiveMetadata. cbn. unfold active, tracker. cbn. rewrite Ht. cbn. fold (same_epoch remote remote'). rewrite He, Hv. cbn.
  unfold _setActiveMetadata, _retireExpiredMetadata. cbn. unfold tracker. cbn. rewrite lookup_app_l, Ht; [reflexivity|].
  apply lookup_lt_Some in Ht. exact Ht.
Qed.
End reload.

(** A reference to the only metadata, and its end. *)
Lemma single_reference i t m : mm_metadata m = [i] -> mm_trackers m !! i = Some t -> tk_usageCounter t = 0 ->
  getActiveMetadata m = Ret (set_tracker i (with_usage 1 t) m, Some i) /\ release i (set_tracker i (with_usage 1 t) m) = Ret m.
Proof.
  intros Em Ht Hu. split.
  - unfold getActiveMetadata, tracker. rewrite Em. cbn. rewrite Ht. cbn. by rewrite Hu.
  - unfold release, tracker. cbn. rewrite list_lookup_insert_eq by (by eapply lookup_lt_Some). cbn.
    unfold _retireExpiredMetadata. cbn. rewrite Em. cbn. rewrite Em. cbn. f_equal. unfold set_tracker. cbn. rewrite list_insert_insert_eq.
    rewrite (list_insert_id (mm_trackers m) i (with_usage (1 - 1) (with_usage 1 t))); [by destruct m|].
    rewrite Ht. destruct t. cbn in *. by rewrite Hu.
Qed.

(** A scan that fits in one batch leaves nothing in the range. *)
Lemma delete_loop_all docs r n mx : n + Z.of_nat (List.length docs) < mx ->
  exists docs' n', delete_loop docs r [] n mx = (docs', OK n') /\ forall k, k ∈ docs' -> ~ in_range r k.
Proof.
  revert n. induction docs as [|x docs IH]; intros n Hn; cbn [delete_loop].
  { exists [], n. split; [done|]. by intros k ?%not_elem_of_nil. }
  cbn [List.length] in Hn. pose proof (containsKey_spec r x) as Hc. destruct (Range.containsKey r x); cbn [negb List.hd_error default List.tl].
  - destruct (Z.ltb_spec (n + 1) mx) as [_|]; [|lia]. apply IH. lia.
  - destruct (IH n ltac:(lia)) as (docs' & n' & -> & H). exists (x :: docs'), n'. split; [done|].
    intros k [->|Hk]%elem_of_cons; [by rewrite <- Hc|by apply H].
Qed.

(** The task on a manager with one metadata and one range queued. *)
Lemma task_deletes_front i t md d env docs m :
  mm_metadata m = [i] -> mm_trackers m !! i = Some t -> tk_usageCounter t = 0 -> tk_metadata t = Some md ->
  mm_rangesToClean m = mkDeleter [d] [] -> te_hasIndex env = true -> te_reads env = [] ->
  Z.of_nat (List.length docs) < maxToDelete env ->
  exists docs' res, cleanUpNextRange env (_epoch (getCollVersion md)) (Some docs) m = Ret (Some docs', m, res) /\
    forall k, k ∈ docs' -> ~ in_range (dl_range d) k.
Proof.
  intros Em Ht Hu Hmd Hd Hi Hre Hmax. destruct (single_reference i t m Em Ht Hu) as [E1 E2].
  assert (Es : scoped_metadata (Some i) (set_tracker i (with_usage 1 t) m) = Some md).
  { unfold scoped_metadata. cbn. rewrite list_lookup_insert_eq by (by eapply lookup_lt_Some). exact Hmd. }
  assert (Hsd : set_deleter (mkDeleter [d] []) m = m) by (destruct m; cbn in Hd; by subst).
  unfold cleanUpNextRange, _checkCollectionMetadataStillValid. rewrite E1. cbn [obind]. rewrite Es. cbn [release_scoped]. rewrite E2.
  cbn [obind]. rewrite (proj2 (oid_eqb_eq _ _)) by done. cbn [negb]. rewrite Hd. cbn. rewrite Hsd, E1. cbn [obind]. rewrite Es.
  unfold _doDeletion. cbn [mm_rangesToClean set_tracker]. rewrite Hd, Hi, Hre. cbn [deleter_isEmpty _orphans negb invariant obind].
  destruct (delete_loop_all docs (dl_range d) 0 (maxToDelete env)) as (docs' & w & -> & Hk); [lia|]. cbn [obind release_scoped].
  rewrite E2. cbn [obind]. by eexists _, _.
Qed.

(** A cleanup between such a reload and the commit of the migration deletes owned
    documents.  In every state that callers within [tame] reach, whatever is being
    received: after the metadata was cleared and loaded again, a request to clean a
    range with none of the shard's chunks is accepted, also if the range is being
    received.  When newer metadata of the same epoch then gives the shard keys of the
    range, the next deletion task, with an index, no cursor error and fewer documents
    than its batch, leaves no document in the range, although the shard owns them. *)
Lemma reload_deletes_owned s remote remote' r env docs tasks :
  shard_reachable tame s -> range_map_wf (md_rangesMap remote) -> rangeOverlapsChunk remote r = false ->
  same_epoch remote remote' = true -> version_ge (getCollVersion remote) (getCollVersion remote') = false ->
  te_hasIndex env = true -> te_reads env = [] -> Z.of_nat (List.length docs) < maxToDelete env ->
  exists m1 m2 m3 notification m4 m5 docs' res,
    refreshActiveMetadata None (sh_manager s) = Ret m1 /\ refreshActiveMetadata (Some remote) m1 = Ret m2 /\
    cleanUpRange r 0 m2 = Ret (m3, Later notification) /\ refreshActiveMetadata (Some remote') m3 = Ret m4 /\
    active m4 = Ret remote' /\
    cleanUpNextRange env (_epoch (getCollVersion remote')) (Some docs) (set_tasks tasks m4) = Ret (Some docs', m5, res) /\
    forall k, k ∈ docs -> in_range r k -> covered (md_rangesMap remote') k -> (exists i, owned_by m4 i k) /\ k ∉ docs'.
Proof.
  intros Hr Hw Ho He Hv Hi Hre Hmax. destruct (reload_good s remote Hr Hw) as (m1 & m2 & E1 & E2 & Em & Erc & Hq & _).
  destruct m1 as [tks mds recv [o dl] ns tks0 sd]. unfold queue in Hq. cbn in Em, Erc, Hq. apply app_eq_nil in Hq as [-> ->]. subst mds recv.
  rewrite load_first in E2. injection E2 as <-.
  destruct (cleanUp_reloaded tks ns sd remote r tks0 Ho) as [tks1 E3].
  pose proof (load_newer tks ns sd remote remote' r tks1 He Hv) as E4. set (m4 := mkManager (_ ++ [loaded remote']) _ _ _ _ _ _) in E4.
  assert (Ht : mm_trackers m4 !! List.length (tks ++ [loaded remote]) = Some (loaded remote')) by (by apply list_lookup_middle).
  destruct (task_deletes_front (List.length (tks ++ [loaded remote])) (loaded remote') remote' (mkDeletion r 0 (List.length ns)) env docs
    (set_tasks tasks m4)) as (docs' & res & E5 & Hk); [done|exact Ht|done..|].
  eexists _, _, _, _, m4, _, docs', res. split_and!; [exact E1|apply load_first|exact E3|exact E4| |exact E5|].
  - unfold active. change (last (mm_metadata m4)) with (Some (List.length (tks ++ [loaded remote]))). unfold tracker. rewrite Ht. done.
  - intros k _ Hin Hc. split; [|intros H; by apply (Hk k)]. exists (List.length (tks ++ [loaded remote])). split; [left|].
    exists (loaded remote'), remote'. split_and!; [exact Ht|done|by left|done].
Qed.

(** * Examples *)

(** The chunk from "m" to "t" has come to s0. *)
Definition received_metadata : CollectionMetadata :=
  match makeUpdated 2 sample_cm sample_change with
  | Ret (_, cm) => ret_or sample_metadata (newCollectionMetadata cm "s0")
  | _ => sample_metadata
  end.
Definition received_range : ChunkRange := mkRange (sample_key "m") (sample_key "t").

(** s0 receives it, and its orphans are gone. *)
Definition receiving_m : MetadataManager := (ret_or (sample_m1, Later 0) (_notePending OID_zero received_range sample_m1)).1.

Lemma receiving_reachable : shard_reachable tame (mkShard receiving_m (Some sample_docs) [] [] []).
Proof.
  eapply (shard_next _ _ (NotesPending OID_zero received_range)).
  - eapply (shard_next _ _ (Refreshes (Some sample_metadata))); [apply (shard_init _ (Some sample_docs))| |].
    + split; [exact sample_few|apply sample_metadata_ok].
    + eapply (step_refresh _ _ _ _ _ _ sample_m1 []); [vm_compute; reflexivity|done|done].
  - split; [exact sample_few|]. split; [vm_compute; reflexivity|]. intros (a & b & Hin & _). by apply not_elem_of_nil in Hin.
  - eapply (step_notePending _ _ _ _ _ _ _ _ (Later 0)). vm_compute. reflexivity.
Qed.

Lemma forget_after_reload_aborts_witness :
  mm_receivingChunks receiving_m = [(sample_key "m", sample_key "t")] /\
  exists m1 m2, refreshActiveMetadata None receiving_m = Ret m1 /\ refreshActiveMetadata (Some sample_metadata) m1 = Ret m2 /\
    _forgetPending true OID_zero received_range m2 = Abort.
Proof.
  split; [vm_compute; reflexivity|].
  destruct (forget_after_reload_aborts _ sample_metadata received_range receiving_reachable sample_few) as (m1 & m2 & E1 & E2 & E3).
  - apply sample_metadata_ok.
  - vm_compute. reflexivity.
  - exists m1, m2. split; [exact E1|]. split; [exact E2|].
    assert (Ee : _epoch (getCollVersion sample_metadata) = OID_zero) by (vm_compute; reflexivity). rewrite Ee in E3. exact E3.
Defined.

Lemma reload_deletes_owned_witness :
  exists m4 m5 docs' res, active m4 = Ret received_metadata /\
    cleanUpNextRange task_env (_epoch (getCollVersion received_metadata)) (Some sample_docs) (set_tasks [] m4) = Ret (Some docs', m5, res) /\
    (exists i, owned_by m4 i (sample_key "q")) /\ sample_key "q" ∉ docs'.
Proof.
  destruct (reload_deletes_owned _ sample_metadata received_metadata received_range task_env sample_docs [] receiving_reachable)
    as (m1 & m2 & m3 & n & m4 & m5 & docs' & res & _ & _ & _ & _ & Ha & E & H).
  - apply sample_metadata_ok.
  - vm_compute. reflexivity.
  - vm_compute. reflexivity.
  - vm_compute. reflexivity.
  - reflexivity.
  - reflexivity.
  - vm_compute. reflexivity.
  - exists m4, m5, docs', res. split; [exact Ha|]. split; [exact E|]. apply H.
    + right. left.
    + split; vm_compute; congruence.
    + exists sample_lo, (sample_key "t"). split; [vm_compute; left|]. split; vm_compute; congruence.
Defined.
