(* ===== verification/MigrationSource.v ===== *)
(** The version check of a shard and the donor of a chunk migration:
    CollectionShardingState (db/s/collection_sharding_state.cpp), the refresh of
    its metadata (db/s/sharding_state.cpp), MigrationSourceManager
    (db/s/migration_source_manager.cpp) and the moveChunk command that drives it
    (db/s/move_chunk_command.cpp).

    The answers of the recipient, the config server and the storage layer are
    arguments; the parts of the commit between which other processes can act are
    separate definitions. *)

From stdpp Require Import base list sorting strings.
From Stdlib Require Import ZArith Lia String.
From S2P Require Import Prelude OrdMap Bson ChunkVersion ChunkType ShardKey Chunk ChunkManager RangeMap CollectionMetadata MetadataManager.
Local Open Scope Z_scope.
Local Open Scope list_scope.
Local Open Scope outcome_scope.
Local Open Scope state_scope.

(** * State *)

Record MoveChunkRequest := mkMove {
  mc_nss : string;
  mc_fromShardId : ShardId;
  mc_toShardId : ShardId;
  mc_range : ChunkRange;
  mc_versionEpoch : OID;
  mc_waitForDelete : bool
}.

Inductive SourceState := kCreated | kCloning | kCloneCaughtUp | kCriticalSection | kCloneCompleted | kDone.

#[global] Instance SourceState_eq_dec : EqDecision SourceState.
Proof. solve_decision. Defined.

(** [sm_critSecSignal]: the signal exists, and whether it is set. *)
Record MigrationSourceManager := mkSource {
  sm_args : MoveChunkRequest;
  sm_state : SourceState;
  sm_collectionEpoch : OID;
  sm_cloneDriver : bool;
  sm_critSecSignal : option bool;
  sm_readsShouldWaitOnCritSec : bool
}.

(** The collection's sharding state with the one migration source manager that a
    shard can have at a time: [dn_registered] says that [_sourceMgr] points to it. *)
Record Donor := mkDonor {
  dn_manager : MetadataManager;
  dn_source : option MigrationSourceManager;
  dn_registered : bool
}.

Definition set_manager (m : MetadataManager) (d : Donor) : Donor := mkDonor m (dn_source d) (dn_registered d).
Definition set_source (s : option MigrationSourceManager) (d : Donor) : Donor := mkDonor (dn_manager d) s (dn_registered d).
Definition set_registered (b : bool) (d : Donor) : Donor := mkDonor (dn_manager d) (dn_source d) b.

Definition on_manager {A} (f : MetadataManager -> Outcome (MetadataManager * A)) : SM Donor A :=
  fun d =>
    match f (dn_manager d) with
    | Ret (m, a) => (set_manager m d, Ret a)
    | Throw e => (d, Throw e)
    | Abort => (d, Abort)
    | Undef => (d, Undef)
    end.

(** The source manager, whose methods run. *)
Definition source : SM Donor MigrationSourceManager :=
  fun d => match dn_source d with Some s => (d, Ret s) | None => (d, Undef) end.
Definition update_source (f : MigrationSourceManager -> MigrationSourceManager) : SM Donor unit :=
  smodify (fun d => set_source (f <$> dn_source d) d).

Definition with_state (st : SourceState) (s : MigrationSourceManager) : MigrationSourceManager :=
  mkSource (sm_args s) st (sm_collectionEpoch s) (sm_cloneDriver s) (sm_critSecSignal s) (sm_readsShouldWaitOnCritSec s).
Definition with_driver (b : bool) (s : MigrationSourceManager) : MigrationSourceManager :=
  mkSource (sm_args s) (sm_state s) (sm_collectionEpoch s) b (sm_critSecSignal s) (sm_readsShouldWaitOnCritSec s).
Definition with_signal (b : option bool) (s : MigrationSourceManager) : MigrationSourceManager :=
  mkSource (sm_args s) (sm_state s) (sm_collectionEpoch s) (sm_cloneDriver s) b (sm_readsShouldWaitOnCritSec s).
Definition with_reads_waiting (s : MigrationSourceManager) : MigrationSourceManager :=
  mkSource (sm_args s) (sm_state s) (sm_collectionEpoch s) (sm_cloneDriver s) (sm_critSecSignal s) true.

(** * CollectionShardingState *)

(** [getMetadata], read and given back. *)
Definition getMetadata : SM Donor (option CollectionMetadata) :=
  on_manager (fun m =>
    let* (m, scoped) := getActiveMetadata m in
    let md := scoped_metadata scoped m in
    let* m := release_scoped scoped m in
    Ret (m, md)).

Definition refreshMetadata (newMetadata : option CollectionMetadata) : SM Donor unit :=
  on_manager (fun m => let* m := refreshActiveMetadata newMetadata m in Ret (m, ())).

Definition setMigrationSourceManager : SM Donor unit :=
  let! d := sget in
  slift (invariant (negb (dn_registered d))) ;!
  smodify (set_registered true).

Definition clearMigrationSourceManager : SM Donor unit :=
  let! d := sget in
  slift (invariant (dn_registered d)) ;!
  smodify (set_registered false).

(** The pointer is not null; it may be to a signal that is set. *)
Definition getMigrationCriticalSectionSignal (isForReadOnlyOperation : bool) (s : MigrationSourceManager) : option bool :=
  if negb isForReadOnlyOperation then sm_critSecSignal s
  else if sm_readsShouldWaitOnCritSec s then sm_critSecSignal s
  else None.

Inductive VersionCheck := VersionOk | CriticalSection | VersionMismatch.

(** [_checkShardVersionOk]; [received] is none for an operation without version,
    [available] says that its read concern is 'available'. *)
Definition _checkShardVersionOk (received : option ChunkVersion) (available isReader : bool) : SM Donor VersionCheck :=
  match received with
  | None => sret VersionOk
  | Some expected =>
      slift (invariant (negb available)) ;!
      if isIgnoredVersion expected then sret VersionOk
      else
        let! metadata := getMetadata in
        let actual := match metadata with Some md => getShardVersion md | None => UNSHARDED end in
        let! d := sget in
        let signal :=
          if dn_registered d then
            match dn_source d with Some s => getMigrationCriticalSectionSignal isReader s | None => None end
          else None in
        match signal with
        | Some _ => sret CriticalSection
        | None =>
            if isWriteCompatibleWith expected actual then sret VersionOk
            else if negb (oid_eqb (_epoch actual) (_epoch expected)) then sret VersionMismatch
            else if negb (isSet actual) && isSet expected then sret VersionMismatch
            else if isSet actual && negb (isSet expected) then sret VersionMismatch
            else if negb (majorVersion actual =? majorVersion expected) then sret VersionMismatch
            else slift Abort
        end
  end.

Definition checkShardVersionOrThrow (received : option ChunkVersion) (available isReader : bool) : SM Donor unit :=
  let! c := _checkShardVersionOk received available isReader in
  slift (uassert StaleConfig (match c with VersionOk => true | _ => false end)).

(** * Refresh *)

Definition already_newer (metadata : option CollectionMetadata) (cm : ChunkManager) : bool :=
  match metadata with
  | Some md => oid_eqb (_epoch (getCollVersion md)) (_epoch (cm_collectionVersion cm)) &&
               version_ge (getCollVersion md) (cm_collectionVersion cm)
  | None => false
  end.

(** [ShardingState::_refreshMetadata], with what the catalog cache returned; the
    check for newer metadata is made before and after the exclusive lock is taken. *)
Definition _refreshMetadata (shardId : ShardId) (routingInfo : Outcome (option ChunkManager)) : SM Donor ChunkVersion :=
  slift (uassert NotYetInitialized (ShardId_isValid shardId)) ;!
  let! cm := slift routingInfo in
  match cm with
  | None => refreshMetadata None ;! sret UNSHARDED
  | Some cm =>
      let! metadata := getMetadata in
      match metadata, already_newer metadata cm with
      | Some md, true => sret (getShardVersion md)
      | _, _ =>
          let! newMetadata := slift (newCollectionMetadata cm shardId) in
          refreshMetadata (Some newMetadata) ;!
          let! metadata := getMetadata in
          match metadata with Some md => sret (getShardVersion md) | None => slift Undef end
      end
  end.

(** [refreshMetadataNow]: exceptions become a status. *)
Definition refreshMetadataNow (shardId : ShardId) (routingInfo : Outcome (option ChunkManager)) : SM Donor (StatusWith ChunkVersion) :=
  scatch (let! v := _refreshMetadata shardId routingInfo in sret (OK v)) (fun e => sret (NotOK e)).

(** [onStaleShardVersion], after the wait for the critical section. *)
Definition onStaleShardVersion (shardId : ShardId) (expectedVersion : ChunkVersion)
    (routingInfo : Outcome (option ChunkManager)) : SM Donor (StatusWith unit) :=
  let! currentMetadata := getMetadata in
  let collectionShardVersion := match currentMetadata with Some md => getShardVersion md | None => UNSHARDED end in
  if oid_eqb (_epoch collectionShardVersion) (_epoch expectedVersion) && version_ge collectionShardVersion expectedVersion
  then sret (OK ())
  else scatch (_refreshMetadata shardId routingInfo ;! sret (OK ())) (fun e => sret (NotOK e)).

(** * Leaving a migration *)

Definition isNotMasterError (e : ErrorCode) : bool :=
  match e with
  | NotMaster | NotMasterNoSlaveOk | NotMasterOrSecondary | InterruptedDueToReplStateChange | PrimarySteppedDown => true
  | _ => false
  end.

(** What the environment answers when a migration is left: the cloner's
    [cancelClone], and [waitForCollectionFlush] with [endMetadataOp]. *)
Record Leaving := mkLeaving { lv_cancelClone : Outcome unit; lv_flush : Outcome unit }.

Definition _cleanup (lv : Leaving) : SM Donor unit :=
  let! s := source in
  slift (invariant (bool_decide (sm_state s <> kDone))) ;!
  clearMigrationSourceManager ;!
  update_source (fun s => with_signal (match sm_critSecSignal s with Some _ => Some true | None => None end) s) ;!
  update_source (with_driver false) ;!
  (if sm_cloneDriver s then slift (lv_cancelClone lv) else sret ()) ;!
  (if bool_decide (sm_state s = kCriticalSection) || bool_decide (sm_state s = kCloneCompleted)
   then slift (lv_flush lv) else sret ()) ;!
  update_source (with_state kDone).

Definition cleanupOnError (lv : Leaving) : SM Donor unit :=
  let! s := source in
  if bool_decide (sm_state s = kDone) then sret ()
  else
    fun d =>
      match _cleanup lv d with
      | (d, Throw e) => if isNotMasterError e then (d, Ret ()) else (d, Throw e)
      | r => r
      end.

(** A scope guard that calls [cleanupOnError]. The body returns a status, or
    the values with which the function goes on after it. The guard runs in a
    destructor, out of which an exception ends the process. *)
Definition guarded {A} (lv : Leaving) (body : SM Donor (StatusWith unit + A)) : SM Donor (StatusWith unit + A) :=
  fun d =>
    match body d with
    | (d, Ret (inr a)) => (d, Ret (inr a))
    | (d, (Ret (inl _) | Throw _) as r) =>
        match cleanupOnError lv d with
        | (d, Ret _) => (d, r)
        | (d, Throw _) => (d, Abort)
        | (d, Abort) => (d, Abort)
        | (d, Undef) => (d, Undef)
        end
    | r => r
    end.

(** The guard is dismissed and the function returns OK. *)
Definition dismissed (m : SM Donor (StatusWith unit + unit)) : SM Donor (StatusWith unit) :=
  let! r := m in sret (match r with inl st => st | inr _ => OK () end).

(** * The phases of a migration *)

Definition checkCollectionEpochMatches (metadata : option CollectionMetadata) (expectedEpoch : OID) : StatusWith unit :=
  match metadata with
  | Some md => if oid_eqb (_epoch (getCollVersion md)) expectedEpoch then OK () else NotOK IncompatibleShardingMetadata
  | None => NotOK IncompatibleShardingMetadata
  end.

(** [uassertStatusOK] *)
Definition uassertStatusOK {A} (st : StatusWith A) : Outcome A :=
  match st with OK a => Ret a | NotOK e => Throw e end.

(** The constructor on the shard [shardName]: [refresh] is what the catalog
    cache returns, [collectionExists] whether the collection does. *)
Definition newMigrationSourceManager (shardName : ShardId) (request : MoveChunkRequest) (refresh : Outcome (option ChunkManager))
    (collectionExists : bool) : SM Donor unit :=
  slift (uassert InvalidOptions (negb (String.eqb (mc_fromShardId request) (mc_toShardId request)))) ;!
  let! refreshStatus := refreshMetadataNow shardName refresh in
  slift (uassertStatusOK refreshStatus) ;!
  slift (uassert InvalidOptions collectionExists) ;!
  let! metadata := getMetadata in
  match metadata with
  | None => slift (Throw IncompatibleShardingMetadata)
  | Some collectionMetadata =>
      let collectionVersion := getCollVersion collectionMetadata in
      let shardVersion := getShardVersion collectionMetadata in
      slift (uassert IncompatibleShardingMetadata (0 <? majorVersion shardVersion)) ;!
      slift (uassert StaleEpoch (oid_eqb (mc_versionEpoch request) (_epoch collectionVersion))) ;!
      slift (uassertStatusOK
        (checkChunkIsValid collectionMetadata (_minKey (mc_range request)) (_maxKey (mc_range request)))) ;!
      smodify (set_source (Some (mkSource request kCreated (_epoch collectionVersion) false None false)))
  end.

(** What the cloner answers is an exception or a status. *)
Definition startClone (lv : Leaving) (cloner : Outcome (StatusWith unit)) : SM Donor (StatusWith unit) :=
  let! s := source in
  slift (invariant (bool_decide (sm_state s = kCreated))) ;!
  dismissed (guarded lv (
    let! metadata := getMetadata in
    match checkCollectionEpochMatches metadata (sm_collectionEpoch s) with
    | NotOK e => sret (inl (NotOK e))
    | OK _ =>
        update_source (with_driver true) ;!
        setMigrationSourceManager ;!
        let! startCloneStatus := slift cloner in
        match startCloneStatus with
        | NotOK e => sret (inl (NotOK e))
        | OK _ => update_source (with_state kCloning) ;! sret (inr ())
        end
    end)).

Definition awaitToCatchUp (lv : Leaving) (cloner : Outcome (StatusWith unit)) : SM Donor (StatusWith unit) :=
  let! s := source in
  slift (invariant (bool_decide (sm_state s = kCloning))) ;!
  dismissed (guarded lv (
    let! catchUpStatus := slift cloner in
    match catchUpStatus with
    | NotOK e => sret (inl (NotOK e))
    | OK _ => update_source (with_state kCloneCaughtUp) ;! sret (inr ())
    end)).

(** [notifyChangeStreams], [startMetadataOp] and [signalSecondaries]: the
    writes to the oplog, the recovery document and the cached collection entry. *)
Definition enterCriticalSection (lv : Leaving) (notifyChangeStreams : Outcome unit)
    (startMetadataOp signalSecondaries : Outcome (StatusWith unit)) : SM Donor (StatusWith unit) :=
  let! s := source in
  slift (invariant (bool_decide (sm_state s = kCloneCaughtUp))) ;!
  dismissed (guarded lv (
    let! metadata := getMetadata in
    match checkCollectionEpochMatches metadata (sm_collectionEpoch s) with
    | NotOK e => sret (inl (NotOK e))
    | OK _ =>
        slift notifyChangeStreams ;!
        let! status := slift startMetadataOp in
        match status with
        | NotOK e => sret (inl (NotOK e))
        | OK _ =>
            update_source (with_signal (Some false)) ;!
            update_source (with_state kCriticalSection) ;!
            let! signalStatus := slift signalSecondaries in
            match signalStatus with
            | NotOK _ => sret (inl (NotOK OperationFailed))
            | OK _ => sret (inr ())
            end
        end
    end)).

Definition commitChunkOnRecipient (lv : Leaving) (commitClone : Outcome (StatusWith unit)) : SM Donor (StatusWith unit) :=
  let! s := source in
  slift (invariant (bool_decide (sm_state s = kCriticalSection))) ;!
  dismissed (guarded lv (
    let! commitCloneStatus := slift commitClone in
    match commitCloneStatus with
    | NotOK e => sret (inl (NotOK e))
    | OK _ => update_source (with_state kCloneCompleted) ;! sret (inr ())
    end)).

(** * Commit on the config server *)

(** [_configsvrCommitChunkMigration] *)
Record CommitRequest := mkCommit {
  cr_nss : string;
  cr_fromShard : ShardId;
  cr_toShard : ShardId;
  cr_migratedChunk : ChunkType;
  cr_controlChunk : option ChunkType;
  cr_fromShardCollectionVersion : ChunkVersion
}.

Definition chunk_with_bounds (b : BSONObj * BSONObj) : Outcome ChunkType :=
  let* c := setMin emptyChunkType b.1 in setMax c b.2.

(** The control chunk: some other chunk of the shard, if it has one. *)
Definition controlChunkOf (metadata : CollectionMetadata) (minKey : BSONObj) : Outcome (option ChunkType) :=
  if 1 <? getNumChunks metadata then
    match getDifferentChunk metadata minKey with
    | None => Abort
    | Some b =>
        let* differentChunk := chunk_with_bounds b in
        invariant (negb (woCompare b.1 minKey =? 0)) ;*
        Ret (Some differentChunk)
    end
  else Ret None.

(** [commitChunkMetadataOnConfig] up to the request; the reads begin to wait. *)
Definition commitRequest (lv : Leaving) : SM Donor (StatusWith unit + CommitRequest) :=
  let! s := source in
  slift (invariant (bool_decide (sm_state s = kCloneCompleted))) ;!
  guarded lv (
    let! metadata := getMetadata in
    match metadata, checkCollectionEpochMatches metadata (sm_collectionEpoch s) with
    | Some metadata, OK _ =>
        let args := sm_args s in
        let! controlChunkType := slift (controlChunkOf metadata (_minKey (mc_range args))) in
        let! migratedChunkType := slift (chunk_with_bounds (_minKey (mc_range args), _maxKey (mc_range args))) in
        update_source with_reads_waiting ;!
        sret (inr (mkCommit (mc_nss args) (mc_fromShardId args) (mc_toShardId args) migratedChunkType controlChunkType
                     (getCollVersion metadata)))
    | _, NotOK e => sret (inl (NotOK e))
    | None, OK _ => slift Undef
    end).

(** The answer to the request: the command and the write concern have a status
    each. *)
Definition CommitResponse := StatusWith (StatusWith unit * StatusWith unit).

Definition migrationCommitStatus (response : CommitResponse) : StatusWith unit :=
  match response with
  | NotOK e => NotOK e
  | OK (NotOK e, _) => NotOK e
  | OK (OK _, writeConcernStatus) => writeConcernStatus
  end.

Definition isInterruption (e : ErrorCode) : bool :=
  match e with
  | Interrupted | InterruptedAtShutdown | InterruptedDueToReplStateChange | ExceededTimeLimit => true
  | _ => false
  end.

Definition isShutdownError (e : ErrorCode) : bool :=
  match e with ShutdownInProgress | InterruptedAtShutdown => true | _ => false end.

(** What follows a failed commit: the majority write [logChange] is made, and if
    it fails the process ends, unless the node is no longer primary. *)
Definition afterFailedCommit (logChange : StatusWith unit) (inShutdown canAcceptWrites : bool) : SM Donor unit :=
  match logChange with
  | OK _ => sret ()
  | NotOK e =>
      if (isInterruption e || isShutdownError e || bool_decide (e = CallbackCanceled)) && inShutdown then slift Abort
      else if negb canAcceptWrites then refreshMetadata None ;! slift (Throw e)
      else slift Abort
  end.

Definition afterCommit (lv : Leaving) (commitStatus : StatusWith unit) (logChange : StatusWith unit)
    (inShutdown canAcceptWrites : bool) : SM Donor (StatusWith unit + unit) :=
  guarded lv (
    match commitStatus with
    | OK _ => sret (inr ())
    | NotOK _ => afterFailedCommit logChange inShutdown canAcceptWrites ;! sret (inr ())
    end).

(** One round of the loop: none when there is another one. *)
Definition refreshRound (lv : Leaving) (shardName : ShardId) (commitStatus : StatusWith unit) (retriesLeft : bool)
    (refresh : Outcome (option ChunkManager)) : SM Donor (StatusWith unit + option ChunkVersion) :=
  guarded lv (
    let! s := source in
    let! refreshStatus := refreshMetadataNow shardName refresh in
    match refreshStatus with
    | NotOK _ => refreshMetadata None ;! sret (inl commitStatus)
    | OK _ =>
        let! refreshedMetadata := getMetadata in
        match refreshedMetadata with
        | None => sret (inl (NotOK NamespaceNotSharded))
        | Some md =>
            if negb (keyBelongsToMe md (_minKey (mc_range (sm_args s)))) then sret (inr (Some (getCollVersion md)))
            else if retriesLeft then sret (inr None)
            else match commitStatus with
                 | OK _ => slift Abort
                 | NotOK e => sret (inl (NotOK e))
                 end
        end
    end).

(** [cleanUpRange]; [now] and [delay] are the clock and [orphanCleanupDelaySecs],
    in milliseconds. *)
Definition css_cleanUpRange (range : ChunkRange) (isNow : bool) (now delay : Z) : SM Donor CleanupNotification :=
  on_manager (cleanUpRange range (if isNow then 0 else now + delay)).

(** The status of a notification that is waited for. *)
Definition waitStatus (waited : nat -> Outcome (StatusWith unit)) (n : CleanupNotification) : Outcome (StatusWith unit) :=
  match n with Ready st => Ret st | Later i => waited i end.

(** What follows the loop, when the guard has been dismissed. *)
Definition leaveCriticalSection (lv : Leaving) (collectionVersionAfterRefresh : ChunkVersion) : SM Donor unit :=
  slift (invariant (isSet collectionVersionAfterRefresh)) ;!
  _cleanup lv.

Definition scheduleCleanup (now delay : Z) (waited : nat -> Outcome (StatusWith unit)) : SM Donor (StatusWith unit) :=
  let! s := source in
  let args := sm_args s in
  let! notification := css_cleanUpRange (mc_range args) (mc_waitForDelete args) now delay in
  if mc_waitForDelete args then slift (waitStatus waited notification) else sret (OK ()).

(** What the environment of a migration answers. *)
Record MigrationEnv := mkEnv {
  me_leaving : Leaving;
  me_refresh : Outcome (option ChunkManager);
  me_collectionExists : bool;
  me_startClone : Outcome (StatusWith unit);
  me_awaitCatchUp : Outcome (StatusWith unit);
  me_notifyChangeStreams : Outcome unit;
  me_startMetadataOp : Outcome (StatusWith unit);
  me_signalSecondaries : Outcome (StatusWith unit);
  me_commitClone : Outcome (StatusWith unit);
  me_configCommit : CommitRequest -> CommitResponse;
  me_logChange : StatusWith unit;
  me_inShutdown : bool;
  me_canAcceptWrites : bool;
  me_commitRefresh : bool -> Outcome (option ChunkManager);
  me_now : Z;
  me_delay : Z;
  me_waited : nat -> Outcome (StatusWith unit);
  (** what other threads do to the metadata between the steps *)
  me_other : nat -> MetadataManager -> MetadataManager
}.

Definition others (env : MigrationEnv) (n : nat) : SM Donor unit :=
  smodify (fun d => set_manager (me_other env n (dn_manager d)) d).

Definition commitChunkMetadataOnConfig (shardName : ShardId) (env : MigrationEnv) : SM Donor (StatusWith unit) :=
  let lv := me_leaving env in
  let! r := commitRequest lv in
  match r with
  | inl st => sret st
  | inr request =>
      let commitStatus := migrationCommitStatus (me_configCommit env request) in
      others env 5 ;!
      let! r := afterCommit lv commitStatus (me_logChange env) (me_inShutdown env) (me_canAcceptWrites env) in
      match r with
      | inl st => sret st
      | inr _ =>
          others env 6 ;!
          let! r := refreshRound lv shardName commitStatus true (me_commitRefresh env true) in
          let finish v :=
            leaveCriticalSection lv v ;!
            others env 8 ;!
            scheduleCleanup (me_now env) (me_delay env) (me_waited env) in
          match r with
          | inl st => sret st
          | inr (Some v) => finish v
          | inr None =>
              others env 7 ;!
              let! r := refreshRound lv shardName commitStatus false (me_commitRefresh env false) in
              match r with
              | inl st => sret st
              | inr (Some v) => finish v
              | inr None => slift Undef
              end
          end
      end
  end.

(** [~MigrationSourceManager] *)
Definition destroySourceManager : SM Donor unit :=
  let! s := source in
  slift (invariant (negb (sm_cloneDriver s))) ;!
  smodify (set_source None).

(** A local object with a destructor, which also runs on an exception. *)
Definition with_destructor {A} (m : SM Donor A) (f : SM Donor unit) : SM Donor A :=
  fun d =>
    match m d with
    | (d, (Ret _ | Throw _) as r) =>
        match f d with
        | (d, Ret _) => (d, r)
        | (d, Throw _) => (d, Abort)
        | (d, Abort) => (d, Abort)
        | (d, Undef) => (d, Undef)
        end
    | r => r
    end.

Definition checked (m : SM Donor (StatusWith unit)) : SM Donor unit :=
  let! st := m in slift (uassertStatusOK st).

(** [_runImpl], with the shards' hosts found. *)
Definition _runImpl (shardName : ShardId) (moveChunkRequest : MoveChunkRequest) (env : MigrationEnv) : SM Donor unit :=
  let lv := me_leaving env in
  newMigrationSourceManager shardName moveChunkRequest (me_refresh env) (me_collectionExists env) ;!
  with_destructor (
    others env 0 ;!
    checked (startClone lv (me_startClone env)) ;!
    others env 1 ;!
    checked (awaitToCatchUp lv (me_awaitCatchUp env)) ;!
    others env 2 ;!
    checked (enterCriticalSection lv (me_notifyChangeStreams env) (me_startMetadataOp env) (me_signalSecondaries env)) ;!
    others env 3 ;!
    checked (commitChunkOnRecipient lv (me_commitClone env)) ;!
    others env 4 ;!
    checked (commitChunkMetadataOnConfig shardName env)) destroySourceManager.
