(* ===== verification/MigrationSession.v ===== *)
(** The donor of a chunk migration, from the start of moveChunk to its end: on
    every path that the process survives, the migration is unregistered and the
    critical section is left; the outcomes that end the process; the version
    check against the metadata and the critical section. *)

From stdpp Require Import base list sorting strings.
From Stdlib Require Import ZArith Lia String.
From S2P Require Import Prelude OrdMap Bson ChunkVersion ChunkType ShardKey Chunk ChunkManager RangeMap CollectionMetadata MetadataManager RangeDeletion RangeSafety MigrationSource.
Local Open Scope Z_scope.
Local Open Scope list_scope.
Local Open Scope outcome_scope.
Local Open Scope state_scope.

(** * Triples *)

(** From a state in [P], [m] returns in [Q], throws in [E], or ends the process
    in a state where [X] allows that. *)
Definition triple {S A} (X P : S -> Prop) (m : SM S A) (Q : A -> S -> Prop) (E : S -> Prop) : Prop :=
  forall s, P s ->
    match m s with
    | (s', Ret a) => Q a s'
    | (s', Throw _) => E s'
    | (s', _) => X s'
    end.

Abbreviation anywhere := (fun _ => True).

(** The process goes on. *)
Definition survives {A} (r : Outcome A) : Prop := match r with Ret _ | Throw _ => True | _ => False end.

Lemma triple_ret {S A} X (P : S -> Prop) (a : A) E : triple X P (sret a) (fun b s => b = a /\ P s) E.
Proof. by intros s H. Qed.

Lemma triple_bind {S A B} X P (m : SM S A) Q (k : A -> SM S B) R E :
  triple X P m Q E -> (forall a, triple X (Q a) (k a) R E) -> triple X P (let! a := m in k a) R E.
Proof.
  intros Hm Hk s Hs. specialize (Hm s Hs). unfold sbind. destruct (m s) as [s' [a|e| |]]; [|done..]. by apply Hk.
Qed.

Lemma triple_weaken {S A} X (P P' : S -> Prop) (m : SM S A) (Q Q' : A -> S -> Prop) (E E' : S -> Prop) :
  triple X P' m Q' E' -> (forall s, P s -> P' s) -> (forall a s, Q' a s -> Q a s) -> (forall s, E' s -> E s) ->
  triple X P m Q E.
Proof.
  intros Hm HP HQ HE s Hs. specialize (Hm s (HP s Hs)). destruct (m s) as [s' [a|e| |]]; [by apply HQ|by apply HE|done..].
Qed.

Lemma triple_pure {S A} X (P : S -> Prop) (F : Prop) (m : SM S A) Q E :
  (F -> triple X P m Q E) -> triple X (fun s => F /\ P s) m Q E.
Proof. intros H s [HF HP]. by apply H. Qed.

Lemma triple_modify {S} X (P : S -> Prop) (f : S -> S) Q E :
  (forall s, P s -> Q () (f s)) -> triple X P (smodify f) Q E.
Proof. intros H s Hs. by apply H. Qed.

Lemma triple_get {S} X (P : S -> Prop) E : triple X P sget (fun s0 s => s0 = s /\ P s) E.
Proof. by intros s H. Qed.

(** A step that leaves the state as it is. *)
Lemma triple_lift {S A} X (P : S -> Prop) (o : Outcome A) Q (E : S -> Prop) :
  match o with Ret a => forall s, P s -> Q a s | Throw _ => forall s, P s -> E s | _ => forall s, P s -> X s end ->
  triple X P (slift o) Q E.
Proof. intros H s Hs. cbn. destruct o; auto. Qed.

(** * The state of a session *)

(** What is registered, with the state and the flags of the source manager. *)
Definition in_state (registered : bool) (st : SourceState) (driver : bool) (signal : option bool) (d : Donor) : Prop :=
  dn_registered d = registered /\
  exists s, dn_source d = Some s /\ sm_state s = st /\ sm_cloneDriver s = driver /\ sm_critSecSignal s = signal.

(** The states between the calls of the methods. *)
Definition created : Donor -> Prop := in_state false kCreated false None.
Definition cloning (st : SourceState) : Donor -> Prop := in_state true st true None.
Definition critical (st : SourceState) : Donor -> Prop := in_state true st true (Some false).

(** The migration has been left: nothing blocks the collection. *)
Definition left_migration (d : Donor) : Prop :=
  dn_registered d = false /\
  exists s, dn_source d = Some s /\ sm_cloneDriver s = false /\ sm_critSecSignal s <> Some false.

Definition registered_any (d : Donor) : Prop :=
  dn_registered d = true /\ exists s, dn_source d = Some s /\ sm_state s <> kDone.

(** Operations on the manager keep the session. *)
Lemma on_manager_keeps {A} (P : Donor -> Prop) (f : MetadataManager -> Outcome (MetadataManager * A)) :
  (forall m d, P d -> P (set_manager m d)) -> triple anywhere P (on_manager f) (fun _ => P) P.
Proof. intros HP d Hd. unfold on_manager. destruct (f (dn_manager d)) as [[m a]|e| |]; auto. Qed.

Definition manager_free (P : Donor -> Prop) : Prop := forall m d, P d -> P (set_manager m d).

Lemma free_in_state registered st driver signal : manager_free (in_state registered st driver signal).
Proof. by intros m d Hd. Qed.

Lemma getMetadata_keeps P : manager_free P -> triple anywhere P getMetadata (fun _ => P) P.
Proof. apply on_manager_keeps. Qed.

Lemma refreshMetadata_keeps P md : manager_free P -> triple anywhere P (refreshMetadata md) (fun _ => P) P.
Proof. apply on_manager_keeps. Qed.

Lemma refresh_keeps P shard routing : manager_free P -> triple anywhere P (_refreshMetadata shard routing) (fun _ => P) P.
Proof.
  intros HP. unfold _refreshMetadata. eapply triple_bind; [by apply (triple_lift _ _ _ (fun _ => P)); destruct (uassert _ _)|].
  intros []. eapply triple_bind; [by apply (triple_lift _ _ _ (fun _ => P)); destruct routing|]. intros [cm|].
  - eapply triple_bind; [by apply getMetadata_keeps|]. intros md.
    assert (H : triple anywhere P (let! n := slift (newCollectionMetadata cm shard) in
        refreshMetadata (Some n) ;! let! md := getMetadata in
        match md with Some md => sret (getShardVersion md) | None => slift Undef end) (fun _ => P) P).
    { eapply triple_bind; [by apply (triple_lift _ _ _ (fun _ => P)); destruct (newCollectionMetadata _ _)|]. intros n.
      eapply triple_bind; [by apply refreshMetadata_keeps|]. intros [].
      eapply triple_bind; [by apply getMetadata_keeps|]. intros [md'|]; by intros d Hd. }
    destruct md as [md|]; [|exact H]. destruct (already_newer _ _); [by intros d Hd|exact H].
  - eapply triple_bind; [by apply refreshMetadata_keeps|]. by intros [] d Hd.
Qed.

Lemma refreshNow_keeps P shard routing : manager_free P -> triple anywhere P (refreshMetadataNow shard routing) (fun _ => P) P.
Proof.
  intros HP d Hd. pose proof (refresh_keeps P shard routing HP d Hd) as H. unfold refreshMetadataNow, scatch, sbind.
  destruct (_refreshMetadata shard routing d) as [d' [v|e| |]]; try done. cbn. by destruct (isDBException e).
Qed.

(** * Leaving *)

Definition running_session (d : Donor) : Prop := exists s, dn_source d = Some s /\ sm_state s <> kDone.

Lemma cleanup_leaves lv : triple anywhere running_session (_cleanup lv) (fun _ => left_migration) left_migration.
Proof.
  intros d (s & Es & Hs). unfold _cleanup, clearMigrationSourceManager, sbind, source, sget, slift, smodify, update_source.
  rewrite Es, bool_decide_eq_true_2 by done. cbn [invariant]. destruct (dn_registered d); cbn; [|done]. rewrite Es.
  assert (Hl : forall st, left_migration (mkDonor (dn_manager d) (Some (with_state st (with_driver false (with_signal
    match sm_critSecSignal s with Some _ => Some true | None => None end s)))) false)).
  { intros st. split; [done|]. eexists. split; [done|]. split; [done|]. cbn. by destruct (sm_critSecSignal s). }
  pose proof (Hl (sm_state s)) as Hl0.
  destruct (sm_cloneDriver s); [destruct (lv_cancelClone lv); cbn; try done|cbn];
    (destruct (bool_decide _ || bool_decide _); [destruct (lv_flush lv); try done|]; apply Hl).
Qed.

Lemma cleanupOnError_leaves lv : triple anywhere running_session (cleanupOnError lv) (fun _ => left_migration) left_migration.
Proof.
  intros d Hd. pose proof (cleanup_leaves lv d Hd) as H. destruct Hd as (s & Es & Hs).
  unfold cleanupOnError, sbind, source. rewrite Es, bool_decide_eq_false_2 by done.
  destruct (_cleanup lv d) as [d' [[]|e| |]]; [done| |done..]. by destruct (isNotMasterError e).
Qed.

Lemma guarded_leaves {A} lv P (F : StatusWith unit -> Prop) (body : SM Donor (StatusWith unit + A)) Q P' :
  triple anywhere P body (fun r d => match r with inl st => F st /\ P' d | inr a => Q a d end) P' ->
  (forall d, P' d -> running_session d) ->
  triple anywhere P (guarded lv body)
    (fun r d => match r with inl st => F st /\ left_migration d | inr a => Q a d end) left_migration.
Proof.
  intros Hb HP' d Hd. specialize (Hb d Hd). unfold guarded. destruct (body d) as [d' [[st|a]|e| |]]; try done.
  - destruct Hb as [HF Hb]. pose proof (cleanupOnError_leaves lv d' (HP' _ Hb)) as H.
    by destruct (cleanupOnError lv d') as [d'' [[]|? | |]].
  - pose proof (cleanupOnError_leaves lv d' (HP' _ Hb)) as H. by destruct (cleanupOnError lv d') as [d'' [[]|? | |]].
Qed.

Definition is_error (st : StatusWith unit) : Prop := exists e, st = NotOK e.

(** A method whose early returns are errors goes on only in its last state. *)
Lemma dismissed_leaves lv P body Q P' :
  triple anywhere P body (fun r d => match r with inl st => is_error st /\ P' d | inr _ => Q d end) P' ->
  (forall d, P' d -> running_session d) ->
  triple anywhere P (checked (dismissed (guarded lv body))) (fun _ => Q) left_migration.
Proof.
  intros Hb HP' d Hd. pose proof (guarded_leaves lv P is_error body (fun _ => Q) P' Hb HP' d Hd) as H.
  unfold checked, dismissed, sbind. destruct (guarded lv body d) as [d' [[st|[]]|e| |]]; try done; cbn.
  by destruct H as [[e ->] H].
Qed.

(** * The methods *)

Lemma method_enter st P m Q E :
  (forall s, sm_state s = st -> triple anywhere (fun d => dn_source d = Some s /\ P d) (checked (m s)) Q E) ->
  triple anywhere P (checked (let! s := source in slift (invariant (bool_decide (sm_state s = st))) ;! m s)) Q E.
Proof.
  intros H d Hd. unfold checked, sbind, source, slift. destruct (dn_source d) as [s|] eqn:Es; [|done].
  destruct (bool_decide_reflect (sm_state s = st)) as [Hs|]; [|done]. exact (H s Hs d (conj Es Hd)).
Qed.

Lemma in_state_running registered st driver signal d :
  st <> kDone -> in_state registered st driver signal d -> running_session d.
Proof. intros Hne (_ & s & Es & <- & _). by exists s. Qed.

Lemma update_in_state f registered st driver signal registered' st' driver' signal' E :
  registered' = registered ->
  (forall s, sm_state s = st -> sm_cloneDriver s = driver -> sm_critSecSignal s = signal ->
     sm_state (f s) = st' /\ sm_cloneDriver (f s) = driver' /\ sm_critSecSignal (f s) = signal') ->
  triple anywhere (in_state registered st driver signal) (update_source f)
    (fun _ => in_state registered' st' driver' signal') E.
Proof.
  intros -> Hf. apply triple_modify. intros d (Hr & s & Es & H1 & H2 & H3). split; [done|]. exists (f s).
  cbn. rewrite Es. split; [done|by apply Hf].
Qed.

Lemma register_in_state st driver signal E :
  triple anywhere (in_state false st driver signal) setMigrationSourceManager (fun _ => in_state true st driver signal) E.
Proof. intros d (Hr & Hs). unfold setMigrationSourceManager, sbind, sget, slift. rewrite Hr. by split. Qed.

Lemma keeps_running {A} (P : Donor -> Prop) (m : SM Donor A) :
  triple anywhere P m (fun _ => P) P -> (forall d, P d -> running_session d) -> triple anywhere P m (fun _ => P) running_session.
Proof. intros Hm HP. by eapply triple_weaken. Qed.

(** What the environment answers does not change the session. *)
Lemma answer_keeps {A} X (P : Donor -> Prop) (o : Outcome A) : (forall d, X d) -> triple X P (slift o) (fun _ => P) P.
Proof. intros HX. apply triple_lift. by destruct o. Qed.

(** The answer of the environment, and the step to the next state when it is OK. *)
Lemma answer_step st driver signal (o : Outcome (StatusWith unit)) f Q :
  st <> kDone ->
  triple anywhere (in_state true st driver signal) (update_source f) (fun _ => Q) running_session ->
  triple anywhere (in_state true st driver signal)
    (let! status := slift o in
     match status with NotOK e => sret (inl (NotOK e)) | OK _ => update_source f ;! sret (inr ()) end)
    (fun r d => match r with inl st => is_error st /\ running_session d | inr _ => Q d end) running_session.
Proof.
  intros Hst Hf. eapply triple_bind.
  - apply keeps_running; [by apply (answer_keeps anywhere (in_state true st driver signal) o)|].
    intros d. by apply in_state_running.
  - intros [[]|e]; cbn beta iota.
    + eapply triple_bind; [exact Hf|]. by intros [] d Hd.
    + intros d Hd. split; [by exists e|]. by eapply in_state_running.
Qed.

Lemma startClone_session lv cloner :
  triple anywhere created (checked (startClone lv cloner)) (fun _ => cloning kCloning) left_migration.
Proof.
  apply (method_enter kCreated). intros s Hs. apply (dismissed_leaves lv _ _ _ running_session); [|done].
  eapply triple_weaken with (P' := created) (E' := running_session); [|by intros d [_ ?]|intros a d H; exact H|done].
  assert (Hrun : forall d, created d -> running_session d) by (intros d; by apply in_state_running).
  eapply triple_bind; [apply keeps_running; [apply (getMetadata_keeps created), free_in_state|done]|].
  intros md. cbn beta. destruct (checkCollectionEpochMatches _ _) as [[]|e].
  - eapply triple_bind; [apply (update_in_state _ _ _ _ _ false kCreated true None); [done|by intros]|]. intros [].
    eapply triple_bind; [apply register_in_state|]. intros []. apply answer_step; [done|].
    by apply update_in_state.
  - intros d Hd. split; [by exists e|by apply Hrun].
Qed.

Lemma awaitToCatchUp_session lv cloner :
  triple anywhere (cloning kCloning) (checked (awaitToCatchUp lv cloner)) (fun _ => cloning kCloneCaughtUp) left_migration.
Proof.
  apply (method_enter kCloning). intros s Hs. apply (dismissed_leaves lv _ _ _ running_session); [|done].
  eapply triple_weaken with (P' := cloning kCloning) (E' := running_session);
    [|by intros d [_ ?]|intros a d H; exact H|done].
  apply answer_step; [done|]. by apply update_in_state.
Qed.

Lemma enterCriticalSection_session lv notify start signal :
  triple anywhere (cloning kCloneCaughtUp) (checked (enterCriticalSection lv notify start signal))
    (fun _ => critical kCriticalSection) left_migration.
Proof.
  apply (method_enter kCloneCaughtUp). intros s Hs. apply (dismissed_leaves lv _ _ _ running_session); [|done].
  eapply triple_weaken with (P' := cloning kCloneCaughtUp) (E' := running_session);
    [|by intros d [_ ?]|intros a d H; exact H|done].
  assert (Hrun : forall d, cloning kCloneCaughtUp d -> running_session d) by (intros d; by apply in_state_running).
  eapply triple_bind; [apply keeps_running; [apply (getMetadata_keeps (cloning kCloneCaughtUp)), free_in_state|done]|].
  intros md. cbn beta. destruct (checkCollectionEpochMatches _ _) as [[]|e];
    [|intros d Hd; split; [by exists e|by apply Hrun]].
  eapply triple_bind; [apply keeps_running; [by apply (answer_keeps anywhere (cloning kCloneCaughtUp) notify)|done]|].
  intros []. eapply triple_bind; [apply keeps_running; [by apply (answer_keeps anywhere (cloning kCloneCaughtUp) start)|done]|].
  intros [[]|e]; cbn beta iota; [|intros d Hd; split; [by exists e|by apply Hrun]].
  eapply triple_bind; [apply (update_in_state _ _ _ _ _ true kCloneCaughtUp true (Some false)); [done|by intros]|].
  intros []. eapply triple_bind; [apply (update_in_state _ _ _ _ _ true kCriticalSection true (Some false)); [done|by intros]|].
  intros []. assert (Hc : forall d, critical kCriticalSection d -> running_session d) by (intros d; by apply in_state_running).
  eapply triple_bind; [apply keeps_running; [by apply (answer_keeps anywhere (critical kCriticalSection) signal)|done]|].
  intros [[]|e]; cbn beta iota; [by intros d Hd|]. intros d Hd. split; [by eexists|by apply Hc].
Qed.

Lemma commitChunkOnRecipient_session lv answer :
  triple anywhere (critical kCriticalSection) (checked (commitChunkOnRecipient lv answer))
    (fun _ => critical kCloneCompleted) left_migration.
Proof.
  apply (method_enter kCriticalSection). intros s Hs. apply (dismissed_leaves lv _ _ _ running_session); [|done].
  eapply triple_weaken with (P' := critical kCriticalSection) (E' := running_session);
    [|by intros d [_ ?]|intros a d H; exact H|done].
  apply answer_step; [done|]. by apply update_in_state.
Qed.

Lemma commitRequest_session lv :
  triple anywhere (critical kCloneCompleted) (commitRequest lv)
    (fun r d => match r with inl st => is_error st /\ left_migration d | inr _ => critical kCloneCompleted d end) left_migration.
Proof.
  assert (Hrun : forall d, critical kCloneCompleted d -> running_session d) by (intros d; by apply in_state_running).
  unfold commitRequest. intros d Hd. unfold sbind at 1, source. pose proof Hd as (_ & s & -> & Hs & _).
  unfold sbind at 1, slift at 1. rewrite bool_decide_eq_true_2 by done. cbn [invariant]. revert d Hd.
  apply (guarded_leaves lv (critical kCloneCompleted) is_error _ (fun _ => critical kCloneCompleted) running_session); [|done].
  eapply triple_bind; [apply keeps_running; [apply (getMetadata_keeps (critical kCloneCompleted)), free_in_state|done]|].
  intros md. cbn beta.
  assert (He : forall e, triple anywhere (critical kCloneCompleted) (sret (inl (NotOK e) : StatusWith unit + CommitRequest))
    (fun r d => match r with inl st => is_error st /\ running_session d | inr _ => critical kCloneCompleted d end) running_session).
  { intros e d Hd. split; [by exists e|by apply Hrun]. }
  destruct md as [md|]; cbn [checkCollectionEpochMatches]; [|apply He]. destruct (oid_eqb _ _); [|apply He].
  eapply triple_bind; [apply keeps_running; [by apply (answer_keeps anywhere)|done]|]. intros control.
  eapply triple_bind; [apply keeps_running; [by apply (answer_keeps anywhere)|done]|]. intros migrated.
  eapply triple_bind; [by apply (update_in_state _ _ _ _ _ true kCloneCompleted true (Some false))|]. by intros [] d Hd.
Qed.

Lemma afterCommit_session lv commitStatus log inShutdown accepts :
  triple anywhere (critical kCloneCompleted) (afterCommit lv commitStatus log inShutdown accepts)
    (fun r d => match r with inl st => is_error st /\ left_migration d | inr _ => critical kCloneCompleted d end) left_migration.
Proof.
  assert (Hrun : forall d, critical kCloneCompleted d -> running_session d) by (intros d; by apply in_state_running).
  apply (guarded_leaves lv _ is_error _ (fun _ => critical kCloneCompleted) running_session); [|done].
  destruct commitStatus as [[]|e]; [by intros d Hd|]. eapply triple_bind; [apply keeps_running; [|done]|by intros [] d Hd].
  unfold afterFailedCommit. destruct log as [[]|e']; [by intros d Hd|]. destruct (_ && inShutdown); [by intros d Hd|].
  destruct accepts; [by intros d Hd|]. eapply triple_bind; [apply refreshMetadata_keeps, free_in_state|]. by intros [] d Hd.
Qed.

Lemma refreshRound_session lv shard commitStatus retries refresh :
  triple anywhere (critical kCloneCompleted) (refreshRound lv shard commitStatus retries refresh)
    (fun r d => match r with inl st => True /\ left_migration d | inr _ => critical kCloneCompleted d end) left_migration.
Proof.
  assert (Hrun : forall d, critical kCloneCompleted d -> running_session d) by (intros d; by apply in_state_running).
  apply (guarded_leaves lv _ (fun _ => True) _ (fun _ => critical kCloneCompleted) running_session); [|done].
  eapply triple_bind; [apply keeps_running; [|done]|].
  { intros d Hd. unfold source. by destruct (dn_source d). }
  intros s. eapply triple_bind; [apply keeps_running; [apply refreshNow_keeps, free_in_state|done]|]. intros [v|e]; cbn beta iota.
  - eapply triple_bind; [apply keeps_running; [apply getMetadata_keeps, free_in_state|done]|]. intros [md|]; cbn beta iota.
    + destruct (keyBelongsToMe _ _); cbn [negb]; [|by intros d Hd]. destruct retries; [by intros d Hd|].
      destruct commitStatus; [by intros d Hd|]. intros d Hd. split; [done|by apply Hrun].
    + intros d Hd. split; [done|by apply Hrun].
  - eapply triple_bind; [apply keeps_running; [apply refreshMetadata_keeps, free_in_state|done]|].
    intros [] d Hd. split; [done|by apply Hrun].
Qed.

Lemma free_left : manager_free left_migration.
Proof. by intros m d Hd. Qed.

Lemma others_keeps env n P E : manager_free P -> triple anywhere P (others env n) (fun _ => P) E.
Proof. intros HP. apply triple_modify. intros d Hd. by apply HP. Qed.

Lemma finish_session lv v env :
  triple anywhere (critical kCloneCompleted)
    (leaveCriticalSection lv v ;! others env 8 ;! scheduleCleanup (me_now env) (me_delay env) (me_waited env))
    (fun _ => left_migration) left_migration.
Proof.
  eapply triple_bind with (Q := fun _ => left_migration).
  { unfold leaveCriticalSection. intros d Hd. unfold sbind, slift. destruct (isSet v); [|done].
    apply cleanup_leaves. by eapply in_state_running, Hd. }
  intros []. eapply triple_bind; [apply others_keeps, free_left|]. intros [].
  unfold scheduleCleanup. eapply triple_bind with (Q := fun _ => left_migration).
  { intros d Hd. unfold source. by destruct (dn_source d). }
  intros s. eapply triple_bind; [apply on_manager_keeps, free_left|]. intros n.
  destruct (mc_waitForDelete _); [by apply (answer_keeps anywhere)|by intros d Hd].
Qed.

Lemma commitOnConfig_session shard env :
  triple anywhere (critical kCloneCompleted) (commitChunkMetadataOnConfig shard env) (fun _ => left_migration) left_migration.
Proof.
  unfold commitChunkMetadataOnConfig. eapply triple_bind; [apply commitRequest_session|].
  intros [st|request]; cbn beta iota; [by intros d [_ Hd]|].
  eapply triple_bind; [apply others_keeps, free_in_state|]. intros [].
  eapply triple_bind; [apply afterCommit_session|]. intros [st|[]]; cbn beta iota; [by intros d [_ Hd]|].
  eapply triple_bind; [apply others_keeps, free_in_state|]. intros [].
  eapply triple_bind; [apply refreshRound_session|]. intros [st|[v|]]; cbn beta iota; [by intros d [_ Hd]|apply finish_session|].
  eapply triple_bind; [apply others_keeps, free_in_state|]. intros [].
  eapply triple_bind; [apply refreshRound_session|].
  intros [st|[v|]]; cbn beta iota; [by intros d [_ Hd]|apply finish_session|by intros d Hd].
Qed.

Lemma session_methods shard env :
  triple anywhere created (
    others env 0 ;!
    checked (startClone (me_leaving env) (me_startClone env)) ;!
    others env 1 ;!
    checked (awaitToCatchUp (me_leaving env) (me_awaitCatchUp env)) ;!
    others env 2 ;!
    checked (enterCriticalSection (me_leaving env) (me_notifyChangeStreams env) (me_startMetadataOp env)
      (me_signalSecondaries env)) ;!
    others env 3 ;!
    checked (commitChunkOnRecipient (me_leaving env) (me_commitClone env)) ;!
    others env 4 ;!
    checked (commitChunkMetadataOnConfig shard env)) (fun _ => left_migration) left_migration.
Proof.
  eapply triple_bind; [apply others_keeps, free_in_state|]. intros [].
  eapply triple_bind; [apply startClone_session|]. intros [].
  eapply triple_bind; [apply others_keeps, free_in_state|]. intros [].
  eapply triple_bind; [apply awaitToCatchUp_session|]. intros [].
  eapply triple_bind; [apply others_keeps, free_in_state|]. intros [].
  eapply triple_bind; [apply enterCriticalSection_session|]. intros [].
  eapply triple_bind; [apply others_keeps, free_in_state|]. intros [].
  eapply triple_bind; [apply commitChunkOnRecipient_session|]. intros [].
  eapply triple_bind; [apply others_keeps, free_in_state|]. intros [].
  eapply triple_bind; [apply commitOnConfig_session|]. intros st. by apply (answer_keeps anywhere).
Qed.

(** * The whole command *)

Definition idle (d : Donor) : Prop := dn_registered d = false /\ dn_source d = None.

Lemma free_idle : manager_free idle.
Proof. by intros m d Hd. Qed.

Lemma constructor_session shard request refresh exists_ :
  triple anywhere idle (newMigrationSourceManager shard request refresh exists_) (fun _ => created) idle.
Proof.
  unfold newMigrationSourceManager. eapply triple_bind; [by apply (answer_keeps anywhere)|]. intros [].
  eapply triple_bind; [apply refreshNow_keeps, free_idle|]. intros st.
  eapply triple_bind; [by apply (answer_keeps anywhere)|]. intros v.
  eapply triple_bind; [by apply (answer_keeps anywhere)|]. intros [].
  eapply triple_bind; [apply getMetadata_keeps, free_idle|]. intros [md|]; [|by intros d Hd].
  eapply triple_bind; [by apply (answer_keeps anywhere)|]. intros [].
  eapply triple_bind; [by apply (answer_keeps anywhere)|]. intros [].
  eapply triple_bind; [by apply (answer_keeps anywhere)|]. intros []. apply triple_modify. intros d [Hr _]. split; [done|].
  by eexists.
Qed.

Lemma runImpl_session shard request env :
  triple anywhere idle (_runImpl shard request env) (fun _ => idle) idle.
Proof.
  unfold _runImpl. eapply triple_bind; [apply constructor_session|]. intros [] d Hd.
  pose proof (session_methods shard env d Hd) as H. unfold with_destructor. cbv zeta.
  match type of H with context [match ?m with _ => _ end] => destruct m as [d' [[]|e| |]] end; [..|done|done];
    unfold destroySourceManager, sbind, source, slift, smodify; destruct H as (Hr & s & Es & Hdrv & _);
    by rewrite Es, Hdrv.
Qed.

(** * The version check *)

Definition active_md (m : MetadataManager) : option CollectionMetadata :=
  match active m with Ret md => Some md | _ => None end.

Lemma scoped_metadata_active held m : mm_ok held m -> scoped_metadata (last (mm_metadata m)) m = active_md m.
Proof.
  intros Hok. unfold scoped_metadata, active_md, active. destruct (last (mm_metadata m)) as [i|] eqn:El; [|done].
  destruct (ok_active _ _ Hok i El) as (t & md & Et & Em & _). cbn. unfold tracker. rewrite Et. cbn. by rewrite Em.
Qed.

(** [getMetadata] returns the active metadata and leaves it in place. *)
Lemma getMetadata_ok held d : mm_ok held (dn_manager d) -> few held ->
  exists m', getMetadata d = (set_manager m' d, Ret (active_md (dn_manager d))) /\ mm_ok held m' /\
    active m' = active (dn_manager d) /\ last (mm_metadata m') = last (mm_metadata (dn_manager d)) /\
    forall careful ready running, good careful held ready running (dn_manager d) -> good careful held ready running m'.
Proof.
  intros Hok Hf. destruct (getActiveMetadata_ok held _ Hok Hf) as (m1 & E1 & Hok1 & Hs1 & Ha1 & Ht1 & _ & _ & _ & El1).
  unfold getMetadata, on_manager. rewrite E1. cbn [obind]. rewrite <- El1, (scoped_metadata_active _ _ Hok1), El1.
  unfold active_md at 2. rewrite <- Ha1. fold (active_md m1). unfold release_scoped.
  destruct (last (mm_metadata (dn_manager d))) as [i|] eqn:El; cbn [option_list app obind] in *.
  - destruct (release_ok _ _ _ Hok1) as (m2 & -> & Hok2 & Hs2 & Ht2 & Ha2 & _ & _ & El2 & _). cbn [obind].
    exists m2. split_and!; [done|done|congruence|congruence|]. intros careful ready running [_ Hs Ht]. split; auto.
  - exists m1. split_and!; [done|done|done|congruence|]. intros careful ready running [_ Hs Ht]. split; auto.
Qed.

(** The version of the shard, as the check reads it. *)
Definition shard_version (d : Donor) : ChunkVersion :=
  match active_md (dn_manager d) with Some md => getShardVersion md | None => UNSHARDED end.

(** The critical section of the registered migration holds for this operation. *)
Definition blocked (isReader : bool) (d : Donor) : bool :=
  dn_registered d &&
  match dn_source d with
  | Some s => match getMigrationCriticalSectionSignal isReader s with Some _ => true | None => false end
  | None => false
  end.

Lemma oid_eqb_sym a b : oid_eqb a b = oid_eqb b a.
Proof. apply eq_true_iff_eq. rewrite !oid_eqb_eq. by split. Qed.

(** What the check is to return. *)
Definition version_verdict (received : option ChunkVersion) (isReader : bool) (d : Donor) : VersionCheck :=
  match received with
  | None => VersionOk
  | Some v =>
      if isIgnoredVersion v then VersionOk
      else if blocked isReader d then CriticalSection
      else if oid_eqb (_epoch v) (_epoch (shard_version d)) && (majorVersion v =? majorVersion (shard_version d)) then VersionOk
      else VersionMismatch
  end.

Lemma checkVersion_verdict held received isReader d : mm_ok held (dn_manager d) -> few held ->
  exists m', _checkShardVersionOk received false isReader d = (set_manager m' d, Ret (version_verdict received isReader d)) /\
    mm_ok held m' /\ active m' = active (dn_manager d).
Proof.
  intros Hok Hf. unfold _checkShardVersionOk, version_verdict. destruct received as [v|];
    [|exists (dn_manager d); by destruct d].
  cbn [negb invariant]. unfold sbind at 1, slift at 1. destruct (isIgnoredVersion v); [exists (dn_manager d); by destruct d|].
  destruct (getMetadata_ok held d Hok Hf) as (m' & E & Hok' & Ha & _). exists m'. split; [|done].
  unfold sbind at 1. rewrite E. unfold sbind, sget. cbn [dn_registered dn_source set_manager]. fold (shard_version d).
  unfold blocked. set (w := shard_version d).
  assert (Hv : (if isWriteCompatibleWith v w then sret VersionOk
     else if negb (oid_eqb (_epoch w) (_epoch v)) then sret VersionMismatch
     else if negb (isSet w) && isSet v then sret VersionMismatch
     else if isSet w && negb (isSet v) then sret VersionMismatch
     else if negb (majorVersion w =? majorVersion v) then sret VersionMismatch
     else slift Abort) (set_manager m' d) =
    (set_manager m' d, Ret (if oid_eqb (_epoch v) (_epoch w) && (majorVersion v =? majorVersion w)
                            then VersionOk else VersionMismatch))).
  { unfold isWriteCompatibleWith, hasEqualEpoch. rewrite (Z.eqb_sym (majorVersion v)), (oid_eqb_sym (_epoch w)).
    destruct (oid_eqb (_epoch v) (_epoch w)), (majorVersion w =? majorVersion v); cbn; try done;
    destruct (isSet w), (isSet v); done. }
  destruct (dn_registered d), (dn_source d) as [s|]; cbn [andb]; try exact Hv.
  destruct (getMigrationCriticalSectionSignal isReader s); [done|exact Hv].
Qed.
