(* ===== verification/MigrationRegistry.v ===== *)
(** The registry of a shard's active migrations
    (db/s/active_migrations_registry.cpp) and the moveChunk commands that register
    with it (db/s/move_chunk_command.cpp): one migration at a time, as donor or as
    recipient, and commands that ask for the running migration join it. *)

From stdpp Require Import base list relations strings.
From Stdlib Require Import ZArith Lia String.
From S2P Require Import Prelude OrdMap Bson ChunkVersion ChunkType MigrationSource.
Local Open Scope list_scope.
Local Open Scope outcome_scope.

(** * State *)

Record ActiveReceiveChunkState := mkReceive { rc_nss : string; rc_range : ChunkRange; rc_fromShardId : ShardId }.

(** A notification is an index of the store, where none is "not set". *)
Record ActiveMoveChunkState := mkMoveState { mv_args : MoveChunkRequest; mv_notification : nat }.

Record ActiveMigrationsRegistry := mkRegistry {
  _activeMoveChunkState : option ActiveMoveChunkState;
  _activeReceiveChunkState : option ActiveReceiveChunkState;
  rg_notifications : list (option (StatusWith unit))
}.

(** [_registry] is null exactly in 'join' mode. *)
Record ScopedRegisterDonateChunk := mkScoped { sd_forUnregister : bool; sd_completionNotification : nat }.

Definition newRegistry : ActiveMigrationsRegistry := mkRegistry None None [].

(** * Operations *)

(** [MoveChunkRequest::operator==] *)
Definition request_eqb (a b : MoveChunkRequest) : bool :=
  if negb (String.eqb (mc_nss a) (mc_nss b)) then false
  else if negb (String.eqb (mc_fromShardId a) (mc_fromShardId b)) then false
  else if negb (String.eqb (mc_toShardId a) (mc_toShardId b)) then false
  else if negb (Range.equals (mc_range a) (mc_range b)) then false
  else if negb (Bool.eqb (mc_waitForDelete a) (mc_waitForDelete b)) then false
  else true.

Definition registerDonateChunk (args : MoveChunkRequest) (r : ActiveMigrationsRegistry)
    : ActiveMigrationsRegistry * StatusWith ScopedRegisterDonateChunk :=
  match _activeReceiveChunkState r with
  | Some _ => (r, NotOK ConflictingOperationInProgress)
  | None =>
      match _activeMoveChunkState r with
      | Some s =>
          if request_eqb (mv_args s) args then (r, OK (mkScoped false (mv_notification s)))
          else (r, NotOK ConflictingOperationInProgress)
      | None =>
          let n := List.length (rg_notifications r) in
          (mkRegistry (Some (mkMoveState args n)) None (rg_notifications r ++ [None]), OK (mkScoped true n))
      end
  end.

Definition registerReceiveChunk (nss : string) (range : ChunkRange) (fromShardId : ShardId) (r : ActiveMigrationsRegistry)
    : ActiveMigrationsRegistry * StatusWith unit :=
  match _activeReceiveChunkState r with
  | Some _ => (r, NotOK ConflictingOperationInProgress)
  | None =>
      match _activeMoveChunkState r with
      | Some _ => (r, NotOK ConflictingOperationInProgress)
      | None => (mkRegistry None (Some (mkReceive nss range fromShardId)) (rg_notifications r), OK ())
      end
  end.

Definition _clearDonateChunk (r : ActiveMigrationsRegistry) : Outcome ActiveMigrationsRegistry :=
  match _activeMoveChunkState r with
  | Some _ => Ret (mkRegistry None (_activeReceiveChunkState r) (rg_notifications r))
  | None => Abort
  end.

Definition _clearReceiveChunk (r : ActiveMigrationsRegistry) : Outcome ActiveMigrationsRegistry :=
  match _activeReceiveChunkState r with
  | Some _ => Ret (mkRegistry (_activeMoveChunkState r) None (rg_notifications r))
  | None => Abort
  end.

(** [complete]; a notification is set once. *)
Definition complete (s : ScopedRegisterDonateChunk) (status : StatusWith unit) (r : ActiveMigrationsRegistry)
    : Outcome ActiveMigrationsRegistry :=
  invariant (sd_forUnregister s) ;*
  match rg_notifications r !! sd_completionNotification s with
  | Some None =>
      Ret (mkRegistry (_activeMoveChunkState r) (_activeReceiveChunkState r)
             (<[sd_completionNotification s := Some status]> (rg_notifications r)))
  | Some (Some _) => Abort
  | None => Undef
  end.

(** [waitForCompletion]: none while it blocks. *)
Definition waitForCompletion (s : ScopedRegisterDonateChunk) (r : ActiveMigrationsRegistry) : Outcome (option (StatusWith unit)) :=
  invariant (negb (sd_forUnregister s)) ;*
  match rg_notifications r !! sd_completionNotification s with Some v => Ret v | None => Undef end.

(** [~ScopedRegisterDonateChunk] *)
Definition destroyScoped (s : ScopedRegisterDonateChunk) (r : ActiveMigrationsRegistry) : Outcome ActiveMigrationsRegistry :=
  if sd_forUnregister s then
    invariant (match rg_notifications r !! sd_completionNotification s with Some (Some _) => true | _ => false end) ;*
    _clearDonateChunk r
  else Ret r.

(** * The commands of a shard *)

(** [cm_executing]: the commands that run their migration, with the status they
    have signalled; [cm_joined]: those that wait for another one;
    [cm_receiving]: the running receives. [cm_finished]: the migrations that have
    ended, by notification; [cm_returned]: what the waiting commands returned. *)
Record Commands := mkCommands {
  cm_registry : ActiveMigrationsRegistry;
  cm_executing : list (ScopedRegisterDonateChunk * MoveChunkRequest * option (StatusWith unit));
  cm_joined : list (ScopedRegisterDonateChunk * MoveChunkRequest);
  cm_receiving : list ActiveReceiveChunkState;
  cm_finished : list (nat * MoveChunkRequest * StatusWith unit);
  cm_returned : list (nat * MoveChunkRequest * StatusWith unit)
}.

Inductive command_step : Commands -> Commands -> Prop :=
  | cmd_begin r ex jo rc fi re args r' s :
      registerDonateChunk args r = (r', OK s) ->
      command_step (mkCommands r ex jo rc fi re)
        (if sd_forUnregister s then mkCommands r' ((s, args, None) :: ex) jo rc fi re
         else mkCommands r' ex ((s, args) :: jo) rc fi re)
  | cmd_complete r ex1 s args ex2 jo rc fi re status r' :
      complete s status r = Ret r' ->
      command_step (mkCommands r (ex1 ++ (s, args, None) :: ex2) jo rc fi re)
        (mkCommands r' (ex1 ++ (s, args, Some status) :: ex2) jo rc ((sd_completionNotification s, args, status) :: fi) re)
  | cmd_end r ex1 s args status ex2 jo rc fi re r' :
      destroyScoped s r = Ret r' ->
      command_step (mkCommands r (ex1 ++ (s, args, Some status) :: ex2) jo rc fi re) (mkCommands r' (ex1 ++ ex2) jo rc fi re)
  | cmd_join r ex jo1 s args jo2 rc fi re status :
      waitForCompletion s r = Ret (Some status) ->
      command_step (mkCommands r ex (jo1 ++ (s, args) :: jo2) rc fi re)
        (mkCommands r ex (jo1 ++ jo2) rc fi ((sd_completionNotification s, args, status) :: re))
  | cmd_receive r ex jo rc fi re nss range from r' :
      registerReceiveChunk nss range from r = (r', OK ()) ->
      command_step (mkCommands r ex jo rc fi re) (mkCommands r' ex jo (mkReceive nss range from :: rc) fi re)
  | cmd_received r ex jo rc1 x rc2 fi re r' :
      _clearReceiveChunk r = Ret r' ->
      command_step (mkCommands r ex jo (rc1 ++ x :: rc2) fi re) (mkCommands r' ex jo (rc1 ++ rc2) fi re).

Definition commands_start : Commands := mkCommands newRegistry [] [] [] [] [].
Definition commands_reachable : Commands -> Prop := rtc command_step commands_start.

(** * The invariant *)

(** A joined command waits for a migration with an equal request. *)
Definition joins (w : Commands) (n : nat) (args : MoveChunkRequest) : Prop :=
  exists args', request_eqb args' args = true /\
    ((exists s, (s, args', None) ∈ cm_executing w /\ sd_completionNotification s = n) \/
     exists status, (n, args', status) ∈ cm_finished w).

Record commands_ok (w : Commands) : Prop := {
  ck_registry :
    match _activeMoveChunkState (cm_registry w), _activeReceiveChunkState (cm_registry w) with
    | None, None => cm_executing w = [] /\ cm_receiving w = []
    | Some m, None => cm_receiving w = [] /\ exists o, cm_executing w = [(mkScoped true (mv_notification m), mv_args m, o)] /\
        rg_notifications (cm_registry w) !! mv_notification m = Some o /\
        match o with Some status => (mv_notification m, mv_args m, status) ∈ cm_finished w | None => True end
    | None, Some x => cm_executing w = [] /\ cm_receiving w = [x]
    | Some _, Some _ => False
    end;
  ck_finished n args status : (n, args, status) ∈ cm_finished w -> rg_notifications (cm_registry w) !! n = Some (Some status);
  ck_joined s args : (s, args) ∈ cm_joined w -> sd_forUnregister s = false /\ joins w (sd_completionNotification s) args;
  ck_returned n args status : (n, args, status) ∈ cm_returned w ->
    exists args', request_eqb args' args = true /\ (n, args', status) ∈ cm_finished w
}.

Lemma singleton_split {A} (l1 l2 : list A) x y : l1 ++ x :: l2 = [y] -> l1 = [] /\ l2 = [] /\ x = y.
Proof. destruct l1 as [|z l1]; cbn; [by intros [= -> ->]|]. intros [= _ E]. by destruct l1. Qed.

Lemma nil_split {A} (l1 l2 : list A) x : l1 ++ x :: l2 = [] -> False.
Proof. by destruct l1. Qed.

Lemma begin_ok r ex jo rc fi re args r' s : commands_ok (mkCommands r ex jo rc fi re) ->
  registerDonateChunk args r = (r', OK s) ->
  commands_ok (if sd_forUnregister s then mkCommands r' ((s, args, None) :: ex) jo rc fi re
               else mkCommands r' ex ((s, args) :: jo) rc fi re).
Proof.
  intros [Hr Hf Hj Hre] E. cbn in *. unfold registerDonateChunk in E.
  destruct (_activeReceiveChunkState r) as [x|] eqn:Erc; [done|]. destruct (_activeMoveChunkState r) as [m|] eqn:Em.
  - destruct (request_eqb (mv_args m) args) eqn:Eq; [|done]. injection E as <- <-. cbn. split; cbn.
    + by rewrite Em, Erc.
    + exact Hf.
    + intros s a [[= -> ->]|Hin]%elem_of_cons; [|by apply Hj]. split; [done|]. exists (mv_args m). split; [done|].
      destruct Hr as (_ & o & -> & _ & Ho). destruct o as [status|]; [right; by exists status|left].
      eexists. split; [left|done].
    + exact Hre.
  - injection E as <- <-. destruct Hr as [-> ->]. cbn. split; cbn.
    + split; [done|]. exists None. split_and!; [done| |done]. by rewrite lookup_app_r, Nat.sub_diag by lia.
    + intros n a st Hin. apply lookup_app_l_Some. by eapply Hf.
    + intros s a Hin. destruct (Hj s a Hin) as (Hs & a' & Ha & [(s' & []%not_elem_of_nil & _)|Hfi]). split; [done|].
      exists a'. split; [done|by right].
    + exact Hre.
Qed.

Lemma complete_ok r ex1 s args ex2 jo rc fi re status r' :
  commands_ok (mkCommands r (ex1 ++ (s, args, None) :: ex2) jo rc fi re) -> complete s status r = Ret r' ->
  commands_ok (mkCommands r' (ex1 ++ (s, args, Some status) :: ex2) jo rc ((sd_completionNotification s, args, status) :: fi) re).
Proof.
  intros [Hr Hf Hj Hre] E. cbn in *.
  destruct (_activeMoveChunkState r) as [m|] eqn:Em, (_activeReceiveChunkState r) as [x|] eqn:Erc; try done;
    [|by destruct Hr as [[]%nil_split _]..].
  destruct Hr as (Hrc & o & (-> & -> & [= -> -> <-])%singleton_split & Hn & _). cbn in E |- *. rewrite Hn in E. injection E as <-.
  pose proof (lookup_lt_Some _ _ _ Hn) as Hlt. split; cbn.
  - rewrite Em, Erc. split; [done|]. exists (Some status). split_and!; [done|by apply list_lookup_insert_eq|left].
  - intros n a st [[= -> -> ->]|Hin]%elem_of_cons; [by apply list_lookup_insert_eq|].
    rewrite list_lookup_insert_ne; [by eapply Hf|]. intros <-. specialize (Hf _ _ _ Hin). congruence.
  - intros s a Hin. destruct (Hj s a Hin) as (Hs & a' & Ha & Hor). split; [done|]. exists a'. split; [done|right].
    destruct Hor as [(s' & [= -> ->]%list_elem_of_singleton & <-)|[st Hst]]; [exists status; left|exists st; by right].
  - intros n a st Hin. destruct (Hre n a st Hin) as (a' & Ha & Hfi). exists a'. split; [done|by right].
Qed.

Lemma end_ok r ex1 s args status ex2 jo rc fi re r' :
  commands_ok (mkCommands r (ex1 ++ (s, args, Some status) :: ex2) jo rc fi re) -> destroyScoped s r = Ret r' ->
  commands_ok (mkCommands r' (ex1 ++ ex2) jo rc fi re).
Proof.
  intros [Hr Hf Hj Hre] E. cbn in *.
  destruct (_activeMoveChunkState r) as [m|] eqn:Em, (_activeReceiveChunkState r) as [x|] eqn:Erc; try done;
    [|by destruct Hr as [[]%nil_split _]..].
  destruct Hr as (Hrc & o & (-> & -> & [= -> -> <-])%singleton_split & Hn & _). unfold destroyScoped, _clearDonateChunk in E.
  cbn in E. rewrite Hn, Em in E. injection E as <-. split; cbn; [by rewrite Erc|exact Hf| |exact Hre].
  intros s a Hin. destruct (Hj s a Hin) as (Hs & a' & Ha & Hor). split; [done|]. exists a'. split; [done|right].
  by destruct Hor as [(s' & [=]%list_elem_of_singleton & _)|?].
Qed.

Lemma command_step_ok w w' : commands_ok w -> command_step w w' -> commands_ok w'.
Proof.
  intros Hw Hs. destruct Hs as [r ex jo rc fi re args r' s E|r ex1 s args ex2 jo rc fi re status r' E
    |r ex1 s args status ex2 jo rc fi re r' E|r ex jo1 s args jo2 rc fi re status E
    |r ex jo rc fi re nss range from r' E|r ex jo rc1 x rc2 fi re r' E].
  - by eapply begin_ok.
  - by eapply complete_ok.
  - by eapply end_ok.
  - destruct Hw as [Hr Hf Hj Hre]. cbn in *.
    assert (Hin : (s, args) ∈ jo1 ++ (s, args) :: jo2) by (apply elem_of_app; right; left).
    destruct (Hj s args Hin) as (Hfu & a' & Ha & Hor). unfold waitForCompletion in E. rewrite Hfu in E. cbn in E.
    destruct (rg_notifications r !! sd_completionNotification s) as [v|] eqn:En; [|done]. injection E as ->.
    split; cbn; [exact Hr|exact Hf| |].
    + intros s0 a0 [H0|H0]%elem_of_app; apply (Hj s0 a0), elem_of_app; [by left|right; by right].
    + intros n a st [[= -> -> ->]|H0]%elem_of_cons; [|by apply Hre]. exists a'. split; [done|].
      destruct Hor as [(s' & Hs' & Hn')|[st' Hst']].
      * exfalso. destruct (_activeMoveChunkState r) as [m|], (_activeReceiveChunkState r) as [y|]; try done;
          [|by destruct Hr as [-> _]; apply not_elem_of_nil in Hs'..].
        destruct Hr as (_ & o & -> & Hn & _). apply list_elem_of_singleton in Hs' as [= -> -> <-]. cbn in Hn'. congruence.
      * specialize (Hf _ _ _ Hst'). rewrite En in Hf. injection Hf as ->. exact Hst'.
  - destruct Hw as [Hr Hf Hj Hre]. cbn in *. unfold registerReceiveChunk in E.
    destruct (_activeReceiveChunkState r); [done|]. destruct (_activeMoveChunkState r); [done|]. injection E as <-.
    destruct Hr as [-> ->]. split; cbn; [done|exact Hf|exact Hj|exact Hre].
  - destruct Hw as [Hr Hf Hj Hre]. cbn in *. unfold _clearReceiveChunk in E.
    destruct (_activeMoveChunkState r) as [m|] eqn:Em, (_activeReceiveChunkState r) as [y|] eqn:Ey; try done. injection E as <-.
    destruct Hr as [-> (-> & -> & _)%singleton_split]. split; cbn; [done|exact Hf|exact Hj|exact Hre].
Qed.

Lemma commands_reachable_ok w : commands_reachable w -> commands_ok w.
Proof.
  assert (H0 : commands_ok commands_start).
  { split; cbn; [done|by intros ? ? ? ?%not_elem_of_nil|by intros ? ? ?%not_elem_of_nil|by intros ? ? ? ?%not_elem_of_nil]. }
  unfold commands_reachable. revert H0. generalize commands_start. intros w0 H0 Hs.
  induction Hs as [|w0 w1 w2 Hs _ IH]; [done|]. apply IH. by eapply command_step_ok.
Qed.

(** * Properties *)

(** C12: a shard runs one migration at a time, as donor or as recipient; the
    invariants of the registry hold whenever a command signals its status or
    ends; and a command that joined a migration returns the status of a
    migration with an equal request. *)
Theorem migrations_exclusive w :
  commands_reachable w ->
  (List.length (cm_executing w) + List.length (cm_receiving w) <= 1)%nat /\
  (forall s args status, (s, args, None) ∈ cm_executing w -> exists r', complete s status (cm_registry w) = Ret r') /\
  (forall s args status, (s, args, Some status) ∈ cm_executing w -> exists r', destroyScoped s (cm_registry w) = Ret r') /\
  (forall x, x ∈ cm_receiving w -> exists r', _clearReceiveChunk (cm_registry w) = Ret r') /\
  (forall s args, (s, args) ∈ cm_joined w -> exists v, waitForCompletion s (cm_registry w) = Ret v) /\
  forall n args status, (n, args, status) ∈ cm_returned w ->
    exists args', request_eqb args' args = true /\ (n, args', status) ∈ cm_finished w.
Proof.
  intros [Hr Hf Hj Hre]%commands_reachable_ok. destruct w as [r ex jo rc fi re]. cbn in *.
  assert (Hex : forall s args o, (s, args, o) ∈ ex -> exists m, _activeMoveChunkState r = Some m /\ sd_forUnregister s = true /\
    rg_notifications r !! sd_completionNotification s = Some o).
  { intros s args o Hin. destruct (_activeMoveChunkState r) as [m|], (_activeReceiveChunkState r); try done;
      [|by destruct Hr as [-> _]; apply not_elem_of_nil in Hin..].
    destruct Hr as (_ & o' & -> & Hn & _). apply list_elem_of_singleton in Hin as [= -> -> ->]. by exists m. }
  split_and!.
  - destruct (_activeMoveChunkState r), (_activeReceiveChunkState r); [done|destruct Hr as (-> & o & -> & _)|destruct Hr as [-> ->]..]; cbn; lia.
  - intros s args status (m & _ & Hs & Hn)%Hex. unfold complete. rewrite Hs, Hn. by eexists.
  - intros s args status (m & Hm & Hs & Hn)%Hex. unfold destroyScoped, _clearDonateChunk. rewrite Hs, Hn, Hm. by eexists.
  - intros x Hx. unfold _clearReceiveChunk. destruct (_activeReceiveChunkState r); [by eexists|].
    destruct (_activeMoveChunkState r); [destruct Hr as [-> _]|destruct Hr as [_ ->]]; by apply not_elem_of_nil in Hx.
  - intros s args Hin. destruct (Hj s args Hin) as (Hs & a' & _ & Hor). unfold waitForCompletion. rewrite Hs. cbn.
    destruct Hor as [(s' & (m & _ & _ & Hn)%Hex & <-)|[st Hst]]; [rewrite Hn; by eexists|]. rewrite (Hf _ _ _ Hst). by eexists.
  - exact Hre.
Qed.

(** A request for a collection with another epoch joins the running migration:
    [operator==] does not compare the epochs. *)
Lemma join_ignores_epoch a e : request_eqb a (mkMove (mc_nss a) (mc_fromShardId a) (mc_toShardId a) (mc_range a) e (mc_waitForDelete a)) = true.
Proof.
  unfold request_eqb, Range.equals. cbn. rewrite !String.eqb_refl, !wo_eq, Bool.eqb_reflx.
  assert (H : forall k : BSONObj, keqb k k = true) by (intros k; apply keqb_spec; korder). by rewrite !H.
Qed.

(** * Example: a second command joins the first *)

Definition rg_request : MoveChunkRequest := mkMove "t.c" "s0" "s1" (mkRange [("x", VMinKey)] [("x", VMaxKey)]) OID_zero false.
Definition rg_first : ScopedRegisterDonateChunk := mkScoped true 0.
Definition rg_second : ScopedRegisterDonateChunk := mkScoped false 0.
Definition rg_running : ActiveMigrationsRegistry := mkRegistry (Some (mkMoveState rg_request 0)) None [None].
Definition rg_signalled : ActiveMigrationsRegistry := mkRegistry (Some (mkMoveState rg_request 0)) None [Some (OK ())].
Definition rg_returned : Commands :=
  mkCommands rg_signalled [(rg_first, rg_request, Some (OK ()))] [] [] [(0%nat, rg_request, OK ())] [(0%nat, rg_request, OK ())].

Lemma rg_reachable : commands_reachable rg_returned.
Proof.
  unfold commands_reachable, commands_start. eapply rtc_l.
  { apply (cmd_begin _ _ _ _ _ _ rg_request rg_running rg_first). vm_compute. reflexivity. }
  cbn [sd_forUnregister rg_first]. eapply rtc_l.
  { apply (cmd_begin _ _ _ _ _ _ rg_request rg_running rg_second). vm_compute. reflexivity. }
  cbn [sd_forUnregister rg_second]. eapply rtc_l.
  { apply (cmd_complete _ [] rg_first rg_request [] _ _ _ _ (OK ()) rg_signalled). vm_compute. reflexivity. }
  apply rtc_once. apply (cmd_join _ _ [] rg_second rg_request [] _ _ _ (OK ())). vm_compute. reflexivity.
Qed.

Lemma migrations_exclusive_witness :
  exists args', request_eqb args' rg_request = true /\ (0%nat, args', OK ()) ∈ cm_finished rg_returned.
Proof.
  destruct (migrations_exclusive rg_returned rg_reachable) as (_ & _ & _ & _ & _ & H). apply H. left.
Defined.
