(* ===== verification/VersionProtocol.v ===== *)
(** The version protocol on the chunk catalog: the documents that describe a
    shard's chunks, the major version of the shard, and what the commits of the
    config server do to both. Two states of the catalog in which a shard has the
    same major version give it the same keys. *)

From stdpp Require Import base list sorting strings.
From Stdlib Require Import ZArith Lia String.
From S2P Require Import Prelude OrdMap Tiling Bson Text ChunkVersion ChunkType ShardKey Chunk ChunkManager ConfigChunks ConfigCatalog ConfigRefresh RangeMap CollectionMetadata.
Local Open Scope Z_scope.
Local Open Scope list_scope.
Local Open Scope outcome_scope.

Definition major (d : ChunkDoc) : Z := majorVersion (d_lastmod d).

Section protocol.
Context (snprintf_g16 : Dbl -> string) (ns : string) (epoch : OID) (lo hi : BSONObj).
Abbreviation catalog := (catalog snprintf_g16 ns epoch lo hi).
Abbreviation replaces := (replaces snprintf_g16 ns epoch).

(** The documents of a shard, and its keys. *)
Definition doc_on (s : ShardId) (l : list ChunkDoc) (d : ChunkDoc) : Prop := docs_of ns l d /\ d_shard d = s.
Definition has_key (s : ShardId) (l : list ChunkDoc) (k : BSONObj) : Prop := exists d, doc_on s l d /\ covers d k.

(** Chunks have a major version from the first one on. *)
Definition majors_set (l : list ChunkDoc) : Prop := forall d, docs_of ns l d -> 0 < major d.

(** [v] is the major version of the shard; 0 if it has no chunks. *)
Definition shard_major (s : ShardId) (l : list ChunkDoc) (v : Z) : Prop :=
  ((forall d, ~ doc_on s l d) /\ v = 0) \/
  (exists d, doc_on s l d /\ major d = v) /\ forall d, doc_on s l d -> major d <= v.

(** * Steps of the protocol *)

(** The shard keeps its keys, and its version does not go down. *)
Definition keeps_chunks (s : ShardId) (l l' : list ChunkDoc) : Prop :=
  (forall k, has_key s l k <-> has_key s l' k) /\
  (forall d, doc_on s l d -> exists d', doc_on s l' d' /\ major d <= major d') /\
  (forall d', doc_on s l' d' -> exists d, doc_on s l d).

Definition advances (s : ShardId) (l l' : list ChunkDoc) : Prop :=
  (forall d, docs_of ns l d -> exists d', docs_of ns l' d' /\ major d <= major d') /\
  (keeps_chunks s l l' \/
   (forall d, ~ doc_on s l' d) \/
   exists d', doc_on s l' d' /\ forall d, docs_of ns l d -> major d < major d').

Lemma keeps_refl s l : keeps_chunks s l l.
Proof. split_and!; [done|intros d Hd; exists d; split; [done|lia]|by eauto]. Qed.

Lemma advances_refl s l : advances s l l.
Proof. split; [intros d Hd; exists d; split; [done|lia]|left; apply keeps_refl]. Qed.

Lemma advances_trans s l1 l2 l3 : advances s l1 l2 -> advances s l2 l3 -> advances s l1 l3.
Proof.
  intros [G1 H1] [G2 H2]. split.
  { intros d Hd. destruct (G1 d Hd) as (d2 & Hd2 & ?). destruct (G2 d2 Hd2) as (d3 & Hd3 & ?). exists d3. split; [done|lia]. }
  destruct H2 as [(Hk2 & Hm2 & He2)|[Hn|(d3 & Hd3 & Hlt)]]; [|by right; left|].
  - destruct H1 as [(Hk1 & Hm1 & He1)|[Hn|(d2 & Hd2 & Hlt)]].
    + left. split_and!.
      * intros k. by rewrite Hk1, Hk2.
      * intros d Hd. destruct (Hm1 d Hd) as (d2 & Hd2 & ?). destruct (Hm2 d2 Hd2) as (d3 & Hd3 & ?). exists d3. split; [done|lia].
      * intros d Hd. destruct (He2 d Hd) as (d2 & Hd2). eauto.
    + right; left. intros d Hd. destruct (He2 d Hd) as (d2 & Hd2). by eapply Hn.
    + right; right. destruct (Hm2 d2 Hd2) as (d3 & Hd3 & ?). exists d3. split; [done|]. intros d Hd. specialize (Hlt d Hd). lia.
  - right; right. exists d3. split; [done|]. intros d Hd. destruct (G1 d Hd) as (d2 & Hd2 & ?). specialize (Hlt d2 Hd2). lia.
Qed.

(** Equal versions, equal chunks. *)
Lemma equal_major_holds s l l' v : majors_set l -> majors_set l' -> advances s l l' ->
  shard_major s l v -> shard_major s l' v -> forall k, has_key s l k <-> has_key s l' k.
Proof.
  intros Hp Hp' [_ H] Hv Hv'. destruct H as [[Hk _]|[Hn|(d' & Hd' & Hlt)]]; [done|..].
  - assert (v = 0) as ->.
    { destruct Hv' as [[_ ->]|[(d & Hd & _) _]]; [done|]. by destruct (Hn d). }
    assert (Hn0 : forall d, ~ doc_on s l d).
    { destruct Hv as [[? _]|[(d & [Hd _] & Hm) _]]; [done|]. specialize (Hp d Hd). lia. }
    intros k. split; intros (d & Hd & _); [by destruct (Hn0 d)|by destruct (Hn d)].
  - exfalso. pose proof (Hp' d' (proj1 Hd')) as Hpos. destruct Hv' as [[Hn _]|[_ Hmax]]; [by apply (Hn d')|].
    specialize (Hmax d' Hd'). destruct Hv as [[_ ->]|[(d & [Hd _] & <-) _]]; [lia|]. specialize (Hlt d Hd). lia.
Qed.

(** * Replaced documents *)

Lemma replaces_new_exists old new l l' d : catalog l -> replaces old new l l' -> d ∈ old ->
  exists d', d' ∈ new /\ covers d' (d_min d) /\ docs_of ns l' d' /\ toLong (d_lastmod d) < toLong (d_lastmod d').
Proof.
  intros Hcat Hr Hd. pose proof (rp_old _ _ _ _ _ _ _ Hr d Hd) as Hdoc.
  destruct (proj2 (rp_cover _ _ _ _ _ _ _ Hr (d_min d))) as (d' & Hd' & Hc).
  { exists d. split; [done|]. split; [korder|by apply (ct_range _ _ _ _ _ _ Hcat d Hdoc)]. }
  exists d'. split_and!; [done|done|apply (replaces_docs _ _ _ _ _ _ _ _ Hr); by left|by apply (rp_newer _ _ _ _ _ _ _ Hr)].
Qed.

Lemma replaces_majors_set old new l l' : catalog l -> old <> [] -> replaces old new l l' -> majors_set l -> majors_set l'.
Proof.
  intros Hcat Hne Hr Hp d Hd. apply (replaces_docs _ _ _ _ _ _ _ _ Hr) in Hd as [Hd|[Hd _]]; [|by apply Hp].
  destruct old as [|o old]; [done|]. pose proof (rp_old _ _ _ _ _ _ _ Hr o ltac:(left)) as Ho.
  pose proof (rp_newer _ _ _ _ _ _ _ Hr d o Hd Ho) as Hlt. specialize (Hp o Ho). unfold major in *.
  pose proof (version_major_mono (d_lastmod o) (d_lastmod d) ltac:(lia)). lia.
Qed.

Lemma replaced_or_not old new l l' d : catalog l -> replaces old new l l' -> docs_of ns l d -> d ∈ old \/ d ∉ old.
Proof.
  intros Hcat Hr [Hd _]. destruct (decide (d_id d ∈ d_id <$> old)) as [(o & E & Ho)%list_elem_of_fmap|Hn].
  - left. assert (d = o) as ->; [|done]. apply (NoDup_fmap_eq d_id l); [apply Hcat|done|by apply (rp_old _ _ _ _ _ _ _ Hr)|done].
  - right. intros Hin. apply Hn. by apply list_elem_of_fmap_2.
Qed.

Lemma replaces_global old new l l' d : catalog l -> replaces old new l l' -> docs_of ns l d ->
  exists d', docs_of ns l' d' /\ major d <= major d'.
Proof.
  intros Hcat Hr Hd. destruct (replaced_or_not _ _ _ _ _ Hcat Hr Hd) as [Ho|Hn].
  - destruct (replaces_new_exists _ _ _ _ _ Hcat Hr Ho) as (d' & _ & _ & Hd' & Hlt). exists d'. split; [done|].
    apply version_major_mono. lia.
  - exists d. split; [|lia]. apply (replaces_docs _ _ _ _ _ _ _ _ Hr). by right.
Qed.

(** A split or a merge within one shard. *)
Lemma replaces_within s t old new l l' : catalog l -> replaces old new l l' ->
  (forall d, d ∈ old -> d_shard d = t) -> (forall d, d ∈ new -> d_shard d = t) -> keeps_chunks s l l'.
Proof.
  intros Hcat Hr Ho Hn. pose proof (fun d => replaces_docs _ _ _ _ _ _ _ d Hr) as Hdocs.
  assert (Hnew : forall d, d ∈ new -> docs_of ns l' d) by (intros d Hd; apply Hdocs; by left).
  split_and!.
  - intros k. split; intros (d & [Hd Hs] & Hc).
    + destruct (replaced_or_not _ _ _ _ _ Hcat Hr Hd) as [Hin|Hin]; [|exists d; split; [split; [apply Hdocs; by right|done]|done]].
      destruct (proj2 (rp_cover _ _ _ _ _ _ _ Hr k)) as (d' & Hd' & Hc'); [eauto|]. exists d'.
      split; [|done]. split; [by apply Hnew|]. rewrite <- Hs, (Ho d Hin). by apply Hn.
    + apply Hdocs in Hd as [Hd|[Hd _]]; [|by exists d].
      destruct (proj1 (rp_cover _ _ _ _ _ _ _ Hr k)) as (d' & Hd' & Hc'); [eauto|]. exists d'.
      split; [|done]. split; [by apply (rp_old _ _ _ _ _ _ _ Hr)|]. rewrite <- Hs, (Hn d Hd). by apply Ho.
  - intros d [Hd Hs]. destruct (replaced_or_not _ _ _ _ _ Hcat Hr Hd) as [Hin|Hin].
    + destruct (replaces_new_exists _ _ _ _ _ Hcat Hr Hin) as (d' & Hd' & _ & Hdd & Hlt). exists d'. split.
      * split; [done|]. rewrite <- Hs, (Ho d Hin). by apply Hn.
      * apply version_major_mono. lia.
    + exists d. split; [|lia]. split; [|done]. apply Hdocs. by right.
  - intros d [Hd Hs]. apply Hdocs in Hd as [Hd|[Hd _]]; [|by exists d].
    destruct (proj1 (rp_cover _ _ _ _ _ _ _ Hr (d_min d))) as (d' & Hd' & Hc').
    { exists d. split; [done|]. split; [korder|by apply (rp_range _ _ _ _ _ _ _ Hr)]. }
    exists d'. split; [by apply (rp_old _ _ _ _ _ _ _ Hr)|]. rewrite <- Hs, (Hn d Hd). by apply Ho.
Qed.

(** A shard none of whose documents is replaced keeps its keys; if it gets a
    document, that has a new major version. *)
Lemma replaces_elsewhere s old new l l' : catalog l -> replaces old new l l' ->
  (forall d, d ∈ old -> d_shard d <> s) ->
  (forall d, d ∈ new -> d_shard d = s -> forall d0, docs_of ns l d0 -> major d0 < major d) ->
  advances s l l' /\ forall k, has_key s l k -> has_key s l' k.
Proof.
  intros Hcat Hr Ho Hn. pose proof (fun d => replaces_docs _ _ _ _ _ _ _ d Hr) as Hdocs.
  assert (Hkeep : forall d, doc_on s l d -> doc_on s l' d).
  { intros d [Hd Hs]. split; [|done]. apply Hdocs. right. split; [done|]. intros Hin. by apply (Ho d). }
  split; [|intros k (d & Hd & Hc); exists d; auto]. split; [intros d Hd; by eapply replaces_global|].
  destruct (decide (Exists (fun d => d_shard d = s) new)) as [(d & Hd & Hs)%Exists_exists|Hne].
  - right; right. exists d. split; [split; [apply Hdocs; by left|done]|]. intros d0. by apply Hn.
  - left. assert (Hback : forall d, doc_on s l' d -> doc_on s l d).
    { intros d [Hd Hs]. apply Hdocs in Hd as [Hd|[Hd _]]; [|done]. destruct Hne. apply Exists_exists. by exists d. }
    split_and!; [|intros d Hd; exists d; split; [auto|lia]|eauto].
    intros k. split; intros (d & Hd & Hc); exists d; auto.
Qed.

(** * Commits *)

(** The requests of others than the donor of a migration: splits and merges, also
    of this shard's chunks, and the migrations of which the shard is not the donor. *)
Definition others_request (s : ShardId) (q : Commit) : Prop :=
  match q with CommitMigration _ _ _ fromShard _ => fromShard <> s | _ => True end.

(** Some chunk is newer than all chunks before. *)
Definition newer_doc (l l' : list ChunkDoc) : Prop :=
  exists d', docs_of ns l' d' /\ forall d, docs_of ns l d -> toLong (d_lastmod d) < toLong (d_lastmod d').

Lemma migration_replaces_docs migrated control f t l l' : migration_spec snprintf_g16 ns epoch migrated control f t l l' ->
  exists old new m', old <> [] /\ replaces old new l l' /\ (forall d, d ∈ old -> d_shard d = f) /\ m' ∈ new /\
    d_shard m' = t /\ (forall d, d ∈ new -> d = m' \/ d_shard d = f) /\ forall d, d ∈ new -> new_major ns l (d_lastmod d).
Proof.
  intros (m & m' & Hm & Hm' & _ & _ & _ & _ & Hnew & H). destruct control as [[[x y] j]|].
  - destruct H as (k & k' & Hk & Hk' & _ & _ & _ & _ & Hnk & Hr). exists [m; k], [m'; k'], m'. split_and!; try done.
    + intros d [->|[->|[]%not_elem_of_nil]%elem_of_cons]%elem_of_cons; done.
    + left.
    + intros d [->|[->|[]%not_elem_of_nil]%elem_of_cons]%elem_of_cons; [by left|by right].
    + intros d [->|[->|[]%not_elem_of_nil]%elem_of_cons]%elem_of_cons; done.
  - exists [m], [m'], m'. split_and!; try done.
    + by intros d ->%list_elem_of_singleton.
    + left.
    + intros d ->%list_elem_of_singleton. by left.
    + by intros d ->%list_elem_of_singleton.
Qed.

(** What a commit can do to a catalog state, seen from the shard. *)
Record commit_ok (s : ShardId) (l l' : list ChunkDoc) : Prop := {
  co_catalog : catalog l';
  co_later : later ns l l';
  co_majors : majors_set l -> majors_set l';
  co_advances : advances s l l'
}.

Lemma commit_ok_refl s l : catalog l -> commit_ok s l l.
Proof. intros H. split; [done|apply later_refl|done|apply advances_refl]. Qed.

Lemma replaces_ok s old new l l' : catalog l -> old <> [] -> replaces old new l l' -> advances s l l' -> commit_ok s l l'.
Proof.
  intros Hcat Hne Hr Ha. split; [by eapply catalog_replaces|by eapply replaces_later|by eapply replaces_majors_set|done].
Qed.

Lemma within_ok s t old new l l' : catalog l -> old <> [] -> replaces old new l l' ->
  (forall d, d ∈ old -> d_shard d = t) -> (forall d, d ∈ new -> d_shard d = t) ->
  commit_ok s l l' /\ forall k, has_key s l k -> has_key s l' k.
Proof.
  intros Hcat Hne Hr Ho Hn. pose proof (replaces_within s t _ _ _ _ Hcat Hr Ho Hn) as Hk. split; [|intros k; apply Hk].
  eapply replaces_ok; try done. split; [intros d Hd; by eapply replaces_global|by left].
Qed.

Lemma other_commit_ok s q c : catalog (cfg_chunks c) -> request_ok snprintf_g16 ns (cfg_chunks c) q -> others_request s q ->
  let l' := cfg_chunks (run_commit snprintf_g16 ns q c) in
  commit_ok s (cfg_chunks c) l' /\ forall k, has_key s (cfg_chunks c) k -> has_key s l' k.
Proof.
  intros Hcat Hq Ho l'. destruct (run_commit_spec _ _ _ _ _ q c Hcat Hq) as [E|H].
  { unfold l'. rewrite E. by split; [apply commit_ok_refl|]. }
  destruct q as [ep range pts shard|ep bs shard|mc kc ep f t]; cbn [commit_spec others_request] in *.
  - destruct H as (old & new & Hr & Hs & _ & _ & _ & Hn).
    rewrite Forall_forall in Hn. eapply (within_ok s shard [old]); try done. by intros d ->%list_elem_of_singleton.
  - destruct H as (b & bs' & _ & olds & m & Hr & Hos & _ & _ & Hm).
    rewrite Forall_forall in Hos. eapply (within_ok s shard olds); try done.
    + intros ->. destruct (proj1 (rp_cover _ _ _ _ _ _ _ Hr (d_min m))) as (? & []%not_elem_of_nil & _).
      exists m. split; [left|]. split; [korder|apply (rp_range _ _ _ _ _ _ _ Hr); left].
    + by intros d ->%list_elem_of_singleton.
  - destruct H as (bounds & control & _ & _ & Hm).
    destruct (migration_replaces_docs _ _ _ _ _ _ Hm) as (old & new & m' & Hne' & Hr & Hos & _ & _ & _ & Hnew).
    destruct (replaces_elsewhere s old new _ _ Hcat Hr) as [Ha Hk].
    + intros d Hd Hs. apply Ho. by rewrite <- (Hos d Hd).
    + intros d Hd _ d0 Hd0. by apply Hnew.
    + split; [|done]. by eapply replaces_ok.
Qed.

(** The shard's own migration: with a control chunk, which stays, the shard has a
    new major version; without one it must have no other chunk. *)
Lemma own_migration_ok s t mn mx control l l' : catalog l ->
  migration_spec snprintf_g16 ns epoch (mn, mx) control s t l l' ->
  (control = None -> forall d, doc_on s l d -> d_min d ≅k mn) ->
  commit_ok s l l' /\ newer_doc l l'.
Proof.
  intros Hcat Hm Hsole. pose proof Hm as Hm0.
  destruct (migration_replaces_docs _ _ _ _ _ _ Hm0) as (old & new & m' & Hne & Hr & Ho & Hin & Ht & Hn & Hnew).
  split; [|exists m'; split; [apply (replaces_docs _ _ _ _ _ _ _ _ Hr); by left|intros d Hd; by apply (rp_newer _ _ _ _ _ _ _ Hr)]].
  eapply replaces_ok; try done. split; [intros d Hd; by eapply replaces_global|].
  assert (Hhigh : forall d, d ∈ new -> d_shard d = s ->
    exists d', doc_on s l' d' /\ forall d0, docs_of ns l d0 -> major d0 < major d').
  { intros d Hd Hs. exists d. split; [split; [apply (replaces_docs _ _ _ _ _ _ _ _ Hr); by left|done]|].
    intros d0. by apply Hnew. }
  destruct Hm as (m & m1 & Hms & Hmt & Hmn & _ & _ & _ & Hnm & H). destruct control as [[[x y] j]|].
  - destruct H as (k & k' & _ & Hk' & _ & _ & _ & _ & Hnk & Hr'). right; right. exists k'. split; [|done].
    split; [|done]. apply (replaces_docs _ _ _ _ _ _ _ _ Hr'). left. right; left.
  - destruct (decide (t = s)) as [->|Hts].
    + right; right. exists m1. split; [|done]. split; [|done]. apply (replaces_docs _ _ _ _ _ _ _ _ H). left; left.
    + right; left. intros d [Hd Hs]. apply (replaces_docs _ _ _ _ _ _ _ _ H) in Hd as [->%list_elem_of_singleton|[Hd Hnot]];
        [congruence|]. apply Hnot, list_elem_of_singleton. specialize (Hsole eq_refl d (conj Hd Hs)). cbn in Hmn.
      assert (Hmd : docs_of ns l m) by (apply (rp_old _ _ _ _ _ _ _ H); left).
      apply (ct_unique _ _ _ _ _ _ Hcat d m (d_min d) Hd Hmd).
      * split; [korder|by apply (ct_range _ _ _ _ _ _ Hcat d Hd)].
      * rewrite <- Hmn in Hsole. destruct (ct_range _ _ _ _ _ _ Hcat m Hmd) as (_ & Hlt & _). split; korder.
Qed.

(** * Tables and metadata *)

Section caches.
Context (cm : ChunkManager) (l : list ChunkDoc) (Hcat : catalog l) (Hcc : caches ns lo hi cm l).

Lemma caches_holds s k : owns cm s k <-> has_key s l k.
Proof.
  split.
  - intros (mx & c & Hin & Hs & Hr). destruct (cc_entry _ _ _ _ _ Hcc mx c Hin) as (d & Hd & Hmn & Hmx & Hsh & _).
    exists d. split; [split; [done|congruence]|]. unfold in_range, covers in *.
    change (_minKey (c_range c)) with (getMin c) in Hr. change (_maxKey (c_range c)) with (getMax c) in Hr.
    by rewrite <- Hmn, <- Hmx.
  - intros (d & [Hd Hs] & Hc). destruct (cc_doc _ _ _ _ _ Hcc d Hd) as (c & Hin & Hmn & Hmx & Hsh & _).
    exists (d_max d), c. split_and!; [done|congruence|]. unfold in_range, covers in *.
    change (_minKey (c_range c)) with (getMin c). change (_maxKey (c_range c)) with (getMax c).
    by rewrite Hmn, Hmx.
Qed.

Lemma caches_major s : shard_major s l (majorVersion (getVersion cm s)).
Proof.
  destruct (getVersion_max cm s (cc_reach _ _ _ _ _ Hcc)) as (H1 & H2 & _).
  destruct (decide (Exists (fun d => d_ns d = ns /\ d_shard d = s) l)) as [(d & Hd & Hn & Hs)%Exists_exists|Hne].
  - right. destruct (cc_doc _ _ _ _ _ Hcc d (conj Hd Hn)) as (c & Hin & Hdc).
    destruct H1 as [(k1 & c1 & Hin1 & Hs1 & Hv1) Hmax].
    { exists (d_max d), c. split; [done|]. destruct Hdc as (_ & _ & -> & _). done. }
    split.
    + destruct (cc_entry _ _ _ _ _ Hcc k1 c1 Hin1) as (d1 & Hd1 & _ & _ & Hsh & Hlm). exists d1.
      split; [split; [done|congruence]|]. unfold major. congruence.
    + intros d' [Hd' Hs']. destruct (cc_doc _ _ _ _ _ Hcc d' Hd') as (c' & Hin' & _ & _ & Hsh & Hlm).
      apply version_major_mono. rewrite <- Hlm. eapply Hmax; [done|congruence].
  - left. assert (Hno : forall d, ~ doc_on s l d).
    { intros d [[Hd Hn] Hs]. apply Hne, Exists_exists. by exists d. }
    split; [done|]. rewrite H2; [vm_compute; reflexivity|].
    intros k c Hin Hs. destruct (cc_entry _ _ _ _ _ Hcc k c Hin) as (d & Hd & _ & _ & Hsh & _). apply (Hno d). split; [done|congruence].
Qed.
End caches.

Lemma caches_version_le cm cm' l l' : catalog l -> catalog l' -> caches ns lo hi cm l -> caches ns lo hi cm' l' -> later ns l l' ->
  toLong (cm_collectionVersion cm) <= toLong (cm_collectionVersion cm').
Proof.
  intros Hcat Hcat' Hcc Hcc' [_ Hl]. destruct (caches_version _ _ _ _ _ _ _ Hcat Hcc) as (_ & (d & Hd & <-) & _).
  destruct (Hl d Hd) as (d' & Hd' & Hle). destruct (caches_version _ _ _ _ _ _ _ Hcat' Hcc') as (_ & _ & Hmax).
  specialize (Hmax d' Hd'). lia.
Qed.

Lemma caches_version_lt cm cm' l l' : catalog l -> catalog l' -> caches ns lo hi cm l -> caches ns lo hi cm' l' -> newer_doc l l' ->
  toLong (cm_collectionVersion cm) < toLong (cm_collectionVersion cm').
Proof.
  intros Hcat Hcat' Hcc Hcc' (d' & Hd' & Hlt). destruct (caches_version _ _ _ _ _ _ _ Hcat Hcc) as (_ & (d & Hd & <-) & _).
  destruct (caches_version _ _ _ _ _ _ _ Hcat' Hcc') as (_ & _ & Hmax). specialize (Hmax d' Hd'). specialize (Hlt d Hd). lia.
Qed.

Lemma newer_later l1 l2 l3 l4 : later ns l1 l2 -> newer_doc l2 l3 -> later ns l3 l4 -> newer_doc l1 l4.
Proof.
  intros [_ H12] (d3 & Hd3 & Hlt) [_ H34]. destruct (H34 d3 Hd3) as (d4 & Hd4 & Hle). exists d4. split; [done|].
  intros d Hd. destruct (H12 d Hd) as (d2 & Hd2 & ?). specialize (Hlt d2 Hd2). lia.
Qed.

(** * Histories *)

(** The states of the catalog, the oldest first. *)
Record history (s : ShardId) (h : list (list ChunkDoc)) : Prop := {
  hs_state i l : h !! i = Some l -> catalog l /\ majors_set l;
  hs_step i l l' : h !! i = Some l -> h !! S i = Some l' -> commit_ok s l l'
}.

(** From the state [b] on, the shard loses no key. *)
Definition grows_from (s : ShardId) (h : list (list ChunkDoc)) (b : nat) : Prop :=
  forall i j li lj, (b <= i <= j)%nat -> h !! i = Some li -> h !! j = Some lj -> forall k, has_key s li k -> has_key s lj k.

Lemma history_between s h i j li lj : history s h -> (i <= j)%nat -> h !! i = Some li -> h !! j = Some lj ->
  later ns li lj /\ advances s li lj.
Proof.
  intros Hh Hle Hi. revert lj. induction Hle as [|j Hle IH]; intros lj Hj.
  - assert (lj = li) as -> by congruence. split; [apply later_refl|apply advances_refl].
  - destruct (h !! j) as [lm|] eqn:Em; [|apply lookup_ge_None in Em; apply lookup_lt_Some in Hj; lia].
    destruct (IH lm eq_refl) as [H1 H2]. pose proof (hs_step _ _ Hh j lm lj Em Hj) as Hc.
    split; [by eapply later_trans, Hc|by eapply advances_trans, Hc].
Qed.

(** Equal versions, equal chunks, in any two states of a history. *)
Lemma history_equal_major s h i j li lj v : history s h -> h !! i = Some li -> h !! j = Some lj ->
  shard_major s li v -> shard_major s lj v -> forall k, has_key s li k <-> has_key s lj k.
Proof.
  intros Hh Hi Hj Hvi Hvj. destruct (hs_state _ _ Hh i li Hi) as [_ Hpi]. destruct (hs_state _ _ Hh j lj Hj) as [_ Hpj].
  destruct (Nat.le_ge_cases i j) as [Hle|Hle].
  - destruct (history_between s h i j li lj Hh Hle Hi Hj) as [_ Ha]. by eapply equal_major_holds.
  - destruct (history_between s h j i lj li Hh Hle Hj Hi) as [_ Ha]. intros k. symmetry. by eapply equal_major_holds.
Qed.

Lemma lookup_snoc_cases {A} (h : list A) x i y : (h ++ [x]) !! i = Some y -> h !! i = Some y \/ i = List.length h /\ y = x.
Proof.
  intros H. apply lookup_app_Some in H as [?|[Hge H]]; [by left|]. right. apply list_lookup_singleton_Some in H as [Hi ->].
  split; [lia|done].
Qed.

Lemma history_snoc s h l l' : history s h -> last h = Some l -> commit_ok s l l' -> history s (h ++ [l']).
Proof.
  intros Hh Hl Hc. rewrite last_lookup in Hl. destruct (hs_state _ _ Hh _ _ Hl) as [_ Hp].
  pose proof (lookup_lt_Some _ _ _ Hl) as Hlen. split.
  - intros i x [Hx|[-> ->]]%lookup_snoc_cases; [by eapply hs_state|]. split; [apply Hc|by apply Hc].
  - intros i x x' Hx [Hx'|[Ei ->]]%lookup_snoc_cases.
    + rewrite lookup_app_l in Hx by (apply lookup_lt_Some in Hx'; lia). by eapply hs_step.
    + rewrite lookup_app_l in Hx by lia. replace (Nat.pred (List.length h)) with i in Hl by lia.
      assert (x = l) as -> by congruence. done.
Qed.

Lemma grows_snoc s h l l' b : last h = Some l -> grows_from s h b -> (forall k, has_key s l k -> has_key s l' k) ->
  grows_from s (h ++ [l']) b.
Proof.
  intros Hl Hg Hk i j li lj Hij Hi Hj k. rewrite last_lookup in Hl. pose proof (lookup_lt_Some _ _ _ Hl) as Hlen.
  apply lookup_snoc_cases in Hi as [Hi|[-> ->]]; apply lookup_snoc_cases in Hj as [Hj|[-> ->]].
  - by apply (Hg i j).
  - intros H. apply Hk. apply lookup_lt_Some in Hi as Hlt. by apply (Hg i (Nat.pred (List.length h)) li l ltac:(lia) Hi Hl).
  - apply lookup_lt_Some in Hj. lia.
  - done.
Qed.

Lemma grows_later s h b b' : (b <= b')%nat -> grows_from s h b -> grows_from s h b'.
Proof. intros Hle Hg i j li lj Hij. apply Hg. lia. Qed.

(** From a state just appended on there is no other. *)
Lemma grows_last s h l' : grows_from s (h ++ [l']) (List.length h).
Proof.
  intros i j li lj Hij [Hi|[-> ->]]%lookup_snoc_cases; [apply lookup_lt_Some in Hi; lia|].
  intros [Hj|[-> ->]]%lookup_snoc_cases; [apply lookup_lt_Some in Hj; lia|done].
Qed.
End protocol.
