(* ===== verification/ShardSystem.v ===== *)
(** A shard, its migrations and the config server together: the steps of a
    session of moveChunk interleaved with the commits of other shards, with
    refreshes and with everything else that uses the shard's metadata. A request
    that the shard's version check accepts is for keys that the shard owns in the
    catalog at that time. *)

From stdpp Require Import base list sorting strings.
From Stdlib Require Import ZArith Lia String.
From S2P Require Import Prelude OrdMap Tiling Bson Text ChunkVersion ChunkType ShardKey Chunk ChunkManager ConfigChunks ConfigCatalog ConfigRefresh RangeMap CollectionMetadata MetadataManager RangeDeletion RangeSafety RangeTask MigrationSource MigrationSession VersionProtocol.
Local Open Scope Z_scope.
Local Open Scope list_scope.
Local Open Scope outcome_scope.
Local Open Scope state_scope.

(** * The metadata manager *)

Definition usable (m : MetadataManager) : Prop := exists held, few held /\ mm_ok held m.

Lemma getMetadata_usable d : usable (dn_manager d) ->
  exists m', getMetadata d = (set_manager m' d, Ret (active_md (dn_manager d))) /\ usable m' /\ active m' = active (dn_manager d).
Proof.
  intros (held & Hf & Hok). destruct (getMetadata_ok held d Hok Hf) as (m' & E & Hok' & Ha & _). exists m'.
  split_and!; [done|by exists held|done].
Qed.

(** A refresh needs no more than the lists to be well formed. *)
Lemma refresh_usable remote m : usable m -> (forall r, remote = Some r -> range_map_wf (md_rangesMap r)) ->
  exists m', refreshActiveMetadata remote m = Ret m' /\ refreshed remote m m' /\ usable m'.
Proof.
  intros (held & Hf & Hok) Hw.
  assert (Hgood : forall m', (forall ready, ready ⊆ mm_receivingChunks m' -> good True held ready [] m') -> usable m').
  { intros m' Hg. exists held. split; [done|]. apply (Hg []). by intros x ?%not_elem_of_nil. }
  destruct (mm_metadata m) as [|i0 l0] eqn:El.
  - destruct remote as [r|].
    + destruct (refresh_first True held [] r m Hok El (Hw r eq_refl)) as (m' & E & Ha & _ & Hg). exists m'.
      split_and!; [done|by left|by apply Hgood].
    + destruct (ok_none _ _ Hok El) as [[H1 H2]%app_eq_nil Hr]. unfold refreshActiveMetadata, deleter_isEmpty.
      rewrite El, Hr, H1, H2. exists m. split_and!; [done|exact El|by exists held].
  - assert (exists i, last (mm_metadata m) = Some i) as [i Hi].
    { rewrite El. destruct (last (i0 :: l0)) eqn:E; [by eexists|]. by apply last_None in E. }
    destruct (active_ok held m i Hok Hi) as [act Ha]. unfold refreshActiveMetadata. rewrite El. destruct remote as [r|]; rewrite Ha.
    + specialize (Hw r eq_refl). cbn [obind]. fold (same_epoch act r). destruct (same_epoch act r) eqn:Ee; cbn [negb].
      * destruct (version_ge _ _) eqn:Ev; [exists m; split_and!; [done|right; by exists act|by exists held]|].
        destruct (setActive_ok held r (set_receiving (List.filter (fun r0 => negb (rangeOverlapsChunk r (mkRange r0.1 r0.2)))
          (mm_receivingChunks m)) m)) as (m' & E & Hrt); [apply set_receiving_ok; [done|apply filter_sublist]|done|].
        exists m'. split_and!; [exact E|left; rewrite (re_active _ _ _ Hrt); apply extend_active|].
        exists held. split; [done|apply Hrt].
      * destruct (refresh_epoch True held [] r m Hok Hw) as (m' & E & Ha' & Hg). exists m'. split_and!; [done|by left|by apply Hgood].
    + cbn [obind]. destruct (refresh_unsharded True held [] m Hok) as (m' & E & Em & Hg). exists m'.
      split_and!; [done|done|by apply Hgood].
Qed.

Lemma active_md_none m : mm_metadata m = [] -> active_md m = None.
Proof. intros E. unfold active_md, active. by rewrite E. Qed.

Lemma active_md_some m md : active m = Ret md -> active_md m = Some md.
Proof. intros E. unfold active_md. by rewrite E. Qed.

Lemma active_md_eq m m' : active m' = active m -> active_md m' = active_md m.
Proof. intros E. unfold active_md. by rewrite E. Qed.

Lemma clear_usable d : usable (dn_manager d) ->
  exists m', refreshMetadata None d = (set_manager m' d, Ret ()) /\ usable m' /\ active_md m' = None.
Proof.
  intros Hu. destruct (refresh_usable None _ Hu) as (m' & E & Hr & Hu'); [done|]. exists m'.
  unfold refreshMetadata, on_manager. rewrite E. split_and!; [done|done|by apply active_md_none].
Qed.

(** * A refresh *)

Definition takes (cm : ChunkManager) (s : ShardId) (m m' : MetadataManager) : Prop :=
  if already_newer (active_md m) cm then active_md m' = active_md m
  else exists md, active_md m' = Some md /\ metadata_ok cm s md.

Lemma refreshMetadata_takes cm s lo hi d : reachable cm -> tiling getMin lo (cm_chunkMap cm) hi -> usable (dn_manager d) ->
  already_newer (active_md (dn_manager d)) cm = false ->
  exists m' v, (let! n := slift (newCollectionMetadata cm s) in
      refreshMetadata (Some n) ;! let! md := getMetadata in
      match md with Some md => sret (getShardVersion md) | None => slift Undef end) d = (set_manager m' d, Ret v) /\
    usable m' /\ exists md, active_md m' = Some md /\ metadata_ok cm s md.
Proof.
  intros Hr Ht Hu Hn. destruct (newCollectionMetadata_ok cm s lo hi Hr Ht) as (md & E & Hmd).
  unfold sbind at 1, slift at 1. rewrite E. destruct (refresh_usable (Some md) _ Hu) as (m1 & E1 & Hre & Hu1).
  { intros r [= <-]. apply Hmd. }
  assert (Ha : active m1 = Ret md).
  { destruct Hre as [?|(act & Ha & He & Hv & _)]; [done|]. exfalso. rewrite (active_md_some _ _ Ha) in Hn. cbn in Hn.
    unfold same_epoch, getCollVersion at 2 in He. unfold getCollVersion at 2 in Hv. rewrite (mo_cm _ _ _ Hmd) in He, Hv.
    by rewrite He, Hv in Hn. }
  unfold sbind at 1, refreshMetadata, on_manager. rewrite E1. cbn [obind].
  destruct (getMetadata_usable (set_manager m1 d) Hu1) as (m2 & E2 & Hu2 & Ha2). cbn [dn_manager set_manager] in *.
  unfold sbind. rewrite E2, (active_md_some _ _ Ha). exists m2, (getShardVersion md). split_and!; [reflexivity|done|].
  exists md. split; [|done]. apply active_md_some. congruence.
Qed.

Lemma refreshNow_takes cm s lo hi d : ShardId_isValid s = true -> reachable cm -> tiling getMin lo (cm_chunkMap cm) hi ->
  usable (dn_manager d) ->
  exists m' v, refreshMetadataNow s (Ret (Some cm)) d = (set_manager m' d, Ret (OK v)) /\ usable m' /\ takes cm s (dn_manager d) m'.
Proof.
  intros Hs Hr Ht Hu. unfold refreshMetadataNow, scatch, _refreshMetadata. rewrite Hs. cbn [uassert].
  unfold sbind at 1. unfold sbind at 1, slift at 1. unfold sbind at 1, slift at 1. unfold sbind at 1.
  destruct (getMetadata_usable d Hu) as (m1 & E1 & Hu1 & Ha1). rewrite E1. cbn beta iota. unfold takes.
  destruct (already_newer (active_md (dn_manager d)) cm) eqn:En.
  - destruct (active_md (dn_manager d)) as [md|] eqn:Em; [|done]. cbn in En |- *. rewrite En. exists m1, (getShardVersion md).
    split_and!; [done|done|]. rewrite <- Em. by apply active_md_eq.
  - destruct (refreshMetadata_takes cm s lo hi (set_manager m1 d) Hr Ht Hu1) as (m' & v & E & Hu' & H).
    { cbn [dn_manager set_manager]. by rewrite (active_md_eq _ _ Ha1). }
    exists m', v. split; [|done]. destruct (active_md (dn_manager d)); cbn iota beta; rewrite ?En, E; reflexivity.
Qed.

Lemma refreshNow_unsharded s d : ShardId_isValid s = true -> usable (dn_manager d) ->
  exists m', refreshMetadataNow s (Ret None) d = (set_manager m' d, Ret (OK UNSHARDED)) /\ usable m' /\ active_md m' = None.
Proof.
  intros Hs Hu. destruct (clear_usable d Hu) as (m' & E & H). exists m'. split; [|done].
  unfold refreshMetadataNow, scatch, _refreshMetadata. rewrite Hs. unfold sbind, slift, sret. cbn [uassert]. by rewrite E.
Qed.

Lemma refreshNow_fails s e d : ShardId_isValid s = true -> isDBException e = true ->
  refreshMetadataNow s (Throw e) d = (d, Ret (NotOK e)).
Proof. intros Hs He. unfold refreshMetadataNow, scatch, _refreshMetadata. rewrite Hs. unfold sbind, slift. cbn. by rewrite He. Qed.

(** A stale request: either the shard is at the version of the request already,
    or it refreshes. *)
Lemma onStale_cases s v routing d : usable (dn_manager d) ->
  exists m', usable m' /\ active m' = active (dn_manager d) /\
    onStaleShardVersion s v routing d =
      if oid_eqb (_epoch (shard_version d)) (_epoch v) && version_ge (shard_version d) v then (set_manager m' d, Ret (OK ()))
      else match refreshMetadataNow s routing (set_manager m' d) with
           | (d', Ret (OK _)) => (d', Ret (OK ()))
           | (d', Ret (NotOK e)) => (d', Ret (NotOK e))
           | (d', Throw e) => (d', Throw e)
           | (d', Abort) => (d', Abort)
           | (d', Undef) => (d', Undef)
           end.
Proof.
  intros Hu. destruct (getMetadata_usable d Hu) as (m' & E & Hu' & Ha). exists m'. split_and!; [done|done|].
  unfold onStaleShardVersion, sbind at 1. rewrite E. fold (shard_version d). destruct (_ && _); [done|].
  unfold refreshMetadataNow, scatch, sbind. destruct (_refreshMetadata s routing (set_manager m' d)) as [d' [a|e| |]]; try done.
  cbn. by destruct (isDBException e).
Qed.

(** * The system *)

(** The part of moveChunk that runs, with the position in the history at which
    its request was applied. [Session] is from the end of the constructor to the
    request, [Over] from the last step that can fail to the destructor. *)
Inductive Phase :=
  | Idle
  | Session
  | Requested (request : CommitRequest) (applied : option nat)
  | Answered (applied : option nat) (status : StatusWith unit) (retriesLeft : bool)
  | Over.

(** [sy_history]: the states of the chunk catalog. [sy_position]: the state that
    the shard's metadata is from or, when it has been cleared, the oldest one
    that a refresh can bring back. *)
Record System := mkSystem {
  sy_config : Config;
  sy_history : list (list ChunkDoc);
  sy_donor : Donor;
  sy_position : nat;
  sy_phase : Phase
}.

Section system.
Context (snprintf_g16 : Dbl -> string) (ns : string) (epoch : OID) (lo hi : BSONObj) (shardName : ShardId).
Abbreviation catalog := (catalog snprintf_g16 ns epoch lo hi).
Abbreviation caches := (caches ns lo hi).
Abbreviation has_key := (has_key ns shardName).
Abbreviation history := (history snprintf_g16 ns epoch lo hi shardName).
Abbreviation grows_from := (grows_from ns shardName).

(** What happens in a step: a commit that others asked for, the commit of the
    shard's own request, the answer to a refresh with the table of a past state
    (with the state that the commit before the refresh made, if any), or none of it. *)
Inductive Event :=
  | Others (q : Commit)
  | Applied (request : CommitRequest)
  | Loaded (state since : nat)
  | Silent.

(** What the catalog cache answers a refresh, and the position of the metadata
    after it: an error, a dropped collection, or any past state. *)
Inductive refresh_answer (h : list (list ChunkDoc)) (m : MetadataManager) (pos since : nat) :
    Outcome (option ChunkManager) -> Event -> nat -> Prop :=
  | refresh_error e : isDBException e = true -> refresh_answer h m pos since (Throw e) Silent pos
  | refresh_dropped : refresh_answer h m pos since (Ret None) Silent pos
  | refresh_table p l cm :
      h !! p = Some l -> caches cm l ->
      refresh_answer h m pos since (Ret (Some cm)) (Loaded p since) (if already_newer (active_md m) cm then pos else p).

(** The methods before the request. *)
Inductive session_method : SM Donor (StatusWith unit) -> Prop :=
  | method_startClone lv answer : session_method (startClone lv answer)
  | method_awaitToCatchUp lv answer : session_method (awaitToCatchUp lv answer)
  | method_enterCriticalSection lv notify start signal : session_method (enterCriticalSection lv notify start signal)
  | method_commitChunkOnRecipient lv answer : session_method (commitChunkOnRecipient lv answer).

(** The position when a session has been left: if it has cleared the metadata,
    a table from before its commit is not installed any more. *)
Definition position_left (d : Donor) (pos : nat) (applied : option nat) : nat :=
  match active_md (dn_manager d) with
  | None => Nat.max pos (default 0%nat applied)
  | Some _ => pos
  end.

(** The donor's request as the config server gets it. *)
Definition request_commit (request : CommitRequest) : Commit :=
  CommitMigration (cr_migratedChunk request) (cr_controlChunk request) (_epoch (cr_fromShardCollectionVersion request))
    (cr_fromShard request) (cr_toShard request).
Abbreviation run := (run_commit snprintf_g16 ns).

Inductive system_step : System -> Event -> System -> Prop :=
  | sys_commit c h d pos ph q :
      others_request shardName q ->
      system_step (mkSystem c h d pos ph) (Others q) (mkSystem (run q c) (h ++ [cfg_chunks (run q c)]) d pos ph)
  | sys_refresh c h d pos ph routing e pos' d' r :
      refresh_answer h (dn_manager d) pos 0 routing e pos' -> refreshMetadataNow shardName routing d = (d', r) ->
      system_step (mkSystem c h d pos ph) e (mkSystem c h d' pos' ph)
  | sys_clear c h d pos ph d' r :
      refreshMetadata None d = (d', r) ->
      system_step (mkSystem c h d pos ph) Silent (mkSystem c h d' pos ph)
  | sys_manager c h d pos ph m' :
      usable m' -> active m' = active (dn_manager d) ->
      system_step (mkSystem c h d pos ph) Silent (mkSystem c h (set_manager m' d) pos ph)
  | sys_start c h d pos request routing e pos' exists_ d' :
      mc_fromShardId request = shardName -> refresh_answer h (dn_manager d) pos 0 routing e pos' ->
      newMigrationSourceManager shardName request routing exists_ d = (d', Ret ()) ->
      system_step (mkSystem c h d pos Idle) e (mkSystem c h d' pos' Session)
  | sys_start_fails c h d pos request routing e pos' exists_ d' code :
      refresh_answer h (dn_manager d) pos 0 routing e pos' ->
      newMigrationSourceManager shardName request routing exists_ d = (d', Throw code) ->
      system_step (mkSystem c h d pos Idle) e (mkSystem c h d' (if bool_decide (mc_fromShardId request = mc_toShardId request) then pos else pos') Idle)
  | sys_method c h d pos m d' r :
      session_method m -> checked m d = (d', r) -> survives r ->
      system_step (mkSystem c h d pos Session) Silent (mkSystem c h d' pos (if is_Ret r then Session else Over))
  | sys_request c h d pos lv d' r :
      commitRequest lv d = (d', r) -> survives r ->
      system_step (mkSystem c h d pos Session) Silent
        (mkSystem c h d' pos (match r with Ret (inr request) => Requested request None | _ => Over end))
  | sys_apply c h d pos request :
      let c' := run (request_commit request) c in
      cfg_chunks c' <> cfg_chunks c ->
      system_step (mkSystem c h d pos (Requested request None)) (Applied request)
        (mkSystem c' (h ++ [cfg_chunks c']) d pos (Requested request (Some (List.length h))))
  | sys_refused c h d pos request applied :
      let c' := run (request_commit request) c in
      cfg_chunks c' = cfg_chunks c ->
      system_step (mkSystem c h d pos (Requested request applied)) Silent (mkSystem c' h d pos (Requested request applied))
  | sys_answer c h d pos request applied lv status log inShutdown accepts d' r :
      afterCommit lv status log inShutdown accepts d = (d', r) -> survives r ->
      system_step (mkSystem c h d pos (Requested request applied)) Silent
        (match r with
         | Ret (inr _) => mkSystem c h d' pos (Answered applied status true)
         | _ => mkSystem c h d' (position_left d' pos applied) Over
         end)
  | sys_round c h d pos applied status retries lv routing e pos' d' r :
      refresh_answer h (dn_manager d) pos (if (retries : bool) then 0%nat else default 0%nat applied) routing e pos' ->
      refreshRound lv shardName status retries routing d = (d', r) -> survives r ->
      system_step (mkSystem c h d pos (Answered applied status retries)) e
        (match r with
         | Ret (inr None) => mkSystem c h d' pos' (Answered applied status false)
         | Ret (inr (Some _)) => mkSystem c h d' pos' Over
         | _ => mkSystem c h d' (position_left d' pos' applied) Over
         end)
  | sys_leave c h d pos lv v d' r :
      leaveCriticalSection lv v d = (d', r) -> survives r ->
      system_step (mkSystem c h d pos Over) Silent (mkSystem c h d' pos Over)
  | sys_end c h d pos d' :
      destroySourceManager d = (d', Ret ()) ->
      system_step (mkSystem c h d pos Over) Silent (mkSystem c h d' pos Idle).

(** The discipline that the safety of the versions rests on and that the code does
    not enforce. The commits satisfy [request_ok]. The shard's request has a
    control chunk, unless the shard has no other chunk when it is applied. A table
    older than metadata that has since been cleared is not installed, and the
    second refresh after a commit reads the catalog no earlier than the commit. *)
Definition orderly_load (m : MetadataManager) (pos : nat) (e : Event) : Prop :=
  match e with
  | Loaded p since => (active_md m = None -> (pos <= p)%nat) /\ (since <= p)%nat
  | _ => True
  end.

Definition orderly (y : System) (e : Event) : Prop :=
  match e with
  | Others q => request_ok snprintf_g16 ns (cfg_chunks (sy_config y)) q
  | Applied request =>
      request_ok snprintf_g16 ns (cfg_chunks (sy_config y)) (request_commit request) /\
      (cr_controlChunk request = None -> forall mn mx, chunk_bounds (cr_migratedChunk request) = Ret (mn, mx) ->
         forall x, doc_on ns shardName (cfg_chunks (sy_config y)) x -> d_min x ≅k mn)
  | Loaded _ _ => orderly_load (dn_manager (sy_donor y)) (sy_position y) e
  | Silent => True
  end.

(** The first state: a collection, and a shard that knows nothing of it; [P]
    restricts the steps. *)
Inductive system_reachable (P : System -> Event -> Prop) : System -> Prop :=
  | system_init c :
      catalog (cfg_chunks c) -> majors_set ns (cfg_chunks c) ->
      system_reachable P (mkSystem c [cfg_chunks c] (mkDonor newMetadataManager None false) 0 Idle)
  | system_next y e y' : system_reachable P y -> system_step y e y' -> P y e -> system_reachable P y'.

(** * The invariant *)

(** The metadata is that of the state at the position. *)
Definition installed (h : list (list ChunkDoc)) (m : MetadataManager) (pos : nat) : Prop :=
  usable m /\
  forall md, active_md m = Some md -> exists l cm, h !! pos = Some l /\ caches cm l /\ metadata_ok cm shardName md.

(** Where a session is: the methods find the state they expect. *)
Definition session_shape (d : Donor) : Prop :=
  created d \/ cloning kCloning d \/ cloning kCloneCaughtUp d \/ critical kCriticalSection d \/ critical kCloneCompleted d.

(** The chunk that is migrated is on the shard. *)
Definition in_session (h : list (list ChunkDoc)) (d : Donor) (pos : nat) : Prop :=
  session_shape d /\
  exists src l, dn_source d = Some src /\ mc_fromShardId (sm_args src) = shardName /\ h !! pos = Some l /\
    has_key l (_minKey (mc_range (sm_args src))).

(** The request may have been applied: nobody passes the version check; until
    the commit the shard has had the chunk, since then it has lost nothing. *)
Definition committing (h : list (list ChunkDoc)) (d : Donor) (pos : nat) (applied : option nat) (src : MigrationSourceManager)
    : Prop :=
  critical kCloneCompleted d /\ dn_source d = Some src /\ sm_readsShouldWaitOnCritSec src = true /\
  match applied with
  | None => grows_from h pos /\ exists l, h !! pos = Some l /\ has_key l (_minKey (mc_range (sm_args src)))
  | Some pc =>
      grows_from h pc /\
      (forall i l, (pos <= i < pc)%nat -> h !! i = Some l -> has_key l (_minKey (mc_range (sm_args src)))) /\
      exists l0 l1 b, pc = S b /\ h !! b = Some l0 /\ h !! pc = Some l1 /\ newer_doc ns l0 l1
  end.

Definition request_for (request : CommitRequest) (src : MigrationSourceManager) : Prop :=
  let range := mc_range (sm_args src) in
  cr_fromShard request = shardName /\ chunk_bounds (cr_migratedChunk request) = Ret (_minKey range, _maxKey range) /\
  match cr_controlChunk request with
  | Some k => forall x y, chunk_bounds k = Ret (x, y) -> ~ x ≅k _minKey range
  | None => True
  end.

Definition phase_ok (h : list (list ChunkDoc)) (d : Donor) (pos : nat) (ph : Phase) : Prop :=
  match ph with
  | Idle => grows_from h pos /\ idle d
  | Over => grows_from h pos /\ (left_migration d \/ critical kCloneCompleted d)
  | Session => grows_from h pos /\ in_session h d pos
  | Requested request applied => exists src, committing h d pos applied src /\ request_for request src
  | Answered applied _ _ => exists src, committing h d pos applied src
  end.

Record system_ok (y : System) : Prop := {
  so_last : last (sy_history y) = Some (cfg_chunks (sy_config y));
  so_history : history (sy_history y);
  so_position : (sy_position y < List.length (sy_history y))%nat;
  so_installed : installed (sy_history y) (dn_manager (sy_donor y)) (sy_position y);
  so_phase : phase_ok (sy_history y) (sy_donor y) (sy_position y) (sy_phase y)
}.

(** The steps of the manager alone, and later positions. *)
Lemma phase_ok_manager h d m' pos ph : phase_ok h (set_manager m' d) pos ph <-> phase_ok h d pos ph.
Proof. by destruct ph. Qed.

Lemma holds_later h pos pos' l k : grows_from h pos -> (pos <= pos')%nat -> (pos' < List.length h)%nat -> h !! pos = Some l ->
  has_key l k -> exists l', h !! pos' = Some l' /\ has_key l' k.
Proof.
  intros Hg Hle Hlt Hl Hk. destruct (lookup_lt_is_Some_2 h pos' Hlt) as [l' Hl']. exists l'. split; [done|].
  exact (Hg pos pos' l l' ltac:(lia) Hl Hl' k Hk).
Qed.

Lemma committing_later h d pos pos' applied src : (pos <= pos')%nat -> (pos' < List.length h)%nat ->
  committing h d pos applied src -> committing h d pos' applied src.
Proof.
  intros Hle Hlt (H1 & H2 & H3 & H). do 3 (split; [done|]). destruct applied as [pc|].
  - destruct H as (Hg & Hh & H). split_and!; [done| |done]. intros i l Hi. apply Hh. lia.
  - destruct H as (Hg & l & Hl & Hk). split; [by eapply grows_later|by eapply holds_later].
Qed.

Lemma phase_ok_later h d pos pos' ph : (pos <= pos')%nat -> (pos' < List.length h)%nat ->
  phase_ok h d pos ph -> phase_ok h d pos' ph.
Proof.
  intros Hle Hlt. destruct ph as [| |request applied|applied status retries|]; cbn [phase_ok].
  - intros [Hg ?]. split; [by eapply grows_later|done].
  - intros (Hg & Hsh & src & l & Es & Ef & Hl & Hk). split; [by eapply grows_later|]. split; [done|].
    destruct (holds_later h pos pos' l _ Hg Hle Hlt Hl Hk) as (l' & Hl' & Hk'). by exists src, l'.
  - intros (src & Hc & Hr). exists src. split; [by eapply committing_later|done].
  - intros (src & Hc). exists src. by eapply committing_later.
  - intros [Hg ?]. split; [by eapply grows_later|done].
Qed.

Lemma installed_snoc h l' m pos : installed h m pos -> installed (h ++ [l']) m pos.
Proof.
  intros [Hu H]. split; [done|]. intros md Hmd. destruct (H md Hmd) as (l & cm & Hl & Hc). exists l, cm.
  split; [by apply lookup_app_l_Some|done].
Qed.

(** A commit that takes nothing from the shard. *)
Lemma phase_ok_snoc h l l' d pos ph : last h = Some l -> (pos < List.length h)%nat ->
  (forall k, has_key l k -> has_key l' k) -> phase_ok h d pos ph -> phase_ok (h ++ [l']) d pos ph.
Proof.
  intros Hl Hpos Hk. assert (Hs : forall b, grows_from h b -> grows_from (h ++ [l']) b) 
    by (intros b Hb; exact (grows_snoc ns shardName h l l' b Hl Hb Hk)).
  assert (Hc : forall applied src, committing h d pos applied src -> committing (h ++ [l']) d pos applied src).
  { intros applied src (H1 & H2 & H3 & H). do 3 (split; [done|]). destruct applied as [pc|].
    - destruct H as (Hg & Hh & l0 & l1 & b & Eb & H0 & H1' & Hn). split_and!; [by apply Hs| |].
      + intros i x Hi Hx. apply (Hh i x Hi). apply lookup_lt_Some in H1'. by rewrite lookup_app_l in Hx by lia.
      + exists l0, l1, b. split_and!; [done|by apply lookup_app_l_Some..|done].
    - destruct H as (Hg & x & Hx & Hkx). split; [by apply Hs|]. exists x. split; [by apply lookup_app_l_Some|done]. }
  destruct ph as [| |request applied|applied status retries|]; cbn [phase_ok]; [intros [? ?]; auto| | | |intros [? ?]; auto].
  - intros (Hg & Hsh & src & x & Es & Ef & Hx & Hkx). split; [by apply Hs|]. split; [done|]. exists src, x.
    split_and!; [done|done|by apply lookup_app_l_Some|done].
  - intros (src & H & Hr). exists src. auto.
  - intros (src & H). exists src. auto.
Qed.

(** * Refreshes *)

Lemma already_newer_spec h pos l0 cm0 md cm l :
  history h -> h !! pos = Some l0 -> caches cm0 l0 -> metadata_ok cm0 shardName md -> catalog l -> caches cm l ->
  already_newer (Some md) cm = (toLong (cm_collectionVersion cm) <=? toLong (cm_collectionVersion cm0)).
Proof.
  intros Hh Hl0 Hc0 Hmd Hcat Hc. destruct (hs_state _ _ _ _ _ _ _ Hh pos l0 Hl0) as [Hcat0 _].
  destruct (caches_version _ _ _ _ _ _ _ Hcat0 Hc0) as [He0 _]. destruct (caches_version _ _ _ _ _ _ _ Hcat Hc) as [He _].
  unfold already_newer, getCollVersion, version_ge. rewrite (mo_cm _ _ _ Hmd), He, He0.
  by rewrite (proj2 (oid_eqb_eq epoch epoch) eq_refl).
Qed.

Lemma refreshes_later h m pos low routing e pos' : history h -> (pos < List.length h)%nat -> installed h m pos ->
  refresh_answer h m pos low routing e pos' -> orderly_load m pos e -> (pos <= pos' < List.length h)%nat.
Proof.
  intros Hh Hlt [_ Hi] [e' He| |p l cm Hp Hc] Ho; [lia|lia|]. destruct Ho as [Hg _]. pose proof (lookup_lt_Some _ _ _ Hp) as Hpl.
  destruct (active_md m) as [md|] eqn:Em; [|specialize (Hg eq_refl); cbn; lia].
  destruct (Hi md eq_refl) as (l0 & cm0 & Hl0 & Hc0 & Hmd). destruct (hs_state _ _ _ _ _ _ _ Hh p l Hp) as [Hcat _].
  rewrite (already_newer_spec h pos l0 cm0 md cm l Hh Hl0 Hc0 Hmd Hcat Hc).
  destruct (Z.leb_spec (toLong (cm_collectionVersion cm)) (toLong (cm_collectionVersion cm0))) as [Hle|Hgt]; [lia|].
  split; [|done]. destruct (Nat.le_gt_cases pos p) as [?|Hpp]; [done|].
  destruct (history_between _ _ _ _ _ _ h p pos l l0 Hh ltac:(lia) Hp Hl0) as [Hlat _].
  destruct (hs_state _ _ _ _ _ _ _ Hh pos l0 Hl0) as [Hcat0 _].
  pose proof (caches_version_le _ _ _ _ _ cm cm0 l l0 Hcat Hcat0 Hc Hc0 Hlat). lia.
Qed.

Context (Hvalid : ShardId_isValid shardName = true).

(** The metadata after a refresh, and its status. *)
Lemma refresh_installs h d pos low routing e pos' : history h -> installed h (dn_manager d) pos ->
  refresh_answer h (dn_manager d) pos low routing e pos' ->
  exists m' st, refreshMetadataNow shardName routing d = (set_manager m' d, Ret st) /\ installed h m' pos' /\
    match routing, st with
    | Ret (Some _), OK _ => is_Some (active_md m')
    | Ret None, OK _ => active_md m' = None
    | Throw _, NotOK _ => m' = dn_manager d
    | _, _ => False
    end.
Proof.
  intros Hh Hi [code He| |p l cm Hp Hc].
  - rewrite (refreshNow_fails _ _ _ Hvalid He). exists (dn_manager d), (NotOK code). split_and!; [by destruct d|done|done].
  - destruct (refreshNow_unsharded shardName d Hvalid (proj1 Hi)) as (m' & E & Hu & Ha). exists m', (OK UNSHARDED).
    split_and!; [done|split; [done|by rewrite Ha]|done].
  - destruct (refreshNow_takes cm shardName lo hi d Hvalid (cc_reach _ _ _ _ _ Hc) (cc_tiling _ _ _ _ _ Hc) (proj1 Hi))
      as (m' & v & E & Hu & Ht). exists m', (OK v). unfold takes in Ht. split; [done|].
    destruct (already_newer (active_md (dn_manager d)) cm) eqn:En.
    + split; [split; [done|]; rewrite Ht; by apply Hi|]. rewrite Ht. by destruct (active_md (dn_manager d)).
    + destruct Ht as (md & Hmd & Hok). split; [|by rewrite Hmd]. split; [done|]. rewrite Hmd. intros ? [= <-]. by exists l, cm.
Qed.

Lemma clear_installs h d pos : installed h (dn_manager d) pos ->
  exists m', refreshMetadata None d = (set_manager m' d, Ret ()) /\ active_md m' = None /\ forall pos', installed h m' pos'.
Proof.
  intros [Hu _]. destruct (clear_usable d Hu) as (m' & E & Hu' & Ha). exists m'. split_and!; [done|done|].
  intros pos'. split; [done|]. by rewrite Ha.
Qed.

Lemma getMetadata_installs h d pos : installed h (dn_manager d) pos ->
  exists m', getMetadata d = (set_manager m' d, Ret (active_md (dn_manager d))) /\ installed h m' pos /\
    active_md m' = active_md (dn_manager d).
Proof.
  intros [Hu Hi]. destruct (getMetadata_usable d Hu) as (m' & E & Hu' & Ha%active_md_eq). exists m'.
  split_and!; [done|split; [done|by rewrite Ha]|done].
Qed.

(** The keys of the installed metadata. *)
Lemma installed_keys h m pos md l k : installed h m pos -> active_md m = Some md -> h !! pos = Some l ->
  keyBelongsToMe md k = true <-> has_key l k.
Proof.
  intros [_ Hi] Hmd Hl. destruct (Hi md Hmd) as (l' & cm & Hl' & Hc & Hok). assert (l' = l) as -> by congruence.
  rewrite (keyBelongs_covered md k (mo_ranges_wf _ _ _ Hok)), (mo_ranges _ _ _ Hok), (mo_chunks _ _ _ Hok).
  destruct (reachable_ok cm (cc_reach _ _ _ _ _ Hc)) as [Hcm _]. rewrite <- (caches_holds ns lo hi cm l Hc).
  apply own_rows_covered. intros x c Hin. by apply (ok_map _ Hcm).
Qed.

(** * The session's steps *)

Lemma source_preserves : spreserves dn_manager source.
Proof. intros d. unfold source. by destruct (dn_source d). Qed.

Lemma update_preserves f : spreserves dn_manager (update_source f).
Proof. by apply spreserves_modify. Qed.

#[local] Hint Resolve source_preserves update_preserves : state.

Lemma cleanup_preserves lv : spreserves dn_manager (_cleanup lv).
Proof.
  unfold _cleanup, clearMigrationSourceManager. preserves; done.
Qed.

Lemma cleanup_manager lv d : dn_manager (cleanupOnError lv d).1 = dn_manager d.
Proof.
  unfold cleanupOnError, sbind, source. destruct (dn_source d) as [src|]; [|done].
  destruct (bool_decide (sm_state src = kDone)); [done|]. pose proof (cleanup_preserves lv d) as H.
  destruct (_cleanup lv d) as [d' [[]|e| |]]; try done. by destruct (isNotMasterError e).
Qed.

Lemma guarded_inv {A} lv (body : SM Donor (StatusWith unit + A)) d d' r : guarded lv body d = (d', r) -> survives r ->
  body d = (d', r) /\ (exists a, r = Ret (inr a)) \/
  exists d1, body d = (d1, r) /\ dn_manager d' = dn_manager d1 /\ (forall a, r <> Ret (inr a)).
Proof.
  unfold guarded. destruct (body d) as [d1 [[st|a]|e| |]]; [| | |by intros [= <- <-] []..].
  - pose proof (cleanup_manager lv d1) as Hm. destruct (cleanupOnError lv d1) as [d2 [[]|e| |]]; cbn in Hm;
      intros [= <- <-] Hs; try done. right. by exists d1.
  - intros [= <- <-] _. left. split; [done|by exists a].
  - pose proof (cleanup_manager lv d1) as Hm. destruct (cleanupOnError lv d1) as [d2 [[]|e'| |]]; cbn in Hm;
      intros [= <- <-] Hs; try done. right. by exists d1.
Qed.

Lemma afterCommit_inv lv status log inShutdown accepts h d pos d' r : installed h (dn_manager d) pos ->
  afterCommit lv status log inShutdown accepts d = (d', r) -> survives r ->
  r = Ret (inr ()) /\ d' = d \/
  (exists e, r = Throw e) /\ active_md (dn_manager d') = None /\ forall pos', installed h (dn_manager d') pos'.
Proof.
  intros Hi E Hs. destruct (guarded_inv _ _ _ _ _ E Hs) as [[Eb [[] ->]]|(d1 & Eb & Hm & Hn)].
  - left. split; [done|]. destruct status as [[]|e]; [by injection Eb as ->|].
    unfold afterFailedCommit, sbind in Eb. destruct log as [[]|e']; [by injection Eb as ->|].
    destruct (_ && inShutdown); [done|]. destruct accepts; [done|]. cbn in Eb.
    by destruct (refreshMetadata None d) as [d2 [[]|? | |]].
  - right. rewrite Hm. destruct status as [[]|e]; [injection Eb as <- <-; by destruct (Hn ())|].
    unfold afterFailedCommit, sbind in Eb. destruct log as [[]|e']; [injection Eb as <- <-; by destruct (Hn ())|].
    destruct (_ && inShutdown); [injection Eb as _ <-; done|]. destruct accepts; [injection Eb as _ <-; done|].
    destruct (clear_installs h d pos Hi) as (m' & Ec & Ha & Hi'). cbn in Eb. rewrite Ec in Eb. injection Eb as <- <-.
    split; [by eexists|]. done.
Qed.

Lemma refreshRound_inv lv status retries routing h d pos low e pos' src d' r :
  history h -> installed h (dn_manager d) pos -> refresh_answer h (dn_manager d) pos low routing e pos' -> dn_source d = Some src ->
  refreshRound lv shardName status retries routing d = (d', r) -> survives r ->
  (exists m', d' = set_manager m' d /\ installed h m' pos' /\
     (r = Ret (inr None) /\ retries = true \/
      exists v md, r = Ret (inr (Some v)) /\ active_md m' = Some md /\
        keyBelongsToMe md (_minKey (mc_range (sm_args src))) = false)) \/
  (forall a, r <> Ret (inr a)) /\
  (active_md (dn_manager d') = None /\ (forall pos', installed h (dn_manager d') pos') \/
   retries = false /\ (exists cm, routing = Ret (Some cm)) /\ installed h (dn_manager d') pos' /\
   is_Some (active_md (dn_manager d'))).
Proof.
  intros Hh Hi Hrf Es E Hs.
  destruct (refresh_installs h d pos low routing e pos' Hh Hi Hrf) as (m1 & st & E1 & Hi1 & Hst).
  destruct (getMetadata_installs h (set_manager m1 d) pos' Hi1) as (m2 & E2 & Hi2 & Ha2). cbn [dn_manager set_manager] in Ha2, E2.
  assert (Hc : forall d0, installed h (dn_manager d0) pos' -> exists m', refreshMetadata None d0 = (set_manager m' d0, Ret ()) /\
    active_md m' = None /\ forall p, installed h m' p) by (intros d0; apply clear_installs).
  destruct (guarded_inv _ _ _ _ _ E Hs) as [[Eb [a ->]]|(d1 & Eb & Hm & Hn)]; unfold sbind at 1, source in Eb;
    rewrite Es in Eb; unfold sbind at 1 in Eb; rewrite E1 in Eb.
  - left. destruct st as [v|code].
    + unfold sbind in Eb. rewrite E2 in Eb. destruct (active_md m1) as [md|] eqn:Em; [|done].
      destruct (keyBelongsToMe md _) eqn:Ek; cbn [negb] in Eb.
      * destruct retries; [|by destruct status]. injection Eb as <- <-. exists m2. split_and!; [done|done|by left].
      * injection Eb as <- <-. exists m2. split_and!; [done|done|]. right. exists (getCollVersion md), md. split_and!; try done.
    + unfold sbind in Eb. destruct (Hc (set_manager m1 d) Hi1) as (m' & Ec & _). by rewrite Ec in Eb.
  - right. split; [done|]. rewrite Hm. destruct st as [v|code].
    + unfold sbind in Eb. rewrite E2 in Eb. destruct (active_md m1) as [md|] eqn:Em.
      * destruct (keyBelongsToMe md _); cbn [negb] in Eb; [|injection Eb as <- <-; by destruct (Hn (Some (getCollVersion md)))].
        destruct retries; [injection Eb as <- <-; by destruct (Hn None)|]. destruct status; [injection Eb as _ <-; done|].
        injection Eb as <- <-. right. cbn [dn_manager set_manager]. split_and!; [done| |done|by rewrite Ha2].
        destruct routing as [[cm|]|? | |]; try done; eauto.
      * injection Eb as <- <-. left. cbn [dn_manager set_manager]. split; [congruence|]. intros p. split; [apply Hi2|]. by rewrite Ha2.
    + unfold sbind in Eb. destruct (Hc (set_manager m1 d) Hi1) as (m' & Ec & Ha & Hi'). rewrite Ec in Eb.
      injection Eb as <- <-. by left.
Qed.

(** The part of the constructor after the refresh. *)
Lemma constructor_inv h d pos low request routing e pos' exists_ d' r : history h -> installed h (dn_manager d) pos ->
  refresh_answer h (dn_manager d) pos low routing e pos' -> mc_fromShardId request <> mc_toShardId request ->
  newMigrationSourceManager shardName request routing exists_ d = (d', r) ->
  exists m', installed h m' pos' /\
    match r with
    | Ret _ => exists md, d' = set_source (Some (mkSource request kCreated (_epoch (getCollVersion md)) false None false)) (set_manager m' d) /\
        active_md m' = Some md /\
        checkChunkIsValid md (_minKey (mc_range request)) (_maxKey (mc_range request)) = OK ()
    | _ => d' = set_manager m' d
    end.
Proof.
  intros Hh Hi Hrf Hne. unfold newMigrationSourceManager.
  destruct (String.eqb_spec (mc_fromShardId request) (mc_toShardId request)) as [?|_]; [done|]. cbn [negb uassert].
  unfold sbind at 1, slift at 1. destruct (refresh_installs h d pos low routing e pos' Hh Hi Hrf) as (m1 & st & E1 & Hi1 & _).
  unfold sbind at 1. rewrite E1. unfold sbind at 1, slift at 1. destruct st as [v|code]; cbn [uassertStatusOK];
    [|intros [= <- <-]; by exists m1]. unfold sbind at 1, slift at 1. destruct exists_; cbn [uassert]; [|intros [= <- <-]; by exists m1].
  destruct (getMetadata_installs h (set_manager m1 d) pos' Hi1) as (m2 & E2 & Hi2 & Ha2). cbn [dn_manager set_manager] in Ha2, E2.
  unfold sbind at 1. rewrite E2. destruct (active_md m1) as [md|]; [|intros [= <- <-]; by exists m2].
  unfold sbind, slift, smodify. destruct (0 <? _); cbn [uassert]; [|intros [= <- <-]; by exists m2].
  destruct (oid_eqb _ _); cbn [uassert]; [|intros [= <- <-]; by exists m2].
  destruct (checkChunkIsValid md _ _) as [[]|code] eqn:Ev; cbn [uassertStatusOK]; [|intros [= <- <-]; by exists m2].
  intros [= <- <-]. exists m2. split; [done|]. exists md. split_and!; [done|done|exact Ev].
Qed.

Lemma valid_chunk_holds h m pos md l mn mx : installed h m pos -> active_md m = Some md -> h !! pos = Some l ->
  checkChunkIsValid md mn mx = OK () -> has_key l mn.
Proof.
  intros Hi Hmd Hl Hv. pose proof Hi as [_ Hin]. destruct (Hin md Hmd) as (l' & cm & Hl' & Hc & Hok).
  pose proof (mo_chunks_wf _ _ _ Hok) as Hwf. apply (checkChunkIsValid_spec md mn mx Hwf) in Hv as (a & b & Hab & Ha & Hb).
  apply (installed_keys h m pos md l mn Hi Hmd Hl). rewrite (keyBelongs_covered md mn (mo_ranges_wf _ _ _ Hok)).
  apply (mo_ranges _ _ _ Hok). exists a, b. split; [done|]. pose proof (rm_range _ Hwf a b Hab). split; korder.
Qed.

Lemma wrong_state {A} st (m : MigrationSourceManager -> SM Donor A) d : (forall src, dn_source d = Some src -> sm_state src <> st) ->
  ~ survives ((let! s := source in slift (invariant (bool_decide (sm_state s = st))) ;! m s) d).2.
Proof.
  intros H. unfold sbind, source, slift. destruct (dn_source d) as [src|]; [|by intros []].
  rewrite bool_decide_eq_false_2 by auto. by intros [].
Qed.

Lemma in_state_is registered st driver signal d src : in_state registered st driver signal d -> dn_source d = Some src ->
  sm_state src = st.
Proof. intros (_ & src' & E & <- & _) E'. by assert (src' = src) as -> by congruence. Qed.

(** Only one of the shapes has the state. *)
Lemma shape_state d st (P : Donor -> Prop) {A} (m : MigrationSourceManager -> SM Donor A) :
  session_shape d ->
  (created d -> st = kCreated -> P d) -> (cloning kCloning d -> st = kCloning -> P d) ->
  (cloning kCloneCaughtUp d -> st = kCloneCaughtUp -> P d) -> (critical kCriticalSection d -> st = kCriticalSection -> P d) ->
  (critical kCloneCompleted d -> st = kCloneCompleted -> P d) ->
  survives ((let! s := source in slift (invariant (bool_decide (sm_state s = st))) ;! m s) d).2 -> P d.
Proof.
  intros Hs H1 H2 H3 H4 H5 Hr. destruct (dn_source d) as [src|] eqn:E.
  - destruct (decide (sm_state src = st)) as [Est|Hne].
    + destruct Hs as [H|[H|[H|[H|H]]]]; pose proof (in_state_is _ _ _ _ _ _ H E) as Ei; rewrite Ei in Est; auto.
    + exfalso. revert Hr. apply wrong_state. intros src'. rewrite E. by intros [= <-].
  - exfalso. revert Hr. apply wrong_state. intros src'. by rewrite E.
Qed.

Lemma checked_survives m d d' r : checked m d = (d', r) -> survives r -> survives (m d).2.
Proof. unfold checked, sbind. destruct (m d) as [d1 [a|e| |]]; cbn; [done|done|by intros [= <- <-]..]. Qed.

Lemma triple_Ret {S A} (P : S -> Prop) (m : SM S A) Q E s s' a : triple anywhere P m Q E -> P s -> m s = (s', Ret a) -> Q a s'.
Proof. intros H Hs Em. specialize (H s Hs). by rewrite Em in H. Qed.

Lemma method_shape m d d' : session_method m -> session_shape d -> checked m d = (d', Ret ()) -> session_shape d'.
Proof.
  intros Hm Hs E. pose proof (checked_survives _ _ _ _ E I) as Hsv. destruct Hm as [lv a|lv a|lv n st sg|lv a].
  - right; left. apply (triple_Ret _ _ _ _ d _ () (startClone_session lv a)); [|exact E].
    revert Hsv. unfold startClone. apply shape_state; [exact Hs|by intros; try discriminate..].
  - right; right; left. apply (triple_Ret _ _ _ _ d _ () (awaitToCatchUp_session lv a)); [|exact E].
    revert Hsv. unfold awaitToCatchUp. apply shape_state; [exact Hs|by intros; try discriminate..].
  - right; right; right; left. apply (triple_Ret _ _ _ _ d _ () (enterCriticalSection_session lv n st sg)); [|exact E].
    revert Hsv. unfold enterCriticalSection. apply shape_state; [exact Hs|by intros; try discriminate..].
  - right; right; right; right. apply (triple_Ret _ _ _ _ d _ () (commitChunkOnRecipient_session lv a)); [|exact E].
    revert Hsv. unfold commitChunkOnRecipient. apply shape_state; [exact Hs|by intros; try discriminate..].
Qed.

(** What the methods leave as it is: the arguments of the migration, and the
    active metadata. *)
Definition args (d : Donor) : option MoveChunkRequest := sm_args <$> dn_source d.

Lemma args_source : spreserves args source.
Proof. intros d. unfold source. by destruct (dn_source d). Qed.

Lemma args_update f : (forall src, sm_args (f src) = sm_args src) -> spreserves args (update_source f).
Proof. intros H. apply spreserves_modify. intros d. unfold args. cbn. destruct (dn_source d); cbn; [by rewrite H|done]. Qed.

Lemma args_manager {A} (f : MetadataManager -> Outcome (MetadataManager * A)) : spreserves args (on_manager f).
Proof. intros d. unfold on_manager. by destruct (f (dn_manager d)) as [[? ?]|? | |]. Qed.

#[local] Hint Resolve args_source args_manager : state.
#[local] Hint Extern 1 (spreserves args (update_source _)) => apply args_update; reflexivity : state.
#[local] Hint Extern 1 (spreserves args getMetadata) => apply args_manager : state.

Lemma args_cleanup_direct lv : spreserves args (_cleanup lv).
Proof. unfold _cleanup, clearMigrationSourceManager. preserves; reflexivity. Qed.

Lemma args_cleanup lv : spreserves args (cleanupOnError lv).
Proof.
  pose proof (args_cleanup_direct lv) as H. unfold cleanupOnError. preserves. intros d. specialize (H d). destruct (_cleanup lv d) as [d' [[]|e| |]]; try done.
  by destruct (isNotMasterError e).
Qed.

Lemma args_guarded {A} lv (body : SM Donor (StatusWith unit + A)) : spreserves args body -> spreserves args (guarded lv body).
Proof.
  intros H d. specialize (H d). unfold guarded. pose proof (args_cleanup lv) as Hc. destruct (body d) as [d' [[st|a]|e| |]]; try done;
    specialize (Hc d'); destruct (cleanupOnError lv d') as [d'' [[]|e'| |]]; cbn in *; congruence.
Qed.

Lemma method_args m : session_method m -> spreserves args (checked m).
Proof.
  intros Hm. unfold checked. apply spreserves_bind; [|intros st; apply spreserves_lift].
  destruct Hm; unfold startClone, awaitToCatchUp, enterCriticalSection, commitChunkOnRecipient, dismissed, setMigrationSourceManager;
    (apply spreserves_bind; [auto with state|intros src]; apply spreserves_bind; [auto with state|intros []]);
    (apply spreserves_bind; [apply args_guarded|auto with state]); preserves; reflexivity.
Qed.

Section keeps.
Context (h : list (list ChunkDoc)) (pos : nat).

Definition at_position (d : Donor) : Prop := installed h (dn_manager d) pos.

Lemma keeps_position {A} (m : SM Donor A) : spreserves dn_manager m -> triple anywhere at_position m (fun _ => at_position) at_position.
Proof. intros H d Hd. specialize (H d). unfold at_position in *. destruct (m d) as [d' [a|e| |]]; cbn in H; by rewrite ?H. Qed.

Lemma getMetadata_position : triple anywhere at_position getMetadata (fun _ => at_position) at_position.
Proof. intros d Hd. destruct (getMetadata_installs h d pos Hd) as (m' & -> & Hi & _). exact Hi. Qed.

Lemma guarded_position {A} lv (body : SM Donor (StatusWith unit + A)) :
  triple anywhere at_position body (fun _ => at_position) at_position ->
  triple anywhere at_position (guarded lv body) (fun _ => at_position) at_position.
Proof.
  intros Hb d Hd. specialize (Hb d Hd). unfold guarded, at_position in *. destruct (body d) as [d' [[st|a]|e| |]]; try done;
    pose proof (cleanup_manager lv d') as Hm; destruct (cleanupOnError lv d') as [d'' [[]|e'| |]]; cbn in *; by rewrite ?Hm.
Qed.

Lemma method_position m : session_method m -> triple anywhere at_position (checked m) (fun _ => at_position) at_position.
Proof.
  assert (Hp : forall A (m : SM Donor A), spreserves dn_manager m -> triple anywhere at_position m (fun _ => at_position) at_position)
    by (intros; by apply keeps_position).
  intros Hm. unfold checked. eapply triple_bind; [|intros st; apply Hp, spreserves_lift].
  destruct Hm; unfold startClone, awaitToCatchUp, enterCriticalSection, commitChunkOnRecipient, dismissed;
    (eapply triple_bind; [apply Hp, source_preserves|intros src]; eapply triple_bind; [apply Hp, spreserves_lift|intros []];
     eapply triple_bind; [apply guarded_position|intros st; apply Hp, spreserves_ret]).
  - eapply triple_bind; [apply getMetadata_position|]. intros md. apply Hp. unfold setMigrationSourceManager. by preserves.
  - apply Hp. preserves.
  - eapply triple_bind; [apply getMetadata_position|]. intros md. apply Hp. preserves.
  - apply Hp. preserves.
Qed.
End keeps.

Lemma chunk_with_bounds_inv b k : chunk_with_bounds b = Ret k -> chunk_bounds k = Ret b.
Proof.
  unfold chunk_with_bounds. intros (c & E1 & E2)%obind_Ret_inv. unfold setMin in E1. apply obind_Ret_inv in E1 as ([] & _ & [= <-]).
  unfold setMax in E2. apply obind_Ret_inv in E2 as ([] & _ & [= <-]). by destruct b.
Qed.

Lemma controlChunkOf_inv md mn control : controlChunkOf md mn = Ret control ->
  match control with Some k => forall x y, chunk_bounds k = Ret (x, y) -> ~ x ≅k mn | None => True end.
Proof.
  unfold controlChunkOf. destruct (1 <? getNumChunks md); [|by intros [= <-]].
  destruct (getDifferentChunk md mn) as [b|]; [|done]. intros (k & E & (u & Hw & [= <-])%obind_Ret_inv)%obind_Ret_inv.
  intros x y. rewrite (chunk_with_bounds_inv _ _ E). intros [= ->]. cbn in Hw. rewrite wo_eq in Hw.
  rewrite <- keqb_spec. by destruct (keqb x mn).
Qed.

Lemma commitRequest_inv lv h d pos d' r : installed h (dn_manager d) pos -> session_shape d ->
  commitRequest lv d = (d', r) -> survives r ->
  installed h (dn_manager d') pos /\
  ((forall a, r <> Ret (inr a)) \/
   exists request src, r = Ret (inr request) /\ dn_source d = Some src /\ sm_state src = kCloneCompleted /\
     critical kCloneCompleted d' /\ dn_source d' = Some (with_reads_waiting src) /\
     (mc_fromShardId (sm_args src) = shardName -> request_for request (with_reads_waiting src))).
Proof.
  intros Hi Hs E Hsv.
  assert (Hc : critical kCloneCompleted d).
  { assert (H : survives (commitRequest lv d).2) by (by rewrite E). revert H. unfold commitRequest.
    apply shape_state; [exact Hs|by intros; try discriminate..]. }
  destruct Hc as (Hreg & src & Es & Hst & Hdrv & Hsig). unfold commitRequest in E.
  unfold sbind at 1, source in E. rewrite Es in E. unfold sbind at 1, slift at 1 in E. rewrite bool_decide_eq_true_2 in E by done.
  cbn [invariant] in E. destruct (getMetadata_installs h d pos Hi) as (m' & E1 & Hi1 & _).
  destruct (guarded_inv _ _ _ _ _ E Hsv) as [[Eb [request ->]]|(d1 & Eb & Hm & Hn)]; unfold sbind at 1 in Eb; rewrite E1 in Eb.
  - destruct (active_md (dn_manager d)) as [md|]; cbn [checkCollectionEpochMatches] in Eb; [|done].
    destruct (oid_eqb _ _); [|done]. unfold sbind at 1, slift at 1 in Eb.
    destruct (controlChunkOf md _) as [control| | |] eqn:Ec; try done. unfold sbind at 1, slift at 1 in Eb.
    destruct (chunk_with_bounds _) as [migrated| | |] eqn:Em; try done. unfold sbind, update_source, smodify, sret in Eb.
    injection Eb as <- <-. cbn. rewrite Es. split; [done|]. right. eexists _, src. split_and!; try done.
    { split; [done|]. by eexists. }
    intros Hf. split_and!; [done|by apply chunk_with_bounds_inv|by eapply controlChunkOf_inv].
  - rewrite Hm. split; [|by left]. destruct (active_md (dn_manager d)) as [md|]; cbn [checkCollectionEpochMatches] in Eb;
      [|injection Eb as <- <-; done]. destruct (oid_eqb _ _); [|injection Eb as <- <-; done]. unfold sbind at 1, slift at 1 in Eb.
    destruct (controlChunkOf md _) as [control|? | |]; try (injection Eb as <- <-; done). unfold sbind at 1, slift at 1 in Eb.
    destruct (chunk_with_bounds _) as [migrated|? | |]; try (injection Eb as <- <-; done).
Qed.

(** * Every step keeps the invariant *)

Lemma installed_none h m pos pos' : installed h m pos -> active_md m = None -> installed h m pos'.
Proof. intros [Hu _] Ha. split; [done|]. by rewrite Ha. Qed.

(** A session is left: the metadata is not from before the commit. *)
Lemma leaving_grows h d pos applied src : committing h d pos applied src -> (default 0%nat applied <= pos)%nat -> grows_from h pos.
Proof.
  intros (_ & _ & _ & H) Hle. destruct applied as [pc|]; [|apply H]. cbn in Hle. eapply grows_later; [exact Hle|apply H].
Qed.

Lemma applied_bound h d pos applied src : committing h d pos applied src -> (pos < List.length h)%nat ->
  (default 0%nat applied < List.length h)%nat.
Proof.
  intros (_ & _ & _ & H) Hlt. destruct applied as [pc|]; [|cbn; lia].
  destruct H as (_ & _ & l0 & l1 & b & -> & _ & H1 & _). by apply lookup_lt_Some in H1.
Qed.

(** Metadata without the chunk is from after the commit. *)
Lemma without_chunk_after h d m pos applied src md : installed h m pos -> (pos < List.length h)%nat ->
  committing h d pos applied src -> active_md m = Some md ->
  keyBelongsToMe md (_minKey (mc_range (sm_args src))) = false -> (default 0%nat applied <= pos)%nat.
Proof.
  intros Hi Hlt (_ & _ & _ & H) Hmd Hk. destruct applied as [pc|]; [|cbn; lia]. cbn.
  destruct (Nat.le_gt_cases pc pos) as [?|Hgt]; [done|]. destruct (lookup_lt_is_Some_2 h pos Hlt) as [l Hl].
  destruct H as (_ & Hh & _). specialize (Hh pos l ltac:(lia) Hl).
  apply (installed_keys h m pos md l _ Hi Hmd Hl) in Hh. congruence.
Qed.

(** The last refresh is from after the commit, whether its table is taken or
    there is a newer one. *)
Lemma last_refresh_after h m d pos applied src cm e pos' : history h -> installed h m pos -> (pos < List.length h)%nat ->
  committing h d pos applied src ->
  refresh_answer h m pos (default 0%nat applied) (Ret (Some cm)) e pos' -> orderly_load m pos e -> (default 0%nat applied <= pos')%nat.
Proof.
  intros Hh [_ Hi] Hlt (_ & _ & _ & H) Hrf Ho. destruct applied as [pc|]; [|cbn; lia]. cbn in *.
  inversion Hrf as [| |p l cm' Hp Hc Ecm Ee Epos]. subst cm' e pos'. destruct Ho as [Hg Hlow].
  destruct (active_md m) as [md|] eqn:Em; [|cbn; lia]. destruct (Hi md eq_refl) as (l0 & cm0 & Hl0 & Hc0 & Hmd).
  destruct (hs_state _ _ _ _ _ _ _ Hh p l Hp) as [Hcat _]. destruct (hs_state _ _ _ _ _ _ _ Hh pos l0 Hl0) as [Hcat0 _].
  rewrite (already_newer_spec h pos l0 cm0 md cm l Hh Hl0 Hc0 Hmd Hcat Hc).
  destruct (Z.leb_spec (toLong (cm_collectionVersion cm)) (toLong (cm_collectionVersion cm0))) as [Hle|Hgt]; [|done].
  destruct (Nat.le_gt_cases pc pos) as [?|Hpp]; [done|]. exfalso.
  destruct H as (_ & _ & x0 & x1 & b & Eb & H0 & H1 & Hn).
  destruct (history_between _ _ _ _ _ _ h pos b l0 x0 Hh ltac:(lia) Hl0 H0) as [Ha _].
  destruct (history_between _ _ _ _ _ _ h pc p x1 l Hh Hlow H1 Hp) as [Hb _].
  pose proof (newer_later ns l0 x0 x1 l Ha Hn Hb) as Hnew.
  pose proof (caches_version_lt _ _ _ _ _ cm0 cm l0 l Hcat0 Hcat Hc0 Hc Hnew). lia.
Qed.

Lemma ok_donor c h d pos ph d' pos' ph' : system_ok (mkSystem c h d pos ph) -> (pos' < List.length h)%nat ->
  installed h (dn_manager d') pos' -> phase_ok h d' pos' ph' -> system_ok (mkSystem c h d' pos' ph').
Proof. intros [H1 H2 _ _ _] ? ? ?. by split. Qed.

Lemma step_commit_ok c h d pos ph q : system_ok (mkSystem c h d pos ph) -> others_request shardName q ->
  request_ok snprintf_g16 ns (cfg_chunks c) q -> system_ok (mkSystem (run q c) (h ++ [cfg_chunks (run q c)]) d pos ph).
Proof.
  intros [H1 H2 H3 H4 H5] Ho Hq. cbn in *. pose proof H1 as Hl. rewrite last_lookup in Hl.
  destruct (hs_state _ _ _ _ _ _ _ H2 _ _ Hl) as [Hcat _]. destruct (other_commit_ok _ _ _ _ _ _ _ _ Hcat Hq Ho) as [Hok Hk].
  split; cbn; [by rewrite last_snoc|by eapply history_snoc|rewrite length_app; cbn; lia|by apply installed_snoc|].
  by eapply phase_ok_snoc.
Qed.

Lemma step_apply_ok c h d pos request : system_ok (mkSystem c h d pos (Requested request None)) ->
  let c' := run (request_commit request) c in
  orderly (mkSystem c h d pos (Requested request None)) (Applied request) -> cfg_chunks c' <> cfg_chunks c ->
  system_ok (mkSystem c' (h ++ [cfg_chunks c']) d pos (Requested request (Some (List.length h)))).
Proof.
  intros [H1 H2 H3 H4 (src & Hc & Hf & Hb & Hctl)] c' [Hq Hsole] Hne. cbn [sy_config sy_history sy_donor sy_position] in *. pose proof H1 as Hl.
  rewrite last_lookup in Hl. destruct (hs_state _ _ _ _ _ _ _ H2 _ _ Hl) as [Hcat _].
  destruct (run_commit_spec _ _ _ _ _ (request_commit request) c Hcat Hq) as [?|(bounds & control & Hb' & Hcof & Hm)]; [done|].
  change (migration_spec snprintf_g16 ns epoch bounds control (cr_fromShard request) (cr_toShard request) (cfg_chunks c) (cfg_chunks c')) in Hm.
  rewrite Hb in Hb'. injection Hb' as <-. rewrite Hf in Hm.
  destruct (own_migration_ok _ _ _ _ _ _ _ _ _ _ _ _ Hcat Hm) as [Hok Hnew].
  { intros ->. apply Hsole with (mx := _maxKey (mc_range (sm_args src))); [by destruct (cr_controlChunk request)|done]. }
  split; cbn; [by rewrite last_snoc|by eapply history_snoc|rewrite length_app; cbn; lia|by apply installed_snoc|].
  exists src. split; [|done]. destruct Hc as (C1 & C2 & C3 & Hg & l & Hpl & Hk).
  do 3 (split; [done|]). split_and!.
  - apply grows_last.
  - intros i x Hi Hx. rewrite lookup_app_l in Hx by lia. exact (Hg pos i l x ltac:(lia) Hpl Hx _ Hk).
  - exists (cfg_chunks c), (cfg_chunks c'), (Nat.pred (List.length h)). split_and!; [lia|by apply lookup_app_l_Some| |done].
    by rewrite lookup_app_r, Nat.sub_diag by lia.
Qed.

Lemma step_refresh_ok c h d pos ph routing e pos' d' r : system_ok (mkSystem c h d pos ph) ->
  refresh_answer h (dn_manager d) pos 0 routing e pos' -> orderly_load (dn_manager d) pos e -> refreshMetadataNow shardName routing d = (d', r) ->
  system_ok (mkSystem c h d' pos' ph).
Proof.
  intros Hy Hrf Ho E. pose proof Hy as [_ Hh Hlt Hi Hp]. cbn in *. pose proof (refreshes_later _ _ _ _ _ _ _ Hh Hlt Hi Hrf Ho) as [Hle Hlt'].
  destruct (refresh_installs h d pos 0 routing e pos' Hh Hi Hrf) as (m' & st & E' & Hi' & _).
  rewrite E in E'. injection E' as -> _. eapply ok_donor; [exact Hy|done|exact Hi'|]. by eapply phase_ok_later.
Qed.

Lemma step_start_ok c h d pos request routing e pos' exists_ d' : system_ok (mkSystem c h d pos Idle) ->
  mc_fromShardId request = shardName -> refresh_answer h (dn_manager d) pos 0 routing e pos' -> orderly_load (dn_manager d) pos e ->
  newMigrationSourceManager shardName request routing exists_ d = (d', Ret ()) -> system_ok (mkSystem c h d' pos' Session).
Proof.
  intros Hy Hf Hrf Ho E. pose proof Hy as [_ Hh Hlt Hi [Hp [Hreg _]]]. cbn in *.
  pose proof (refreshes_later _ _ _ _ _ _ _ Hh Hlt Hi Hrf Ho) as [Hle Hlt'].
  assert (Hne : mc_fromShardId request <> mc_toShardId request).
  { intros Heq. unfold newMigrationSourceManager in E. by rewrite Heq, String.eqb_refl in E. }
  destruct (constructor_inv h d pos 0 request routing e pos' exists_ d' _ Hh Hi Hrf Hne E) as (m' & Hi' & md & -> & Hmd & Hv).
  destruct (lookup_lt_is_Some_2 h pos' Hlt') as [l Hl].
  eapply ok_donor; [exact Hy|done|exact Hi'|]. split; [by eapply grows_later|]. split.
  - left. split; [done|]. by eexists.
  - eexists _, l. split_and!; [done|done|done|]. by eapply (valid_chunk_holds h m' pos' md).
Qed.

Lemma step_start_fails_ok c h d pos request routing e pos' exists_ d' code : system_ok (mkSystem c h d pos Idle) ->
  refresh_answer h (dn_manager d) pos 0 routing e pos' -> orderly_load (dn_manager d) pos e ->
  newMigrationSourceManager shardName request routing exists_ d = (d', Throw code) ->
  system_ok (mkSystem c h d' (if bool_decide (mc_fromShardId request = mc_toShardId request) then pos else pos') Idle).
Proof.
  intros Hy Hrf Ho E. pose proof Hy as [_ Hh Hlt Hi Hp]. cbn in *. pose proof (refreshes_later _ _ _ _ _ _ _ Hh Hlt Hi Hrf Ho) as [Hle Hlt'].
  destruct (bool_decide_reflect (mc_fromShardId request = mc_toShardId request)) as [Heq|Hne].
  - unfold newMigrationSourceManager in E. rewrite Heq, String.eqb_refl in E. by injection E as <- _.
  - destruct (constructor_inv h d pos 0 request routing e pos' exists_ d' _ Hh Hi Hrf Hne E) as (m' & Hi' & ->).
    eapply ok_donor; [exact Hy|done|exact Hi'|]. apply (phase_ok_later h d pos pos' Idle Hle Hlt' Hp).
Qed.

Lemma method_left m d d' e : session_method m -> session_shape d -> checked m d = (d', Throw e) -> left_migration d'.
Proof.
  intros Hm Hs E. pose proof (checked_survives _ _ _ _ E I) as Hsv.
  assert (Ht : forall P Q, triple anywhere P (checked m) Q left_migration -> P d -> left_migration d').
  { intros P Q Ht Hd. specialize (Ht d Hd). by rewrite E in Ht. }
  destruct Hm as [lv a|lv a|lv n st sg|lv a].
  - apply (Ht _ _ (startClone_session lv a)). revert Hsv. unfold startClone. apply shape_state; [exact Hs|by intros; try discriminate..].
  - apply (Ht _ _ (awaitToCatchUp_session lv a)). revert Hsv. unfold awaitToCatchUp.
    apply shape_state; [exact Hs|by intros; try discriminate..].
  - apply (Ht _ _ (enterCriticalSection_session lv n st sg)). revert Hsv. unfold enterCriticalSection.
    apply shape_state; [exact Hs|by intros; try discriminate..].
  - apply (Ht _ _ (commitChunkOnRecipient_session lv a)). revert Hsv. unfold commitChunkOnRecipient.
    apply shape_state; [exact Hs|by intros; try discriminate..].
Qed.

Lemma step_method_ok c h d pos m d' r : system_ok (mkSystem c h d pos Session) -> session_method m ->
  checked m d = (d', r) -> survives r -> system_ok (mkSystem c h d' pos (if is_Ret r then Session else Over)).
Proof.
  intros Hy Hm E Hsv. pose proof Hy as [_ Hh Hlt Hi (Hg & Hsh & src & l & Es & Hf & Hl & Hk)]. cbn in *.
  assert (Hi' : installed h (dn_manager d') pos).
  { pose proof (method_position h pos m Hm d Hi) as Hpos. rewrite E in Hpos. by destruct r. }
  pose proof (method_args m Hm d) as Ha. rewrite E in Ha. cbn in Ha. unfold args in Ha. rewrite Es in Ha.
  eapply ok_donor; [exact Hy|done|exact Hi'|]. destruct r as [[]|e| |]; [|..|done|done]; cbn [is_Ret].
  - split; [done|]. split; [by eapply method_shape|]. destruct (dn_source d') as [src'|]; [|done]. injection Ha as Ha.
    exists src', l. by rewrite Ha.
  - split; [done|left]. by eapply method_left.
Qed.

Lemma step_request_ok c h d pos lv d' r : system_ok (mkSystem c h d pos Session) -> commitRequest lv d = (d', r) -> survives r ->
  system_ok (mkSystem c h d' pos (match r with Ret (inr request) => Requested request None | _ => Over end)).
Proof.
  intros Hy E Hsv. pose proof Hy as [_ Hh Hlt Hi (Hg & Hsh & src & l & Es & Hf & Hl & Hk)]. cbn in *.
  destruct (commitRequest_inv lv h d pos d' r Hi Hsh E Hsv) as [Hi' [Hn|(request & src' & -> & Es' & _ & Hcr & Ed' & Hrq)]].
  - eapply ok_donor; [exact Hy|done|exact Hi'|].
    assert (Hc : critical kCloneCompleted d).
    { assert (H : survives (commitRequest lv d).2) by (by rewrite E). revert H. unfold commitRequest.
      apply shape_state; [exact Hsh|by intros; try discriminate..]. }
    pose proof (commitRequest_session lv d Hc) as Ht. rewrite E in Ht.
    destruct r as [[st|a]|e| |]; [|by destruct (Hn a)|..|done|done]; (split; [done|left; apply Ht]).
  - assert (src' = src) as -> by congruence. eapply ok_donor; [exact Hy|done|exact Hi'|].
    exists (with_reads_waiting src). split; [|by apply Hrq]. split_and!; [done|done|done|done|by exists l].
Qed.

Lemma step_answer_ok c h d pos request applied lv status log inShutdown accepts d' r :
  system_ok (mkSystem c h d pos (Requested request applied)) ->
  afterCommit lv status log inShutdown accepts d = (d', r) -> survives r ->
  system_ok (match r with
             | Ret (inr _) => mkSystem c h d' pos (Answered applied status true)
             | _ => mkSystem c h d' (position_left d' pos applied) Over
             end).
Proof.
  intros Hy E Hsv. pose proof Hy as [_ Hh Hlt Hi (src & Hc & _)]. cbn in *.
  pose proof (afterCommit_session lv status log inShutdown accepts d (proj1 Hc)) as Ht. rewrite E in Ht.
  destruct (afterCommit_inv _ _ _ _ _ _ _ _ _ _ Hi E Hsv) as [[-> ->]|[[e ->] [Ha Hi']]].
  - eapply ok_donor; [exact Hy|done|exact Hi|by exists src].
  - unfold position_left. rewrite Ha. pose proof (applied_bound _ _ _ _ _ Hc Hlt) as Hb.
    eapply ok_donor; [exact Hy|lia|apply Hi'|]. split; [|by left].
    eapply (leaving_grows h d _ applied src); [|lia]. eapply committing_later; [|lia|exact Hc]. lia.
Qed.

Lemma step_round_ok c h d pos applied status retries lv routing e pos' d' r :
  system_ok (mkSystem c h d pos (Answered applied status retries)) ->
  refresh_answer h (dn_manager d) pos (if (retries : bool) then 0%nat else default 0%nat applied) routing e pos' -> orderly_load (dn_manager d) pos e ->
  refreshRound lv shardName status retries routing d = (d', r) -> survives r ->
  system_ok (match r with
             | Ret (inr None) => mkSystem c h d' pos' (Answered applied status false)
             | Ret (inr (Some _)) => mkSystem c h d' pos' Over
             | _ => mkSystem c h d' (position_left d' pos' applied) Over
             end).
Proof.
  intros Hy Hrf Ho E Hsv. pose proof Hy as [_ Hh Hlt Hi (src & Hc)]. cbn in *.
  pose proof (refreshes_later _ _ _ _ _ _ _ Hh Hlt Hi Hrf Ho) as [Hle Hlt']. pose proof (committing_later _ _ _ _ _ _ Hle Hlt' Hc) as Hc'.
  pose proof (refreshRound_session lv shardName status retries routing d (proj1 Hc)) as Ht. rewrite E in Ht.
  destruct (refreshRound_inv _ _ _ _ _ _ _ _ _ _ src _ _ Hh Hi Hrf (proj1 (proj2 Hc)) E Hsv)
    as [(m' & -> & Hi' & [[-> _]|(v & md & -> & Hmd & Hkey)])|[Hn Hcases]].
  - eapply ok_donor; [exact Hy|done|exact Hi'|by exists src].
  - eapply ok_donor; [exact Hy|done|exact Hi'|]. split; [|by right]. eapply (leaving_grows h d pos' applied src); [done|].
    by eapply without_chunk_after.
  - assert (Hgo : system_ok (mkSystem c h d' (position_left d' pos' applied) Over)).
    2: { destruct r as [[st|a]|code| |]; [exact Hgo|by destruct (Hn a)|exact Hgo|done..]. }
    assert (Hleft : left_migration d').
    { destruct r as [[st|a]|code| |]; [apply Ht|by destruct (Hn a)|apply Ht|done..]. }
    pose proof (applied_bound _ _ _ _ _ Hc Hlt) as Hb. unfold position_left. destruct Hcases as [[Ha Hi']|(-> & (cm & ->) & Hi' & Hs')].
    + rewrite Ha. eapply ok_donor; [exact Hy|lia|apply Hi'|]. split; [|by left].
      eapply (leaving_grows h d _ applied src); [|lia]. eapply committing_later; [|lia|exact Hc]. lia.
    + destruct Hs' as [md ->]. eapply ok_donor; [exact Hy|done|exact Hi'|]. split; [|by left].
      eapply (leaving_grows h d pos' applied src); [done|].
      by apply (last_refresh_after h (dn_manager d) d pos applied src cm e).
Qed.

Lemma step_leave_ok c h d pos lv v d' r : system_ok (mkSystem c h d pos Over) ->
  leaveCriticalSection lv v d = (d', r) -> survives r -> system_ok (mkSystem c h d' pos Over).
Proof.
  intros Hy E Hsv. pose proof Hy as [_ Hh Hlt Hi [Hg Hd]]. cbn in Hh, Hlt, Hi, Hg, Hd.
  assert (Hm : dn_manager d' = dn_manager d).
  { assert (Hp : spreserves dn_manager (leaveCriticalSection lv v)).
    { apply spreserves_bind; [apply spreserves_lift|intros; apply cleanup_preserves]. }
    specialize (Hp d). by rewrite E in Hp. }
  eapply ok_donor; [exact Hy|done|by rewrite Hm|]. split; [done|left].
  unfold leaveCriticalSection, sbind, slift in E. destruct (isSet v); cbn [invariant] in E; [|by injection E as _ <-].
  assert (Hr : running_session d).
  { destruct Hd as [[Hreg (src & Es & _)]|Hc]; [|by eapply in_state_running, Hc]. exists src. split; [done|]. intros Hst.
    unfold _cleanup, sbind, source in E. rewrite Es in E. cbn in E. rewrite bool_decide_eq_false_2 in E by tauto.
    by injection E as _ <-. }
  pose proof (cleanup_leaves lv d Hr) as Ht. rewrite E in Ht. by destruct r.
Qed.

Lemma step_end_ok c h d pos d' : system_ok (mkSystem c h d pos Over) -> destroySourceManager d = (d', Ret ()) ->
  system_ok (mkSystem c h d' pos Idle).
Proof.
  intros Hy E. pose proof Hy as [_ Hh Hlt Hi [Hg Hd]]. cbn in *. unfold destroySourceManager, sbind, source, slift, smodify in E.
  destruct (dn_source d) as [src|] eqn:Es; [|done]. destruct (sm_cloneDriver src) eqn:Edr; cbn in E; [done|]. injection E as <-.
  eapply ok_donor; [exact Hy|done|exact Hi|]. split; [done|]. split; [|done].
  destruct Hd as [[Hreg _]|(_ & src' & Es' & _ & Hdr & _)]; [done|]. rewrite Es in Es'. injection Es' as <-. congruence.
Qed.

Lemma orderly_loads c h d pos ph low routing e pos' : refresh_answer h (dn_manager d) pos low routing e pos' ->
  orderly (mkSystem c h d pos ph) e -> orderly_load (dn_manager d) pos e.
Proof. by intros []. Qed.

Lemma system_step_ok y e y' : system_ok y -> system_step y e y' -> orderly y e -> system_ok y'.
Proof.
  intros Hy Hs. destruct Hs as [c h d pos ph q Hq|c h d pos ph rt e pos' d' r Hrf E|c h d pos ph d' r E|c h d pos ph m' Hu Ha
    |c h d pos rq rt e pos' ex d' Hf Hrf E|c h d pos rq rt e pos' ex d' code Hrf E|c h d pos m d' r Hm E Hsv|c h d pos lv d' r E Hsv
    |c h d pos rq c' Hne|c h d pos rq ap c' Heq|c h d pos rq ap lv st lg sd ac d' r E Hsv
    |c h d pos ap st re lv rt e pos' d' r Hrf E Hsv|c h d pos lv v d' r E Hsv|c h d pos d' E]; intros Ho.
  - by apply step_commit_ok.
  - eapply step_refresh_ok; [done|done|exact (orderly_loads _ _ _ _ _ _ _ _ _ Hrf Ho)|done].
  - pose proof Hy as [_ Hh Hlt Hi Hp]. destruct (clear_installs _ _ _ Hi) as (m' & E' & _ & Hi'). cbn in E'. rewrite E in E'.
    injection E' as -> _. eapply ok_donor; [exact Hy|done|apply Hi'|exact Hp].
  - pose proof Hy as [_ Hh Hlt [_ Hi] Hp]. eapply ok_donor; [exact Hy|done| |exact Hp]. split; [done|].
    cbn [dn_manager set_manager]. by rewrite (active_md_eq _ _ Ha).
  - eapply step_start_ok; [done|done|done|exact (orderly_loads _ _ _ _ _ _ _ _ _ Hrf Ho)|done].
  - eapply step_start_fails_ok; [done|done|exact (orderly_loads _ _ _ _ _ _ _ _ _ Hrf Ho)|done].
  - by eapply step_method_ok.
  - by eapply step_request_ok.
  - by apply step_apply_ok.
  - destruct Hy as [H1 H2 H3 H4 H5]. split; cbn in *; [by rewrite Heq|done..].
  - by eapply step_answer_ok.
  - eapply step_round_ok; [done|done|exact (orderly_loads _ _ _ _ _ _ _ _ _ Hrf Ho)|done|done].
  - by eapply step_leave_ok.
  - by eapply step_end_ok.
Qed.

Lemma newManager_usable : usable newMetadataManager.
Proof. exists []. split; [by vm_compute|]. apply (good_init True []). Qed.

Lemma system_reachable_ok y : system_reachable orderly y -> system_ok y.
Proof.
  induction 1 as [c Hcat Hmaj|y e y' _ IH Hs Ho]; [|by eapply system_step_ok]. split; cbn.
  - done.
  - split.
    + intros i l Hl. apply list_lookup_singleton_Some in Hl as [_ <-]. done.
    + intros i l l' _ Hl'. by apply list_lookup_singleton_Some in Hl' as [? _].
  - lia.
  - split; [apply newManager_usable|]. done.
  - split; [|done]. intros i j li lj _ Hi Hj k. apply list_lookup_singleton_Some in Hi as [_ <-].
    by apply list_lookup_singleton_Some in Hj as [_ <-].
Qed.

(** * Accepted requests *)

Lemma found_owns cm k c : reachable cm -> findIntersectingChunkWithSimpleCollation cm k = Ret c -> owns cm (getShardId c) k.
Proof.
  intros Hr E. rewrite find_simple in E. destruct (cm_chunkMap cm !! _) as [[mx c']|] eqn:El; [|done].
  destruct (chunk_containsKey c' k) eqn:Ec; [|done]. injection E as ->. exists mx, c.
  split_and!; [by eapply list_elem_of_lookup_2|done|by apply chunk_containsKey_spec].
Qed.

Lemma phase_grows h d pos ph isReader : blocked isReader d = false -> phase_ok h d pos ph -> grows_from h pos.
Proof.
  assert (Hc : forall applied src, blocked isReader d = false -> ~ committing h d pos applied src).
  { intros applied src Hb ((Hreg & src' & E' & _ & _ & Hsig) & Es & Hrd & _). assert (src' = src) as -> by congruence.
    unfold blocked, getMigrationCriticalSectionSignal in Hb. rewrite Hreg, Es, Hrd, Hsig in Hb. by destruct isReader. }
  intros Hb. destruct ph as [| |request applied|applied status retries|]; cbn [phase_ok]; [by intros []..| | |by intros []].
  - intros (src & H & _). by destruct (Hc _ _ Hb H).
  - intros (src & H). by destruct (Hc _ _ Hb H).
Qed.

Lemma accepted_owned y i l cm c k isReader d' :
  system_reachable orderly y -> sy_history y !! i = Some l -> caches cm l ->
  findIntersectingChunkWithSimpleCollation cm k = Ret c -> getShardId c = shardName ->
  checkShardVersionOrThrow (Some (getVersion cm shardName)) false isReader (sy_donor y) = (d', Ret ()) ->
  has_key (cfg_chunks (sy_config y)) k /\
  exists md, active_md (dn_manager (sy_donor y)) = Some md /\ keyBelongsToMe md k = true.
Proof.
  intros [H1 Hh Hlt Hi Hp]%system_reachable_ok Hl Hc Hk Hsh E. apply (found_owns _ _ _ (cc_reach _ _ _ _ _ Hc)) in Hk.
  rewrite Hsh in Hk. apply (caches_holds ns lo hi cm l Hc) in Hk. destruct (hs_state _ _ _ _ _ _ _ Hh i l Hl) as [Hcat Hmaj].
  pose proof (caches_major ns lo hi cm l Hc shardName) as Hv.
  assert (Hpos : 0 < majorVersion (getVersion cm shardName)).
  { destruct Hk as (x & Hx & _). destruct Hv as [[Hn _]|[(y0 & [Hy0 _] & <-) _]]; [by destruct (Hn x)|by apply Hmaj]. }
  destruct (proj1 Hi) as (held & Hf & Hok).
  destruct (checkVersion_verdict held (Some (getVersion cm shardName)) isReader (sy_donor y) Hok Hf) as (m' & Ev & _).
  unfold checkShardVersionOrThrow, sbind in E. rewrite Ev in E. unfold version_verdict in E. unfold isIgnoredVersion in E.
  rewrite (proj2 (Z.eqb_neq _ 0)) in E by lia. cbn [andb] in E.
  destruct (blocked isReader (sy_donor y)) eqn:Hb; [done|]. pose proof (phase_grows _ _ _ _ _ Hb Hp) as Hg.
  destruct (oid_eqb _ _); cbn [andb] in E; [|done].
  destruct (Z.eqb_spec (majorVersion (getVersion cm shardName)) (majorVersion (shard_version (sy_donor y)))) as [Heq|]; [|done].
  unfold shard_version in Heq. destruct (active_md (dn_manager (sy_donor y))) as [md|] eqn:Em;
    [|assert (E0 : majorVersion UNSHARDED = 0) by (vm_compute; reflexivity); rewrite E0 in Heq; lia].
  destruct (proj2 Hi md Em) as (l0 & cm0 & Hl0 & Hc0 & Hmd). unfold getShardVersion in Heq. rewrite (mo_version _ _ _ Hmd) in Heq.
  pose proof (caches_major ns lo hi cm0 l0 Hc0 shardName) as Hv0. rewrite <- Heq in Hv0.
  assert (Hk0 : has_key l0 k) by (by apply (history_equal_major _ _ _ _ _ _ _ i _ l _ _ Hh Hl Hl0 Hv Hv0)).
  split; [|exists md; split; [done|by eapply (installed_keys _ _ _ md l0)]].
  rewrite last_lookup in H1. 
  exact (Hg (sy_position y) (Nat.pred (List.length (sy_history y))) l0 _ ltac:(lia) Hl0 H1 k Hk0).
Qed.
End system.
