(* ===== verification/VersionGaps.v ===== *)
(** What the discipline of the shard's state machine is needed for: a migration
    without control chunk that leaves the version of the donor as it was, and a
    table from before a migration that is installed after it. *)

From stdpp Require Import base list sorting strings.
From Stdlib Require Import ZArith Lia String.
From S2P Require Import Prelude OrdMap Tiling Bson Text ChunkVersion ChunkType ShardKey Chunk ChunkManager ConfigChunks ConfigCatalog ConfigRefresh RangeMap CollectionMetadata MetadataManager RangeDeletion RangeSafety RangeTask MigrationSource MigrationSession VersionProtocol ShardSystem.
Local Open Scope Z_scope.
Local Open Scope list_scope.
Local Open Scope outcome_scope.
Local Open Scope state_scope.

Section gaps.
Context (snprintf_g16 : Dbl -> string) (ns : string) (epoch : OID) (lo hi : BSONObj).
Abbreviation catalog := (catalog snprintf_g16 ns epoch lo hi).
Abbreviation caches := (caches ns lo hi).
Abbreviation migration_spec := (migration_spec snprintf_g16 ns epoch).

(** * The key that moves *)

Lemma migration_replaces_one migrated control s t l l' : migration_spec migrated control s t l l' ->
  exists m m' old new, d_shard m = s /\ d_shard m' = t /\ d_min m = migrated.1 /\ d_min m' = migrated.1 /\
    m ∈ old /\ m' ∈ new /\ old <> [] /\ replaces snprintf_g16 ns epoch old new l l' /\
    (control = None -> old = [m] /\ new = [m']).
Proof.
  intros (m & m' & Hs & Ht & Hm & Hm' & _ & _ & _ & H). destruct control as [[[x y] j]|].
  - destruct H as (k & k' & _ & _ & _ & _ & _ & _ & _ & Hr). exists m, m', [m; k], [m'; k']. split_and!; try done; left.
  - exists m, m', [m], [m']. split_and!; try done; left.
Qed.

Lemma moved_key migrated control s t l l' : catalog l -> migration_spec migrated control s t l l' ->
  catalog l' /\ (lo ≼ migrated.1 /\ migrated.1 ≺ hi) /\ has_key ns s l migrated.1 /\ has_key ns t l' migrated.1 /\
  (t <> s -> ~ has_key ns s l' migrated.1).
Proof.
  intros Hcat (m & m' & old & new & Hs & Ht & Hm & Hm' & Hin & Hin' & Hne & Hr & _)%migration_replaces_one.
  pose proof (catalog_replaces _ _ _ _ _ _ _ _ _ Hcat Hr) as Hcat'.
  pose proof (rp_old _ _ _ _ _ _ _ Hr m Hin) as Hd. destruct (ct_range _ _ _ _ _ _ Hcat m Hd) as (H1 & H2 & H3).
  pose proof (proj2 (replaces_docs _ _ _ _ _ _ _ m' Hr) (or_introl Hin')) as Hd'.
  destruct (ct_range _ _ _ _ _ _ Hcat' m' Hd') as (_ & H2' & _). rewrite Hm in *. rewrite Hm' in *.
  assert (Hc' : covers m' migrated.1) by (split; [rewrite Hm'; korder|done]). split_and!; [done|done|korder| | |].
  - exists m. split; [done|]. split; [rewrite Hm; korder|done].
  - by exists m'.
  - intros Hts (d & [Hdd Hds] & Hdc). apply Hts. rewrite <- Ht, <- Hds. f_equal. by apply (ct_unique _ _ _ _ _ _ Hcat' m' d migrated.1).
Qed.

(** * Versions *)

Lemma getVersion_epoch cm l s : catalog l -> caches cm l -> _epoch (getVersion cm s) = epoch.
Proof.
  intros Hcat Hcc. destruct (getVersion_max cm s (cc_reach _ _ _ _ _ Hcc)) as (H1 & H2 & H3).
  destruct (caches_version _ _ _ _ _ _ _ Hcat Hcc) as [He _]. destruct (decide (s ∈ getAllShardIds cm)) as [Hin|Hn].
  - destruct (H1 (proj1 H3 Hin)) as [(k & c & Hk & _ & <-) _]. destruct (cc_entry _ _ _ _ _ Hcc k c Hk) as (d & Hd & _ & _ & _ & ->).
    by apply (ct_epoch _ _ _ _ _ _ Hcat).
  - rewrite H2; [done|]. intros k c Hk Hs. apply Hn, H3. eauto.
Qed.

(** A shard whose metadata has the major version of a table accepts the requests of
    routers with that table. *)
Lemma accepts_equal_major cm l cm0 l0 s md d isReader : catalog l -> caches cm l -> catalog l0 -> caches cm0 l0 ->
  usable (dn_manager d) -> dn_registered d = false -> active_md (dn_manager d) = Some md -> metadata_ok cm0 s md ->
  majorVersion (getVersion cm s) = majorVersion (getVersion cm0 s) ->
  exists m', checkShardVersionOrThrow (Some (getVersion cm s)) false isReader d = (set_manager m' d, Ret ()).
Proof.
  intros Hcat Hcc Hcat0 Hcc0 (held & Hf & Hok) Hr Hmd Hm Heq.
  destruct (checkVersion_verdict held (Some (getVersion cm s)) isReader d Hok Hf) as (m' & E & _). exists m'.
  unfold checkShardVersionOrThrow, sbind. rewrite E. unfold version_verdict, blocked, shard_version. rewrite Hr, Hmd. cbn [andb].
  unfold getShardVersion. rewrite (mo_version _ _ _ Hm), (getVersion_epoch cm l s Hcat Hcc), (getVersion_epoch cm0 l0 s Hcat0 Hcc0), Heq.
  rewrite (proj2 (oid_eqb_eq epoch epoch) eq_refl), Z.eqb_refl. by destruct (isIgnoredVersion _).
Qed.

(** The table sends the key to the shard that has it. *)
Lemma routes_to_owner cm l s k : catalog l -> caches cm l -> lo ≼ k -> k ≺ hi -> has_key ns s l k ->
  exists ch, findIntersectingChunkWithSimpleCollation cm k = Ret ch /\ getShardId ch = s.
Proof.
  intros Hcat Hcc H1 H2 (x & [Hx Hs] & Hc). destruct (caches_route _ _ _ _ _ cm l k Hcat Hcc H1 H2) as (ch & d & E & Hd & Hdc & Hdesc).
  exists ch. split; [done|]. destruct Hdesc as (_ & _ & -> & _). rewrite <- Hs. f_equal. by apply (ct_unique _ _ _ _ _ _ Hcat d x k).
Qed.

Lemma shard_major_unique s l v w : shard_major ns s l v -> shard_major ns s l w -> v = w.
Proof.
  intros [[Hn ->]|[(d & Hd & <-) Hm]] [[Hn' ->]|[(d' & Hd' & <-) Hm']]; [done|by destruct (Hn d')|by destruct (Hn' d)|].
  specialize (Hm d' Hd'). specialize (Hm' d Hd). lia.
Qed.

(** Without control chunk the donor's major version is that of its other chunks. *)
Lemma major_unchanged mn mx s t l l' (other : ChunkDoc) cm cm' : catalog l -> migration_spec (mn, mx) None s t l l' -> t <> s ->
  doc_on ns s l other -> ~ d_min other ≅k mn -> (forall x, doc_on ns s l x -> major x <= major other) ->
  caches cm l -> caches cm' l' -> majorVersion (getVersion cm' s) = majorVersion (getVersion cm s).
Proof.
  intros Hcat Hsp Hts Ho Hne Hmax Hcc Hcc'.
  destruct (migration_replaces_one _ _ _ _ _ _ Hsp) as (m & m' & old & new & Hs & Ht & Hm & _ & _ & _ & _ & Hr & Hone).
  destruct (Hone eq_refl) as [-> ->]. cbn in Hm.
  pose proof (fun d => replaces_docs _ _ _ _ _ _ _ d Hr) as Hdocs.
  assert (Ho' : doc_on ns s l' other).
  { destruct Ho as [Hd Hsh]. split; [|done]. apply Hdocs. right. split; [done|]. intros ->%list_elem_of_singleton. apply Hne. rewrite Hm. korder. }
  assert (Hback : forall x, doc_on ns s l' x -> doc_on ns s l x).
  { intros x [Hx Hsx]. split; [|done]. apply Hdocs in Hx as [->%list_elem_of_singleton|[? _]]; [congruence|done]. }
  transitivity (major other).
  - eapply shard_major_unique; [by apply (caches_major ns lo hi cm' l')|]. right. split; [by exists other|auto].
  - eapply shard_major_unique; [|by apply (caches_major ns lo hi cm l)]. right. split; [by exists other|auto].
Qed.

(** * The donor's request *)

Lemma request_applied request c mn mx : catalog (cfg_chunks c) -> request_ok snprintf_g16 ns (cfg_chunks c) (request_commit request) ->
  chunk_bounds (cr_migratedChunk request) = Ret (mn, mx) ->
  let l' := cfg_chunks (run_commit snprintf_g16 ns (request_commit request) c) in
  l' <> cfg_chunks c ->
  exists control, control_of (cr_controlChunk request) control /\
    migration_spec (mn, mx) control (cr_fromShard request) (cr_toShard request) (cfg_chunks c) l'.
Proof.
  intros Hcat Hq Hb l' Hne. destruct (run_commit_spec _ _ _ _ _ (request_commit request) c Hcat Hq)
    as [?|(bounds & control & Hb' & Hcof & Hm)]; [done|]. rewrite Hb in Hb'. injection Hb' as <-. by exists control.
Qed.

(** A failed refresh after the commit clears the metadata and ends with the status
    of the commit. *)
Lemma failed_round_clears lv s status retries code d d1 r :
  critical kCloneCompleted d -> usable (dn_manager d) -> ShardId_isValid s = true -> isDBException code = true ->
  refreshRound lv s status retries (Throw code) d = (d1, r) -> survives r ->
  r = Ret (inl status) /\ active_md (dn_manager d1) = None /\ usable (dn_manager d1) /\ dn_registered d1 = false.
Proof.
  intros Hc Hu Hs Hx E Hsv. pose proof (refreshRound_session lv s status retries (Throw code) d Hc) as Ht. rewrite E in Ht.
  pose proof Hc as (_ & src & Es & _). destruct (clear_usable d Hu) as (m' & Ec & Hu' & Ha).
  destruct (guarded_inv _ _ _ _ _ E Hsv) as [[Eb [a ->]]|(d2 & Eb & Hm & Hn)]; unfold sbind at 1, source in Eb; rewrite Es in Eb;
    unfold sbind in Eb; rewrite (refreshNow_fails _ _ _ Hs Hx), Ec in Eb; [done|].
  injection Eb as <- <-. rewrite Hm. split_and!; [done|done|done|]. destruct Ht as [_ Ht]. apply Ht.
Qed.
End gaps.
