(* ===== verification/MigrationTotal.v ===== *)
(** A migration ends: when the processes around it answer and the metadata stays
    well formed, moveChunk returns or throws, and no invariant on its way fails. *)

From stdpp Require Import base list sorting strings.
From Stdlib Require Import ZArith Lia String.
From S2P Require Import Prelude OrdMap Tiling Bson ChunkVersion ChunkType ShardKey Chunk ChunkManager RangeMap CollectionMetadata MetadataManager RangeDeletion RangeSafety RangeTask MigrationSource MigrationSession VersionProtocol ShardSystem.
Local Open Scope Z_scope.
Local Open Scope list_scope.
Local Open Scope outcome_scope.
Local Open Scope state_scope.

(** * Cleaning up a range *)

Lemma cleanUpRange_usable r when m : usable m -> is_Some (active_md m) -> valid_range r ->
  exists m' n, cleanUpRange r when m = Ret (m', n) /\ usable m'.
Proof.
  intros (held & Hf & Hok) Ha Hr. assert (Hne : mm_metadata m <> []).
  { intros E. rewrite (active_md_none _ E) in Ha. by destruct Ha. }
  unfold cleanUpRange. rewrite nonempty_invariant by done.
  destruct (findNewest_ok held m r Hok Hr Hne) as (found & -> & Hn). cbn [obind].
  destruct (bool_decide_reflect (found = last (mm_metadata m))) as [El|El]; [do 2 eexists; split; [done|by exists held]|].
  destruct (rangeMapOverlaps _ _ _); [do 2 eexists; split; [done|by exists held]|]. destruct found as [i|].
  - destruct Hn as (Hi & _ & _). destruct (tracker_ok held i m Hok Hi) as (t & -> & Ht). cbn [obind]. do 2 eexists.
    split; [reflexivity|]. exists held. split; [done|]. by apply postpone_ok.
  - destruct (pushRange_ok held m r when Hok Hne Hr) as (m' & -> & Hq & _). cbn [obind]. do 2 eexists.
    split; [reflexivity|]. exists held. split; [done|by eapply queued_ok].
Qed.

(** * What the environment answers *)

(** A routing table that a refresh can bring. *)
Definition table_ok (cm : ChunkManager) : Prop :=
  reachable cm /\ exists lo hi, tiling getMin lo (cm_chunkMap cm) hi.

Definition routing_ok (r : Outcome (option ChunkManager)) : Prop :=
  match r with
  | Ret (Some cm) => table_ok cm
  | Ret None => True
  | Throw e => isDBException e = true
  | _ => False
  end.

(** The metadata is well formed and made from a routing table. *)
Definition keeps (shardName : ShardId) (m : MetadataManager) : Prop :=
  usable m /\ forall md, active_md m = Some md -> exists cm, table_ok cm /\ metadata_ok cm shardName md.

(** An answer is a value or an exception; what runs in a destructor throws only
    when the node has stepped down. *)
Definition quiet (o : Outcome unit) : Prop :=
  match o with Ret _ => True | Throw e => isNotMasterError e = true | _ => False end.

Record env_ok (shardName : ShardId) (request : MoveChunkRequest) (env : MigrationEnv) : Prop := {
  eo_range : valid_range (mc_range request) /\ _minKey (mc_range request) <> [] /\ _maxKey (mc_range request) <> [];
  eo_leaving : quiet (lv_cancelClone (me_leaving env)) /\ quiet (lv_flush (me_leaving env));
  eo_refresh : routing_ok (me_refresh env) /\ forall b, routing_ok (me_commitRefresh env b);
  eo_cloner : survives (me_startClone env) /\ survives (me_awaitCatchUp env) /\ survives (me_commitClone env);
  eo_writes : survives (me_notifyChangeStreams env) /\ survives (me_startMetadataOp env) /\ survives (me_signalSecondaries env);
  eo_waited n : survives (me_waited env n);
  (** after a failed commit the config server can be written, or the node has stepped down *)
  eo_logChange : me_logChange env = OK () \/ me_inShutdown env = false /\ me_canAcceptWrites env = false;
  eo_other n m : keeps shardName m -> keeps shardName (me_other env n m);
  (** the metadata does not change between the constructor and the start of the
      clone, and is not cleared right after the commit *)
  eo_other_start m : active (me_other env 0 m) = active m;
  eo_other_end m : is_Some (active_md m) -> is_Some (active_md (me_other env 8 m))
}.

(** The commit succeeded, and the metadata, at least as new as the table that
    was then read, still has the chunk. *)
Definition commit_missed (request : MoveChunkRequest) (env : MigrationEnv) (d : Donor) : Prop :=
  exists q cm md, migrationCommitStatus (me_configCommit env q) = OK () /\ me_commitRefresh env false = Ret (Some cm) /\
    active_md (dn_manager d) = Some md /\ already_newer (Some md) cm = true /\ keyBelongsToMe md (_minKey (mc_range request)) = true.

Section total.
Context (shardName : ShardId) (request : MoveChunkRequest) (env : MigrationEnv).
Context (Hvalid : ShardId_isValid shardName = true) (Henv : env_ok shardName request env).
(** Where the process may end: not at all, but for an unseen commit. *)
Context (X : Donor -> Prop) (HX : forall d, commit_missed request env d -> X d).
Abbreviation lv := (me_leaving env).

(** The session, with its arguments, and the metadata. *)
Definition holding (a : option MoveChunkRequest) (I : Donor -> Prop) (d : Donor) : Prop :=
  I d /\ args d = a /\ keeps shardName (dn_manager d).

Abbreviation within := (holding (Some request)).

Definition driving (d : Donor) : Prop := dn_registered d = true /\ running_session d.

(** * Building blocks *)

Lemma within_manager a I m d : manager_free I -> holding a I d -> keeps shardName m -> holding a I (set_manager m d).
Proof. intros HI (H1 & H2 & H3) Hm. split_and!; [by apply HI|exact H2|exact Hm]. Qed.

Lemma getMetadata_total a I E : manager_free I ->
  triple X (holding a I) getMetadata (fun md d => holding a I d /\ md = active_md (dn_manager d)) E.
Proof.
  intros HI d Hd. pose proof Hd as (_ & _ & Hu & Hk). destruct (getMetadata_usable d Hu) as (m' & E' & Hu' & Ha%active_md_eq).
  rewrite E'. split; [|by cbn; rewrite Ha]. apply within_manager; [done..|]. split; [done|]. by rewrite Ha.
Qed.

Lemma clear_total I E : manager_free I -> triple X (within I) (refreshMetadata None) (fun _ => within I) E.
Proof.
  intros HI d Hd. destruct (clear_usable d (proj1 (proj2 (proj2 Hd)))) as (m' & E' & Hu' & Ha). rewrite E'.
  apply within_manager; [done..|]. split; [done|]. by rewrite Ha.
Qed.

Lemma answer_total {A} (P E : Donor -> Prop) (o : Outcome A) : survives o -> (forall d, P d -> E d) -> triple X P (slift o) (fun _ => P) E.
Proof. intros Ho HE d Hd. cbn. destruct o; [done|by apply HE|done..]. Qed.

Lemma others_total I n E : manager_free I -> triple X (within I) (others env n) (fun _ => within I) E.
Proof. intros HI d Hd. apply within_manager; [done..|]. apply (eo_other _ _ _ Henv), Hd. Qed.

(** A refresh ends with a status; the metadata after an OK with a table is at
    least as new as the table. *)
Lemma refreshNow_total a I routing E : manager_free I -> routing_ok routing ->
  triple X (holding a I) (refreshMetadataNow shardName routing)
    (fun st d => holding a I d /\ match st with
       | OK _ => forall md, active_md (dn_manager d) = Some md -> exists cm, routing = Ret (Some cm) /\ already_newer (Some md) cm = true
       | NotOK _ => True
       end) E.
Proof.
  intros HI Hr d Hd. pose proof Hd as (_ & _ & Hu & Hk). destruct routing as [[cm|]|e| |]; [| | |done..].
  - destruct Hr as (Hre & lo & hi & Ht).
    destruct (refreshNow_takes cm shardName lo hi d Hvalid Hre Ht Hu) as (m' & v & -> & Hu' & Htk). unfold takes in Htk.
    cbn [dn_manager set_manager]. destruct (already_newer (active_md (dn_manager d)) cm) eqn:En.
    + split; [apply within_manager; [done..|]; split; [done|]; by rewrite Htk|]. rewrite Htk. intros md Hmd.
      exists cm. split; [done|]. by rewrite <- Hmd.
    + destruct Htk as (md & Hmd & Hok). split.
      * apply within_manager; [done..|]. split; [done|]. rewrite Hmd. intros ? [= <-]. exists cm. split; [|done].
        split; [done|]. by exists lo, hi.
      * rewrite Hmd. intros ? [= <-]. exists cm. split; [done|]. cbn. unfold getCollVersion. rewrite (mo_cm _ _ _ Hok).
        unfold version_ge. by rewrite (proj2 (oid_eqb_eq _ _) eq_refl), Z.leb_refl.
  - destruct (refreshNow_unsharded shardName d Hvalid Hu) as (m' & -> & Hu' & Ha). split.
    + apply within_manager; [done..|]. split; [done|]. by rewrite Ha.
    + cbn. by rewrite Ha.
  - rewrite (refreshNow_fails _ _ _ Hvalid Hr). by split.
Qed.

(** The cleanup of a registered migration. *)
Lemma cleanup_survives d : driving d -> survives (_cleanup lv d).2.
Proof.
  intros [Hreg (s & Es & Hs)]. pose proof (eo_leaving _ _ _ Henv) as [Hc Hf].
  unfold _cleanup, clearMigrationSourceManager, sbind, source, sget, slift, smodify, update_source.
  rewrite Es, bool_decide_eq_true_2, Hreg by done. cbn.
  destruct (sm_cloneDriver s); [destruct (lv_cancelClone lv); cbn; try done|cbn];
    (destruct (bool_decide _ || bool_decide _); [destruct (lv_flush lv)|]; done).
Qed.

Lemma cleanup_total : triple X driving (_cleanup lv) (fun _ => left_migration) left_migration.
Proof.
  intros d [Hreg Hrun]. pose proof (cleanup_leaves lv d Hrun) as H. destruct Hrun as (s & Es & Hs).
  pose proof (cleanup_survives d (conj Hreg (ex_intro _ s (conj Es Hs)))) as Hsv.
  destruct (_cleanup lv d) as [d' [[]|e| |]]; done.
Qed.

Lemma cleanup_quiet d d' e : _cleanup lv d = (d', Throw e) -> running_session d -> dn_registered d = true -> isNotMasterError e = true.
Proof.
  intros E (s & Es & Hs) Hreg. pose proof (eo_leaving _ _ _ Henv) as [Hc Hf].
  unfold _cleanup, clearMigrationSourceManager, sbind, source, sget, slift, smodify, update_source in E.
  rewrite Es, bool_decide_eq_true_2, Hreg in E by done. cbn in E.
  destruct (sm_cloneDriver s); [destruct (lv_cancelClone lv); cbn in E; try done; try (by injection E as _ <-)|cbn in E];
    (destruct (bool_decide _ || bool_decide _); [destruct (lv_flush lv); try done; by injection E as _ <-|done]).
Qed.

Lemma cleanupOnError_total d : driving d -> exists d', cleanupOnError lv d = (d', Ret ()) /\ left_migration d'.
Proof.
  intros Hd. pose proof Hd as [Hreg Hrun]. pose proof (cleanup_leaves lv d Hrun) as Hl.
  pose proof (cleanup_survives d Hd) as Hsv.
  pose proof (cleanup_quiet d) as Hq. pose proof Hrun as (s & Es & Hs). unfold cleanupOnError, sbind, source.
  rewrite Es, bool_decide_eq_false_2 by done. destruct (_cleanup lv d) as [d' [[]|e| |]]; [by exists d'| |done..].
  rewrite (Hq d' e eq_refl Hrun Hreg). by exists d'.
Qed.

Lemma guarded_total {A} P (F : StatusWith unit -> Prop) (body : SM Donor (StatusWith unit + A)) (Q : A -> Donor -> Prop) :
  triple X P body (fun r d => match r with inl st => F st /\ driving d | inr a => Q a d end) driving ->
  triple X P (guarded lv body) (fun r d => match r with inl st => F st /\ left_migration d | inr a => Q a d end) left_migration.
Proof.
  intros Hb d Hd. specialize (Hb d Hd). unfold guarded. destruct (body d) as [d1 [[st|a]|e| |]]; try done.
  - destruct Hb as [HF Hb]. destruct (cleanupOnError_total d1 Hb) as (d2 & -> & Hl). done.
  - destruct (cleanupOnError_total d1 Hb) as (d2 & -> & Hl). done.
Qed.

(** * The methods *)

Lemma enter_total st P m Q E : (forall d, P d -> exists s, dn_source d = Some s /\ sm_state s = st) ->
  (forall s, triple X (fun d => P d /\ dn_source d = Some s) (checked (m s)) Q E) ->
  triple X P (checked (let! s := source in slift (invariant (bool_decide (sm_state s = st))) ;! m s)) Q E.
Proof.
  intros HP H d Hd. destruct (HP d Hd) as (s & Es & Hs). unfold checked, sbind, source, slift. rewrite Es, bool_decide_eq_true_2 by done.
  exact (H s d (conj Hd Es)).
Qed.

Lemma dismissed_total P body (Q : Donor -> Prop) :
  triple X P body (fun r d => match r with inl st => is_error st /\ driving d | inr _ => Q d end) driving ->
  triple X P (checked (dismissed (guarded lv body))) (fun _ => Q) left_migration.
Proof.
  intros Hb d Hd. pose proof (guarded_total P is_error body (fun _ => Q) Hb d Hd) as H.
  unfold checked, dismissed, sbind. destruct (guarded lv body d) as [d' [[st|[]]|e| |]]; try done; cbn.
  by destruct H as [[e ->] H].
Qed.

Lemma within_state registered st driver signal d : within (in_state registered st driver signal) d ->
  exists s, dn_source d = Some s /\ sm_state s = st.
Proof. intros ((_ & s & Es & Hs & _) & _). by exists s. Qed.

Lemma within_driving st driver signal d : st <> kDone -> within (in_state true st driver signal) d -> driving d.
Proof. intros Hne ((Hr & s & Es & Hs & _) & _). split; [done|]. exists s. by rewrite Hs. Qed.

Lemma update_within f registered st driver signal st' driver' signal' E :
  (forall s, sm_args (f s) = sm_args s) ->
  (forall s, sm_state s = st -> sm_cloneDriver s = driver -> sm_critSecSignal s = signal ->
     sm_state (f s) = st' /\ sm_cloneDriver (f s) = driver' /\ sm_critSecSignal (f s) = signal') ->
  triple X (within (in_state registered st driver signal)) (update_source f)
    (fun _ => within (in_state registered st' driver' signal')) E.
Proof.
  intros Ha Hf. apply triple_modify. intros d ((Hr & s & Es & H1 & H2 & H3) & Hargs & Hk). split_and!; [|..|exact Hk].
  - split; [done|]. exists (f s). cbn. rewrite Es. split; [done|by apply Hf].
  - unfold args in *. cbn. rewrite Es in Hargs |- *. cbn in *. by rewrite Ha.
Qed.

Lemma register_within st driver signal E :
  triple X (within (in_state false st driver signal)) setMigrationSourceManager (fun _ => within (in_state true st driver signal)) E.
Proof. intros d ((Hr & Hs) & Ha & Hk). unfold setMigrationSourceManager, sbind, sget, slift. rewrite Hr. cbn. by split_and!. Qed.

Lemma answer_step_total st driver signal (o : Outcome (StatusWith unit)) f Q :
  st <> kDone -> survives o ->
  triple X (within (in_state true st driver signal)) (update_source f) (fun _ => Q) driving ->
  triple X (within (in_state true st driver signal))
    (let! status := slift o in
     match status with NotOK e => sret (inl (NotOK e)) | OK _ => update_source f ;! sret (inr ()) end)
    (fun r d => match r with inl st => is_error st /\ driving d | inr _ => Q d end) driving.
Proof.
  intros Hst Ho Hf. eapply triple_bind.
  - apply (answer_total _ driving o Ho). intros d. by apply within_driving.
  - intros [[]|e]; cbn beta iota.
    + eapply triple_bind; [exact Hf|]. by intros [] d Hd.
    + intros d Hd. split; [by exists e|]. by eapply within_driving.
Qed.

(** The metadata has the epoch that the session began with. *)
Definition epoch_current (d : Donor) : Prop :=
  exists s, dn_source d = Some s /\ checkCollectionEpochMatches (active_md (dn_manager d)) (sm_collectionEpoch s) = OK ().

Lemma startClone_total :
  triple X (fun d => within created d /\ epoch_current d) (checked (startClone lv (me_startClone env)))
    (fun _ => within (cloning kCloning)) left_migration.
Proof.
  apply (enter_total kCreated); [intros d [Hd _]; by eapply within_state|]. intros s. apply dismissed_total.
  eapply triple_bind with (Q := fun md d => within created d /\ checkCollectionEpochMatches md (sm_collectionEpoch s) = OK ()).
  { intros d [[Hd (s' & Es' & He)] Es]. assert (s' = s) as -> by congruence.
    pose proof (getMetadata_total _ created driving (free_in_state _ _ _ _) d Hd) as H.
    assert (Hr : (getMetadata d).2 = Ret (active_md (dn_manager d))).
    { destruct (getMetadata_usable d (proj1 (proj2 (proj2 Hd)))) as (m' & -> & _). done. }
    destruct (getMetadata d) as [d' [md|e| |]]; try done. cbn in Hr. injection Hr as ->. by destruct H as [H _]. }
  intros md d [Hd ->]. revert d Hd.
  apply (triple_bind X (within created) (update_source (with_driver true)) (fun _ => within (in_state false kCreated true None)));
    [by apply update_within|]. intros [].
  eapply triple_bind; [apply register_within|]. intros []. apply answer_step_total; [done|apply (eo_cloner _ _ _ Henv)|].
  by apply update_within.
Qed.

Lemma awaitToCatchUp_total :
  triple X (within (cloning kCloning)) (checked (awaitToCatchUp lv (me_awaitCatchUp env)))
    (fun _ => within (cloning kCloneCaughtUp)) left_migration.
Proof.
  apply (enter_total kCloning); [intros d Hd; by eapply within_state|]. intros s. apply dismissed_total.
  eapply triple_weaken with (P' := within (cloning kCloning)) (E' := driving); [|by intros d [? _]|intros a d H; exact H|done].
  apply answer_step_total; [done|apply (eo_cloner _ _ _ Henv)|]. by apply update_within.
Qed.

Lemma enterCriticalSection_total :
  triple X (within (cloning kCloneCaughtUp))
    (checked (enterCriticalSection lv (me_notifyChangeStreams env) (me_startMetadataOp env) (me_signalSecondaries env)))
    (fun _ => within (critical kCriticalSection)) left_migration.
Proof.
  pose proof (eo_writes _ _ _ Henv) as (W1 & W2 & W3).
  apply (enter_total kCloneCaughtUp); [intros d Hd; by eapply within_state|]. intros s. apply dismissed_total.
  eapply triple_weaken with (P' := within (cloning kCloneCaughtUp)) (E' := driving);
    [|by intros d [? _]|intros a d H; exact H|done].
  assert (Hdr : forall d, within (cloning kCloneCaughtUp) d -> driving d) by (intros d; by apply within_driving).
  eapply triple_bind; [apply getMetadata_total, free_in_state|]. intros md.
  eapply triple_weaken with (P' := within (cloning kCloneCaughtUp)) (E' := driving);
    [|by intros d [? _]|intros a d H; exact H|done].
  destruct (checkCollectionEpochMatches _ _) as [[]|e]; [|intros d Hd; split; [by exists e|by apply Hdr]].
  eapply triple_bind; [by apply answer_total|]. intros [].
  eapply triple_bind; [by apply answer_total|].
  intros [[]|e]; cbn beta iota; [|intros d Hd; split; [by exists e|by apply Hdr]].
  eapply triple_bind; [by apply (update_within _ _ _ _ _ kCloneCaughtUp true (Some false))|]. intros [].
  eapply triple_bind; [by apply (update_within _ _ _ _ _ kCriticalSection true (Some false))|]. intros [].
  assert (Hc : forall d, within (critical kCriticalSection) d -> driving d) by (intros d; by apply within_driving).
  eapply triple_bind; [by apply (answer_total (within (critical kCriticalSection)))|].
  intros [[]|e]; cbn beta iota; [by intros d Hd|]. intros d Hd. split; [by eexists|by apply Hc].
Qed.

Lemma commitChunkOnRecipient_total :
  triple X (within (critical kCriticalSection)) (checked (commitChunkOnRecipient lv (me_commitClone env)))
    (fun _ => within (critical kCloneCompleted)) left_migration.
Proof.
  apply (enter_total kCriticalSection); [intros d Hd; by eapply within_state|]. intros s. apply dismissed_total.
  eapply triple_weaken with (P' := within (critical kCriticalSection)) (E' := driving);
    [|by intros d [? _]|intros a d H; exact H|done].
  apply answer_step_total; [done|apply (eo_cloner _ _ _ Henv)|]. by apply update_within.
Qed.

(** * The commit *)

Lemma bounds_set b : b.1 <> [] -> b.2 <> [] -> exists k, chunk_with_bounds b = Ret k.
Proof.
  destruct b as [[|x xs] [|y ys]]; cbn; try done. intros _ _. unfold chunk_with_bounds, setMin, setMax. cbn. by eexists.
Qed.

(** Of several chunks one begins elsewhere. *)
Lemma controlChunk_found cm md mn : table_ok cm -> metadata_ok cm shardName md -> exists control, controlChunkOf md mn = Ret control.
Proof.
  intros [Hr (lo & hi & Ht)] Hok. unfold controlChunkOf. destruct (Z.ltb_spec 1 (getNumChunks md)) as [Hn|]; [|by eexists].
  pose proof (mo_chunks_wf _ _ _ Hok) as Hwf. unfold getNumChunks in Hn.
  assert (Hrow : forall a b, (a, b) ∈ md_chunksMap md -> a <> [] /\ b <> []).
  { intros a b Hab. rewrite (mo_chunks _ _ _ Hok) in Hab. apply elem_own_rows in Hab as (x & c & Hin & _ & <- & <-).
    by destruct (reachable_valid cm Hr x c Hin) as (_ & ? & ?). }
  unfold getDifferentChunk. destruct (List.find _ (md_chunksMap md)) as [b|] eqn:Ef.
  - apply List.find_some in Ef as [Hb%list_elem_of_In He]. destruct b as [a b]. destruct (Hrow a b Hb) as [Ha Hb'].
    destruct (bounds_set (a, b) Ha Hb') as [k ->]. cbn [obind fst] in *. rewrite He. by eexists.
  - exfalso. unfold RangeMap in *. destruct (md_chunksMap md) as [|[a b] [|[c d] l]] eqn:Em; cbn in Hn; [lia|lia|].
    pose proof (List.find_none _ _ Ef (a, b) ltac:(left; done)) as H1. pose proof (List.find_none _ _ Ef (c, d) ltac:(right; left; done)) as H2.
    cbn in H1, H2. rewrite wo_eq in H1, H2. apply negb_false_iff, keqb_spec in H1. apply negb_false_iff, keqb_spec in H2.
    pose proof (rm_sorted _ Hwf) as Hs. apply ksorted_cons in Hs as [_ Hs]. specialize (Hs c d ltac:(left)). korder.
Qed.

Lemma commitRequest_total :
  triple X (within (critical kCloneCompleted)) (commitRequest lv)
    (fun r d => match r with inl st => is_error st /\ left_migration d | inr _ => within (critical kCloneCompleted) d end)
    left_migration.
Proof.
  assert (Hdr : forall d, within (critical kCloneCompleted) d -> driving d) by (intros d; by apply within_driving).
  pose proof (eo_range _ _ _ Henv) as (_ & Hmn & Hmx).
  intros d Hd. unfold commitRequest. unfold sbind at 1, source. pose proof Hd as ((_ & s & Es & Hs & _) & Ha & _).
  rewrite Es. unfold sbind at 1, slift at 1. rewrite bool_decide_eq_true_2 by done. cbn [invariant].
  unfold args in Ha. rewrite Es in Ha. injection Ha as Ha. rewrite Ha. revert d Hd Es.
  intros d Hd _. revert d Hd. apply (guarded_total (within (critical kCloneCompleted)) is_error _ (fun _ => within (critical kCloneCompleted))).
  assert (He : forall e, triple X (within (critical kCloneCompleted)) (sret (inl (NotOK e) : StatusWith unit + CommitRequest))
    (fun r d => match r with inl st => is_error st /\ driving d | inr _ => within (critical kCloneCompleted) d end) driving).
  { intros e d Hd. split; [by exists e|by apply Hdr]. }
  eapply triple_bind; [apply getMetadata_total, free_in_state|]. intros md d [Hd ->]. pose proof Hd as (_ & _ & _ & Hk).
  destruct (active_md (dn_manager d)) as [md|]; cbn [checkCollectionEpochMatches]; [|by apply He].
  destruct (oid_eqb _ _); [|by apply He]. destruct (Hk md eq_refl) as (cm & Ht & Hok). clear Hk.
  destruct (controlChunk_found cm md (_minKey (mc_range request)) Ht Hok) as [control ->].
  destruct (bounds_set (_minKey (mc_range request), _maxKey (mc_range request)) Hmn Hmx) as [migrated ->]. revert d Hd.
  eapply triple_bind; [by apply (answer_total (within (critical kCloneCompleted)) driving (Ret control))|]. intros k.
  eapply triple_bind; [by apply (answer_total (within (critical kCloneCompleted)) driving (Ret migrated))|]. intros mc.
  eapply triple_bind; [by apply (update_within _ _ _ _ _ kCloneCompleted true (Some false))|]. by intros [] d Hd.
Qed.

Lemma afterCommit_total commitStatus :
  triple X (within (critical kCloneCompleted))
    (afterCommit lv commitStatus (me_logChange env) (me_inShutdown env) (me_canAcceptWrites env))
    (fun r d => match r with inl st => is_error st /\ left_migration d | inr _ => within (critical kCloneCompleted) d end)
    left_migration.
Proof.
  assert (Hdr : forall d, within (critical kCloneCompleted) d -> driving d) by (intros d; by apply within_driving).
  apply (guarded_total _ is_error _ (fun _ => within (critical kCloneCompleted))).
  destruct commitStatus as [[]|e]; [by intros d Hd|]. eapply triple_bind with (Q := fun _ => within (critical kCloneCompleted));
    [|by intros [] d Hd].
  unfold afterFailedCommit. destruct (eo_logChange _ _ _ Henv) as [->|[-> ->]]; [by intros d Hd|].
  destruct (me_logChange env) as [[]|e']; [by intros d Hd|]. rewrite andb_false_r. cbn [negb].
  eapply triple_bind; [apply clear_total, free_in_state|]. intros [] d Hd. by apply Hdr.
Qed.

(** Metadata from a table has a version. *)
Lemma keeps_version md m : keeps shardName m -> active_md m = Some md -> isSet (getCollVersion md) = true.
Proof.
  intros [_ Hk] Hmd. destruct (Hk md Hmd) as (cm & [Hr _] & Hok). unfold getCollVersion. rewrite (mo_cm _ _ _ Hok).
  destruct (reachable_ok cm Hr) as [_ (k & c & Hin & <-)]. by apply (reachable_valid cm Hr k c Hin).
Qed.

(** After a round that found the chunk gone there is metadata. *)
Definition committed (v : ChunkVersion) (d : Donor) : Prop :=
  within (critical kCloneCompleted) d /\ isSet v = true /\ is_Some (active_md (dn_manager d)).

Lemma refreshRound_total q retries :
  let commitStatus := migrationCommitStatus (me_configCommit env q) in
  triple X (within (critical kCloneCompleted)) (refreshRound lv shardName commitStatus retries (me_commitRefresh env retries))
    (fun r d => match r with
       | inl st => True /\ left_migration d
       | inr (Some v) => committed v d
       | inr None => retries = true /\ within (critical kCloneCompleted) d
       end) left_migration.
Proof.
  intros commitStatus.
  assert (Hdr : forall d, within (critical kCloneCompleted) d -> driving d) by (intros d; by apply within_driving).
  eapply triple_weaken; [apply (guarded_total (within (critical kCloneCompleted)) (fun _ => True) _ (fun v d =>
    match v with Some v => committed v d | None => retries = true /\ within (critical kCloneCompleted) d end))|done|by intros [|[]]|done].
  intros d Hd. pose proof Hd as ((_ & s & Es & _) & Ha & _). unfold sbind at 1, source. rewrite Es.
  unfold args in Ha. rewrite Es in Ha. injection Ha as Ha. rewrite Ha. revert d Hd Es. intros d Hd _. revert d Hd.
  eapply triple_bind; [apply refreshNow_total; [apply free_in_state|apply (eo_refresh _ _ _ Henv)]|]. intros [v|e] d [Hd Hst].
  - pose proof (getMetadata_total _ (critical kCloneCompleted) driving (free_in_state _ _ _ _) d Hd) as Hg. unfold sbind.
    destruct (getMetadata_usable d (proj1 (proj2 (proj2 Hd)))) as (m' & Eg & _ & Hact%active_md_eq). rewrite Eg in Hg |- *.
    destruct Hg as [Hd' Heq]. destruct (active_md (dn_manager d)) as [md|]; [|by split; [|apply Hdr]].
    destruct (keyBelongsToMe md _) eqn:Ek; cbn [negb].
    + destruct retries; [by split|]. destruct commitStatus as [[]|e] eqn:Ec; [|by split; [|apply Hdr]].
      destruct (Hst md eq_refl) as (cm & Erf & Hn). apply HX. exists q, cm, md. by split_and!.
    + split_and!; [done| |by rewrite <- Heq]. by apply (keeps_version md (dn_manager (set_manager m' d))); [apply Hd'|].
  - unfold sbind. pose proof (clear_total (critical kCloneCompleted) driving (free_in_state _ _ _ _) d Hd) as Hc.
    destruct (refreshMetadata None d) as [d' [[]|? | |]]; try done. split; [done|by apply Hdr].
Qed.

Lemma leave_total v :
  triple X (committed v) (leaveCriticalSection lv v)
    (fun _ d => left_migration d /\ args d = Some request /\ keeps shardName (dn_manager d) /\ is_Some (active_md (dn_manager d)))
    left_migration.
Proof.
  intros d ((Hc & Ha & Hk) & Hv & Hs). unfold leaveCriticalSection, sbind, slift. rewrite Hv. cbn [invariant].
  assert (Hdr : driving d) by (by apply (within_driving kCloneCompleted true (Some false))).
  pose proof (cleanup_total d Hdr) as Ht. pose proof (cleanup_preserves lv d) as Hm.
  assert (Hargs : args (_cleanup lv d).1 = args d) by apply args_cleanup_direct.
  destruct (_cleanup lv d) as [d' [[]|e| |]]; try done. cbn in Hm, Hargs. rewrite Hm, Hargs. by split_and!.
Qed.

Lemma finish_total v :
  triple X (committed v)
    (leaveCriticalSection lv v ;! others env 8 ;! scheduleCleanup (me_now env) (me_delay env) (me_waited env))
    (fun _ => left_migration) left_migration.
Proof.
  eapply triple_bind; [apply leave_total|]. intros []. eapply triple_bind with (Q := fun _ d =>
    left_migration d /\ args d = Some request /\ keeps shardName (dn_manager d) /\ is_Some (active_md (dn_manager d))).
  { intros d (Hl & Ha & Hk & Hs). cbn. split_and!; [by apply free_left|done|by apply (eo_other _ _ _ Henv)|by apply (eo_other_end _ _ _ Henv)]. }
  intros [] d (Hl & Ha & [Hu _] & Hs). pose proof Hl as (Hr & s & Es & Hl').
  unfold scheduleCleanup. unfold sbind at 1, source. rewrite Es. unfold args in Ha. rewrite Es in Ha. injection Ha as ->.
  pose proof (eo_range _ _ _ Henv) as [Hv _]. unfold css_cleanUpRange, on_manager, sbind.
  destruct (cleanUpRange_usable (mc_range request) (if mc_waitForDelete request then 0 else me_now env + me_delay env)
    (dn_manager d) Hu Hs Hv) as (m' & n & -> & _).
  destruct (mc_waitForDelete request); [|by apply free_left]. unfold slift, waitStatus. destruct n as [st|n]; [by apply free_left|].
  pose proof (eo_waited _ _ _ Henv n) as Hw. destruct (me_waited env n); [by apply free_left..|done|done].
Qed.

Lemma commitOnConfig_total :
  triple X (within (critical kCloneCompleted)) (commitChunkMetadataOnConfig shardName env) (fun _ => left_migration) left_migration.
Proof.
  unfold commitChunkMetadataOnConfig. eapply triple_bind; [apply commitRequest_total|].
  intros [st|q]; cbn beta iota; [by intros d [_ Hd]|].
  eapply triple_bind; [apply others_total, free_in_state|]. intros [].
  eapply triple_bind; [apply afterCommit_total|]. intros [st|[]]; cbn beta iota; [by intros d [_ Hd]|].
  eapply triple_bind; [apply others_total, free_in_state|]. intros [].
  eapply triple_bind; [apply refreshRound_total|]. intros [st|[v|]]; cbn beta iota; [by intros d [_ Hd]|apply finish_total|].
  eapply triple_weaken with (P' := within (critical kCloneCompleted)) (E' := left_migration);
    [|by intros d [_ ?]|intros a d H; exact H|done].
  eapply triple_bind; [apply others_total, free_in_state|]. intros [].
  eapply triple_bind; [apply refreshRound_total|].
  intros [st|[v|]]; cbn beta iota; [by intros d [_ Hd]|apply finish_total|by intros d [? _]].
Qed.

(** * The whole command *)

Lemma session_total :
  triple X (fun d => within created d /\ epoch_current d) (
    others env 0 ;!
    checked (startClone lv (me_startClone env)) ;!
    others env 1 ;!
    checked (awaitToCatchUp lv (me_awaitCatchUp env)) ;!
    others env 2 ;!
    checked (enterCriticalSection lv (me_notifyChangeStreams env) (me_startMetadataOp env) (me_signalSecondaries env)) ;!
    others env 3 ;!
    checked (commitChunkOnRecipient lv (me_commitClone env)) ;!
    others env 4 ;!
    checked (commitChunkMetadataOnConfig shardName env)) (fun _ => left_migration) left_migration.
Proof.
  eapply triple_bind with (Q := fun _ d => within created d /\ epoch_current d).
  { intros d [Hd (s & Es & He)]. split; [by apply within_manager; [apply free_in_state| |apply (eo_other _ _ _ Henv), Hd]|].
    exists s. split; [done|]. cbn. by rewrite (active_md_eq _ _ (eo_other_start _ _ _ Henv (dn_manager d))). }
  intros []. eapply triple_bind; [apply startClone_total|]. intros [].
  eapply triple_bind; [apply others_total, free_in_state|]. intros [].
  eapply triple_bind; [apply awaitToCatchUp_total|]. intros [].
  eapply triple_bind; [apply others_total, free_in_state|]. intros [].
  eapply triple_bind; [apply enterCriticalSection_total|]. intros [].
  eapply triple_bind; [apply others_total, free_in_state|]. intros [].
  eapply triple_bind; [apply commitChunkOnRecipient_total|]. intros [].
  eapply triple_bind; [apply others_total, free_in_state|]. intros [].
  eapply triple_bind; [apply commitOnConfig_total|]. intros st. apply answer_total; [by destruct st|done].
Qed.

Lemma constructor_total :
  triple X (holding None idle) (newMigrationSourceManager shardName request (me_refresh env) (me_collectionExists env))
    (fun _ d => within created d /\ epoch_current d) idle.
Proof.
  assert (Hi : forall d, holding None idle d -> idle d) by (by intros d [? _]).
  assert (Ha : forall b e, survives (uassert e b)) by (by intros []).
  unfold newMigrationSourceManager. eapply triple_bind; [by apply answer_total|]. intros [].
  eapply triple_bind with (Q := fun _ => holding None idle).
  { eapply triple_weaken; [apply refreshNow_total; [apply free_idle|apply (eo_refresh _ _ _ Henv)]|done|by intros st d [? _]|done]. }
  intros st. eapply triple_bind; [apply answer_total; [by destruct st|done]|]. intros v.
  eapply triple_bind; [by apply answer_total|]. intros [].
  eapply triple_bind; [apply getMetadata_total, free_idle|]. intros [md|]; [|by intros d [? _]; apply Hi].
  assert (Hk : forall d, holding None idle d /\ Some md = active_md (dn_manager d) -> idle d) by (intros d [? _]; by apply Hi).
  eapply triple_bind; [by apply answer_total|]. intros [].
  intros d [Hd Hmd]. unfold sbind at 1, slift at 1. destruct (oid_eqb (mc_versionEpoch request) _) eqn:Ee; [|by apply Hi]. cbn [uassert].
  unfold sbind, slift. destruct (checkChunkIsValid _ _ _) as [[]|e]; [|by apply Hi].
  destruct Hd as ([Hr Hs] & _ & Hkp). split.
  - split_and!; [|done|exact Hkp]. split; [done|]. by eexists.
  - eexists. split; [reflexivity|]. cbn. rewrite <- Hmd. cbn. by rewrite (proj2 (oid_eqb_eq _ _) eq_refl).
Qed.

Lemma runImpl_triple : triple X (holding None idle) (_runImpl shardName request env) (fun _ _ => True) (fun _ => True).
Proof.
  unfold _runImpl. eapply triple_bind; [eapply triple_weaken; [apply constructor_total|done|intros a ? H; exact H|done]|].
  intros [] d1 Hd1. pose proof (session_total d1 Hd1) as H. unfold with_destructor. cbv zeta.
  match type of H with context [match ?m with _ => _ end] => destruct m as [d' [[]|e| |]] end; [..|done|done];
    unfold destroySourceManager, sbind, source, slift, smodify; destruct H as (Hr & s & Es & Hdrv & _);
    by rewrite Es, Hdrv.
Qed.
End total.

Lemma runImpl_total shardName request env d : ShardId_isValid shardName = true -> env_ok shardName request env ->
  idle d -> keeps shardName (dn_manager d) ->
  let '(d', r) := _runImpl shardName request env d in survives r \/ commit_missed request env d'.
Proof.
  intros Hv He Hi Hk. assert (Ha : holding shardName None idle d).
  { split_and!; [done| |done]. unfold args. by rewrite (proj2 Hi). }
  pose proof (runImpl_triple shardName request env Hv He (commit_missed request env) (fun _ H => H) d Ha) as H.
  destruct (_runImpl shardName request env d) as [d' [[]|e| |]]; [by left|by left|by right|by right].
Qed.

(** * States *)

(** A method called in another state than its own fails its invariant. *)
Lemma wrong_state_aborts {A} st (m : MigrationSourceManager -> SM Donor A) d s : dn_source d = Some s -> sm_state s <> st ->
  ((let! s := source in slift (invariant (bool_decide (sm_state s = st))) ;! m s) d).2 = Abort.
Proof. intros Es Hs. unfold sbind, source, slift. by rewrite Es, bool_decide_eq_false_2. Qed.
