(* ===== verification/MigrationSafety.v ===== *)
(** What the shard and the donor of a migration guarantee, with example runs: the
    theorems on the session and on the version check, two cases in which a shard
    accepts a write for a chunk it has given away, and one in which it stops. *)

From stdpp Require Import base list sorting strings relations.
From Stdlib Require Import ZArith Lia String.
From S2P Require Import Prelude OrdMap Tiling Bson Text ChunkVersion ChunkType ShardKey Chunk ChunkManager ConfigChunks ConfigCatalog ConfigRefresh RangeMap CollectionMetadata MetadataManager RangeDeletion RangeSafety RangeTask MigrationSource MigrationSession VersionProtocol ShardSystem VersionGaps MigrationTotal.
Local Open Scope Z_scope.
Local Open Scope list_scope.
Local Open Scope string_scope.
Local Open Scope outcome_scope.
Local Open Scope state_scope.

(** * Example: two chunks and three shards *)

Definition mg_doc (id : string) (mn mx : BSONObj) (n : Z) (s : ShardId) : ChunkDoc :=
  mkDoc id "t.c" mn mx (ex_version n) s None.
Definition mg_left (n : Z) (s : ShardId) : ChunkDoc := mg_doc "t.c-x_MinKey" ex_lo ex_mid n s.
Definition mg_right (n : Z) (s : ShardId) : ChunkDoc := mg_doc "t.c-x_true" ex_mid ex_hi n s.
Definition mg_config (s s' : ShardId) : Config := mkConfig [mg_left 1 s; mg_right 2 s'] [].

(** The routing table of a catalog state, as a refresh builds it. *)
Definition mg_table (c : Config) : ChunkManager :=
  match refreshCollectionRoutingInfo ex_known ex_collator (fun _ => 0) 3 "t.c" None
          (getChangedChunks "t.c" (Ret ex_coll) (cfg_chunks c) UNSHARDED) with
  | Ret (_, Some cm) => cm
  | _ => sample_cm
  end.

Lemma mg_table_caches c : catalog ex_g16 "t.c" ex_epoch ex_lo ex_hi (cfg_chunks c) ->
  forallb (fun d => is_Ret (validate (doc_chunk d))) (cfg_chunks c) = true ->
  caches "t.c" ex_lo ex_hi (mg_table c) (cfg_chunks c).
Proof.
  intros Hcat Hv.
  assert (Hb : all_type MinKey ex_lo /\ all_type MaxKey ex_hi /\ ex_lo ≺ ex_hi)
    by (split_and!; [repeat constructor|repeat constructor|by vm_compute]).
  destruct Hb as (Hlo & Hhi & Hlt).
  destruct (refresh_load ex_g16 "t.c" ex_epoch ex_lo ex_hi Hlo Hhi Hlt (fun _ => 0) ex_known ex_collator 3 None
    ex_coll (cfg_chunks c) UNSHARDED Hcat) as (seq & cm & E & Hcm); [by apply ex_routable|by vm_compute|done|].
  unfold mg_table. by rewrite E.
Qed.

Lemma mg_catalog s s' : catalog ex_g16 "t.c" ex_epoch ex_lo ex_hi (cfg_chunks (mg_config s s')).
Proof.
  split.
  - apply (bool_decide_unpack _). by vm_compute.
  - intros d H. ex_docs H; by vm_compute.
  - intros d H. by ex_docs H.
  - intros d H. by ex_docs H.
  - intros d1 d2 H1 H2. ex_docs H1; ex_docs H2; by vm_compute.
  - intros d H. ex_docs H; split_and!; by vm_compute.
  - intros k H1 H2. destruct (kltb k ex_mid) eqn:E.
    + eexists. split; [split; [left|done]|]. split; simpl; korder.
    + eexists. split; [split; [right; left|done]|]. split; simpl; korder.
  - intros d1 d2 k H1 H2 [Ha Hb] [Hc Hd]. ex_docs H1; ex_docs H2; try done; simpl in *; exfalso; korder.
Qed.

(** The donor is s0, the chunk the right one. *)
Definition mg_move (to : ShardId) : MoveChunkRequest := mkMove "t.c" "s0" to (mkRange ex_mid ex_hi) ex_epoch false.
Definition mg_leaving : Leaving := mkLeaving (Ret ()) (Ret ()).
Definition mg_fresh : Donor := mkDonor newMetadataManager None false.

(** A migration up to the request, nothing failing. *)
Definition mg_session (table : ChunkManager) (to : ShardId) : SM Donor (StatusWith unit + CommitRequest) :=
  newMigrationSourceManager "s0" (mg_move to) (Ret (Some table)) true ;!
  checked (startClone mg_leaving (Ret (OK ()))) ;!
  checked (awaitToCatchUp mg_leaving (Ret (OK ()))) ;!
  checked (enterCriticalSection mg_leaving (Ret ()) (Ret (OK ())) (Ret (OK ()))) ;!
  checked (commitChunkOnRecipient mg_leaving (Ret (OK ()))) ;!
  commitRequest mg_leaving.

Definition request_of (r : Outcome (StatusWith unit + CommitRequest)) : option CommitRequest :=
  match r with Ret (inr q) => Some q | _ => None end.

(** s0 gives its only chunk to s2 while s1's chunk comes to s0. The request of s0
    is made when s0 knows of one chunk, and has no control chunk; it is applied
    after the commit of s1. *)
Definition lone_before : Config := mg_config "s1" "s0".
Definition lone_session : Donor * Outcome (StatusWith unit + CommitRequest) := mg_session (mg_table lone_before) "s2" mg_fresh.
Definition lone_arrival : Commit := CommitMigration (ex_chunk ex_lo ex_mid) None ex_epoch "s1" "s0".
Definition lone_received : Config := run_commit ex_g16 "t.c" lone_arrival lone_before.
Definition lone_request : CommitRequest :=
  default (mkCommit "" "" "" emptyChunkType None UNSHARDED) (request_of lone_session.2).
Definition lone_after : Config := run_commit ex_g16 "t.c" (request_commit lone_request) lone_received.

(** s0 gives its right chunk to s1. *)
Definition slow_before : Config := mg_config "s0" "s0".

(** A migration from its start to its end. *)
Definition mg_next {A} (m : SM Donor A) (d : Donor) : Donor := (m d).1.
Definition mg_created : Donor := mg_next (newMigrationSourceManager "s0" (mg_move "s1") (Ret (Some (mg_table slow_before))) true) mg_fresh.
Definition mg_cloning : Donor := mg_next (checked (startClone mg_leaving (Ret (OK ())))) mg_created.
Definition mg_caughtUp : Donor := mg_next (checked (awaitToCatchUp mg_leaving (Ret (OK ())))) mg_cloning.
Definition mg_critical : Donor :=
  mg_next (checked (enterCriticalSection mg_leaving (Ret ()) (Ret (OK ())) (Ret (OK ())))) mg_caughtUp.
Definition mg_cloned : Donor := mg_next (checked (commitChunkOnRecipient mg_leaving (Ret (OK ())))) mg_critical.
Definition mg_requested : Donor := mg_next (commitRequest mg_leaving) mg_cloned.
Definition mg_request : CommitRequest :=
  default (mkCommit "" "" "" emptyChunkType None UNSHARDED) (request_of (commitRequest mg_leaving mg_cloned).2).
Definition mg_moved : Config := run_commit ex_g16 "t.c" (request_commit mg_request) slow_before.

Abbreviation mg_orderly := (orderly ex_g16 "t.c" "s0").
Abbreviation mg_reachable := (system_reachable ex_g16 "t.c" ex_epoch ex_lo ex_hi "s0" mg_orderly).
Abbreviation mg_step := (system_step ex_g16 "t.c" ex_lo ex_hi "s0").

Definition mg_valid : ShardId_isValid "s0" = true := eq_refl.

Lemma mg_exact keys : Forall (fun k => k ∈ [ex_lo; ex_mid; ex_hi]) keys -> exact_bounds "t.c" (cfg_chunks slow_before) keys.
Proof.
  intros Hk d k Hd Hin. apply (proj1 (Forall_forall _ _) Hk) in Hin.
  repeat (apply elem_of_cons in Hin as [->|Hin]); try (by apply not_elem_of_nil in Hin); ex_docs Hd; by vm_compute.
Qed.

Lemma refreshes_to ns lo hi h m pos low p l cm pos' :
  h !! p = Some l -> caches ns lo hi cm l ->
  pos' = (if already_newer (active_md m) cm then pos else p) -> refresh_answer ns lo hi h m pos low (Ret (Some cm)) (Loaded p low) pos'.
Proof. intros ? ? ->. by eapply refresh_table. Qed.

Lemma mg_created_reachable : mg_reachable (mkSystem slow_before [cfg_chunks slow_before] mg_created 0 Session).
Proof.
  eapply system_next; [apply (system_init _ _ _ _ _ _ _ slow_before)| |].
  - apply mg_catalog.
  - intros d H. ex_docs H; vm_compute; reflexivity.
  - apply (sys_start _ _ _ _ _ _ _ mg_fresh 0 (mg_move "s1") (Ret (Some (mg_table slow_before))) (Loaded 0 0) _ true);
      [reflexivity| |vm_compute; reflexivity].
    apply (refreshes_to _ _ _ _ _ _ _ 0 (cfg_chunks slow_before)); [reflexivity| |vm_compute; reflexivity].
    apply mg_table_caches; [apply mg_catalog|vm_compute; reflexivity].
  - split; [intros _|]; apply le_n.
Qed.

Lemma mg_session_reachable :
  mg_reachable (mkSystem slow_before [cfg_chunks slow_before] mg_cloned 0 Session).
Proof.
  assert (Hm : forall m d, session_method m -> (checked m d).2 = Ret () ->
    mg_reachable (mkSystem slow_before [cfg_chunks slow_before] d 0 Session) ->
    mg_reachable (mkSystem slow_before [cfg_chunks slow_before] (mg_next (checked m) d) 0 Session)).
  { intros m d Hm E Hd. unfold mg_next. destruct (checked m d) as [d' r] eqn:Ec. cbn in E |- *. subst r.
    eapply system_next; [exact Hd|exact (sys_method _ _ _ _ _ _ _ _ _ _ _ _ Hm Ec I)|exact I]. }
  apply Hm; [constructor|vm_compute; reflexivity|]. apply Hm; [constructor|vm_compute; reflexivity|].
  apply Hm; [constructor|vm_compute; reflexivity|]. apply Hm; [constructor|vm_compute; reflexivity|].
  exact mg_created_reachable.
Qed.

Lemma mg_request_ok : request_ok ex_g16 "t.c" (cfg_chunks slow_before) (request_commit mg_request).
Proof.
  exists ex_mid, ex_hi. split; [vm_compute; reflexivity|]. split; [intros d H; ex_docs H; vm_compute; reflexivity|].
  assert (Ek : match cr_controlChunk mg_request with
    | Some k => match _min k with Some x => [x] | None => [] end | None => [] end = [ex_lo]) by (vm_compute; reflexivity).
  assert (Eb : match cr_controlChunk mg_request with Some k => chunk_bounds k | None => Undef end = Ret (ex_lo, ex_mid))
    by (vm_compute; reflexivity).
  cbn [request_commit]. rewrite Ek. split; [apply mg_exact; repeat constructor|].
  destruct (cr_controlChunk mg_request) as [k|]; [|exact I]. intros x y. rewrite Eb. intros [= <- <-]. by vm_compute.
Qed.

Lemma mg_moved_ne : cfg_chunks mg_moved <> cfg_chunks slow_before.
Proof. intros E. apply (f_equal (fun l => majorVersion (d_lastmod (List.hd (mg_left 0 "") l)))) in E. vm_compute in E. discriminate E. Qed.

Lemma mg_applied_reachable :
  mg_reachable (mkSystem mg_moved [cfg_chunks slow_before; cfg_chunks mg_moved] mg_requested 0 (Requested mg_request (Some 1%nat))).
Proof.
  eapply system_next; [eapply system_next; [exact mg_session_reachable| |]| |].
  - apply (sys_request _ _ _ _ _ _ _ _ _ mg_leaving mg_requested (Ret (inr mg_request))); [vm_compute; reflexivity|exact I].
  - exact I.
  - apply (sys_apply _ _ _ _ _ slow_before [cfg_chunks slow_before] mg_requested 0 mg_request).
    exact mg_moved_ne.
  - split; [exact mg_request_ok|]. assert (Ek : is_Some (cr_controlChunk mg_request)) by (vm_compute; eexists; reflexivity).
    destruct Ek as [k Ek]. rewrite Ek. intros E. discriminate E.
Qed.

Lemma mg_moved_catalog : catalog ex_g16 "t.c" ex_epoch ex_lo ex_hi (cfg_chunks mg_moved).
Proof.
  destruct (system_reachable_ok _ _ _ _ _ _ mg_valid _ mg_applied_reachable) as [_ Hh _ _ _].
  exact (proj1 (hs_state _ _ _ _ _ _ _ Hh 1%nat _ eq_refl)).
Qed.

Lemma mg_moved_caches : caches "t.c" ex_lo ex_hi (mg_table mg_moved) (cfg_chunks mg_moved).
Proof. apply mg_table_caches; [exact mg_moved_catalog|vm_compute; reflexivity]. Qed.


(** * Properties *)


(** C26: any migration request without control chunk that is applied while the
    donor has another chunk, at least as new as its other ones, leaves the major
    version of the donor as it was. The donor, after it has refreshed, accepts a
    read or write of the chunk that left from every router with the table of just
    before the commit, although the recipient has the chunk. *)
Theorem missing_control_chunk_unsound snprintf_g16 ns epoch lo hi request c mn mx other cm cm' md d isReader :
  let s := cr_fromShard request in
  let l := cfg_chunks c in
  let l' := cfg_chunks (run_commit snprintf_g16 ns (request_commit request) c) in
  catalog snprintf_g16 ns epoch lo hi l -> request_ok snprintf_g16 ns l (request_commit request) ->
  chunk_bounds (cr_migratedChunk request) = Ret (mn, mx) -> cr_controlChunk request = None -> cr_toShard request <> s -> l' <> l ->
  doc_on ns s l other -> ~ d_min other ≅k mn -> (forall x, doc_on ns s l x -> major x <= major other) ->
  caches ns lo hi cm l -> caches ns lo hi cm' l' ->
  usable (dn_manager d) -> dn_registered d = false -> active_md (dn_manager d) = Some md -> metadata_ok cm' s md ->
  majorVersion (getVersion cm' s) = majorVersion (getVersion cm s) /\
  (exists ch, findIntersectingChunkWithSimpleCollation cm mn = Ret ch /\ getShardId ch = s) /\
  ~ has_key ns s l' mn /\ has_key ns (cr_toShard request) l' mn /\
  exists m', checkShardVersionOrThrow (Some (getVersion cm s)) false isReader d = (set_manager m' d, Ret ()).
Proof.
  intros s l l' Hcat Hq Hb Hc Hts Hne Ho Hmn Hmax Hcc Hcc' Hu Hr Hmd Hm.
  destruct (request_applied _ _ _ _ _ request c mn mx Hcat Hq Hb Hne) as (control & Hcof & Hsp). rewrite Hc in Hcof.
  destruct control; [done|]. destruct (moved_key _ _ _ _ _ _ _ _ _ _ _ Hcat Hsp) as (Hcat' & [H1 H2] & Hk & Hk' & Hn).
  pose proof (major_unchanged _ _ _ _ _ mn mx s _ l l' other cm cm' Hcat Hsp Hts Ho Hmn Hmax Hcc Hcc') as Heq.
  split_and!; [done|exact (routes_to_owner _ _ _ _ _ cm l s mn Hcat Hcc H1 H2 Hk)|by apply Hn|done|].
  exact (accepts_equal_major _ _ _ _ _ cm l cm' l' s md d isReader Hcat Hcc Hcat' Hcc' Hu Hr Hmd Hm (eq_sym Heq)).
Qed.

(** C27: when the refresh after a commit fails, the metadata is cleared and the
    migration reports the status of the commit. Any refresh that read the catalog
    before the commit and is only installed now puts the old metadata back, and the
    donor accepts a read or write of the chunk that left from every router with that
    table, although the recipient has the chunk. *)
Theorem late_refresh_unsound snprintf_g16 ns epoch lo hi request c mn mx cm lv retries code d d1 r isReader :
  let s := cr_fromShard request in
  let l := cfg_chunks c in
  let l' := cfg_chunks (run_commit snprintf_g16 ns (request_commit request) c) in
  catalog snprintf_g16 ns epoch lo hi l -> request_ok snprintf_g16 ns l (request_commit request) ->
  chunk_bounds (cr_migratedChunk request) = Ret (mn, mx) -> cr_toShard request <> s -> l' <> l ->
  ShardId_isValid s = true -> critical kCloneCompleted d -> usable (dn_manager d) -> isDBException code = true ->
  refreshRound lv s (OK ()) retries (Throw code) d = (d1, r) -> survives r ->
  caches ns lo hi cm l ->
  r = Ret (inl (OK ())) /\ active_md (dn_manager d1) = None /\
  (exists ch, findIntersectingChunkWithSimpleCollation cm mn = Ret ch /\ getShardId ch = s) /\
  ~ has_key ns s l' mn /\ has_key ns (cr_toShard request) l' mn /\
  exists late v m', refreshMetadataNow s (Ret (Some cm)) d1 = (late, Ret (OK v)) /\
    checkShardVersionOrThrow (Some (getVersion cm s)) false isReader late = (set_manager m' late, Ret ()).
Proof.
  intros s l l' Hcat Hq Hb Hts Hne Hv Hcr Hu Hx E Hsv Hcc.
  destruct (request_applied _ _ _ _ _ request c mn mx Hcat Hq Hb Hne) as (control & _ & Hsp).
  destruct (moved_key _ _ _ _ _ _ _ _ _ _ _ Hcat Hsp) as (Hcat' & [H1 H2] & Hk & Hk' & Hn).
  destruct (failed_round_clears _ _ _ _ _ _ _ _ Hcr Hu Hv Hx E Hsv) as (-> & Ha & Hu1 & Hr1).
  split_and!; [done|done|exact (routes_to_owner _ _ _ _ _ cm l s mn Hcat Hcc H1 H2 Hk)|by apply Hn|done|].
  destruct (refreshNow_takes cm s lo hi d1 Hv (cc_reach _ _ _ _ _ Hcc) (cc_tiling _ _ _ _ _ Hcc) Hu1) as (m1 & v & E1 & Hu' & Ht).
  unfold takes in Ht. rewrite Ha in Ht. destruct Ht as (md & Hmd & Hm).
  destruct (accepts_equal_major _ _ _ _ _ cm l cm l s md (set_manager m1 d1) isReader Hcat Hcc Hcat Hcc Hu' Hr1 Hmd Hm eq_refl) as [m' E2].
  by exists (set_manager m1 d1), v, m'.
Qed.

(** C11: whatever the recipient, the config server and the disk answer and
    whatever other threads do to the metadata in between, when moveChunk returns
    or throws, the migration is unregistered and destroyed: no operation waits
    for its critical section. It does return or throw, and no invariant or fatal
    assertion on its way fails, if the calls answer, the metadata comes from
    routing tables, other threads leave it alone at the start of the clone and do
    not clear it after the commit, and the config server can be written after a
    failed commit; the one exception is a commit that succeeded and cannot be
    seen in the metadata of the second refresh. *)
Theorem migration_leaves_nothing shardName request env d d' r :
  ShardId_isValid shardName = true -> idle d -> _runImpl shardName request env d = (d', r) ->
  (survives r -> idle d' /\ forall isReader, blocked isReader d' = false) /\
  (keeps shardName (dn_manager d) -> env_ok shardName request env -> survives r \/ commit_missed request env d').
Proof.
  intros Hv Hd E. split.
  - intros Hs. pose proof (runImpl_session shardName request env d Hd) as H. rewrite E in H.
    assert (Hi : idle d') by (by destruct r). split; [done|]. intros isReader. unfold blocked. by destruct Hi as [-> _].
  - intros Hk He. pose proof (runImpl_total shardName request env d Hv He Hd Hk) as H. by rewrite E in H.
Qed.

(** C14: the states of a migration source manager are those its methods expect. A
    method called in its state, with the metadata that the migration began with
    when it starts to clone, ends in the next state, or throws with the migration
    left, and the process goes on, whatever the recipient, the disk and the other
    threads answer within [env_ok]; the commit ends with the migration left, unless
    it succeeded and cannot be seen. Called in another state a method stops the
    process. *)
Theorem migration_typestate shardName request env :
  ShardId_isValid shardName = true -> env_ok shardName request env ->
  let lv := me_leaving env in
  let at_ I := holding shardName (Some request) I in
  let clone := startClone lv (me_startClone env) in
  let await := awaitToCatchUp lv (me_awaitCatchUp env) in
  let enter := enterCriticalSection lv (me_notifyChangeStreams env) (me_startMetadataOp env) (me_signalSecondaries env) in
  let commit := commitChunkOnRecipient lv (me_commitClone env) in
  triple (fun _ => False) (fun d => at_ created d /\ epoch_current d) (checked clone) (fun _ => at_ (cloning kCloning)) left_migration /\
  triple (fun _ => False) (at_ (cloning kCloning)) (checked await) (fun _ => at_ (cloning kCloneCaughtUp)) left_migration /\
  triple (fun _ => False) (at_ (cloning kCloneCaughtUp)) (checked enter) (fun _ => at_ (critical kCriticalSection)) left_migration /\
  triple (fun _ => False) (at_ (critical kCriticalSection)) (checked commit) (fun _ => at_ (critical kCloneCompleted)) left_migration /\
  triple (commit_missed request env) (at_ (critical kCloneCompleted)) (commitChunkMetadataOnConfig shardName env)
    (fun _ => left_migration) left_migration /\
  forall d s, dn_source d = Some s ->
    (sm_state s <> kCreated -> (clone d).2 = Abort) /\ (sm_state s <> kCloning -> (await d).2 = Abort) /\
    (sm_state s <> kCloneCaughtUp -> (enter d).2 = Abort) /\ (sm_state s <> kCriticalSection -> (commit d).2 = Abort) /\
    (sm_state s <> kCloneCompleted -> (commitRequest lv d).2 = Abort).
Proof.
  intros Hv He lv at_ clone await enter commit. split_and!.
  - by apply (startClone_total shardName request env He).
  - by apply (awaitToCatchUp_total shardName request env He).
  - by apply (enterCriticalSection_total shardName request env He).
  - by apply (commitChunkOnRecipient_total shardName request env He).
  - by apply (commitOnConfig_total shardName request env Hv He).
  - intros d s Es. split_and!; by apply wrong_state_aborts.
Qed.

(** C13: the version check lets a request pass exactly if it has no version or
    the ignored one, or if no critical section holds for it and its version has
    the epoch and the major version of the shard; otherwise it names a reason,
    and never gets to the end of its list of reasons. *)
Theorem version_check_exact held received isReader d :
  mm_ok held (dn_manager d) -> few held ->
  exists m', _checkShardVersionOk received false isReader d = (set_manager m' d, Ret (version_verdict received isReader d)) /\
    mm_ok held m' /\ active m' = active (dn_manager d).
Proof. apply checkVersion_verdict. Qed.

(** C28: if the metadata of the collection has been cleared or has another epoch
    when the cloning is to start, [startClone] stops the process: its cleanup
    unregisters a migration that has not been registered. *)
Theorem startClone_stale_aborts held lv cloner d s :
  mm_ok held (dn_manager d) -> few held -> created d -> dn_source d = Some s ->
  checkCollectionEpochMatches (active_md (dn_manager d)) (sm_collectionEpoch s) <> OK () ->
  (startClone lv cloner d).2 = Abort.
Proof.
  intros Hok Hf (Hr & s' & Es & Hst & _) Es' He. assert (s' = s) as -> by congruence.
  unfold startClone, sbind at 1, source. rewrite Es. unfold sbind at 1, slift at 1. rewrite bool_decide_eq_true_2 by done.
  cbn [invariant]. destruct (getMetadata_ok held d Hok Hf) as (m' & E & _). unfold dismissed, sbind at 1, guarded.
  unfold sbind at 1. rewrite E. destruct (checkCollectionEpochMatches _ _) as [[]|e]; [done|].
  unfold sret, cleanupOnError, sbind at 1, source. cbn [dn_source set_manager]. rewrite Es, Hst. cbn.
  unfold _cleanup, clearMigrationSourceManager, sbind, source, sget, slift.
  rewrite (bool_decide_eq_false_2 (kCreated = kDone)) by done. cbn. rewrite Es, Hst, bool_decide_eq_true_2 by done. cbn.
  by rewrite Hr.
Qed.

(** * Witnesses *)


(** A migration whose environment answers well. *)
Definition mg_env : MigrationEnv :=
  mkEnv mg_leaving (Ret (Some (mg_table slow_before))) true (Ret (OK ())) (Ret (OK ())) (Ret ()) (Ret (OK ())) (Ret (OK ()))
    (Ret (OK ())) (fun _ => OK (OK (), OK ())) (OK ()) false true (fun _ => Ret (Some (mg_table mg_moved))) 100 900
    (fun _ => Ret (OK ())) (fun _ m => m).

Lemma mg_fresh_ok : mm_ok [] (dn_manager mg_fresh).
Proof. apply (good_init True []). Qed.

Lemma mg_env_ok : env_ok "s0" (mg_move "s1") mg_env.
Proof.
  assert (Ht : forall cm l, caches "t.c" ex_lo ex_hi cm l -> table_ok cm).
  { intros cm l H. split; [apply (cc_reach _ _ _ _ _ H)|]. exists ex_lo, ex_hi. apply (cc_tiling _ _ _ _ _ H). }
  assert (Hb : table_ok (mg_table slow_before)).
  { apply (Ht _ (cfg_chunks slow_before)), mg_table_caches; [apply mg_catalog|vm_compute; reflexivity]. }
  assert (Hm : table_ok (mg_table mg_moved)) by exact (Ht _ _ mg_moved_caches).
  split; try exact I; try (split_and!; exact I); try (intros; exact I).
  - split_and!; by vm_compute.
  - split; [exact Hb|]. intros b. exact Hm.
  - left. reflexivity.
  - intros n m H. exact H.
  - intros m. reflexivity.
  - intros m H. exact H.
Qed.

Lemma mg_fresh_keeps : keeps "s0" (dn_manager mg_fresh).
Proof. split; [exists []; split; [reflexivity|exact mg_fresh_ok]|]. intros md H. discriminate H. Qed.

Lemma mg_moved_away md : active_md (dn_manager (_runImpl "s0" (mg_move "s1") mg_env mg_fresh).1) = Some md ->
  keyBelongsToMe md (_minKey (mc_range (mg_move "s1"))) = true -> False.
Proof.
  intros Hmd Hk. assert (H : (fun md => keyBelongsToMe md (_minKey (mc_range (mg_move "s1")))) <$>
    active_md (dn_manager (_runImpl "s0" (mg_move "s1") mg_env mg_fresh).1) = Some false) by (vm_compute; reflexivity).
  rewrite Hmd in H. cbn [fmap option_fmap option_map] in H. rewrite Hk in H. discriminate H.
Qed.

(** The donor of the lone chunk, refreshed after its migration. *)
Definition lone_donor : Donor := mg_next (refreshMetadataNow "s0" (Ret (Some (mg_table lone_after)))) mg_fresh.

Lemma holds_in (f : ChunkDoc -> bool) l d : forallb f l = true -> d ∈ l -> f d = true.
Proof. intros H Hd. apply (proj1 (List.forallb_forall f l) H). by apply list_elem_of_In. Qed.

Lemma lone_exact c keys : Forall (fun d => d_min d ∈ [ex_lo; ex_mid]) (cfg_chunks c) ->
  Forall (fun k => k ∈ [ex_lo; ex_mid]) keys -> exact_bounds "t.c" (cfg_chunks c) keys.
Proof.
  intros Hd Hk d k [Hin _] Hkin. apply (proj1 (Forall_forall _ _) Hd) in Hin. apply (proj1 (Forall_forall _ _) Hk) in Hkin. revert Hin Hkin.
  generalize (d_min d). intros x Hx Hy. repeat (apply elem_of_cons in Hx as [->|Hx]); try (by apply not_elem_of_nil in Hx);
    repeat (apply elem_of_cons in Hy as [->|Hy]); try (by apply not_elem_of_nil in Hy); by vm_compute.
Qed.

Lemma lone_received_catalog : catalog ex_g16 "t.c" ex_epoch ex_lo ex_hi (cfg_chunks lone_received).
Proof.
  refine (proj1 (commits_later ex_g16 "t.c" ex_epoch ex_lo ex_hi lone_before lone_received (rtc_once _ _ _) (mg_catalog _ _))).
  exists lone_arrival. split; [|reflexivity]. exists ex_lo, ex_mid. split; [vm_compute; reflexivity|].
  split; [intros d H; ex_docs H; vm_compute; reflexivity|]. split; [|exact I]. apply lone_exact; [vm_compute; repeat constructor|repeat constructor].
Qed.

Lemma lone_request_ok : request_ok ex_g16 "t.c" (cfg_chunks lone_received) (request_commit lone_request) /\
  chunk_bounds (cr_migratedChunk lone_request) = Ret (ex_mid, ex_hi) /\ cr_controlChunk lone_request = None.
Proof.
  assert (Hc : cr_controlChunk lone_request = None) by (vm_compute; reflexivity).
  assert (Hb : chunk_bounds (cr_migratedChunk lone_request) = Ret (ex_mid, ex_hi)) by (vm_compute; reflexivity).
  split; [|split; [exact Hb|exact Hc]]. exists ex_mid, ex_hi. split; [exact Hb|].
  assert (Hv : forallb (fun d => (majorVersion (d_lastmod d) <? 2 ^ 32 - 1)%Z) (cfg_chunks lone_received) = true) by (vm_compute; reflexivity).
  split; [intros d [H _]; exact (proj1 (Z.ltb_lt _ _) (holds_in _ _ d Hv H))|]. rewrite Hc.
  split; [|exact I]. apply lone_exact; [vm_compute; repeat constructor|repeat constructor].
Qed.

Lemma lone_moved : cfg_chunks lone_after <> cfg_chunks lone_received.
Proof. intros E. apply (f_equal (fun l => d_shard <$> l)) in E. vm_compute in E. discriminate E. Qed.

Lemma missing_control_chunk_unsound_witness :
  majorVersion (getVersion (mg_table lone_after) "s0") = majorVersion (getVersion (mg_table lone_received) "s0") /\
  ~ has_key "t.c" "s0" (cfg_chunks lone_after) ex_mid /\
  exists m', checkShardVersionOrThrow (Some (getVersion (mg_table lone_received) "s0")) false false lone_donor =
    (set_manager m' lone_donor, Ret ()).
Proof.
  destruct lone_request_ok as (Hq & Hb & Hc). pose proof lone_received_catalog as Hcat. pose proof lone_moved as Hne.
  destruct (request_applied _ _ _ _ _ lone_request lone_received ex_mid ex_hi Hcat Hq Hb Hne) as (control & _ & Hsp).
  destruct (moved_key _ _ _ _ _ _ _ _ _ _ _ Hcat Hsp) as (Hcat' & _).
  assert (Hcc : caches "t.c" ex_lo ex_hi (mg_table lone_received) (cfg_chunks lone_received))
    by (apply mg_table_caches; [exact Hcat|vm_compute; reflexivity]).
  assert (Hcc' : caches "t.c" ex_lo ex_hi (mg_table lone_after) (cfg_chunks lone_after))
    by (apply mg_table_caches; [exact Hcat'|vm_compute; reflexivity]).
  destruct (refreshNow_takes (mg_table lone_after) "s0" ex_lo ex_hi mg_fresh mg_valid (cc_reach _ _ _ _ _ Hcc') (cc_tiling _ _ _ _ _ Hcc')
    newManager_usable) as (m1 & v & E1 & Hu & md & Hmd & Hm).
  assert (Ed : lone_donor = set_manager m1 mg_fresh) by (unfold lone_donor, mg_next; rewrite E1; reflexivity).
  assert (Ho : exists other, List.hd_error (cfg_chunks lone_received) = Some other) by (vm_compute; eexists; reflexivity).
  destruct Ho as [other Ho]. assert (Hin : other ∈ cfg_chunks lone_received).
  { destruct (cfg_chunks lone_received) as [|x l]; [discriminate Ho|]. injection Ho as ->. left. }
  assert (Hof : (fun d => (d_ns d, d_shard d, d_min d, major d)) <$> List.hd_error (cfg_chunks lone_received) = Some ("t.c", "s0", ex_lo, 3))
    by (vm_compute; reflexivity). rewrite Ho in Hof. injection Hof as H1 H2 H3 H4.
  assert (Hmax : forallb (fun d => (major d <=? 3)%Z) (cfg_chunks lone_received) = true) by (vm_compute; reflexivity).
  rewrite Ed. destruct (missing_control_chunk_unsound ex_g16 "t.c" ex_epoch ex_lo ex_hi lone_request lone_received ex_mid ex_hi other
    (mg_table lone_received) (mg_table lone_after) md (set_manager m1 mg_fresh) false Hcat Hq Hb Hc) as (R1 & _ & R3 & _ & R5).
  - vm_compute. discriminate.
  - exact Hne.
  - split; [split; [exact Hin|exact H1]|]. rewrite H2. vm_compute. reflexivity.
  - rewrite H3. by vm_compute.
  - intros x [[Hx _] _]. rewrite H4. exact (proj1 (Z.leb_le _ _) (holds_in _ _ x Hmax Hx)).
  - exact Hcc.
  - exact Hcc'.
  - exact Hu.
  - reflexivity.
  - exact Hmd.
  - assert (Es : cr_fromShard lone_request = "s0") by (vm_compute; reflexivity). rewrite Es. exact Hm.
  - assert (Es : cr_fromShard lone_request = "s0") by (vm_compute; reflexivity). rewrite Es in R1, R3, R5.
    split; [exact R1|]. split; [exact R3|exact R5].
Defined.

Lemma mg_requesting c h d pos request applied : mg_reachable (mkSystem c h d pos (Requested request applied)) ->
  critical kCloneCompleted d /\ usable (dn_manager d).
Proof. intros H. by destruct (system_reachable_ok _ _ _ _ _ _ mg_valid _ H) as [_ _ _ [Hu _] (src & (Hc & _) & _)]. Qed.

Lemma mg_keeping c h d pos ph : mg_reachable (mkSystem c h d pos ph) -> keeps "s0" (dn_manager d).
Proof.
  intros H. destruct (system_reachable_ok _ _ _ _ _ _ mg_valid _ H) as [_ _ _ [Hu Hi] _]. split; [done|].
  intros md Hmd. destruct (Hi md Hmd) as (l & cm & _ & Hcc & Hok). exists cm. split; [|done].
  split; [apply (cc_reach _ _ _ _ _ Hcc)|]. exists ex_lo, ex_hi. apply (cc_tiling _ _ _ _ _ Hcc).
Qed.

Lemma late_refresh_unsound_witness :
  exists d1 late m', refreshRound mg_leaving "s0" (OK ()) true (Throw HostUnreachable) mg_requested = (d1, Ret (inl (OK ()))) /\
    (refreshMetadataNow "s0" (Ret (Some (mg_table slow_before))) d1).1 = late /\
    checkShardVersionOrThrow (Some (getVersion (mg_table slow_before) "s0")) false false late = (set_manager m' late, Ret ()) /\
    ~ has_key "t.c" "s0" (cfg_chunks mg_moved) ex_mid.
Proof.
  destruct (mg_requesting _ _ _ _ _ _ mg_applied_reachable) as [Hc Hu].
  assert (Hcc : caches "t.c" ex_lo ex_hi (mg_table slow_before) (cfg_chunks slow_before))
    by (apply mg_table_caches; [apply mg_catalog|vm_compute; reflexivity]).
  assert (Hb : chunk_bounds (cr_migratedChunk mg_request) = Ret (ex_mid, ex_hi)) by (vm_compute; reflexivity).
  assert (Es : cr_fromShard mg_request = "s0") by (vm_compute; reflexivity).
  assert (Et : cr_toShard mg_request = "s1") by (vm_compute; reflexivity).
  destruct (refreshRound mg_leaving "s0" (OK ()) true (Throw HostUnreachable) mg_requested) as [d1 r] eqn:E.
  assert (Hs : survives r) by (change r with (d1, r).2; rewrite <- E; vm_compute; exact I).
  pose proof (late_refresh_unsound ex_g16 "t.c" ex_epoch ex_lo ex_hi mg_request slow_before ex_mid ex_hi (mg_table slow_before) mg_leaving
    true HostUnreachable mg_requested d1 r false) as H. cbv zeta in H. rewrite Es, Et in H.
  destruct (H (mg_catalog _ _) mg_request_ok Hb ltac:(discriminate) mg_moved_ne mg_valid Hc Hu eq_refl E Hs Hcc)
    as (Er & _ & _ & Hn & _ & late & v & m' & E1 & E2).
  exists d1, late, m'. rewrite Er. split; [reflexivity|]. rewrite E1. split; [reflexivity|]. split; [exact E2|exact Hn].
Defined.

Lemma mg_created_holding : holding "s0" (Some (mg_move "s1")) created mg_created /\ epoch_current mg_created.
Proof.
  split; [split; [|split]|].
  - split; [vm_compute; reflexivity|]. eexists. split_and!; vm_compute; reflexivity.
  - vm_compute. reflexivity.
  - exact (mg_keeping _ _ _ _ _ mg_created_reachable).
  - eexists. split; vm_compute; reflexivity.
Qed.

Lemma migration_typestate_witness :
  (checked (startClone mg_leaving (Ret (OK ()))) mg_created).2 = Ret () /\ cloning kCloning mg_cloning.
Proof.
  destruct (migration_typestate "s0" (mg_move "s1") mg_env mg_valid mg_env_ok) as [H _].
  assert (E : (checked (startClone mg_leaving (Ret (OK ()))) mg_created).2 = Ret ()) by (vm_compute; reflexivity).
  split; [exact E|]. specialize (H mg_created mg_created_holding). cbv zeta beta in H. unfold mg_cloning, mg_next.
  change (me_leaving mg_env) with mg_leaving in H. change (me_startClone mg_env) with (Ret (OK () : StatusWith unit)) in H.
  destruct (checked (startClone mg_leaving (Ret (OK ()))) mg_created) as [d r]. cbn [fst snd] in E |- *. subst r. exact (proj1 H).
Defined.

Lemma migration_leaves_nothing_witness :
  let '(d', r) := _runImpl "s0" (mg_move "s1") mg_env mg_fresh in
  r = Ret () /\ idle d' /\ blocked false d' = false /\
  (dl_range <$> queue (dn_manager d')) = [mkRange ex_mid ex_hi].
Proof.
  destruct (_runImpl "s0" (mg_move "s1") mg_env mg_fresh) as [d' r] eqn:E.
  assert (Er : r = Ret ()).
  { change r with (d', r).2. rewrite <- E. vm_compute. reflexivity. }
  assert (Eq : (dl_range <$> queue (dn_manager d')) = [mkRange ex_mid ex_hi]).
  { change d' with (d', r).1. rewrite <- E. vm_compute. reflexivity. }
  destruct (migration_leaves_nothing "s0" (mg_move "s1") mg_env mg_fresh d' r mg_valid (conj eq_refl eq_refl) E) as [Hl Hs].
  destruct (Hs mg_fresh_keeps mg_env_ok) as [H|(q & cm & md & _ & _ & Hmd & _ & Hk)].
  2: { exfalso. revert Hmd Hk. change d' with (d', r).1. rewrite <- E. exact (mg_moved_away md). }
  destruct (Hl H) as [Hi Hb].
  split; [exact Er|]. split; [exact Hi|]. split; [apply Hb|exact Eq].
Defined.

Lemma version_check_exact_witness :
  exists m', _checkShardVersionOk (Some (ex_version 3)) false false mg_fresh = (set_manager m' mg_fresh, Ret VersionMismatch).
Proof.
  destruct (version_check_exact [] (Some (ex_version 3)) false mg_fresh mg_fresh_ok ltac:(vm_compute; reflexivity)) as (m' & E & _).
  exists m'. rewrite E. vm_compute. reflexivity.
Defined.

(** The metadata has been cleared after the constructor. *)
Definition mg_stepped_down : Donor := mg_next (refreshMetadata None) mg_created.

Lemma startClone_stale_aborts_witness :
  created mg_stepped_down /\ (startClone mg_leaving (Ret (OK ())) mg_stepped_down).2 = Abort.
Proof.
  assert (Hs : exists s, dn_source mg_stepped_down = Some s /\ sm_state s = kCreated /\ sm_cloneDriver s = false /\
    sm_critSecSignal s = None) by (eexists; split_and!; vm_compute; reflexivity).
  assert (Hc : created mg_stepped_down) by (split; [vm_compute; reflexivity|exact Hs]).
  assert (Hu : usable (dn_manager mg_stepped_down)).
  { destruct (system_reachable_ok _ _ _ _ _ _ mg_valid _ mg_created_reachable) as [_ _ _ [Hu _] _].
    destruct (clear_usable mg_created Hu) as (m' & E & Hu' & _). unfold mg_stepped_down, mg_next. rewrite E. exact Hu'. }
  destruct Hu as (held & Hf & Hok). destruct Hs as (s & Es & _). split; [exact Hc|].
  apply (startClone_stale_aborts held mg_leaving (Ret (OK ())) mg_stepped_down s Hok Hf Hc Es).
  assert (Ha : active_md (dn_manager mg_stepped_down) = None) by (vm_compute; reflexivity). rewrite Ha. discriminate.
Defined.
